(** * Layout resolution and playback orchestration of the multi-layout HLS player

    A shallow embedding of the control logic of the player (the iterations of
    [src/App.js]): the manifest parser, the layout/program switch state
    machine, the stall watchdog and the region hit mapper.

    Conventions of the embedding.
    - A JavaScript string is a [string]: a sequence of code units, here
      restricted to the code units below 256 (one [ascii] each).
    - Integral JavaScript numbers are [Z]; a double represents every integer
      of magnitude at most 2^53 exactly, and the places where that bound
      matters say so.  Media times and pixel coordinates are rationals [Q].
    - React state and refs are the fields of a record; every handler,
      effect body, timer callback and promise continuation is a function on
      that record, run to completion (one callback at a time).
    - Calls to [addLog] are recorded as structured messages, calls to the
      playback engine and to [fetch] as events. *)

From Stdlib Require Import String Ascii List ZArith QArith Bool Arith Lia.
From Stdlib Require Import Permutation Sorted OrdersEx RelationClasses.
Import ListNotations.

Local Close Scope Q_scope.
Local Open Scope string_scope.
Local Open Scope list_scope.

(** ** JavaScript string primitives *)

Module Js.

Definition LF : ascii := "010"%char.
Definition quote : ascii := "034"%char.
Definition slash : ascii := "/"%char.

Definition isEmpty (s : string) : bool :=
  match s with EmptyString => true | String _ _ => false end.

(** WhiteSpace and LineTerminator code units below 256, as
    [String.prototype.trim] strips them: TAB, LF, VT, FF, CR, SP, NBSP. *)
Definition isWhiteSpace (c : ascii) : bool :=
  let n := nat_of_ascii c in
  (n =? 9)%nat || (n =? 10)%nat || (n =? 11)%nat || (n =? 12)%nat ||
  (n =? 13)%nat || (n =? 32)%nat || (n =? 160)%nat.

(** The class [\d]. *)
Definition isDigit (c : ascii) : bool :=
  let n := nat_of_ascii c in (48 <=? n)%nat && (n <=? 57)%nat.

Fixpoint trimStart (s : string) : string :=
  match s with
  | EmptyString => EmptyString
  | String c r => if isWhiteSpace c then trimStart r else s
  end.

Fixpoint trimEnd (s : string) : string :=
  match s with
  | EmptyString => EmptyString
  | String c r =>
      let r' := trimEnd r in
      if isWhiteSpace c && isEmpty r' then EmptyString else String c r'
  end.

Definition trim (s : string) : string := trimEnd (trimStart s).

(** [s.split(sep)] for a one-character separator: never an empty array. *)
Fixpoint split (sep : ascii) (s : string) : list string :=
  match s with
  | EmptyString => [EmptyString]
  | String c r =>
      if Ascii.eqb c sep then EmptyString :: split sep r
      else match split sep r with
           | l :: ls => String c l :: ls
           | [] => [String c EmptyString]
           end
  end.

Fixpoint lastIndexOfFrom (c : ascii) (s : string) (i acc : Z) : Z :=
  match s with
  | EmptyString => acc
  | String d r => lastIndexOfFrom c r (i + 1) (if Ascii.eqb d c then i else acc)
  end.

(** [s.lastIndexOf(c)]: -1 when [c] does not occur. *)
Definition lastIndexOf (c : ascii) (s : string) : Z := lastIndexOfFrom c s 0 (-1).

(** [s.substring(0, e)]. *)
Definition substring0 (e : Z) (s : string) : string :=
  String.substring 0 (Z.to_nat e) s.

Fixpoint contains (c : ascii) (s : string) : bool :=
  match s with
  | EmptyString => false
  | String d r => Ascii.eqb d c || contains c r
  end.

(** [ls.join(sep)]. *)
Definition join (sep : ascii) (ls : list string) : string :=
  String.concat (String sep EmptyString) ls.

(** Code units below 256 that [toLowerCase] changes: A-Z and the Latin-1
    capitals (0xC0-0xDE but the multiplication sign 0xD7). *)
Definition lowerChar (c : ascii) : ascii :=
  let n := nat_of_ascii c in
  if ((65 <=? n) && (n <=? 90))%nat
     || ((192 <=? n) && (n <=? 222) && negb (n =? 215))%nat
  then ascii_of_nat (n + 32) else c.

Fixpoint toLowerCase (s : string) : string :=
  match s with
  | EmptyString => EmptyString
  | String c r => String (lowerChar c) (toLowerCase r)
  end.

(** The value of a run of decimal digits ([parseInt] on a [\d+] capture);
    the double the host returns is this integer up to 2^53. *)
Fixpoint parseDigits (s : string) (acc : Z) : Z :=
  match s with
  | EmptyString => acc
  | String c r =>
      if isDigit c then parseDigits r (10 * acc + Z.of_nat (nat_of_ascii c - 48))
      else acc
  end.

Definition parseInt (s : string) : Z := parseDigits s 0.

(** *** The regular expressions of the parser

    A pattern without anchor is tried at every start position from the left;
    [search] returns the first success.  The quantified classes of the
    patterns below are each followed by a character outside the class (or by
    nothing), so the greedy run is the only candidate at a position. *)

Fixpoint search {A : Type} (m : string -> option A) (s : string) : option A :=
  match m s with
  | Some r => Some r
  | None =>
      match s with
      | EmptyString => None
      | String _ r => search m r
      end
  end.

Fixpoint stripPrefix (p s : string) : option string :=
  match p, s with
  | EmptyString, _ => Some s
  | String a p', String b s' => if Ascii.eqb a b then stripPrefix p' s' else None
  | String _ _, EmptyString => None
  end.

Definition startsWith (p s : string) : bool :=
  match stripPrefix p s with Some _ => true | None => false end.

(** The longest prefix of [s] in the class [f], and the rest. *)
Fixpoint span (f : ascii -> bool) (s : string) : string * string :=
  match s with
  | EmptyString => (EmptyString, EmptyString)
  | String c r =>
      if f c then let (a, b) := span f r in (String c a, b)
      else (EmptyString, s)
  end.

(** [lit(\d+)] at the start of [s]: the capture. *)
Definition digitsAfter (lit : string) (s : string) : option string :=
  match stripPrefix lit s with
  | Some r => let (d, _) := span isDigit r in
              if isEmpty d then None else Some d
  | None => None
  end.

(** [/BANDWIDTH=(\d+)/]: capture 1. *)
Definition matchBandwidth (line : string) : option string :=
  search (digitsAfter "BANDWIDTH=") line.

(** [/RESOLUTION=(\d+x\d+)/]: capture 1. *)
Definition matchResolution (line : string) : option string :=
  search (fun s =>
    match stripPrefix "RESOLUTION=" s with
    | Some r =>
        let (w, r1) := span isDigit r in
        if isEmpty w then None else
        match r1 with
        | String "x"%char r2 =>
            let (h, _) := span isDigit r2 in
            if isEmpty h then None else Some (w ++ "x" ++ h)%string
        | _ => None
        end
    | None => None
    end) line.

(** The pattern ATTR=, a double quote, one or more characters other than a
    double quote (capture 1), a double quote; [attr] is the literal ATTR=. *)
Definition matchQuoted (attr : string) (line : string) : option string :=
  search (fun s =>
    match stripPrefix attr s with
    | Some (String q r) =>
        if Ascii.eqb q quote then
          let (v, r1) := span (fun c => negb (Ascii.eqb c quote)) r in
          if isEmpty v then None else
          match r1 with
          | String _ _ => Some v
          | EmptyString => None
          end
        else None
    | _ => None
    end) line.

(** [/^([^\/]+)\//]: capture 1. *)
Definition matchFirstSegment (url : string) : option string :=
  let (seg, r) := span (fun c => negb (Ascii.eqb c slash)) url in
  if isEmpty seg then None else
  match r with
  | String _ _ => Some seg
  | EmptyString => None
  end.

(** [/Layout\d+/]: the whole match. *)
Definition matchLayoutToken (url : string) : option string :=
  option_map (fun d => ("Layout" ++ d)%string) (search (digitsAfter "Layout") url).

(** *** The loop over the lines of a playlist

    [for (let i = 0; i < lines.length; i++)] with [line = lines[i].trim()]
    and [nextLine = lines[i + 1]?.trim()]: [lines] is the array from index
    [i] on, [body] the loop body as a function of the two and of the state it
    updates. *)

Definition nextOf (rest : list string) : option string :=
  option_map trim (hd_error rest).

Fixpoint forLines {M : Type} (body : string -> option string -> M -> M)
  (lines : list string) (m : M) : M :=
  match lines with
  | [] => m
  | l :: rest => forLines body rest (body (trim l) (nextOf rest) m)
  end.

(** The values that [select] yields along the same loop, in order. *)
Fixpoint selectLines {E : Type} (select : string -> option string -> option E)
  (lines : list string) : list E :=
  match lines with
  | [] => []
  | l :: rest =>
      match select (trim l) (nextOf rest) with
      | Some e => e :: selectLines select rest
      | None => selectLines select rest
      end
  end.

End Js.

(** ** A [Map] with string keys

    The entries in insertion order; [keyOf] reads the key under which an
    entry was set (the parsers store it in the entry's [name]). *)

Module JsMap.
Section Ops.
Context {V : Type} (keyOf : V -> string).

(** [m.has(key)]. *)
Fixpoint has (key : string) (m : list V) : bool :=
  match m with
  | [] => false
  | d :: r => String.eqb (keyOf d) key || has key r
  end.

(** Mutation by [f] of the object that [m.get(key)] returns. *)
Fixpoint update (key : string) (f : V -> V) (m : list V) : list V :=
  match m with
  | [] => []
  | d :: r => if String.eqb (keyOf d) key then f d :: r else d :: update key f r
  end.

(** [if (!m.has(key)) m.set(key, fresh)], then the mutation of [m.get(key)]. *)
Definition upsert (key : string) (fresh : V) (f : V -> V) (m : list V) : list V :=
  update key f (if has key m then m else m ++ [fresh]).

End Ops.
End JsMap.

(** ** Events and log messages shared by the iterations *)

(** What a rejected promise or a [throw] carries. *)
Inductive jsError : Type :=
| ErrorMessage (message : string)
| HttpStatusError (status : Z).   (* new Error(`HTTP error! status: ${status}`) *)

Inductive completion (A : Type) : Type :=
| Throw (e : jsError)
| Return (value : A).
Arguments Throw {A} e.
Arguments Return {A} value.

(** The outcome of [fetch(url)] followed by [response.text()]: [fetch]
    rejects only when the transport fails; an HTTP error status still resolves
    to a response, whose [ok] is false. *)
Inductive fetchOutcome : Type :=
| FetchRejected (e : jsError)
| Response (ok : bool) (status : Z) (text : completion string).

(** The arguments of the parser's [addLog] calls. *)
Inductive parserLog : Type :=
| LogFetching
| LogFetched
| LogLayoutUrl (layoutName url : string)
| LogVariantCount (n : nat)
| LogStream (resolution : string) (bandwidth : Z)
| LogParsed (n : nat) (names : list string)
| LogParseError (e : jsError).

Inductive parserEvent : Type :=
| Fetch (url : string)
| Log (m : parserLog).

(** [Array.prototype.sort(cmp)]: the stable sort; for a comparator that is
    consistent (a total preorder) every stable sorting algorithm returns this
    list. *)
Section Sort.
Context {A : Type} (cmp : A -> A -> Z).

Fixpoint insertSorted (x : A) (l : list A) : list A :=
  match l with
  | [] => [x]
  | y :: r => if (cmp x y <? 0)%Z then x :: l else y :: insertSorted x r
  end.

Definition sortBy (l : list A) : list A :=
  fold_left (fun acc x => insertSorted x acc) l [].

End Sort.

(** *** Two collations

    [codeUnitCompare] orders strings by their code units (byte order).
    [letterCollation] is the order that a host whose [localeCompare] follows
    the Unicode root collation (every browser and Node build with ICU) gives
    to strings of ASCII letters: alphabetical whatever the case, and on a tie
    the lowercase letter first.  Outside the ASCII letters it is only some
    total preorder. *)

Definition signOf (c : comparison) : Z :=
  match c with Lt => (-1)%Z | Eq => 0%Z | Gt => 1%Z end.

Definition codeUnitCompare (a b : string) : Z := signOf (String.compare a b).

Definition swapCaseChar (c : ascii) : ascii :=
  let n := nat_of_ascii c in
  if ((65 <=? n) && (n <=? 90))%nat then ascii_of_nat (n + 32)
  else if ((97 <=? n) && (n <=? 122))%nat then ascii_of_nat (n - 32)
  else c.

Fixpoint swapCase (s : string) : string :=
  match s with
  | EmptyString => EmptyString
  | String c r => String (swapCaseChar c) (swapCase r)
  end.

(** Comparing by a key and then, on equal keys, by a second key. *)
Definition twoKeyCompare (k1 k2 : string -> string) (a b : string) : Z :=
  match String.compare (k1 a) (k1 b) with
  | Eq => signOf (String.compare (k2 a) (k2 b))
  | c => signOf c
  end.

Definition letterCollation : string -> string -> Z :=
  twoKeyCompare Js.toLowerCase swapCase.

(** ** The manifest parser of [src/App.js] *)

Module Manifest.
Import Js.

Record streamDescriptor : Type := {
  bandwidth : Z;
  resolution : string;
  streamInfoLine : string;
  streamUrlLine : string
}.

(** A value of [layoutMap]. *)
Record layoutData : Type := {
  ld_name : string;
  ld_streams : list streamDescriptor;
  ld_bestQuality : Z * string
}.

(** An element of the returned array. *)
Record layout : Type := {
  name : string;
  displayName : string;
  masterUrl : string;
  streams : list streamDescriptor;
  bestBandwidth : Z;
  bestResolution : string
}.

Definition orElse {A : Type} (a b : option A) : option A :=
  match a with Some _ => a | None => b end.

(** Lines 141-153: NAME, else VIDEO, else the first path segment of the URI
    line, else a Layout<N> token of the URI line. *)
Definition layoutNameOf (line nextLine : string) : option string :=
  orElse (orElse (orElse (matchQuoted "NAME=" line) (matchQuoted "VIDEO=" line))
                 (matchFirstSegment nextLine))
         (matchLayoutToken nextLine).

Definition isStreamInf (line : string) : bool :=
  startsWith "#EXT-X-STREAM-INF:" line.

(** Line 132: [!nextLine || nextLine.startsWith('#')] skips the entry;
    [next] is [lines[i + 1]?.trim()]. *)
Definition uriLine (next : option string) : option string :=
  match next with
  | Some nl => if isEmpty nl || startsWith "#" nl then None else Some nl
  | None => None
  end.

(** The entry that the loop body records for [line = lines[i].trim()]. *)
Definition entryAt (line : string) (next : option string)
  : option (string * streamDescriptor) :=
  if isStreamInf line then
    match uriLine next with
    | None => None
    | Some nextLine =>
        match layoutNameOf line nextLine, matchBandwidth line, matchResolution line with
        | Some layoutName, Some b, Some r =>
            Some (layoutName,
                  {| bandwidth := parseInt b; resolution := r;
                     streamInfoLine := line; streamUrlLine := nextLine |})
        | _, _, _ => None
        end
    end
  else None.

(** [layoutMap]: a [Map], kept in insertion order. *)
Definition layoutMap : Type := list layoutData.

Definition newLayoutData (key : string) : layoutData :=
  {| ld_name := key; ld_streams := []; ld_bestQuality := (0%Z, EmptyString) |}.

Definition pushStream (st : streamDescriptor) (d : layoutData) : layoutData :=
  {| ld_name := ld_name d;
     ld_streams := ld_streams d ++ [st];
     ld_bestQuality :=
       if (bandwidth st >? fst (ld_bestQuality d))%Z
       then (bandwidth st, resolution st) else ld_bestQuality d |}.

(** Lines 159-178. *)
Definition recordStream (key : string) (st : streamDescriptor) (m : layoutMap)
  : layoutMap :=
  JsMap.upsert ld_name key (newLayoutData key) (pushStream st) m.

(** The for loop of lines 126-181. *)
Definition scanLines (lines : list string) (m : layoutMap) : layoutMap :=
  forLines (fun line next m =>
              match entryAt line next with
              | Some (key, st) => recordStream key st m
              | None => m
              end) lines m.

Definition baseUrlOf (manifestUrl : string) : string :=
  substring0 (lastIndexOf slash manifestUrl + 1) manifestUrl.

Definition layoutMasterUrl (baseUrl layoutName : string) : string :=
  (baseUrl ++ layoutName ++ "/master.m3u8")%string.

Definition toLayout (baseUrl : string) (d : layoutData) : layout :=
  {| name := ld_name d;
     displayName := ld_name d;
     masterUrl := layoutMasterUrl baseUrl (ld_name d);
     streams := ld_streams d;
     bestBandwidth := fst (ld_bestQuality d);
     bestResolution := snd (ld_bestQuality d) |}.

Definition layoutLogs (baseUrl : string) (d : layoutData) : list parserLog :=
  LogLayoutUrl (ld_name d) (layoutMasterUrl baseUrl (ld_name d))
  :: LogVariantCount (length (ld_streams d))
  :: map (fun st => LogStream (resolution st) (bandwidth st)) (ld_streams d).

Section Parser.
(** [String.prototype.localeCompare] is the host's collation. *)
Variable localeCompare : string -> string -> Z.

Definition sortLayouts (l : list layout) : list layout :=
  sortBy (fun a b => localeCompare (name a) (name b)) l.

(** Lines 123-212: everything after the manifest text is there. *)
Definition parseLines (manifestUrl : string) (lines : list string)
  : list parserLog * list layout :=
  let layoutMap := scanLines lines [] in
  let baseUrl := baseUrlOf manifestUrl in
  let layoutsArray := sortLayouts (map (toLayout baseUrl) layoutMap) in
  (flat_map (layoutLogs baseUrl) layoutMap
     ++ [LogParsed (length layoutsArray) (map name layoutsArray)],
   layoutsArray).

Definition parseText (manifestUrl manifestText : string)
  : list parserLog * list layout :=
  parseLines manifestUrl (split LF manifestText).

(** [parseManifestForLayouts] (lines 114-218): no look at [response.ok]. *)
Definition parseManifestForLayouts (fetch : string -> fetchOutcome)
  (manifestUrl : string) : list parserEvent * completion (list layout) :=
  match fetch manifestUrl with
  | FetchRejected e =>
      ([Log LogFetching; Fetch manifestUrl; Log (LogParseError e)], Throw e)
  | Response _ _ (Throw e) =>
      ([Log LogFetching; Fetch manifestUrl; Log (LogParseError e)], Throw e)
  | Response _ _ (Return manifestText) =>
      let (logs, layoutsArray) := parseText manifestUrl manifestText in
      ([Log LogFetching; Fetch manifestUrl; Log LogFetched] ++ map Log logs,
       Return layoutsArray)
  end.

End Parser.

(** The well-formed pairs of a manifest, with their layout keys. *)
Definition entries (lines : list string) : list (string * streamDescriptor) :=
  selectLines entryAt lines.

Definition layoutKeys (manifestText : string) : list string :=
  nodup string_dec (map fst (entries (split LF manifestText))).

(** The map after recording a list of entries in order. *)
Definition recordAll (es : list (string * streamDescriptor)) (m : layoutMap)
  : layoutMap :=
  fold_left (fun m e => recordStream (fst e) (snd e) m) es m.

(** Example manifests. *)
Definition dq : string := String quote EmptyString.
Definition nl : string := String LF EmptyString.

Definition streamInf (bw res layoutName : string) : string :=
  ("#EXT-X-STREAM-INF:BANDWIDTH=" ++ bw ++ ",RESOLUTION=" ++ res
     ++ ",NAME=" ++ dq ++ layoutName ++ dq)%string.

(** Two entries of one layout (the studio example). *)
Definition studioManifest : string :=
  ("#EXTM3U" ++ nl
   ++ streamInf "800000" "640x360" "studio" ++ nl ++ "studio/low.m3u8" ++ nl
   ++ streamInf "2000000" "1920x1080" "studio" ++ nl ++ "studio/high.m3u8" ++ nl)%string.

(** Two layouts whose names differ in case. *)
Definition mixedCaseManifest : string :=
  ("#EXTM3U" ++ nl
   ++ streamInf "800000" "640x360" "B" ++ nl ++ "B/index.m3u8" ++ nl
   ++ streamInf "800000" "640x360" "a" ++ nl ++ "a/index.m3u8" ++ nl)%string.

Definition exampleUrl : string := "https://edge.example/hls/ev/master.m3u8".

Definition serve (ok : bool) (status : Z) (body : string) : string -> fetchOutcome :=
  fun _ => Response ok status (Return body).

(** The layout that the parser returns for the studio example. *)
Definition studioLayout : layout :=
  Eval vm_compute in
    hd (toLayout EmptyString (newLayoutData EmptyString))
       (snd (parseText letterCollation exampleUrl studioManifest)).

End Manifest.

(** ** The iteration with region clicks and a checked fetch
    ([src/unnamed/part_002]) *)

Module RegionsApp.
Import Js.

(** *** [parseManifestForLayouts] (lines 35-93) *)

Record streamDescriptor : Type := { bandwidth : Z; resolution : string }.

Record layoutData : Type := { ld_name : string; ld_streams : list streamDescriptor }.

Record layout : Type := { name : string; displayName : string; masterUrl : string }.

(** Lines 59-65: NAME, else VIDEO, else the last but one segment of the URI
    line; an empty segment is falsy at line 67. *)
Definition layoutNameOf (line nextLine : string) : option string :=
  match Manifest.orElse (matchQuoted "NAME=" line) (matchQuoted "VIDEO=" line) with
  | Some n => Some n
  | None =>
      let pathParts := split slash nextLine in
      if (1 <? length pathParts)%nat then
        let n := nth (length pathParts - 2) pathParts EmptyString in
        if isEmpty n then None else Some n
      else None
  end.

Definition entryAt (line : string) (next : option string)
  : option (string * streamDescriptor) :=
  if Manifest.isStreamInf line then
    match Manifest.uriLine next with
    | None => None
    | Some nextLine =>
        match layoutNameOf line nextLine, matchBandwidth line, matchResolution line with
        | Some layoutName, Some b, Some r =>
            Some (layoutName, {| bandwidth := parseInt b; resolution := r |})
        | _, _, _ => None
        end
    end
  else None.

Definition layoutMap : Type := list layoutData.

(** Lines 68-74. *)
Definition recordStream (key : string) (st : streamDescriptor) (m : layoutMap)
  : layoutMap :=
  JsMap.upsert ld_name key {| ld_name := key; ld_streams := [] |}
    (fun d => {| ld_name := ld_name d; ld_streams := ld_streams d ++ [st] |}) m.

(** The for loop of lines 48-77. *)
Definition scanLines (lines : list string) (m : layoutMap) : layoutMap :=
  forLines (fun line next m =>
              match entryAt line next with
              | Some (key, st) => recordStream key st m
              | None => m
              end) lines m.

(** The well-formed pairs of a manifest, with their layout keys. *)
Definition entries (lines : list string) : list (string * streamDescriptor) :=
  selectLines entryAt lines.

Definition layoutKeys (manifestText : string) : list string :=
  nodup string_dec (map fst (entries (split LF manifestText))).

Definition toLayout (baseUrl : string) (d : layoutData) : layout :=
  {| name := ld_name d;
     displayName := ld_name d;
     masterUrl := Manifest.layoutMasterUrl baseUrl (ld_name d) |}.

Section Parser.
Variable localeCompare : string -> string -> Z.

Definition parseText (manifestUrl manifestText : string) : list layout :=
  sortBy (fun a b => localeCompare (name a) (name b))
    (map (toLayout (Manifest.baseUrlOf manifestUrl))
         (scanLines (split LF manifestText) [])).

Definition failed (manifestUrl : string) (e : jsError)
  : list parserEvent * completion (list layout) :=
  ([Log LogFetching; Fetch manifestUrl; Log (LogParseError e)], Throw e).

(** Lines 36-45 and 89-92: a response that is not [ok] throws before the
    body is read. *)
Definition parseManifestForLayouts (fetch : string -> fetchOutcome)
  (manifestUrl : string) : list parserEvent * completion (list layout) :=
  match fetch manifestUrl with
  | FetchRejected e => failed manifestUrl e
  | Response ok status text =>
      if negb ok then failed manifestUrl (HttpStatusError status)
      else
        match text with
        | Throw e => failed manifestUrl e
        | Return manifestText =>
            let layoutsArray := parseText manifestUrl manifestText in
            ([Log LogFetching; Fetch manifestUrl; Log LogFetched;
              Log (LogParsed (length layoutsArray) (map name layoutsArray))],
             Return layoutsArray)
        end
  end.

End Parser.

(** *** The component state *)

Record region : Type := {
  x : Q; y : Q; width : Q; height : Q;
  source_type : string;
  source_idx : Z;
  parent_layout_name : option string
}.

Record layoutRegionSet : Type := {
  layout_name : string;
  canvas_width : Q;
  canvas_height : Q;
  lr_regions : list region
}.

Record dimensions : Type := { dim_width : Q; dim_height : Q }.

(** [getBoundingClientRect()] of the container. *)
Record domRect : Type := { rect_left : Q; rect_top : Q; rect_width : Q; rect_height : Q }.

Record videoElement : Type := { videoWidth : Q; videoHeight : Q; currentTime : Q }.

Record mouseEvent : Type := { clientX : Q; clientY : Q }.

Inductive appLog : Type :=
| LogClickedRegion (sourceType : string) (sourceIdx : Z)
| LogSwitchingTo (layoutName : string)
| LogRegionLayoutNotFound (parentName : string)
| LogOther (message : string).

(** The [useState] variables and the refs of [App]. *)
Record session : Type := {
  hlsUrl : string;
  manifestUrlToLoad : string;
  layouts : list layout;
  selectedLayout : string;
  isLoading : bool;
  isSwitching : bool;
  error : option string;
  isPlayerReady : bool;
  playerLogs : list appLog;
  abrEnabled : bool;
  regions : list region;
  allLayoutRegions : list layoutRegionSet;
  canvasDimensions : dimensions;
  token : option string;
  manualToken : string;
  showManualTokenInput : bool;
  isTokenLoading : bool;
  videoRef : option videoElement;
  videoContainerRef : option domRect;
  currentLayoutRef : option string
}.

Definition withSelectedLayout (v : string) (s : session) : session :=
  {| hlsUrl := hlsUrl s; manifestUrlToLoad := manifestUrlToLoad s;
     layouts := layouts s; selectedLayout := v;
     isLoading := isLoading s; isSwitching := isSwitching s; error := error s;
     isPlayerReady := isPlayerReady s; playerLogs := playerLogs s;
     abrEnabled := abrEnabled s; regions := regions s;
     allLayoutRegions := allLayoutRegions s; canvasDimensions := canvasDimensions s;
     token := token s; manualToken := manualToken s;
     showManualTokenInput := showManualTokenInput s;
     isTokenLoading := isTokenLoading s; videoRef := videoRef s;
     videoContainerRef := videoContainerRef s; currentLayoutRef := currentLayoutRef s |}.

(** [addLog] (lines 125-128): newest first, at most 100 kept. *)
Definition addLog (m : appLog) (s : session) : session :=
  {| hlsUrl := hlsUrl s; manifestUrlToLoad := manifestUrlToLoad s;
     layouts := layouts s; selectedLayout := selectedLayout s;
     isLoading := isLoading s; isSwitching := isSwitching s; error := error s;
     isPlayerReady := isPlayerReady s; playerLogs := m :: firstn 99 (playerLogs s);
     abrEnabled := abrEnabled s; regions := regions s;
     allLayoutRegions := allLayoutRegions s; canvasDimensions := canvasDimensions s;
     token := token s; manualToken := manualToken s;
     showManualTokenInput := showManualTokenInput s;
     isTokenLoading := isTokenLoading s; videoRef := videoRef s;
     videoContainerRef := videoContainerRef s; currentLayoutRef := currentLayoutRef s |}.

(** *** [handleVideoClick] (lines 305-363)

    Numbers are exact rationals where the doubles of the host are finite,
    and agree with them up to rounding.  Where the host divides by zero it
    gets an infinity or NaN; no region has such a bound, so the comparisons
    of the hit test (lines 345-348) never hold together for a coordinate that
    is one, and a click that has such a coordinate hits no region. *)

Definition isZero (q : Q) : bool := Qeq_bool q 0.
Definition Qlt_bool (a b : Q) : bool := negb (Qle_bool b a).

(** Lines 312-332: the click in canvas coordinates, [None] when one of them
    is an infinity or NaN.  That is the case exactly when a size of the video
    or of the displayed picture is zero (with a video size of zero the aspect
    ratio is itself zero, an infinity or NaN, and so is a displayed size or
    an offset).  For a container of height zero [containerAspectRatio] is
    Infinity when the width is positive, and the comparison of line 317
    holds; it is NaN or -Infinity otherwise, and the comparison fails. *)
Definition canvasClick (containerRect : domRect) (video : videoElement)
  (canvas : dimensions) (e : mouseEvent) : option (Q * Q) :=
  if isZero (videoWidth video) || isZero (videoHeight video) then None else
  let videoAspectRatio := (videoWidth video / videoHeight video)%Q in
  let containerIsWider :=
    if isZero (rect_height containerRect)
    then Qlt_bool 0 (rect_width containerRect)
    else Qlt_bool videoAspectRatio
                  (rect_width containerRect / rect_height containerRect)%Q in
  let '(videoDisplayWidth, videoDisplayHeight, offsetX, offsetY) :=
    if containerIsWider then
      let h := rect_height containerRect in
      let w := (h * videoAspectRatio)%Q in
      (w, h, ((rect_width containerRect - w) / 2)%Q, 0%Q)
    else
      let w := rect_width containerRect in
      let h := (w / videoAspectRatio)%Q in
      (w, h, 0%Q, ((rect_height containerRect - h) / 2)%Q) in
  if isZero videoDisplayWidth || isZero videoDisplayHeight then None else
  let clickX := (clientX e - rect_left containerRect)%Q in
  let clickY := (clientY e - rect_top containerRect)%Q in
  Some (((clickX - offsetX) / videoDisplayWidth * dim_width canvas)%Q,
        ((clickY - offsetY) / videoDisplayHeight * dim_height canvas)%Q).

Definition area (r : region) : Q := (width r * height r)%Q.

(** Lines 336-341: the [reduce] from [null]; a region is identified by its
    index in [regions] (the array holds distinct objects). *)
Fixpoint largestFrom (rs : list region) (i : nat) (largest : option (nat * region))
  : option (nat * region) :=
  match rs with
  | [] => largest
  | current :: rest =>
      largestFrom rest (S i)
        match largest with
        | None => Some (i, current)
        | Some (_, l) => if Qlt_bool (area l) (area current) then Some (i, current)
                         else largest
        end
  end.

Definition largestRegion (rs : list region) : option nat :=
  option_map fst (largestFrom rs 0 None).

Fixpoint indexed {A : Type} (i : nat) (l : list A) : list (nat * A) :=
  match l with
  | [] => []
  | a :: r => (i, a) :: indexed (S i) r
  end.

(** Line 343. *)
Definition clickableRegions (rs : list region) : list region :=
  map snd
    (filter (fun ir => match largestRegion rs with
                       | Some j => negb (fst ir =? j)%nat
                       | None => true
                       end)
            (indexed 0 rs)).

(** Lines 345-348. *)
Definition contains (cx cy : Q) (r : region) : bool :=
  Qle_bool (x r) cx && Qle_bool cx (x r + width r) &&
  Qle_bool (y r) cy && Qle_bool cy (y r + height r).

Definition hitRegionAt (cx cy : Q) (rs : list region) : option region :=
  find (contains cx cy) (clickableRegions rs).

(** Line 354. *)
Definition findLayout (parentName : string) (ls : list layout) : option layout :=
  find (fun l => String.eqb (toLowerCase (name l)) (toLowerCase parentName)) ls.

Definition typeErrorToLowerCase : jsError :=
  ErrorMessage "TypeError: Cannot read properties of undefined (reading 'toLowerCase')".

(** The handler returns the state it leaves and how it completes. *)
Definition handleVideoClick (e : mouseEvent) (s : session) : session * completion unit :=
  if (length (layouts s) <=? 1)%nat then (s, Return tt) else
  match videoRef s, videoContainerRef s with
  | Some video, Some containerRect =>
      if isZero (videoWidth video) || isZero (videoHeight video) then (s, Return tt)
      else
        let canvasPoint := canvasClick containerRect video (canvasDimensions s) e in
        match regions s with
        | [] => (s, Return tt)
        | _ :: _ =>
            match
              match canvasPoint with
              | Some (canvasClickX, canvasClickY) =>
                  hitRegionAt canvasClickX canvasClickY (regions s)
              | None => None
              end
            with
            | None => (s, Return tt)
            | Some hitRegion =>
                let s1 := addLog (LogClickedRegion (source_type hitRegion)
                                                    (source_idx hitRegion)) s in
                match parent_layout_name hitRegion with
                | None => (s1, Throw typeErrorToLowerCase)
                | Some nextLayoutNameFromApi =>
                    match findLayout nextLayoutNameFromApi (layouts s) with
                    | Some nextLayout =>
                        if String.eqb (name nextLayout) (selectedLayout s)
                        then (s1, Return tt)
                        else (withSelectedLayout (name nextLayout)
                                (addLog (LogSwitchingTo (name nextLayout)) s1),
                              Return tt)
                    | None =>
                        (addLog (LogRegionLayoutNotFound nextLayoutNameFromApi) s1,
                         Return tt)
                    end
                end
            end
        end
  | _, _ => (s, Return tt)
  end.

(** *** Example: a 1920x1080 canvas shown unscaled *)

Definition wideRegion : region :=
  {| x := 0; y := 0; width := 960; height := 1080;
     source_type := "camera"; source_idx := 1;
     parent_layout_name := Some "wide" |}.

Definition backgroundRegion : region :=
  {| x := 0; y := 0; width := 1920; height := 1080;
     source_type := "screen"; source_idx := 0;
     parent_layout_name := Some "main" |}.

Definition layoutNamed (n : string) : layout :=
  {| name := n; displayName := n;
     masterUrl := Manifest.layoutMasterUrl "https://edge.example/hls/ev/" n |}.

Definition exampleSession (ls : list layout) (rs : list region) : session :=
  {| hlsUrl := Manifest.exampleUrl; manifestUrlToLoad := Manifest.exampleUrl;
     layouts := ls; selectedLayout := "main";
     isLoading := false; isSwitching := false; error := None;
     isPlayerReady := true; playerLogs := []; abrEnabled := true;
     regions := rs; allLayoutRegions := [];
     canvasDimensions := {| dim_width := 1920; dim_height := 1080 |};
     token := Some "t"; manualToken := EmptyString;
     showManualTokenInput := false; isTokenLoading := false;
     videoRef := Some {| videoWidth := 1920; videoHeight := 1080; currentTime := 12 |};
     videoContainerRef :=
       Some {| rect_left := 0; rect_top := 0; rect_width := 1920; rect_height := 1080 |};
     currentLayoutRef := Some "main" |}.

Definition exampleClick : mouseEvent := {| clientX := 100; clientY := 100 |}.

End RegionsApp.

(** ** The first iteration with region clicks
    ([src/unnamed/part_000], second document) *)

Module RegionsDraft.
Import Js.

Record layout : Type := { name : string; displayName : string; masterUrl : string }.

Record region : Type := {
  x : Q; y : Q; width : Q; height : Q;
  source_type : string;
  source_idx : Z
}.

Record session : Type := {
  hlsUrl : string;
  manifestUrlToLoad : string;
  layouts : list layout;
  selectedLayout : string;
  isLoading : bool;
  isSwitching : bool;
  error : option string;
  isPlayerReady : bool;
  playerLogs : list string;
  abrEnabled : bool;
  regions : list region;
  clickedRegion : option region;
  allLayoutRegions : list (string * RegionsApp.dimensions * list region);
  canvasDimensions : RegionsApp.dimensions;
  token : option string;
  videoRef : option RegionsApp.videoElement;
  videoContainerRef : option RegionsApp.domRect;
  currentLayoutRef : option string
}.

Definition withClick (hit : option region) (v : string) (s : session) : session :=
  {| hlsUrl := hlsUrl s; manifestUrlToLoad := manifestUrlToLoad s;
     layouts := layouts s; selectedLayout := v;
     isLoading := isLoading s; isSwitching := isSwitching s; error := error s;
     isPlayerReady := isPlayerReady s; playerLogs := playerLogs s;
     abrEnabled := abrEnabled s; regions := regions s;
     clickedRegion := match hit with Some r => Some r | None => clickedRegion s end;
     allLayoutRegions := allLayoutRegions s; canvasDimensions := canvasDimensions s;
     token := token s; videoRef := videoRef s;
     videoContainerRef := videoContainerRef s; currentLayoutRef := currentLayoutRef s |}.

(** What the handler writes with [console.log]. *)
Inductive consoleLine : Type :=
| ConsoleMarker
| ConsoleHitRegion (r : region) (targetName : string).

Definition typeErrorOf (what : string) : jsError :=
  ErrorMessage ("TypeError: Cannot read properties of undefined or null: " ++ what)%string.

(** Lines 513-533; a zero ratio (and the NaN of 0/0) falls back to 16/9. *)
Definition canvasClick (containerRect : RegionsApp.domRect)
  (video : RegionsApp.videoElement) (canvas : RegionsApp.dimensions)
  (e : RegionsApp.mouseEvent) : Q * Q :=
  let ratio := (RegionsApp.videoWidth video / RegionsApp.videoHeight video)%Q in
  let videoAspectRatio := if RegionsApp.isZero ratio then (16 # 9)%Q else ratio in
  let containerAspectRatio :=
    (RegionsApp.rect_width containerRect / RegionsApp.rect_height containerRect)%Q in
  let '(videoDisplayWidth, videoDisplayHeight, offsetX, offsetY) :=
    if RegionsApp.Qlt_bool videoAspectRatio containerAspectRatio then
      let h := RegionsApp.rect_height containerRect in
      let w := (h * videoAspectRatio)%Q in
      (w, h, ((RegionsApp.rect_width containerRect - w) / 2)%Q, 0%Q)
    else
      let w := RegionsApp.rect_width containerRect in
      let h := (w / videoAspectRatio)%Q in
      (w, h, 0%Q, ((RegionsApp.rect_height containerRect - h) / 2)%Q) in
  let clickX := (RegionsApp.clientX e - RegionsApp.rect_left containerRect)%Q in
  let clickY := (RegionsApp.clientY e - RegionsApp.rect_top containerRect)%Q in
  (((clickX - offsetX) / videoDisplayWidth * RegionsApp.dim_width canvas)%Q,
   ((clickY - offsetY) / videoDisplayHeight * RegionsApp.dim_height canvas)%Q).

Definition contains (cx cy : Q) (r : region) : bool :=
  Qle_bool (x r) cx && Qle_bool cx (x r + width r) &&
  Qle_bool (y r) cy && Qle_bool cy (y r + height r).

(** [layouts[i]] for a number [i]. *)
Definition layoutAt (i : Z) (ls : list layout) : option layout :=
  if (i <? 0)%Z then None else nth_error ls (Z.to_nat i).

Fixpoint findIndexFrom (v : string) (ls : list layout) (i : Z) : Z :=
  match ls with
  | [] => (-1)%Z
  | l :: r => if String.eqb (name l) v then i else findIndexFrom v r (i + 1)
  end.

(** Lines 553-558: the next layout in registry order. *)
Definition cycleNext (s : session) : option layout :=
  let currentIndex := findIndexFrom (selectedLayout s) (layouts s) 0 in
  let nextIndex := ((currentIndex + 1) mod Z.of_nat (length (layouts s)))%Z in
  layoutAt nextIndex (layouts s).

(** [handleVideoClick] (lines 503-559): the state it leaves, what it wrote
    to the console, and how it completes. *)
Definition handleVideoClick (e : RegionsApp.mouseEvent) (s : session)
  : session * list consoleLine * completion unit :=
  if (length (layouts s) <=? 1)%nat then (s, [ConsoleMarker], Return tt)
  else
    match videoContainerRef s, videoRef s with
    | None, _ => (s, [ConsoleMarker], Throw (typeErrorOf "getBoundingClientRect"))
    | Some _, None => (s, [ConsoleMarker], Throw (typeErrorOf "videoWidth"))
    | Some containerRect, Some video =>
        let (canvasClickX, canvasClickY) :=
          canvasClick containerRect video (canvasDimensions s) e in
        let cycle (hit : option region) (out : list consoleLine) :=
          match cycleNext s with
          | Some l => (withClick hit (name l) s, out, Return tt)
          | None => (withClick hit (selectedLayout s) s, out,
                     Throw (typeErrorOf "name"))
          end in
        match find (contains canvasClickX canvasClickY) (regions s) with
        | Some hitRegion =>
            match layoutAt (source_idx hitRegion) (layouts s) with
            | None =>
                (withClick (Some hitRegion) (selectedLayout s) s, [ConsoleMarker],
                 Throw (typeErrorOf "name"))
            | Some targetLayout =>
                let out := [ConsoleMarker; ConsoleHitRegion hitRegion (name targetLayout)] in
                if negb (String.eqb (name targetLayout) (selectedLayout s))
                   && negb (isEmpty (name targetLayout))
                then (withClick (Some hitRegion) (name targetLayout) s, out, Return tt)
                else cycle (Some hitRegion) out
            end
        | None => cycle None [ConsoleMarker]
        end
    end.

(** *** Example: a single layout *)

Definition singleLayoutSession : session :=
  {| hlsUrl := Manifest.exampleUrl; manifestUrlToLoad := Manifest.exampleUrl;
     layouts := [{| name := "main"; displayName := "main";
                    masterUrl := "https://edge.example/hls/ev/main/master.m3u8" |}];
     selectedLayout := "main";
     isLoading := false; isSwitching := false; error := None;
     isPlayerReady := true; playerLogs := []; abrEnabled := true;
     regions := [{| x := 0; y := 0; width := 1920; height := 1080;
                    source_type := "screen"; source_idx := 0 |}];
     clickedRegion := None; allLayoutRegions := [];
     canvasDimensions := {| RegionsApp.dim_width := 1920; RegionsApp.dim_height := 1080 |};
     token := Some "t";
     videoRef := Some {| RegionsApp.videoWidth := 1920; RegionsApp.videoHeight := 1080;
                         RegionsApp.currentTime := 12 |};
     videoContainerRef :=
       Some {| RegionsApp.rect_left := 0; RegionsApp.rect_top := 0;
               RegionsApp.rect_width := 1920; RegionsApp.rect_height := 1080 |};
     currentLayoutRef := Some "main" |}.

End RegionsDraft.

(** ** The program selector with a manifest version and a switch timeout
    ([src/unnamed/part_001]) *)

Module ProgramsApp.

(** A variant track as the player reports it.  The option fields are the
    operands of the [||] chain of lines 183-187, [None] when falsy:
    [variant.label], [variant.video.label], and the program names that
    [extractProgramNameFromOriginalId] reads off the two original ids; the
    two fallback names are the template strings of lines 187 and 211. *)
Record variantTrack : Type := {
  id : Z;
  active : bool;
  label : option string;
  videoLabel : option string;
  programOfVideoId : option string;
  programOfAudioId : option string;
  fallbackName : string;
  activeFallbackName : string;
  bandwidth : Z
}.

Definition programNameOf (v : variantTrack) : string :=
  match label v, videoLabel v, programOfVideoId v, programOfAudioId v with
  | Some n, _, _, _ => n
  | None, Some n, _, _ => n
  | None, None, Some n, _ => n
  | None, None, None, Some n => n
  | None, None, None, None => fallbackName v
  end.

(** Lines 208-211: the name of the active variant has no id-derived operand. *)
Definition activeProgramNameOf (v : variantTrack) : string :=
  match label v, videoLabel v with
  | Some n, _ => n
  | None, Some n => n
  | None, None => activeFallbackName v
  end.

(** An entry of [programs]. *)
Record program : Type := {
  p_label : string;
  variantId : Z;
  p_bandwidth : Z;
  manifestVersion : Z
}.

Inductive appLog : Type :=
| LogAttemptingLoad (url : string)
| LogLoadCancelled
| LogManifestLoaded
| LogFoundTracks (n : nat)
| LogProgramName (programName : string) (trackId : Z)
| LogPopulated (n : nat)
| LogInitialProgram (programLabel : string)
| LogNoPrograms
| LogLoadError (message : string)
| LogSwitchInProgress (programLabel : string)
| LogNoProgramData (programLabel : string)
| LogOutdatedProgram
| LogAlreadyActive (programLabel : string)
| LogVariantNotFound (variantId : Z)
| LogSwitching (programLabel : string) (variantId : Z)
| LogPlayerStateBeforeSwitch
| LogDisablingAbr
| LogSelectCalled (programLabel : string) (variantId : Z)
| LogSelectError (message : string)
| LogSwitchTimeout
| LogVariantChanged (variantId : Z)
| LogReenablingAbr
| LogPlayerError (code : Z) (message : string)
| LogOperationInProgress (value : string) (switching loading : bool)
| LogUserSelected (value : string)
| LogEmptyUrl.

(** The arguments of [setError]. *)
Inductive appError : Type :=
| ErrPlayer (code : Z) (message : string)
| ErrLoad (message : string)
| ErrNoPrograms
| ErrVariantNotFound
| ErrSwitch (message : string)
| ErrEmptyUrl.

(** Calls on the player. *)
Inductive engineCall : Type :=
| CallLoad (url : string)
| CallConfigureAbr (enabled : bool)
| CallSelectVariantTrack (variantId : Z) (clearBuffer : bool).

(** Callbacks handed to [setTimeout]. *)
Inductive timerCallback : Type :=
| SwitchTimeout                         (* lines 301-305 *)
| ResetDropdown (value : string).       (* lines 332-334: touches the DOM only *)

Record timer : Type := { timerId : nat; due : Z; callback : timerCallback }.

(** The [useState] variables, the refs, and behind [playerRef] and the
    host what the component observes of them: the tracks the player reports,
    whether [selectVariantTrack] throws, the calls made on the player, the
    pending timers and the clock (milliseconds). *)
Record session : Type := {
  hlsUrl : string;
  manifestUrlToLoad : string;
  programs : list program;
  selectedProgramLabel : string;
  isLoading : bool;
  isSwitching : bool;
  error : option appError;
  isPlayerReady : bool;
  playerLogs : list appLog;
  abrEnabled : bool;
  switchTimeoutRef : option nat;
  manifestVersionRef : Z;
  playerRef : bool;
  tracks : list variantTrack;
  selectVariantTrackThrows : option string;
  engineCalls : list engineCall;
  timers : list timer;
  nextTimerId : nat;
  now : Z
}.

Definition set_manifestUrlToLoad (v : string) (s : session) : session :=
  {| hlsUrl := hlsUrl s; manifestUrlToLoad := v; programs := programs s;
     selectedProgramLabel := selectedProgramLabel s; isLoading := isLoading s;
     isSwitching := isSwitching s; error := error s; isPlayerReady := isPlayerReady s;
     playerLogs := playerLogs s; abrEnabled := abrEnabled s;
     switchTimeoutRef := switchTimeoutRef s;
     manifestVersionRef := manifestVersionRef s; playerRef := playerRef s;
     tracks := tracks s; selectVariantTrackThrows := selectVariantTrackThrows s;
     engineCalls := engineCalls s; timers := timers s; nextTimerId := nextTimerId s;
     now := now s |}.

Definition set_programs (v : list program) (s : session) : session :=
  {| hlsUrl := hlsUrl s; manifestUrlToLoad := manifestUrlToLoad s; programs := v;
     selectedProgramLabel := selectedProgramLabel s; isLoading := isLoading s;
     isSwitching := isSwitching s; error := error s; isPlayerReady := isPlayerReady s;
     playerLogs := playerLogs s; abrEnabled := abrEnabled s;
     switchTimeoutRef := switchTimeoutRef s;
     manifestVersionRef := manifestVersionRef s; playerRef := playerRef s;
     tracks := tracks s; selectVariantTrackThrows := selectVariantTrackThrows s;
     engineCalls := engineCalls s; timers := timers s; nextTimerId := nextTimerId s;
     now := now s |}.

Definition set_selectedProgramLabel (v : string) (s : session) : session :=
  {| hlsUrl := hlsUrl s; manifestUrlToLoad := manifestUrlToLoad s;
     programs := programs s; selectedProgramLabel := v; isLoading := isLoading s;
     isSwitching := isSwitching s; error := error s; isPlayerReady := isPlayerReady s;
     playerLogs := playerLogs s; abrEnabled := abrEnabled s;
     switchTimeoutRef := switchTimeoutRef s;
     manifestVersionRef := manifestVersionRef s; playerRef := playerRef s;
     tracks := tracks s; selectVariantTrackThrows := selectVariantTrackThrows s;
     engineCalls := engineCalls s; timers := timers s; nextTimerId := nextTimerId s;
     now := now s |}.

Definition set_isLoading (v : bool) (s : session) : session :=
  {| hlsUrl := hlsUrl s; manifestUrlToLoad := manifestUrlToLoad s;
     programs := programs s; selectedProgramLabel := selectedProgramLabel s;
     isLoading := v; isSwitching := isSwitching s; error := error s;
     isPlayerReady := isPlayerReady s; playerLogs := playerLogs s;
     abrEnabled := abrEnabled s; switchTimeoutRef := switchTimeoutRef s;
     manifestVersionRef := manifestVersionRef s; playerRef := playerRef s;
     tracks := tracks s; selectVariantTrackThrows := selectVariantTrackThrows s;
     engineCalls := engineCalls s; timers := timers s; nextTimerId := nextTimerId s;
     now := now s |}.

Definition set_isSwitching (v : bool) (s : session) : session :=
  {| hlsUrl := hlsUrl s; manifestUrlToLoad := manifestUrlToLoad s;
     programs := programs s; selectedProgramLabel := selectedProgramLabel s;
     isLoading := isLoading s; isSwitching := v; error := error s;
     isPlayerReady := isPlayerReady s; playerLogs := playerLogs s;
     abrEnabled := abrEnabled s; switchTimeoutRef := switchTimeoutRef s;
     manifestVersionRef := manifestVersionRef s; playerRef := playerRef s;
     tracks := tracks s; selectVariantTrackThrows := selectVariantTrackThrows s;
     engineCalls := engineCalls s; timers := timers s; nextTimerId := nextTimerId s;
     now := now s |}.

Definition set_error (v : option appError) (s : session) : session :=
  {| hlsUrl := hlsUrl s; manifestUrlToLoad := manifestUrlToLoad s;
     programs := programs s; selectedProgramLabel := selectedProgramLabel s;
     isLoading := isLoading s; isSwitching := isSwitching s; error := v;
     isPlayerReady := isPlayerReady s; playerLogs := playerLogs s;
     abrEnabled := abrEnabled s; switchTimeoutRef := switchTimeoutRef s;
     manifestVersionRef := manifestVersionRef s; playerRef := playerRef s;
     tracks := tracks s; selectVariantTrackThrows := selectVariantTrackThrows s;
     engineCalls := engineCalls s; timers := timers s; nextTimerId := nextTimerId s;
     now := now s |}.

Definition set_playerLogs (v : list appLog) (s : session) : session :=
  {| hlsUrl := hlsUrl s; manifestUrlToLoad := manifestUrlToLoad s;
     programs := programs s; selectedProgramLabel := selectedProgramLabel s;
     isLoading := isLoading s; isSwitching := isSwitching s; error := error s;
     isPlayerReady := isPlayerReady s; playerLogs := v; abrEnabled := abrEnabled s;
     switchTimeoutRef := switchTimeoutRef s;
     manifestVersionRef := manifestVersionRef s; playerRef := playerRef s;
     tracks := tracks s; selectVariantTrackThrows := selectVariantTrackThrows s;
     engineCalls := engineCalls s; timers := timers s; nextTimerId := nextTimerId s;
     now := now s |}.

Definition set_switchTimeoutRef (v : option nat) (s : session) : session :=
  {| hlsUrl := hlsUrl s; manifestUrlToLoad := manifestUrlToLoad s;
     programs := programs s; selectedProgramLabel := selectedProgramLabel s;
     isLoading := isLoading s; isSwitching := isSwitching s; error := error s;
     isPlayerReady := isPlayerReady s; playerLogs := playerLogs s;
     abrEnabled := abrEnabled s; switchTimeoutRef := v;
     manifestVersionRef := manifestVersionRef s; playerRef := playerRef s;
     tracks := tracks s; selectVariantTrackThrows := selectVariantTrackThrows s;
     engineCalls := engineCalls s; timers := timers s; nextTimerId := nextTimerId s;
     now := now s |}.

Definition set_manifestVersionRef (v : Z) (s : session) : session :=
  {| hlsUrl := hlsUrl s; manifestUrlToLoad := manifestUrlToLoad s;
     programs := programs s; selectedProgramLabel := selectedProgramLabel s;
     isLoading := isLoading s; isSwitching := isSwitching s; error := error s;
     isPlayerReady := isPlayerReady s; playerLogs := playerLogs s;
     abrEnabled := abrEnabled s; switchTimeoutRef := switchTimeoutRef s;
     manifestVersionRef := v; playerRef := playerRef s; tracks := tracks s;
     selectVariantTrackThrows := selectVariantTrackThrows s;
     engineCalls := engineCalls s; timers := timers s; nextTimerId := nextTimerId s;
     now := now s |}.

Definition set_engineCalls (v : list engineCall) (s : session) : session :=
  {| hlsUrl := hlsUrl s; manifestUrlToLoad := manifestUrlToLoad s;
     programs := programs s; selectedProgramLabel := selectedProgramLabel s;
     isLoading := isLoading s; isSwitching := isSwitching s; error := error s;
     isPlayerReady := isPlayerReady s; playerLogs := playerLogs s;
     abrEnabled := abrEnabled s; switchTimeoutRef := switchTimeoutRef s;
     manifestVersionRef := manifestVersionRef s; playerRef := playerRef s;
     tracks := tracks s; selectVariantTrackThrows := selectVariantTrackThrows s;
     engineCalls := v; timers := timers s; nextTimerId := nextTimerId s;
     now := now s |}.

Definition set_timers (v : list timer) (s : session) : session :=
  {| hlsUrl := hlsUrl s; manifestUrlToLoad := manifestUrlToLoad s;
     programs := programs s; selectedProgramLabel := selectedProgramLabel s;
     isLoading := isLoading s; isSwitching := isSwitching s; error := error s;
     isPlayerReady := isPlayerReady s; playerLogs := playerLogs s;
     abrEnabled := abrEnabled s; switchTimeoutRef := switchTimeoutRef s;
     manifestVersionRef := manifestVersionRef s; playerRef := playerRef s;
     tracks := tracks s; selectVariantTrackThrows := selectVariantTrackThrows s;
     engineCalls := engineCalls s; timers := v; nextTimerId := nextTimerId s;
     now := now s |}.

Definition set_nextTimerId (v : nat) (s : session) : session :=
  {| hlsUrl := hlsUrl s; manifestUrlToLoad := manifestUrlToLoad s;
     programs := programs s; selectedProgramLabel := selectedProgramLabel s;
     isLoading := isLoading s; isSwitching := isSwitching s; error := error s;
     isPlayerReady := isPlayerReady s; playerLogs := playerLogs s;
     abrEnabled := abrEnabled s; switchTimeoutRef := switchTimeoutRef s;
     manifestVersionRef := manifestVersionRef s; playerRef := playerRef s;
     tracks := tracks s; selectVariantTrackThrows := selectVariantTrackThrows s;
     engineCalls := engineCalls s; timers := timers s; nextTimerId := v;
     now := now s |}.

Definition set_now (v : Z) (s : session) : session :=
  {| hlsUrl := hlsUrl s; manifestUrlToLoad := manifestUrlToLoad s;
     programs := programs s; selectedProgramLabel := selectedProgramLabel s;
     isLoading := isLoading s; isSwitching := isSwitching s; error := error s;
     isPlayerReady := isPlayerReady s; playerLogs := playerLogs s;
     abrEnabled := abrEnabled s; switchTimeoutRef := switchTimeoutRef s;
     manifestVersionRef := manifestVersionRef s; playerRef := playerRef s;
     tracks := tracks s; selectVariantTrackThrows := selectVariantTrackThrows s;
     engineCalls := engineCalls s; timers := timers s; nextTimerId := nextTimerId s;
     now := v |}.

Definition SWITCH_TIMEOUT_MS : Z := 5000.

(** [addLog] (lines 27-33): newest first, at most 20 kept. *)
Definition addLog (m : appLog) (s : session) : session :=
  set_playerLogs (m :: firstn 19 (playerLogs s)) s.

Definition callEngine (c : engineCall) (s : session) : session :=
  set_engineCalls (engineCalls s ++ [c]) s.

Definition setTimeout (cb : timerCallback) (delay : Z) (s : session) : nat * session :=
  let i := nextTimerId s in
  (i, set_nextTimerId (S i)
        (set_timers (timers s ++ [{| timerId := i; due := (now s + delay)%Z;
                                     callback := cb |}]) s)).

Definition clearTimeout (i : nat) (s : session) : session :=
  set_timers (filter (fun t => negb (timerId t =? i)%nat) (timers s)) s.

(** Lines 36-41. *)
Definition clearSwitchTimeout (s : session) : session :=
  match switchTimeoutRef s with
  | Some i => set_switchTimeoutRef None (clearTimeout i s)
  | None => s
  end.

(** The [error] listener (lines 73-80). *)
Definition onPlayerError (code : Z) (message : string) (s : session) : session :=
  clearSwitchTimeout
    (set_isSwitching false
       (set_isLoading false
          (set_error (Some (ErrPlayer code message))
             (addLog (LogPlayerError code message) s)))).

(** The [variantchanged] listener (lines 82-99). *)
Definition onVariantChanged (s : session) : session :=
  let s1 := match find active (tracks s) with
            | Some newVariant => addLog (LogVariantChanged (id newVariant)) s
            | None => s
            end in
  let s2 := clearSwitchTimeout (set_isSwitching false s1) in
  if playerRef s2 && abrEnabled s2
  then callEngine (CallConfigureAbr true) (addLog LogReenablingAbr s2)
  else s2.

(** [loadManifest] up to its [await] (lines 155-168); the second component
    is [currentManifestVersion], which the continuation keeps. *)
Definition loadManifestStart (s : session) : session * Z :=
  let s1 := clearSwitchTimeout
              (set_isSwitching false
                 (set_selectedProgramLabel EmptyString
                    (set_programs []
                       (set_error None
                          (set_isLoading true
                             (addLog (LogAttemptingLoad (manifestUrlToLoad s)) s)))))) in
  let s2 := set_manifestVersionRef (manifestVersionRef s1 + 1)%Z s1 in
  (callEngine (CallLoad (manifestUrlToLoad s)) s2, manifestVersionRef s2).

(** [programMap] (lines 181-198): the first track of each program name. *)
Fixpoint collectPrograms (version : Z) (vs : list variantTrack) (acc : list program)
  : list program :=
  match vs with
  | [] => acc
  | v :: r =>
      collectPrograms version r
        (if existsb (fun p => String.eqb (p_label p) (programNameOf v)) acc then acc
         else acc ++ [{| p_label := programNameOf v; variantId := id v;
                         p_bandwidth := bandwidth v; manifestVersion := version |}])
  end.

(** The continuation of [loadManifest] after [player.load] resolved (lines
    170-221 and the [finally] of 228-232). *)
Definition loadManifestResolved (currentManifestVersion : Z) (s : session) : session :=
  if negb (currentManifestVersion =? manifestVersionRef s)%Z
  then addLog LogLoadCancelled s
  else
    let variantTracks := tracks s in
    let s1 := addLog (LogFoundTracks (length variantTracks)) (addLog LogManifestLoaded s) in
    let s2 := fold_left (fun acc v => addLog (LogProgramName (programNameOf v) (id v)) acc)
                        variantTracks s1 in
    let availablePrograms := collectPrograms currentManifestVersion variantTracks [] in
    let s3 := addLog (LogPopulated (length availablePrograms))
                     (set_programs availablePrograms s2) in
    let s4 :=
      match availablePrograms with
      | first :: _ =>
          let initialProgramLabel :=
            match find active variantTracks with
            | Some activeVariant =>
                match find (fun p => String.eqb (p_label p)
                                       (activeProgramNameOf activeVariant))
                           availablePrograms with
                | Some foundProgram => p_label foundProgram
                | None => p_label first
                end
            | None => p_label first
            end in
          addLog (LogInitialProgram initialProgramLabel)
                 (set_selectedProgramLabel initialProgramLabel s3)
      | [] => set_error (Some ErrNoPrograms) (addLog LogNoPrograms s3)
      end in
    set_isLoading false s4.

(** The continuation after [player.load] rejected (lines 223-232). *)
Definition loadManifestRejected (currentManifestVersion : Z) (message : string)
  (s : session) : session :=
  if (currentManifestVersion =? manifestVersionRef s)%Z
  then set_isLoading false
         (set_error (Some (ErrLoad message)) (addLog (LogLoadError message) s))
  else s.

(** The body of the switch effect (lines 239-313). *)
Definition switchEffect (s : session) : session :=
  if Js.isEmpty (selectedProgramLabel s) || negb (playerRef s)
     || (length (programs s) =? 0)%nat || negb (isPlayerReady s)
  then s
  else if isSwitching s
  then addLog (LogSwitchInProgress (selectedProgramLabel s)) s
  else
    match find (fun p => String.eqb (p_label p) (selectedProgramLabel s)) (programs s) with
    | None => addLog (LogNoProgramData (selectedProgramLabel s)) s
    | Some programData =>
        if (variantId programData =? 0)%Z
        then addLog (LogNoProgramData (selectedProgramLabel s)) s
        else if negb (manifestVersion programData =? manifestVersionRef s)%Z
        then addLog LogOutdatedProgram s
        else
          let targetVariantId := variantId programData in
          let allCurrentVariants := tracks s in
          let alreadyActive :=
            match find active allCurrentVariants with
            | Some activeVariant => (id activeVariant =? targetVariantId)%Z
            | None => false
            end in
          if alreadyActive then addLog (LogAlreadyActive (selectedProgramLabel s)) s
          else
            match find (fun v => (id v =? targetVariantId)%Z) allCurrentVariants with
            | None =>
                set_error (Some ErrVariantNotFound)
                          (addLog (LogVariantNotFound targetVariantId) s)
            | Some variantToSelect =>
                let s1 := set_error None
                            (set_isSwitching true
                               (addLog (LogSwitching (selectedProgramLabel s)
                                                     (id variantToSelect)) s)) in
                let s2 := callEngine (CallConfigureAbr false)
                            (addLog LogDisablingAbr
                               (addLog LogPlayerStateBeforeSwitch s1)) in
                match selectVariantTrackThrows s with
                | Some message =>
                    clearSwitchTimeout
                      (set_isSwitching false
                         (set_error (Some (ErrSwitch message))
                            (addLog (LogSelectError message) s2)))
                | None =>
                    let s3 := addLog (LogSelectCalled (selectedProgramLabel s)
                                                      (id variantToSelect))
                                (callEngine (CallSelectVariantTrack (id variantToSelect) true)
                                            s2) in
                    let (i, s4) := setTimeout SwitchTimeout SWITCH_TIMEOUT_MS s3 in
                    set_switchTimeoutRef (Some i) s4
                end
            end
    end.

(** What a timer does when it fires. *)
Definition runCallback (cb : timerCallback) (s : session) : session :=
  match cb with
  | SwitchTimeout =>
      set_switchTimeoutRef None (set_isSwitching false (addLog LogSwitchTimeout s))
  | ResetDropdown _ => s
  end.

(** The host fires the pending timer [i] at its due time. *)
Definition fireTimer (i : nat) (s : session) : session :=
  match find (fun t => (timerId t =? i)%nat) (timers s) with
  | Some t => runCallback (callback t)
                (clearTimeout i (set_now (Z.max (now s) (due t)) s))
  | None => s
  end.

(** [handleProgramChange] (lines 326-340). *)
Definition handleProgramChange (newValue : string) (s : session) : session :=
  if isSwitching s || isLoading s then
    snd (setTimeout (ResetDropdown (selectedProgramLabel s)) 0
           (addLog (LogOperationInProgress newValue (isSwitching s) (isLoading s)) s))
  else set_selectedProgramLabel newValue (addLog (LogUserSelected newValue) s).

(** [handleLoadClick] (lines 317-324). *)
Definition handleLoadClick (s : session) : session :=
  if Js.isEmpty (Js.trim (hlsUrl s))
  then addLog LogEmptyUrl (set_error (Some ErrEmptyUrl) s)
  else set_manifestUrlToLoad (Js.trim (hlsUrl s)) s.

(** *** One callback at a time

    After a callback React renders and runs the effects whose dependencies
    changed: the switch effect depends on [selectedProgramLabel], [programs]
    and [isPlayerReady], the load effect on [manifestUrlToLoad] and
    [isPlayerReady]. *)

Inductive event : Type :=
| UserSelects (value : string)          (* change event of the dropdown *)
| UserClicksLoad
| LoadResolves (capturedVersion : Z)    (* [player.load] of a load request resolves *)
| LoadRejects (capturedVersion : Z) (message : string)
| VariantChanged
| PlayerError (code : Z) (message : string)
| TimerFires (i : nat).

Definition afterSelectionChange (before after : session) : session :=
  if String.eqb (selectedProgramLabel before) (selectedProgramLabel after)
  then after else switchEffect after.

Definition loadEffect (s : session) : session :=
  if Js.isEmpty (manifestUrlToLoad s) || negb (playerRef s) || negb (isPlayerReady s)
  then s
  else switchEffect (fst (loadManifestStart s)).

Definition step (ev : event) (s : session) : session :=
  match ev with
  | UserSelects v => afterSelectionChange s (handleProgramChange v s)
  | UserClicksLoad =>
      let s1 := handleLoadClick s in
      if String.eqb (manifestUrlToLoad s) (manifestUrlToLoad s1) then s1
      else loadEffect s1
  | LoadResolves v =>
      if (v =? manifestVersionRef s)%Z then switchEffect (loadManifestResolved v s)
      else loadManifestResolved v s
  | LoadRejects v m => loadManifestRejected v m s
  | VariantChanged => onVariantChanged s
  | PlayerError c m => onPlayerError c m s
  | TimerFires i => fireTimer i s
  end.

Definition run (evs : list event) (s : session) : session :=
  fold_left (fun acc ev => step ev acc) evs s.

(** The number of switches dispatched to the player so far. *)
Definition dispatched (s : session) : nat :=
  length (filter (fun c => match c with CallSelectVariantTrack _ _ => true | _ => false end)
                 (engineCalls s)).

(** Whether a click on Load starts [loadManifest]: the trimmed URL is not
    empty and differs from [manifestUrlToLoad], and the load effect passes
    its guard. *)
Definition loadRequested (s : session) : bool :=
  negb (Js.isEmpty (Js.trim (hlsUrl s)))
  && negb (String.eqb (manifestUrlToLoad s) (Js.trim (hlsUrl s)))
  && playerRef s && isPlayerReady s.

(** *** Example: three programs of the current manifest, the first one active *)

Definition trackOf (i : Z) (isActive : bool) (n : string) : variantTrack :=
  {| id := i; active := isActive; label := Some n; videoLabel := None;
     programOfVideoId := None; programOfAudioId := None;
     fallbackName := "Program (VID: undefined, AID: undefined)";
     activeFallbackName := "Program (VID: undefined, AID: undefined)";
     bandwidth := 2000000 |}.

Definition programOf (i : Z) (n : string) (version : Z) : program :=
  {| p_label := n; variantId := i; p_bandwidth := 2000000; manifestVersion := version |}.

Definition idleSession : session :=
  {| hlsUrl := Manifest.exampleUrl; manifestUrlToLoad := Manifest.exampleUrl;
     programs := [programOf 1 "studio" 1; programOf 2 "wide" 1; programOf 3 "close" 1];
     selectedProgramLabel := "studio";
     isLoading := false; isSwitching := false; error := None; isPlayerReady := true;
     playerLogs := []; abrEnabled := false;
     switchTimeoutRef := None; manifestVersionRef := 1; playerRef := true;
     tracks := [trackOf 1 true "studio"; trackOf 2 false "wide"; trackOf 3 false "close"];
     selectVariantTrackThrows := None;
     engineCalls := [CallLoad Manifest.exampleUrl]; timers := []; nextTimerId := 1;
     now := 1000 |}.

End ProgramsApp.



(** ** The layout selector of [src/App.js] *)

Module LayoutsApp.

(** What the log shows of a variant track. *)
Record variantInfo : Type := { v_width : Z; v_height : Z; v_bandwidth : Z }.

Inductive appLog : Type :=
| LogAlreadyLoaded (layoutName : string)
| LogLoadingLayout (layoutName url : string)
| LogSavingTime (t : Q)
| LogRestoredTime (t : Q)
| LogLayoutLoaded (layoutName : string)
| LogLayoutVariants (layoutName : string) (n : nat)
| LogVariant (v : variantInfo)
| LogLayoutError (layoutName : string) (e : jsError)
| LogOperationInProgress (layoutName : string)
| LogUserSelected (layoutName : string).

Inductive appError : Type :=
| ErrLoadingLayout (e : jsError).

Inductive engineCall : Type :=
| CallLoad (url : string).

(** Callbacks handed to [setTimeout]. *)
Inductive timerCallback : Type :=
| RestoreTime (t : Q).                  (* lines 312-317 *)

Record timer : Type := { timerId : nat; due : Z; callback : timerCallback }.

(** The [useState] variables and refs that the selection path reads or
    writes; [videoCurrentTime] is [videoRef.current?.currentTime],
    [variants] what [getVariantTracks()] returns. *)
Record session : Type := {
  hlsUrl : string;
  manifestUrlToLoad : string;
  layouts : list Manifest.layout;
  selectedLayout : string;
  isLoading : bool;
  isSwitching : bool;
  error : option appError;
  isPlayerReady : bool;
  playerLogs : list appLog;
  abrEnabled : bool;
  playerRef : bool;
  currentLayoutRef : option string;
  videoCurrentTime : option Q;
  variants : list variantInfo;
  engineCalls : list engineCall;
  timers : list timer;
  nextTimerId : nat;
  now : Z
}.

Definition set_selectedLayout (v : string) (s : session) : session :=
  {| hlsUrl := hlsUrl s; manifestUrlToLoad := manifestUrlToLoad s;
     layouts := layouts s; selectedLayout := v; isLoading := isLoading s;
     isSwitching := isSwitching s; error := error s; isPlayerReady := isPlayerReady s;
     playerLogs := playerLogs s; abrEnabled := abrEnabled s; playerRef := playerRef s;
     currentLayoutRef := currentLayoutRef s; videoCurrentTime := videoCurrentTime s;
     variants := variants s; engineCalls := engineCalls s; timers := timers s;
     nextTimerId := nextTimerId s; now := now s |}.

Definition set_isSwitching (v : bool) (s : session) : session :=
  {| hlsUrl := hlsUrl s; manifestUrlToLoad := manifestUrlToLoad s;
     layouts := layouts s; selectedLayout := selectedLayout s;
     isLoading := isLoading s; isSwitching := v; error := error s;
     isPlayerReady := isPlayerReady s; playerLogs := playerLogs s;
     abrEnabled := abrEnabled s; playerRef := playerRef s;
     currentLayoutRef := currentLayoutRef s; videoCurrentTime := videoCurrentTime s;
     variants := variants s; engineCalls := engineCalls s; timers := timers s;
     nextTimerId := nextTimerId s; now := now s |}.

Definition set_error (v : option appError) (s : session) : session :=
  {| hlsUrl := hlsUrl s; manifestUrlToLoad := manifestUrlToLoad s;
     layouts := layouts s; selectedLayout := selectedLayout s;
     isLoading := isLoading s; isSwitching := isSwitching s; error := v;
     isPlayerReady := isPlayerReady s; playerLogs := playerLogs s;
     abrEnabled := abrEnabled s; playerRef := playerRef s;
     currentLayoutRef := currentLayoutRef s; videoCurrentTime := videoCurrentTime s;
     variants := variants s; engineCalls := engineCalls s; timers := timers s;
     nextTimerId := nextTimerId s; now := now s |}.

Definition set_playerLogs (v : list appLog) (s : session) : session :=
  {| hlsUrl := hlsUrl s; manifestUrlToLoad := manifestUrlToLoad s;
     layouts := layouts s; selectedLayout := selectedLayout s;
     isLoading := isLoading s; isSwitching := isSwitching s; error := error s;
     isPlayerReady := isPlayerReady s; playerLogs := v; abrEnabled := abrEnabled s;
     playerRef := playerRef s; currentLayoutRef := currentLayoutRef s;
     videoCurrentTime := videoCurrentTime s; variants := variants s;
     engineCalls := engineCalls s; timers := timers s; nextTimerId := nextTimerId s;
     now := now s |}.

Definition set_currentLayoutRef (v : option string) (s : session) : session :=
  {| hlsUrl := hlsUrl s; manifestUrlToLoad := manifestUrlToLoad s;
     layouts := layouts s; selectedLayout := selectedLayout s;
     isLoading := isLoading s; isSwitching := isSwitching s; error := error s;
     isPlayerReady := isPlayerReady s; playerLogs := playerLogs s;
     abrEnabled := abrEnabled s; playerRef := playerRef s; currentLayoutRef := v;
     videoCurrentTime := videoCurrentTime s; variants := variants s;
     engineCalls := engineCalls s; timers := timers s; nextTimerId := nextTimerId s;
     now := now s |}.

Definition set_videoCurrentTime (v : option Q) (s : session) : session :=
  {| hlsUrl := hlsUrl s; manifestUrlToLoad := manifestUrlToLoad s;
     layouts := layouts s; selectedLayout := selectedLayout s;
     isLoading := isLoading s; isSwitching := isSwitching s; error := error s;
     isPlayerReady := isPlayerReady s; playerLogs := playerLogs s;
     abrEnabled := abrEnabled s; playerRef := playerRef s;
     currentLayoutRef := currentLayoutRef s; videoCurrentTime := v;
     variants := variants s; engineCalls := engineCalls s; timers := timers s;
     nextTimerId := nextTimerId s; now := now s |}.

Definition set_engineCalls (v : list engineCall) (s : session) : session :=
  {| hlsUrl := hlsUrl s; manifestUrlToLoad := manifestUrlToLoad s;
     layouts := layouts s; selectedLayout := selectedLayout s;
     isLoading := isLoading s; isSwitching := isSwitching s; error := error s;
     isPlayerReady := isPlayerReady s; playerLogs := playerLogs s;
     abrEnabled := abrEnabled s; playerRef := playerRef s;
     currentLayoutRef := currentLayoutRef s; videoCurrentTime := videoCurrentTime s;
     variants := variants s; engineCalls := v; timers := timers s;
     nextTimerId := nextTimerId s; now := now s |}.

Definition set_timers (v : list timer) (s : session) : session :=
  {| hlsUrl := hlsUrl s; manifestUrlToLoad := manifestUrlToLoad s;
     layouts := layouts s; selectedLayout := selectedLayout s;
     isLoading := isLoading s; isSwitching := isSwitching s; error := error s;
     isPlayerReady := isPlayerReady s; playerLogs := playerLogs s;
     abrEnabled := abrEnabled s; playerRef := playerRef s;
     currentLayoutRef := currentLayoutRef s; videoCurrentTime := videoCurrentTime s;
     variants := variants s; engineCalls := engineCalls s; timers := v;
     nextTimerId := nextTimerId s; now := now s |}.

Definition set_nextTimerId (v : nat) (s : session) : session :=
  {| hlsUrl := hlsUrl s; manifestUrlToLoad := manifestUrlToLoad s;
     layouts := layouts s; selectedLayout := selectedLayout s;
     isLoading := isLoading s; isSwitching := isSwitching s; error := error s;
     isPlayerReady := isPlayerReady s; playerLogs := playerLogs s;
     abrEnabled := abrEnabled s; playerRef := playerRef s;
     currentLayoutRef := currentLayoutRef s; videoCurrentTime := videoCurrentTime s;
     variants := variants s; engineCalls := engineCalls s; timers := timers s;
     nextTimerId := v; now := now s |}.

Definition set_now (v : Z) (s : session) : session :=
  {| hlsUrl := hlsUrl s; manifestUrlToLoad := manifestUrlToLoad s;
     layouts := layouts s; selectedLayout := selectedLayout s;
     isLoading := isLoading s; isSwitching := isSwitching s; error := error s;
     isPlayerReady := isPlayerReady s; playerLogs := playerLogs s;
     abrEnabled := abrEnabled s; playerRef := playerRef s;
     currentLayoutRef := currentLayoutRef s; videoCurrentTime := videoCurrentTime s;
     variants := variants s; engineCalls := engineCalls s; timers := timers s;
     nextTimerId := nextTimerId s; now := v |}.

(** [addLog] (lines 26-32): newest first, at most 20 kept. *)
Definition addLog (m : appLog) (s : session) : session :=
  set_playerLogs (m :: firstn 19 (playerLogs s)) s.

Definition callEngine (c : engineCall) (s : session) : session :=
  set_engineCalls (engineCalls s ++ [c]) s.

Definition setTimeout (cb : timerCallback) (delay : Z) (s : session) : session :=
  set_nextTimerId (S (nextTimerId s))
    (set_timers (timers s ++ [{| timerId := nextTimerId s; due := (now s + delay)%Z;
                                 callback := cb |}]) s).

(** [handleLayoutChange] (lines 355-365). *)
Definition handleLayoutChange (newLayout : string) (s : session) : session :=
  if isSwitching s || isLoading s
  then addLog (LogOperationInProgress newLayout) s
  else set_selectedLayout newLayout (addLog (LogUserSelected newLayout) s).

(** What [loadLayout] keeps across its [await]: the layout it loads and the
    playback time it saved. *)
Record pendingLoad : Type := { loading : string; savedTime : Q }.

Definition truthyRef (r : option string) : bool :=
  match r with Some n => negb (Js.isEmpty n) | None => false end.

(** The layout effect up to the [await] of line 307 (lines 276-307); a null
    [playerRef.current] makes line 307 throw into the [catch]. *)
Definition layoutEffect (s : session) : session * option pendingLoad :=
  if Js.isEmpty (selectedLayout s) || negb (isPlayerReady s)
     || (length (layouts s) =? 0)%nat
  then (s, None)
  else
    match find (fun l => String.eqb (Manifest.name l) (selectedLayout s)) (layouts s) with
    | None => (s, None)
    | Some layoutData =>
        if match currentLayoutRef s with
           | Some c => String.eqb c (selectedLayout s)
           | None => false
           end
        then (addLog (LogAlreadyLoaded (selectedLayout s)) s, None)
        else
          let s1 := addLog (LogLoadingLayout (selectedLayout s) (Manifest.masterUrl layoutData))
                      (set_error None (set_isSwitching true s)) in
          let currentTime :=
            if playerRef s && truthyRef (currentLayoutRef s)
            then match videoCurrentTime s with Some t => t | None => 0%Q end
            else 0%Q in
          let s2 := if playerRef s && truthyRef (currentLayoutRef s)
                    then addLog (LogSavingTime currentTime) s1 else s1 in
          if playerRef s
          then (callEngine (CallLoad (Manifest.masterUrl layoutData)) s2,
                Some {| loading := selectedLayout s; savedTime := currentTime |})
          else
            let e := ErrorMessage "TypeError: Cannot read properties of null (reading 'load')" in
            (set_isSwitching false
               (addLog (LogLayoutError (selectedLayout s) e)
                  (set_error (Some (ErrLoadingLayout e)) s2)), None)
    end.

(** After [player.load] resolved (lines 309-331 and the [finally]). *)
Definition loadLayoutResolved (p : pendingLoad) (s : session) : session :=
  let s1 := if RegionsApp.Qlt_bool 0 (savedTime p) && truthyRef (currentLayoutRef s)
            then setTimeout (RestoreTime (savedTime p)) 500 s else s in
  let s2 := addLog (LogLayoutLoaded (loading p))
              (set_currentLayoutRef (Some (loading p)) s1) in
  if playerRef s
  then set_isSwitching false
         (fold_left (fun acc v => addLog (LogVariant v) acc) (variants s)
            (addLog (LogLayoutVariants (loading p) (length (variants s))) s2))
  else
    let e := ErrorMessage "TypeError: Cannot read properties of null (reading 'getVariantTracks')" in
    set_isSwitching false
      (addLog (LogLayoutError (loading p) e) (set_error (Some (ErrLoadingLayout e)) s2)).

(** After [player.load] rejected (lines 333-338). *)
Definition loadLayoutRejected (p : pendingLoad) (e : jsError) (s : session) : session :=
  set_isSwitching false
    (addLog (LogLayoutError (loading p) e) (set_error (Some (ErrLoadingLayout e)) s)).

Definition runCallback (cb : timerCallback) (s : session) : session :=
  match cb with
  | RestoreTime t =>
      match videoCurrentTime s with
      | Some _ => addLog (LogRestoredTime t) (set_videoCurrentTime (Some t) s)
      | None => s
      end
  end.

(** A change event of the dropdown, then the render and the layout effect
    (which depends on [selectedLayout], [isPlayerReady] and [layouts]). *)
Definition selectLayout (newLayout : string) (s : session) : session :=
  let s1 := handleLayoutChange newLayout s in
  if String.eqb (selectedLayout s) (selectedLayout s1) then s1
  else fst (layoutEffect s1).

Definition dispatched (s : session) : nat := length (engineCalls s).

(** *** Example: two layouts, the first one playing *)

Definition layoutNamed (n : string) : Manifest.layout :=
  Manifest.toLayout "https://edge.example/hls/ev/" (Manifest.newLayoutData n).

Definition idleSession : session :=
  {| hlsUrl := Manifest.exampleUrl; manifestUrlToLoad := Manifest.exampleUrl;
     layouts := [layoutNamed "studio"; layoutNamed "wide"; layoutNamed "close"];
     selectedLayout := "studio";
     isLoading := false; isSwitching := false; error := None; isPlayerReady := true;
     playerLogs := []; abrEnabled := true; playerRef := true;
     currentLayoutRef := Some "studio"; videoCurrentTime := Some 12%Q; variants := [];
     engineCalls := [CallLoad "https://edge.example/hls/ev/studio/master.m3u8"];
     timers := []; nextTimerId := 1; now := 1000 |}.

End LayoutsApp.



(** ** The first program selector ([src/unnamed/part_000], first document) *)

Module ProgramsDraft.

(** A variant track as the player reports it; the option fields are the
    operands of the [||] chain of lines 129-131, [None] when falsy. *)
Record variantTrack : Type := {
  id : Z;
  active : bool;
  label : option string;
  videoLabel : option string;
  fallbackName : string;
  bandwidth : Z
}.

Definition programNameOf (v : variantTrack) : string :=
  match label v, videoLabel v with
  | Some n, _ => n
  | None, Some n => n
  | None, None => fallbackName v
  end.

(** An entry of [programs]. *)
Record program : Type := {
  p_label : string;
  representativeVariantId : Z;
  p_bandwidth : Z
}.

Inductive appLog : Type :=
| LogAttemptingLoad (url : string)
| LogManifestLoaded
| LogFoundTracks (n : nat)
| LogPopulated (n : nat)
| LogInitialProgram (programLabel : string)
| LogNoPrograms
| LogLoadError (message : string)
| LogNoProgramData (programLabel : string)
| LogAlreadyActive (programLabel : string) (variantId : Z)
| LogVariantNotFound (variantId : Z)
| LogAttemptingSwitch (programLabel : string) (variantId : Z)
| LogPlayerStateBeforeSwitch
| LogSelectInitiated (programLabel : string) (variantId : Z)
| LogSelectError (message : string)
| LogSwitchTimeout
| LogVariantChanged (variantId : Z)
| LogVariantChangedNoActive
| LogPlayerError (code : Z) (message : string)
| LogSwitchAlreadyInProgress (value : string)
| LogUserSelected (value : string)
| LogEmptyUrl.

Inductive appError : Type :=
| ErrPlayer (code : Z) (message : string)
| ErrLoad (message : string)
| ErrNoPrograms
| ErrVariantNotFound
| ErrSwitch (message : string)
| ErrEmptyUrl.

Inductive engineCall : Type :=
| CallLoad (url : string)
| CallSelectVariantTrack (variantId : Z) (clearBuffer : bool).

(** The closure handed to [setTimeout] at lines 214-219.  It reads the
    [isSwitching] of the render whose effect created it: that binding is a
    constant of the render, and [setIsSwitching] does not change it. *)
Inductive timerCallback : Type :=
| SwitchTimeoutClosure (isSwitchingOfRender : bool).

Record timer : Type := { timerId : nat; due : Z; callback : timerCallback }.

(** The [useState] variables, [playerRef], and what the component observes
    of the player and of the host's timers. *)
Record session : Type := {
  hlsUrl : string;
  manifestUrlToLoad : string;
  programs : list program;
  selectedProgramLabel : string;
  isLoading : bool;
  isSwitching : bool;
  error : option appError;
  isPlayerReady : bool;
  playerLogs : list appLog;
  playerRef : bool;
  tracks : list variantTrack;
  selectVariantTrackThrows : option string;
  engineCalls : list engineCall;
  timers : list timer;
  nextTimerId : nat;
  now : Z
}.

Definition set_manifestUrlToLoad (v : string) (s : session) : session :=
  {| hlsUrl := hlsUrl s; manifestUrlToLoad := v; programs := programs s;
     selectedProgramLabel := selectedProgramLabel s; isLoading := isLoading s;
     isSwitching := isSwitching s; error := error s; isPlayerReady := isPlayerReady s;
     playerLogs := playerLogs s; playerRef := playerRef s; tracks := tracks s;
     selectVariantTrackThrows := selectVariantTrackThrows s;
     engineCalls := engineCalls s; timers := timers s; nextTimerId := nextTimerId s;
     now := now s |}.

Definition set_programs (v : list program) (s : session) : session :=
  {| hlsUrl := hlsUrl s; manifestUrlToLoad := manifestUrlToLoad s; programs := v;
     selectedProgramLabel := selectedProgramLabel s; isLoading := isLoading s;
     isSwitching := isSwitching s; error := error s; isPlayerReady := isPlayerReady s;
     playerLogs := playerLogs s; playerRef := playerRef s; tracks := tracks s;
     selectVariantTrackThrows := selectVariantTrackThrows s;
     engineCalls := engineCalls s; timers := timers s; nextTimerId := nextTimerId s;
     now := now s |}.

Definition set_selectedProgramLabel (v : string) (s : session) : session :=
  {| hlsUrl := hlsUrl s; manifestUrlToLoad := manifestUrlToLoad s;
     programs := programs s; selectedProgramLabel := v; isLoading := isLoading s;
     isSwitching := isSwitching s; error := error s; isPlayerReady := isPlayerReady s;
     playerLogs := playerLogs s; playerRef := playerRef s; tracks := tracks s;
     selectVariantTrackThrows := selectVariantTrackThrows s;
     engineCalls := engineCalls s; timers := timers s; nextTimerId := nextTimerId s;
     now := now s |}.

Definition set_isLoading (v : bool) (s : session) : session :=
  {| hlsUrl := hlsUrl s; manifestUrlToLoad := manifestUrlToLoad s;
     programs := programs s; selectedProgramLabel := selectedProgramLabel s;
     isLoading := v; isSwitching := isSwitching s; error := error s;
     isPlayerReady := isPlayerReady s; playerLogs := playerLogs s;
     playerRef := playerRef s; tracks := tracks s;
     selectVariantTrackThrows := selectVariantTrackThrows s;
     engineCalls := engineCalls s; timers := timers s; nextTimerId := nextTimerId s;
     now := now s |}.

Definition set_isSwitching (v : bool) (s : session) : session :=
  {| hlsUrl := hlsUrl s; manifestUrlToLoad := manifestUrlToLoad s;
     programs := programs s; selectedProgramLabel := selectedProgramLabel s;
     isLoading := isLoading s; isSwitching := v; error := error s;
     isPlayerReady := isPlayerReady s; playerLogs := playerLogs s;
     playerRef := playerRef s; tracks := tracks s;
     selectVariantTrackThrows := selectVariantTrackThrows s;
     engineCalls := engineCalls s; timers := timers s; nextTimerId := nextTimerId s;
     now := now s |}.

Definition set_error (v : option appError) (s : session) : session :=
  {| hlsUrl := hlsUrl s; manifestUrlToLoad := manifestUrlToLoad s;
     programs := programs s; selectedProgramLabel := selectedProgramLabel s;
     isLoading := isLoading s; isSwitching := isSwitching s; error := v;
     isPlayerReady := isPlayerReady s; playerLogs := playerLogs s;
     playerRef := playerRef s; tracks := tracks s;
     selectVariantTrackThrows := selectVariantTrackThrows s;
     engineCalls := engineCalls s; timers := timers s; nextTimerId := nextTimerId s;
     now := now s |}.

Definition set_playerLogs (v : list appLog) (s : session) : session :=
  {| hlsUrl := hlsUrl s; manifestUrlToLoad := manifestUrlToLoad s;
     programs := programs s; selectedProgramLabel := selectedProgramLabel s;
     isLoading := isLoading s; isSwitching := isSwitching s; error := error s;
     isPlayerReady := isPlayerReady s; playerLogs := v; playerRef := playerRef s;
     tracks := tracks s; selectVariantTrackThrows := selectVariantTrackThrows s;
     engineCalls := engineCalls s; timers := timers s; nextTimerId := nextTimerId s;
     now := now s |}.

Definition set_engineCalls (v : list engineCall) (s : session) : session :=
  {| hlsUrl := hlsUrl s; manifestUrlToLoad := manifestUrlToLoad s;
     programs := programs s; selectedProgramLabel := selectedProgramLabel s;
     isLoading := isLoading s; isSwitching := isSwitching s; error := error s;
     isPlayerReady := isPlayerReady s; playerLogs := playerLogs s;
     playerRef := playerRef s; tracks := tracks s;
     selectVariantTrackThrows := selectVariantTrackThrows s; engineCalls := v;
     timers := timers s; nextTimerId := nextTimerId s; now := now s |}.

Definition set_timers (v : list timer) (s : session) : session :=
  {| hlsUrl := hlsUrl s; manifestUrlToLoad := manifestUrlToLoad s;
     programs := programs s; selectedProgramLabel := selectedProgramLabel s;
     isLoading := isLoading s; isSwitching := isSwitching s; error := error s;
     isPlayerReady := isPlayerReady s; playerLogs := playerLogs s;
     playerRef := playerRef s; tracks := tracks s;
     selectVariantTrackThrows := selectVariantTrackThrows s;
     engineCalls := engineCalls s; timers := v; nextTimerId := nextTimerId s;
     now := now s |}.

Definition set_nextTimerId (v : nat) (s : session) : session :=
  {| hlsUrl := hlsUrl s; manifestUrlToLoad := manifestUrlToLoad s;
     programs := programs s; selectedProgramLabel := selectedProgramLabel s;
     isLoading := isLoading s; isSwitching := isSwitching s; error := error s;
     isPlayerReady := isPlayerReady s; playerLogs := playerLogs s;
     playerRef := playerRef s; tracks := tracks s;
     selectVariantTrackThrows := selectVariantTrackThrows s;
     engineCalls := engineCalls s; timers := timers s; nextTimerId := v;
     now := now s |}.

Definition set_now (v : Z) (s : session) : session :=
  {| hlsUrl := hlsUrl s; manifestUrlToLoad := manifestUrlToLoad s;
     programs := programs s; selectedProgramLabel := selectedProgramLabel s;
     isLoading := isLoading s; isSwitching := isSwitching s; error := error s;
     isPlayerReady := isPlayerReady s; playerLogs := playerLogs s;
     playerRef := playerRef s; tracks := tracks s;
     selectVariantTrackThrows := selectVariantTrackThrows s;
     engineCalls := engineCalls s; timers := timers s; nextTimerId := nextTimerId s;
     now := v |}.

Definition SWITCH_TIMEOUT_MS : Z := 5000.

(** [addLog] (lines 24-30): newest first, at most 20 kept. *)
Definition addLog (m : appLog) (s : session) : session :=
  set_playerLogs (m :: firstn 19 (playerLogs s)) s.

Definition callEngine (c : engineCall) (s : session) : session :=
  set_engineCalls (engineCalls s ++ [c]) s.

Definition setTimeout (cb : timerCallback) (delay : Z) (s : session) : session :=
  set_nextTimerId (S (nextTimerId s))
    (set_timers (timers s ++ [{| timerId := nextTimerId s; due := (now s + delay)%Z;
                                 callback := cb |}]) s).

(** The [error] listener (lines 54-60). *)
Definition onPlayerError (code : Z) (message : string) (s : session) : session :=
  set_isSwitching false
    (set_isLoading false
       (set_error (Some (ErrPlayer code message))
          (addLog (LogPlayerError code message) s))).

(** The [variantchanged] listener (lines 62-70). *)
Definition onVariantChanged (s : session) : session :=
  set_isSwitching false
    match find active (tracks s) with
    | Some newVariant => addLog (LogVariantChanged (id newVariant)) s
    | None => addLog LogVariantChangedNoActive s
    end.

(** The body of the switch effect (lines 176-231), run for a render whose
    state is [s]: [isSwitching s] is the constant that the timeout closure
    captures. *)
Definition switchEffect (s : session) : session :=
  if Js.isEmpty (selectedProgramLabel s) || negb (playerRef s)
     || (length (programs s) =? 0)%nat || negb (isPlayerReady s) || isSwitching s
  then s
  else
    match find (fun p => String.eqb (p_label p) (selectedProgramLabel s)) (programs s) with
    | None => addLog (LogNoProgramData (selectedProgramLabel s)) s
    | Some programData =>
        if (representativeVariantId programData =? 0)%Z
        then addLog (LogNoProgramData (selectedProgramLabel s)) s
        else
          let targetVariantId := representativeVariantId programData in
          let allCurrentVariants := tracks s in
          let alreadyActive :=
            match find active allCurrentVariants with
            | Some activeVariant => (id activeVariant =? targetVariantId)%Z
            | None => false
            end in
          if alreadyActive
          then addLog (LogAlreadyActive (selectedProgramLabel s) targetVariantId) s
          else
            match find (fun v => (id v =? targetVariantId)%Z) allCurrentVariants with
            | Some variantToSelect =>
                let s1 := addLog LogPlayerStateBeforeSwitch
                            (set_error None
                               (set_isSwitching true
                                  (addLog (LogAttemptingSwitch (selectedProgramLabel s)
                                                               (id variantToSelect)) s))) in
                match selectVariantTrackThrows s with
                | Some message =>
                    set_isSwitching false
                      (set_error (Some (ErrSwitch message))
                         (addLog (LogSelectError message) s1))
                | None =>
                    setTimeout (SwitchTimeoutClosure (isSwitching s)) SWITCH_TIMEOUT_MS
                      (addLog (LogSelectInitiated (selectedProgramLabel s)
                                                  (id variantToSelect))
                         (callEngine (CallSelectVariantTrack (id variantToSelect) true) s1))
                end
            | None =>
                set_isSwitching false
                  (set_error (Some ErrVariantNotFound)
                     (addLog (LogVariantNotFound targetVariantId) s))
            end
    end.

(** Lines 214-219: the body of the timeout closure. *)
Definition runCallback (cb : timerCallback) (s : session) : session :=
  match cb with
  | SwitchTimeoutClosure isSwitchingOfRender =>
      if isSwitchingOfRender
      then set_isSwitching false (addLog LogSwitchTimeout s)
      else s
  end.

(** The host fires the pending timer [i] at its due time. *)
Definition fireTimer (i : nat) (s : session) : session :=
  match find (fun t => (timerId t =? i)%nat) (timers s) with
  | Some t =>
      runCallback (callback t)
        (set_timers (filter (fun t => negb (timerId t =? i)%nat) (timers s))
                    (set_now (Z.max (now s) (due t)) s))
  | None => s
  end.

(** [handleProgramChange] (lines 244-251). *)
Definition handleProgramChange (value : string) (s : session) : session :=
  if negb (isSwitching s)
  then set_selectedProgramLabel value (addLog (LogUserSelected value) s)
  else addLog (LogSwitchAlreadyInProgress value) s.

(** [loadManifest] up to its [await] (lines 113-120). *)
Definition loadManifestStart (s : session) : session :=
  callEngine (CallLoad (manifestUrlToLoad s))
    (set_selectedProgramLabel EmptyString
       (set_programs []
          (set_error None
             (set_isLoading true
                (addLog (LogAttemptingLoad (manifestUrlToLoad s)) s))))).

(** [programMap] and [availablePrograms] (lines 127-141). *)
Fixpoint collectPrograms (vs : list variantTrack) (acc : list program) : list program :=
  match vs with
  | [] => acc
  | v :: r =>
      collectPrograms r
        (if existsb (fun p => String.eqb (p_label p) (programNameOf v)) acc then acc
         else acc ++ [{| p_label := programNameOf v; representativeVariantId := id v;
                         p_bandwidth := bandwidth v |}])
  end.

(** After [player.load] resolved (lines 121-162 and the [finally]). *)
Definition loadManifestResolved (s : session) : session :=
  let variantTracks := tracks s in
  let availablePrograms := collectPrograms variantTracks [] in
  let s1 := addLog (LogPopulated (length availablePrograms))
              (set_programs availablePrograms
                 (addLog (LogFoundTracks (length variantTracks))
                    (addLog LogManifestLoaded s))) in
  set_isLoading false
    match availablePrograms with
    | first :: _ =>
        let initialProgramLabel :=
          match find active variantTracks with
          | Some activeVariant =>
              match find (fun p => String.eqb (p_label p) (programNameOf activeVariant))
                         availablePrograms with
              | Some foundProgram => p_label foundProgram
              | None => p_label first
              end
          | None => p_label first
          end in
        addLog (LogInitialProgram initialProgramLabel)
               (set_selectedProgramLabel initialProgramLabel s1)
    | [] => set_error (Some ErrNoPrograms) (addLog LogNoPrograms s1)
    end.

(** After [player.load] rejected (lines 164-169). *)
Definition loadManifestRejected (message : string) (s : session) : session :=
  set_isLoading false (set_error (Some (ErrLoad message)) (addLog (LogLoadError message) s)).

(** [handleLoadClick] (lines 235-242). *)
Definition handleLoadClick (s : session) : session :=
  if Js.isEmpty (Js.trim (hlsUrl s))
  then addLog LogEmptyUrl (set_error (Some ErrEmptyUrl) s)
  else set_manifestUrlToLoad (Js.trim (hlsUrl s)) s.

(** *** One callback at a time

    After a callback React renders and runs the effects whose dependencies
    changed.  The switch effect depends on [selectedProgramLabel],
    [programs], [isPlayerReady] and [isSwitching]; when a run of it sets
    [isSwitching], the run that follows returns at its guard, so it is not
    repeated here. *)

Inductive event : Type :=
| UserSelects (value : string)
| UserClicksLoad
| LoadResolves
| LoadRejects (message : string)
| VariantChanged
| PlayerError (code : Z) (message : string)
| TimerFires (i : nat).

Definition rerender (before after : session) (programsReplaced : bool) : session :=
  if String.eqb (selectedProgramLabel before) (selectedProgramLabel after)
     && Bool.eqb (isSwitching before) (isSwitching after) && negb programsReplaced
  then after else switchEffect after.

Definition loadEffect (s : session) : session :=
  if Js.isEmpty (manifestUrlToLoad s) || negb (playerRef s) || negb (isPlayerReady s)
  then s
  else rerender s (loadManifestStart s) true.

Definition step (ev : event) (s : session) : session :=
  match ev with
  | UserSelects v => rerender s (handleProgramChange v s) false
  | UserClicksLoad =>
      let s1 := handleLoadClick s in
      if String.eqb (manifestUrlToLoad s) (manifestUrlToLoad s1) then s1
      else loadEffect s1
  | LoadResolves => rerender s (loadManifestResolved s) true
  | LoadRejects m => loadManifestRejected m s
  | VariantChanged => rerender s (onVariantChanged s) false
  | PlayerError c m => rerender s (onPlayerError c m s) false
  | TimerFires i => rerender s (fireTimer i s) false
  end.

Definition run (evs : list event) (s : session) : session :=
  fold_left (fun acc ev => step ev acc) evs s.

(** The events that do not come from the player. *)
Definition playerSilent (ev : event) : bool :=
  match ev with
  | VariantChanged | PlayerError _ _ => false
  | _ => true
  end.

(** Every pending closure was created by a render whose [isSwitching] was
    false. *)
Definition closuresSawIdle (s : session) : Prop :=
  Forall (fun t => callback t = SwitchTimeoutClosure false) (timers s).

(** *** Example: three programs, the first one active *)

Definition trackOf (i : Z) (isActive : bool) (n : string) : variantTrack :=
  {| id := i; active := isActive; label := Some n; videoLabel := None;
     fallbackName := "Program (VID: undefined, AID: undefined)"; bandwidth := 2000000 |}.

Definition programOf (i : Z) (n : string) : program :=
  {| p_label := n; representativeVariantId := i; p_bandwidth := 2000000 |}.

Definition idleSession : session :=
  {| hlsUrl := Manifest.exampleUrl; manifestUrlToLoad := Manifest.exampleUrl;
     programs := [programOf 1 "studio"; programOf 2 "wide"; programOf 3 "close"];
     selectedProgramLabel := "studio";
     isLoading := false; isSwitching := false; error := None; isPlayerReady := true;
     playerLogs := []; playerRef := true;
     tracks := [trackOf 1 true "studio"; trackOf 2 false "wide"; trackOf 3 false "close"];
     selectVariantTrackThrows := None;
     engineCalls := [CallLoad Manifest.exampleUrl]; timers := []; nextTimerId := 1;
     now := 1000 |}.

End ProgramsDraft.


(** ** The stall watchdog ([src/unnamed/part_003]) *)

Module Watchdog.

(** What the watchdog reads of the video element and of the player. *)
Record videoState : Type := { paused : bool; currentTime : Q }.

Record playerState : Type := { isLive : bool; seekRangeEnd : Q }.

Inductive appLog : Type :=
| LogStallDetected (t : Q)
| LogSeekLiveEdge (t : Q)
| LogSeekForward
| LogBuffering (buffering : bool).

(** Callbacks handed to [setTimeout] and [setInterval]. *)
Inductive timerCallback : Type :=
| ClearStalled              (* line 123: () => setPlaybackStalled(false) *)
| StallCheck.               (* lines 94-132 *)

Record timer : Type := { timerId : nat; due : Z; callback : timerCallback }.

Record interval : Type := { intervalId : nat; period : Z; tick : timerCallback }.

(** The state and the refs of the watchdog; [seeks] lists the values
    assigned to [video.currentTime], oldest first. *)
Record session : Type := {
  playbackStalled : bool;
  lastPlaybackTime : Q;
  playerLogs : list appLog;
  stallCountRef : Z;
  lastTimeUpdateRef : Q;
  stallCheckIntervalRef : option nat;
  videoRef : option videoState;
  playerRef : option playerState;
  seeks : list Q;
  timeouts : list timer;
  intervals : list interval;
  nextTimerId : nat;
  now : Z
}.

Definition set_playbackStalled (v : bool) (s : session) : session :=
  {| playbackStalled := v; lastPlaybackTime := lastPlaybackTime s;
     playerLogs := playerLogs s; stallCountRef := stallCountRef s;
     lastTimeUpdateRef := lastTimeUpdateRef s;
     stallCheckIntervalRef := stallCheckIntervalRef s; videoRef := videoRef s;
     playerRef := playerRef s; seeks := seeks s; timeouts := timeouts s;
     intervals := intervals s; nextTimerId := nextTimerId s; now := now s |}.

Definition set_lastPlaybackTime (v : Q) (s : session) : session :=
  {| playbackStalled := playbackStalled s; lastPlaybackTime := v;
     playerLogs := playerLogs s; stallCountRef := stallCountRef s;
     lastTimeUpdateRef := lastTimeUpdateRef s;
     stallCheckIntervalRef := stallCheckIntervalRef s; videoRef := videoRef s;
     playerRef := playerRef s; seeks := seeks s; timeouts := timeouts s;
     intervals := intervals s; nextTimerId := nextTimerId s; now := now s |}.

Definition set_playerLogs (v : list appLog) (s : session) : session :=
  {| playbackStalled := playbackStalled s; lastPlaybackTime := lastPlaybackTime s;
     playerLogs := v; stallCountRef := stallCountRef s;
     lastTimeUpdateRef := lastTimeUpdateRef s;
     stallCheckIntervalRef := stallCheckIntervalRef s; videoRef := videoRef s;
     playerRef := playerRef s; seeks := seeks s; timeouts := timeouts s;
     intervals := intervals s; nextTimerId := nextTimerId s; now := now s |}.

Definition set_stallCountRef (v : Z) (s : session) : session :=
  {| playbackStalled := playbackStalled s; lastPlaybackTime := lastPlaybackTime s;
     playerLogs := playerLogs s; stallCountRef := v;
     lastTimeUpdateRef := lastTimeUpdateRef s;
     stallCheckIntervalRef := stallCheckIntervalRef s; videoRef := videoRef s;
     playerRef := playerRef s; seeks := seeks s; timeouts := timeouts s;
     intervals := intervals s; nextTimerId := nextTimerId s; now := now s |}.

Definition set_lastTimeUpdateRef (v : Q) (s : session) : session :=
  {| playbackStalled := playbackStalled s; lastPlaybackTime := lastPlaybackTime s;
     playerLogs := playerLogs s; stallCountRef := stallCountRef s;
     lastTimeUpdateRef := v; stallCheckIntervalRef := stallCheckIntervalRef s;
     videoRef := videoRef s; playerRef := playerRef s; seeks := seeks s;
     timeouts := timeouts s; intervals := intervals s; nextTimerId := nextTimerId s;
     now := now s |}.

Definition set_stallCheckIntervalRef (v : option nat) (s : session) : session :=
  {| playbackStalled := playbackStalled s; lastPlaybackTime := lastPlaybackTime s;
     playerLogs := playerLogs s; stallCountRef := stallCountRef s;
     lastTimeUpdateRef := lastTimeUpdateRef s; stallCheckIntervalRef := v;
     videoRef := videoRef s; playerRef := playerRef s; seeks := seeks s;
     timeouts := timeouts s; intervals := intervals s; nextTimerId := nextTimerId s;
     now := now s |}.

Definition set_videoRef (v : option videoState) (s : session) : session :=
  {| playbackStalled := playbackStalled s; lastPlaybackTime := lastPlaybackTime s;
     playerLogs := playerLogs s; stallCountRef := stallCountRef s;
     lastTimeUpdateRef := lastTimeUpdateRef s;
     stallCheckIntervalRef := stallCheckIntervalRef s; videoRef := v;
     playerRef := playerRef s; seeks := seeks s; timeouts := timeouts s;
     intervals := intervals s; nextTimerId := nextTimerId s; now := now s |}.

Definition set_seeks (v : list Q) (s : session) : session :=
  {| playbackStalled := playbackStalled s; lastPlaybackTime := lastPlaybackTime s;
     playerLogs := playerLogs s; stallCountRef := stallCountRef s;
     lastTimeUpdateRef := lastTimeUpdateRef s;
     stallCheckIntervalRef := stallCheckIntervalRef s; videoRef := videoRef s;
     playerRef := playerRef s; seeks := v; timeouts := timeouts s;
     intervals := intervals s; nextTimerId := nextTimerId s; now := now s |}.

Definition set_timeouts (v : list timer) (s : session) : session :=
  {| playbackStalled := playbackStalled s; lastPlaybackTime := lastPlaybackTime s;
     playerLogs := playerLogs s; stallCountRef := stallCountRef s;
     lastTimeUpdateRef := lastTimeUpdateRef s;
     stallCheckIntervalRef := stallCheckIntervalRef s; videoRef := videoRef s;
     playerRef := playerRef s; seeks := seeks s; timeouts := v;
     intervals := intervals s; nextTimerId := nextTimerId s; now := now s |}.

Definition set_intervals (v : list interval) (s : session) : session :=
  {| playbackStalled := playbackStalled s; lastPlaybackTime := lastPlaybackTime s;
     playerLogs := playerLogs s; stallCountRef := stallCountRef s;
     lastTimeUpdateRef := lastTimeUpdateRef s;
     stallCheckIntervalRef := stallCheckIntervalRef s; videoRef := videoRef s;
     playerRef := playerRef s; seeks := seeks s; timeouts := timeouts s;
     intervals := v; nextTimerId := nextTimerId s; now := now s |}.

Definition set_nextTimerId (v : nat) (s : session) : session :=
  {| playbackStalled := playbackStalled s; lastPlaybackTime := lastPlaybackTime s;
     playerLogs := playerLogs s; stallCountRef := stallCountRef s;
     lastTimeUpdateRef := lastTimeUpdateRef s;
     stallCheckIntervalRef := stallCheckIntervalRef s; videoRef := videoRef s;
     playerRef := playerRef s; seeks := seeks s; timeouts := timeouts s;
     intervals := intervals s; nextTimerId := v; now := now s |}.

Definition STALL_CHECK_INTERVAL_MS : Z := 1000.
Definition STALL_MISSES : Z := 3.
Definition LIVE_EDGE_MARGIN : Q := 10.
Definition LIVE_EDGE_OFFSET : Q := 2.
Definition VOD_NUDGE : Q := 1 # 10.
Definition STALL_COOLDOWN_MS : Z := 3000.

(** [addLog] (lines 32-38): newest first, at most 20 kept. *)
Definition addLog (m : appLog) (s : session) : session :=
  set_playerLogs (m :: firstn 19 (playerLogs s)) s.

Definition setTimeout (cb : timerCallback) (delay : Z) (s : session) : session :=
  set_nextTimerId (S (nextTimerId s))
    (set_timeouts (timeouts s ++ [{| timerId := nextTimerId s; due := (now s + delay)%Z;
                                     callback := cb |}]) s).

(** [video.currentTime = t]. *)
Definition seekTo (t : Q) (s : session) : session :=
  match videoRef s with
  | Some video =>
      set_seeks (seeks s ++ [t])
        (set_videoRef (Some {| paused := paused video; currentTime := t |}) s)
  | None => s
  end.

(** [setupStallDetection] (lines 89-133): one interval of one second. *)
Definition setupStallDetection (s : session) : session :=
  let s1 := match stallCheckIntervalRef s with
            | Some i =>
                set_intervals (filter (fun v => negb (intervalId v =? i)%nat) (intervals s)) s
            | None => s
            end in
  set_stallCheckIntervalRef (Some (nextTimerId s1))
    (set_nextTimerId (S (nextTimerId s1))
       (set_intervals (intervals s1 ++ [{| intervalId := nextTimerId s1;
                                           period := STALL_CHECK_INTERVAL_MS;
                                           tick := StallCheck |}]) s1)).

(** Lines 109-120: the recovery of a stall seen at [currentTime]. *)
Definition recover (player : playerState) (currentTime : Q) (s : session) : session :=
  if isLive player then
    if RegionsApp.Qlt_bool (currentTime + LIVE_EDGE_MARGIN) (seekRangeEnd player)
    then seekTo (seekRangeEnd player - LIVE_EDGE_OFFSET)
           (addLog (LogSeekLiveEdge (seekRangeEnd player - LIVE_EDGE_OFFSET)) s)
    else s
  else seekTo (currentTime + VOD_NUDGE) (addLog LogSeekForward s).

(** The interval callback (lines 94-132). *)
Definition stallCheck (s : session) : session :=
  match videoRef s, playerRef s with
  | Some video, Some player =>
      let currentTime := currentTime video in
      let s1 :=
        if negb (paused video) && Qeq_bool currentTime (lastTimeUpdateRef s) then
          let s2 := set_stallCountRef (stallCountRef s + 1)%Z s in
          if (STALL_MISSES <=? stallCountRef s2)%Z then
            setTimeout ClearStalled STALL_COOLDOWN_MS
              (set_stallCountRef 0%Z
                 (recover player currentTime
                    (set_playbackStalled true
                       (addLog (LogStallDetected currentTime) s2))))
          else s2
        else set_playbackStalled false (set_stallCountRef 0%Z s) in
      set_lastPlaybackTime currentTime (set_lastTimeUpdateRef currentTime s1)
  | _, _ => s
  end.

(** The [buffering] listener (lines 265-270). *)
Definition onBuffering (buffering : bool) (s : session) : session :=
  let s1 := addLog (LogBuffering buffering) s in
  if buffering then set_stallCountRef 0%Z s1 else s1.

(** The [streaming] listener (lines 260-263). *)
Definition onStreaming (s : session) : session := set_stallCountRef 0%Z s.

Definition runCallback (cb : timerCallback) (s : session) : session :=
  match cb with
  | ClearStalled => set_playbackStalled false s
  | StallCheck => stallCheck s
  end.

(** *** Examples: the third sample of a stall at 42 s *)

Definition stalledSession (live : bool) (edge : Q) : session :=
  {| playbackStalled := false; lastPlaybackTime := 42; playerLogs := [];
     stallCountRef := 2; lastTimeUpdateRef := 42; stallCheckIntervalRef := Some 1;
     videoRef := Some {| paused := false; currentTime := 42 |};
     playerRef := Some {| isLive := live; seekRangeEnd := edge |};
     seeks := []; timeouts := [];
     intervals := [{| intervalId := 1; period := 1000; tick := StallCheck |}];
     nextTimerId := 2; now := 60000 |}.

End Watchdog.


(** ** Program names read off the original stream ids
    ([extractProgramNameFromOriginalId] of [src/unnamed/part_001], lines
    135-147, and of [src/unnamed/part_003], lines 307-321) *)

Module ProgramIds.
Import Js.

Definition underscore : ascii := "_"%char.

(** The class [[^_]]. *)
Definition notUnderscore (c : ascii) : bool := negb (Ascii.eqb c underscore).

(** [s] without its suffix [suf], when it ends with [suf]. *)
Fixpoint stripSuffix (suf s : string) : option string :=
  if String.eqb s suf then Some EmptyString
  else match s with
       | EmptyString => None
       | String c r => option_map (String c) (stripSuffix suf r)
       end.

(** One or more characters of the class [f] and then an underscore, at the
    start of [s]: the run and the text after the underscore.  The underscore
    is outside both classes used here, so no shorter run can be followed by
    one. *)
Definition runThenUnderscore (f : ascii -> bool) (s : string) : option (string * string) :=
  let (run, r) := span f s in
  if isEmpty run then None else
  match r with
  | String c r' => if Ascii.eqb c underscore then Some (run, r') else None
  | EmptyString => None
  end.

(** The alternation (video|audio|av), then .m3u8, then the end of the
    input. *)
Definition isTypeSuffix (s : string) : bool :=
  String.eqb s "video.m3u8" || String.eqb s "audio.m3u8" || String.eqb s "av.m3u8".

(** The pattern of part_001, line 138, tried at the start of [s]: an
    underscore, the program (capture 1), an underscore, two runs of digits
    with an underscore after each, the type and the extension, the end. *)
Definition matchDimsTypeAt (s : string) : option string :=
  match s with
  | String c r =>
      if Ascii.eqb c underscore then
        match runThenUnderscore notUnderscore r with
        | Some (program, r1) =>
            match runThenUnderscore isDigit r1 with
            | Some (_, r2) =>
                match runThenUnderscore isDigit r2 with
                | Some (_, r3) => if isTypeSuffix r3 then Some program else None
                | None => None
                end
            | None => None
            end
        | None => None
        end
      else None
  | EmptyString => None
  end.

(** The pattern of part_003, line 310: as above without the type. *)
Definition matchDimsAt (s : string) : option string :=
  match s with
  | String c r =>
      if Ascii.eqb c underscore then
        match runThenUnderscore notUnderscore r with
        | Some (program, r1) =>
            match runThenUnderscore isDigit r1 with
            | Some (_, r2) =>
                let (h, r3) := span isDigit r2 in
                if isEmpty h then None
                else if String.eqb r3 ".m3u8" then Some program else None
            | None => None
            end
        | None => None
        end
      else None
  | EmptyString => None
  end.

(** The pattern of lines 143 and 315, tried at the start of [s]: an
    underscore, one or more characters other than an underscore (capture 1),
    the extension, the end of the input.  The class does not hold the
    underscore and the extension has none, so the text after the underscore
    at which the match starts has none; the capture is that text without the
    extension. *)
Definition matchGeneralAt (s : string) : option string :=
  match s with
  | String c r =>
      if Ascii.eqb c underscore && negb (contains underscore r) then
        match stripSuffix ".m3u8" r with
        | Some program => if isEmpty program then None else Some program
        | None => None
        end
      else None
  | EmptyString => None
  end.

(** [extractProgramNameFromOriginalId] with [first] for its first pattern;
    [None] is a falsy id on the way in, and [null] or [undefined] on the way
    out (the callers test the result with [||] only). *)
Definition extractWith (first : string -> option string)
  (originalVideoId : option string) : option string :=
  match originalVideoId with
  | None => None
  | Some id =>
      if isEmpty id then None
      else match search first id with
           | Some program => Some program
           | None => search matchGeneralAt id
           end
  end.

(** part_001, lines 135-147. *)
Definition extractProgramNameFromOriginalId : option string -> option string :=
  extractWith matchDimsTypeAt.

(** part_003, lines 307-321. *)
Definition extractProgramNameFromOriginalId_v3 : option string -> option string :=
  extractWith matchDimsAt.

(** The number of underscores of a string. *)
Definition underscores (s : string) : nat :=
  length (filter (Ascii.eqb underscore) (list_ascii_of_string s)).

(** The strings made of characters of the class [f]. *)
Definition allOf (f : ascii -> bool) (s : string) : bool :=
  forallb f (list_ascii_of_string s).

End ProgramIds.

(** ** The timers of the program selector ([src/unnamed/part_001])

    The relation that the handlers keep between [switchTimeoutRef],
    [isSwitching] and the timers that the host holds. *)

Module ProgramsAppInv.
Import ProgramsApp.

Definition isSwitchTimer (t : timer) : bool :=
  match callback t with
  | SwitchTimeout => true
  | ResetDropdown _ => false
  end.

(** Timer ids are fresh and distinct; the pending switch timeouts are the
    one that [switchTimeoutRef] holds, if any; and the ref holds one exactly
    while a switch is in flight. *)
Definition timersConsistent (s : session) : Prop :=
  NoDup (map timerId (timers s)) /\
  Forall (fun t => (timerId t < nextTimerId s)%nat) (timers s) /\
  map timerId (filter isSwitchTimer (timers s))
  = match switchTimeoutRef s with Some i => [i] | None => [] end /\
  isSwitching s = match switchTimeoutRef s with Some _ => true | None => false end.

(** *** Example: a load that has just resolved, two programs that are named
    by their original ids only, the second one active *)

Definition idTrack (i : Z) (isActive : bool) (n : string) : variantTrack :=
  {| id := i; active := isActive; label := None; videoLabel := None;
     programOfVideoId := Some n; programOfAudioId := None;
     fallbackName := "Program (VID: undefined, AID: undefined)";
     activeFallbackName := "Program (VID: 4, AID: 5)";
     bandwidth := 2000000 |}.

Definition loadingSession : session :=
  {| hlsUrl := Manifest.exampleUrl; manifestUrlToLoad := Manifest.exampleUrl;
     programs := []; selectedProgramLabel := EmptyString;
     isLoading := true; isSwitching := false; error := None; isPlayerReady := true;
     playerLogs := []; abrEnabled := false;
     switchTimeoutRef := None; manifestVersionRef := 1; playerRef := true;
     tracks := [idTrack 1 false "studio"; idTrack 2 true "wide"];
     selectVariantTrackThrows := None;
     engineCalls := [CallLoad Manifest.exampleUrl]; timers := []; nextTimerId := 1;
     now := 1000 |}.

End ProgramsAppInv.

(** ** Tokens, regions and loading in the iteration with region clicks
    ([src/unnamed/part_002]) *)

From Stdlib Require Import DecimalString Qround.

Module RegionsFlow.
Import Js RegionsApp.

(** *** Configuration (lines 8-23) *)

Definition API_BASE_URL : string := "https://api.dev.sariska.io".
Definition DEFAULT_API_KEY : string :=
  "22fd6f9d8dcb0d402d20d9ba34e5acc46dc34db99eb675913e".

(** A number in a template string. *)
Definition decimal (z : Z) : string := NilZero.string_of_int (Z.to_int z).

(** [s.includes(sub)]. *)
Definition includes (sub s : string) : bool :=
  match search (fun x => if startsWith sub x then Some tt else None) s with
  | Some _ => true
  | None => false
  end.

(** A string operand of [||] or of [!]: the empty string is falsy. *)
Definition truthy (v : option string) : option string :=
  match v with
  | Some x => if isEmpty x then None else Some x
  | None => None
  end.

(** [error.message] of what the parser and the fetches throw. *)
Definition messageOf (e : jsError) : string :=
  match e with
  | ErrorMessage m => m
  | HttpStatusError status => ("HTTP error! status: " ++ decimal status)%string
  end.

(** *** [generateRandomString] (lines 26-33)

    [Math.random()] is a sequence of numbers of the interval from 0 to 1
    (1 excluded) that the host hands out in order; [cursor] counts the numbers
    drawn so far. *)

Definition chars : string :=
  "ABCDEFGHIJKLMNOPQRSTUVWXYZabcdefghijklmnopqrstuvwxyz0123456789".

(** [s.charAt(i)]: the empty string out of range. *)
Definition charAt (i : Z) (s : string) : string :=
  if (i <? 0)%Z then EmptyString
  else match String.get (Z.to_nat i) s with
       | Some c => String c EmptyString
       | None => EmptyString
       end.

Fixpoint generateFrom (random : nat -> Q) (cursor : nat) (steps : nat) (result : string)
  : string * nat :=
  match steps with
  | O => (result, cursor)
  | S n =>
      generateFrom random (S cursor) n
        (result ++ charAt (Qfloor (random cursor * inject_Z (Z.of_nat (String.length chars))))
                          chars)
  end.

Definition generateRandomString (random : nat -> Q) (cursor : nat) (length : Z)
  : string * nat :=
  generateFrom random cursor (Z.to_nat length) EmptyString.

(** *** [sessionStorage] *)

Definition storage : Type := list (string * string).

Fixpoint getItem (key : string) (st : storage) : option string :=
  match st with
  | [] => None
  | (k, v) :: r => if String.eqb k key then Some v else getItem key r
  end.

Fixpoint setItem (key value : string) (st : storage) : storage :=
  match st with
  | [] => [(key, value)]
  | (k, v) :: r => if String.eqb k key then (k, value) :: r else (k, v) :: setItem key value r
  end.

Definition removeItem (key : string) (st : storage) : storage :=
  filter (fun kv => negb (String.eqb (fst kv) key)) st.

(** *** [getToken] (lines 131-200) *)

(** An [Error] object: its name, its message and the flag of line 194. *)
Record errorObject : Type := { e_name : string; e_message : string; isCorsError : bool }.

Definition newError (message : string) : errorObject :=
  {| e_name := "Error"; e_message := message; isCorsError := false |}.

(** What the POST to the token endpoint yields: a rejected [fetch], or a
    response with the outcome of [response.json()], of which the function
    reads [data.token]. *)
Inductive tokenResponse : Type :=
| TokenFetchRejected (e : errorObject)
| TokenResponse (ok : bool) (status : Z) (statusText : string)
    (json : errorObject + option string).

(** A run of [getToken]: the storage it leaves, the random numbers it drew,
    its [addLog] lines in order, whether it sent the request, and the token
    it returns or the error it throws. *)
Record tokenRun : Type := {
  storageAfter : storage;
  cursorAfter : nat;
  logged : list string;
  requested : bool;
  outcome : errorObject + string
}.

Definition corsError : errorObject :=
  {| e_name := "Error";
     e_message := "CORS_ERROR: Unable to connect to API due to Cross-Origin restrictions";
     isCorsError := true |}.

Definition getToken (st : storage) (random : nat -> Q) (cursor : nat)
  (endpoint : tokenResponse) : tokenRun :=
  if isEmpty API_BASE_URL || includes "undefined" API_BASE_URL then
    {| storageAfter := st; cursorAfter := cursor; logged := []; requested := false;
       outcome := inl (newError "API_BASE_URL is not properly configured") |}
  else
    let (id, cursor1) :=
      match truthy (getItem "id" st) with
      | Some v => (v, cursor)
      | None => generateRandomString random cursor 10
      end in
    let (name, cursor2) :=
      match truthy (getItem "name" st) with
      | Some v => (v, cursor1)
      | None => generateRandomString random cursor1 8
      end in
    let st1 := setItem "name" name (setItem "id" id st) in
    match truthy (getItem "token" st1) with
    | Some existingToken =>
        {| storageAfter := st1; cursorAfter := cursor2;
           logged := ["Using existing token from session storage"];
           requested := false; outcome := inr existingToken |}
    | None =>
        let thrown : errorObject + string :=
          match endpoint with
          | TokenFetchRejected e => inl e
          | TokenResponse ok status statusText json =>
              if negb ok
              then inl (newError ("HTTP " ++ decimal status ++ ": " ++ statusText))
              else match json with
                   | inl e => inl e
                   | inr dataToken =>
                       match truthy dataToken with
                       | Some t => inr t
                       | None => inl (newError "No token received from server")
                       end
                   end
          end in
        match thrown with
        | inr t =>
            {| storageAfter := setItem "token" t st1; cursorAfter := cursor2;
               logged := ["Attempting to generate authentication token...";
                          "Authentication token generated successfully"];
               requested := true; outcome := inr t |}
        | inl error =>
            if includes "CORS" (e_message error)
               || includes "Failed to fetch" (e_message error)
               || includes "Network request failed" (e_message error)
               || String.eqb (e_name error) "TypeError"
            then
              {| storageAfter := st1; cursorAfter := cursor2;
                 logged := ["Attempting to generate authentication token...";
                            ("Token generation failed: " ++ e_message error)%string;
                            "CORS Error detected. This usually means:";
                            "1. The server needs to allow your domain in CORS settings";
                            "2. Try running your React app from localhost instead";
                            "3. Contact the API provider to whitelist your domain"];
                 requested := true; outcome := inl corsError |}
            else
              {| storageAfter := st1; cursorAfter := cursor2;
                 logged := ["Attempting to generate authentication token...";
                            ("Token generation failed: " ++ e_message error)%string];
                 requested := true; outcome := inl error |}
        end
    end.

(** *** Setters of the component state *)

Definition set_manifestUrlToLoad (v : string) (s : session) : session :=
  {| hlsUrl := hlsUrl s; manifestUrlToLoad := v; layouts := layouts s;
     selectedLayout := selectedLayout s; isLoading := isLoading s;
     isSwitching := isSwitching s; error := error s; isPlayerReady := isPlayerReady s;
     playerLogs := playerLogs s; abrEnabled := abrEnabled s; regions := regions s;
     allLayoutRegions := allLayoutRegions s; canvasDimensions := canvasDimensions s;
     token := token s; manualToken := manualToken s;
     showManualTokenInput := showManualTokenInput s;
     isTokenLoading := isTokenLoading s; videoRef := videoRef s;
     videoContainerRef := videoContainerRef s;
     currentLayoutRef := currentLayoutRef s |}.

Definition set_layouts (v : list layout) (s : session) : session :=
  {| hlsUrl := hlsUrl s; manifestUrlToLoad := manifestUrlToLoad s; layouts := v;
     selectedLayout := selectedLayout s; isLoading := isLoading s;
     isSwitching := isSwitching s; error := error s; isPlayerReady := isPlayerReady s;
     playerLogs := playerLogs s; abrEnabled := abrEnabled s; regions := regions s;
     allLayoutRegions := allLayoutRegions s; canvasDimensions := canvasDimensions s;
     token := token s; manualToken := manualToken s;
     showManualTokenInput := showManualTokenInput s;
     isTokenLoading := isTokenLoading s; videoRef := videoRef s;
     videoContainerRef := videoContainerRef s;
     currentLayoutRef := currentLayoutRef s |}.

Definition set_isLoading (v : bool) (s : session) : session :=
  {| hlsUrl := hlsUrl s; manifestUrlToLoad := manifestUrlToLoad s;
     layouts := layouts s; selectedLayout := selectedLayout s; isLoading := v;
     isSwitching := isSwitching s; error := error s; isPlayerReady := isPlayerReady s;
     playerLogs := playerLogs s; abrEnabled := abrEnabled s; regions := regions s;
     allLayoutRegions := allLayoutRegions s; canvasDimensions := canvasDimensions s;
     token := token s; manualToken := manualToken s;
     showManualTokenInput := showManualTokenInput s;
     isTokenLoading := isTokenLoading s; videoRef := videoRef s;
     videoContainerRef := videoContainerRef s;
     currentLayoutRef := currentLayoutRef s |}.

Definition set_isSwitching (v : bool) (s : session) : session :=
  {| hlsUrl := hlsUrl s; manifestUrlToLoad := manifestUrlToLoad s;
     layouts := layouts s; selectedLayout := selectedLayout s;
     isLoading := isLoading s; isSwitching := v; error := error s;
     isPlayerReady := isPlayerReady s; playerLogs := playerLogs s;
     abrEnabled := abrEnabled s; regions := regions s;
     allLayoutRegions := allLayoutRegions s; canvasDimensions := canvasDimensions s;
     token := token s; manualToken := manualToken s;
     showManualTokenInput := showManualTokenInput s;
     isTokenLoading := isTokenLoading s; videoRef := videoRef s;
     videoContainerRef := videoContainerRef s;
     currentLayoutRef := currentLayoutRef s |}.

Definition set_error (v : option string) (s : session) : session :=
  {| hlsUrl := hlsUrl s; manifestUrlToLoad := manifestUrlToLoad s;
     layouts := layouts s; selectedLayout := selectedLayout s;
     isLoading := isLoading s; isSwitching := isSwitching s; error := v;
     isPlayerReady := isPlayerReady s; playerLogs := playerLogs s;
     abrEnabled := abrEnabled s; regions := regions s;
     allLayoutRegions := allLayoutRegions s; canvasDimensions := canvasDimensions s;
     token := token s; manualToken := manualToken s;
     showManualTokenInput := showManualTokenInput s;
     isTokenLoading := isTokenLoading s; videoRef := videoRef s;
     videoContainerRef := videoContainerRef s;
     currentLayoutRef := currentLayoutRef s |}.

Definition set_playerLogs (v : list appLog) (s : session) : session :=
  {| hlsUrl := hlsUrl s; manifestUrlToLoad := manifestUrlToLoad s;
     layouts := layouts s; selectedLayout := selectedLayout s;
     isLoading := isLoading s; isSwitching := isSwitching s; error := error s;
     isPlayerReady := isPlayerReady s; playerLogs := v; abrEnabled := abrEnabled s;
     regions := regions s; allLayoutRegions := allLayoutRegions s;
     canvasDimensions := canvasDimensions s; token := token s;
     manualToken := manualToken s; showManualTokenInput := showManualTokenInput s;
     isTokenLoading := isTokenLoading s; videoRef := videoRef s;
     videoContainerRef := videoContainerRef s;
     currentLayoutRef := currentLayoutRef s |}.

Definition set_regions (v : list region) (s : session) : session :=
  {| hlsUrl := hlsUrl s; manifestUrlToLoad := manifestUrlToLoad s;
     layouts := layouts s; selectedLayout := selectedLayout s;
     isLoading := isLoading s; isSwitching := isSwitching s; error := error s;
     isPlayerReady := isPlayerReady s; playerLogs := playerLogs s;
     abrEnabled := abrEnabled s; regions := v; allLayoutRegions := allLayoutRegions s;
     canvasDimensions := canvasDimensions s; token := token s;
     manualToken := manualToken s; showManualTokenInput := showManualTokenInput s;
     isTokenLoading := isTokenLoading s; videoRef := videoRef s;
     videoContainerRef := videoContainerRef s;
     currentLayoutRef := currentLayoutRef s |}.

Definition set_allLayoutRegions (v : list layoutRegionSet) (s : session) : session :=
  {| hlsUrl := hlsUrl s; manifestUrlToLoad := manifestUrlToLoad s;
     layouts := layouts s; selectedLayout := selectedLayout s;
     isLoading := isLoading s; isSwitching := isSwitching s; error := error s;
     isPlayerReady := isPlayerReady s; playerLogs := playerLogs s;
     abrEnabled := abrEnabled s; regions := regions s; allLayoutRegions := v;
     canvasDimensions := canvasDimensions s; token := token s;
     manualToken := manualToken s; showManualTokenInput := showManualTokenInput s;
     isTokenLoading := isTokenLoading s; videoRef := videoRef s;
     videoContainerRef := videoContainerRef s;
     currentLayoutRef := currentLayoutRef s |}.

Definition set_canvasDimensions (v : dimensions) (s : session) : session :=
  {| hlsUrl := hlsUrl s; manifestUrlToLoad := manifestUrlToLoad s;
     layouts := layouts s; selectedLayout := selectedLayout s;
     isLoading := isLoading s; isSwitching := isSwitching s; error := error s;
     isPlayerReady := isPlayerReady s; playerLogs := playerLogs s;
     abrEnabled := abrEnabled s; regions := regions s;
     allLayoutRegions := allLayoutRegions s; canvasDimensions := v; token := token s;
     manualToken := manualToken s; showManualTokenInput := showManualTokenInput s;
     isTokenLoading := isTokenLoading s; videoRef := videoRef s;
     videoContainerRef := videoContainerRef s;
     currentLayoutRef := currentLayoutRef s |}.

Definition set_token (v : option string) (s : session) : session :=
  {| hlsUrl := hlsUrl s; manifestUrlToLoad := manifestUrlToLoad s;
     layouts := layouts s; selectedLayout := selectedLayout s;
     isLoading := isLoading s; isSwitching := isSwitching s; error := error s;
     isPlayerReady := isPlayerReady s; playerLogs := playerLogs s;
     abrEnabled := abrEnabled s; regions := regions s;
     allLayoutRegions := allLayoutRegions s; canvasDimensions := canvasDimensions s;
     token := v; manualToken := manualToken s;
     showManualTokenInput := showManualTokenInput s;
     isTokenLoading := isTokenLoading s; videoRef := videoRef s;
     videoContainerRef := videoContainerRef s;
     currentLayoutRef := currentLayoutRef s |}.

Definition set_manualToken (v : string) (s : session) : session :=
  {| hlsUrl := hlsUrl s; manifestUrlToLoad := manifestUrlToLoad s;
     layouts := layouts s; selectedLayout := selectedLayout s;
     isLoading := isLoading s; isSwitching := isSwitching s; error := error s;
     isPlayerReady := isPlayerReady s; playerLogs := playerLogs s;
     abrEnabled := abrEnabled s; regions := regions s;
     allLayoutRegions := allLayoutRegions s; canvasDimensions := canvasDimensions s;
     token := token s; manualToken := v;
     showManualTokenInput := showManualTokenInput s;
     isTokenLoading := isTokenLoading s; videoRef := videoRef s;
     videoContainerRef := videoContainerRef s;
     currentLayoutRef := currentLayoutRef s |}.

Definition set_showManualTokenInput (v : bool) (s : session) : session :=
  {| hlsUrl := hlsUrl s; manifestUrlToLoad := manifestUrlToLoad s;
     layouts := layouts s; selectedLayout := selectedLayout s;
     isLoading := isLoading s; isSwitching := isSwitching s; error := error s;
     isPlayerReady := isPlayerReady s; playerLogs := playerLogs s;
     abrEnabled := abrEnabled s; regions := regions s;
     allLayoutRegions := allLayoutRegions s; canvasDimensions := canvasDimensions s;
     token := token s; manualToken := manualToken s; showManualTokenInput := v;
     isTokenLoading := isTokenLoading s; videoRef := videoRef s;
     videoContainerRef := videoContainerRef s;
     currentLayoutRef := currentLayoutRef s |}.

Definition set_isTokenLoading (v : bool) (s : session) : session :=
  {| hlsUrl := hlsUrl s; manifestUrlToLoad := manifestUrlToLoad s;
     layouts := layouts s; selectedLayout := selectedLayout s;
     isLoading := isLoading s; isSwitching := isSwitching s; error := error s;
     isPlayerReady := isPlayerReady s; playerLogs := playerLogs s;
     abrEnabled := abrEnabled s; regions := regions s;
     allLayoutRegions := allLayoutRegions s; canvasDimensions := canvasDimensions s;
     token := token s; manualToken := manualToken s;
     showManualTokenInput := showManualTokenInput s; isTokenLoading := v;
     videoRef := videoRef s; videoContainerRef := videoContainerRef s;
     currentLayoutRef := currentLayoutRef s |}.

Definition set_currentLayoutRef (v : option string) (s : session) : session :=
  {| hlsUrl := hlsUrl s; manifestUrlToLoad := manifestUrlToLoad s;
     layouts := layouts s; selectedLayout := selectedLayout s;
     isLoading := isLoading s; isSwitching := isSwitching s; error := error s;
     isPlayerReady := isPlayerReady s; playerLogs := playerLogs s;
     abrEnabled := abrEnabled s; regions := regions s;
     allLayoutRegions := allLayoutRegions s; canvasDimensions := canvasDimensions s;
     token := token s; manualToken := manualToken s;
     showManualTokenInput := showManualTokenInput s;
     isTokenLoading := isTokenLoading s; videoRef := videoRef s;
     videoContainerRef := videoContainerRef s; currentLayoutRef := v |}.

Definition log (message : string) (s : session) : session :=
  addLog (LogOther message) s.

(** *** Token initialisation (lines 383-407), [applyManualToken] (lines
    203-211) and [clearToken] (lines 214-220) *)

Definition initTokenDone (run : tokenRun) (s : session) : session :=
  let s1 := fold_left (fun acc m => log m acc) (logged run) s in
  match outcome run with
  | inr t =>
      set_isTokenLoading false
        (set_showManualTokenInput false (set_error None (set_token (Some t) s1)))
  | inl err =>
      let errorMessage := e_message err in
      let s2 := log ("Token initialization failed: " ++ errorMessage) s1 in
      set_isTokenLoading false
        (if isCorsError err || includes "CORS" errorMessage
            || includes "Failed to fetch" errorMessage
         then set_showManualTokenInput true
                (set_error
                   (Some "Connection blocked by CORS policy. Please use manual token input below.")
                   s2)
         else set_error (Some ("Authentication failed: " ++ errorMessage)%string) s2)
  end.

Definition initToken (st : storage) (random : nat -> Q) (cursor : nat)
  (endpoint : tokenResponse) (s : session) : session * tokenRun :=
  let run := getToken st random cursor endpoint in
  (initTokenDone run (set_isTokenLoading true s), run).

Definition applyManualToken (st : storage) (s : session) : session * storage :=
  if isEmpty (trim (manualToken s)) then (s, st)
  else
    (log "Manual token applied successfully"
       (set_showManualTokenInput false
          (set_error None (set_token (Some (trim (manualToken s))) s))),
     setItem "token" (trim (manualToken s)) st).

Definition clearToken (st : storage) (s : session) : session * storage :=
  (log "Token cleared from session"
     (set_showManualTokenInput false (set_manualToken EmptyString (set_token None s))),
   removeItem "token" st).

(** *** [fetchAllLayoutRegions] (lines 222-264) *)

(** [l.findIndex(p)]: -1 when no element passes. *)
Fixpoint findIndexFrom {A : Type} (p : A -> bool) (l : list A) (i : Z) : Z :=
  match l with
  | [] => (-1)%Z
  | a :: r => if p a then i else findIndexFrom p r (i + 1)
  end.

Definition findIndex {A : Type} (p : A -> bool) (l : list A) : Z := findIndexFrom p l 0.

(** Lines 231-237: the two path segments after the segment hls. *)
Definition streamPathOf (manifestUrlToLoad : string) : completion string :=
  let urlParts := split slash manifestUrlToLoad in
  let hlsIndex := findIndex (fun part => String.eqb part "hls") urlParts in
  if (hlsIndex =? -1)%Z || (Z.of_nat (length urlParts) <=? hlsIndex + 2)%Z
  then Throw (ErrorMessage "Could not parse stream path from HLS URL")
  else Return (nth (Z.to_nat (hlsIndex + 1)) urlParts EmptyString ++ "/"
               ++ nth (Z.to_nat (hlsIndex + 2)) urlParts EmptyString)%string.

(** What the POST to the regions endpoint yields; of the parsed body the
    function reads [data.data], kept when it is an array. *)
Inductive regionsResponse : Type :=
| RegionsFetchRejected (message : string)
| RegionsResponse (ok : bool) (status : Z)
    (json : completion (option (list layoutRegionSet))).

Definition regionsFailed (message : string) (s : session) : session :=
  let s1 := log ("Failed to fetch layout regions: " ++ message) s in
  if includes "CORS" message || includes "Failed to fetch" message
  then log "Layout regions fetch blocked by CORS - this may affect region clicking functionality"
           s1
  else s1.

(** The callback for the [token] and the [manifestUrlToLoad] of the render
    that made it; the second component lists the stream paths it asked the
    endpoint for. *)
Definition fetchAllLayoutRegions (token : option string) (manifestUrlToLoad : string)
  (endpoint : string -> regionsResponse) (s : session) : session * list string :=
  match truthy token with
  | None => (s, [])
  | Some _ =>
      if isEmpty manifestUrlToLoad then (s, [])
      else if isEmpty API_BASE_URL || includes "undefined" API_BASE_URL
      then (regionsFailed "API_BASE_URL is not properly configured" s, [])
      else
        match streamPathOf manifestUrlToLoad with
        | Throw e => (regionsFailed (messageOf e) s, [])
        | Return streamPath =>
            let s1 := log ("Fetching layout regions for stream path: " ++ streamPath) s in
            (match endpoint streamPath with
             | RegionsFetchRejected message => regionsFailed message s1
             | RegionsResponse ok status json =>
                 if negb ok then regionsFailed (messageOf (HttpStatusError status)) s1
                 else match json with
                      | Throw e => regionsFailed (messageOf e) s1
                      | Return (Some data) =>
                          log ("Successfully loaded "
                               ++ decimal (Z.of_nat (length data))
                               ++ " layout configurations.")
                              (set_allLayoutRegions data s1)
                      | Return None => s1
                      end
             end, [streamPath])
        end
  end.

(** *** [mapRegionsToCurrentLayout] (lines 266-282)

    A canvas size that is 0 (or missing) is falsy. *)
Definition mapRegionsToCurrentLayout (s : session) : session :=
  if isEmpty (selectedLayout s) || (length (allLayoutRegions s) =? 0)%nat
  then set_regions [] s
  else
    match find (fun l => String.eqb (toLowerCase (layout_name l))
                                    (toLowerCase (selectedLayout s)))
               (allLayoutRegions s) with
    | Some currentLayoutData =>
        set_canvasDimensions
          {| dim_width := if isZero (canvas_width currentLayoutData) then 1920%Q
                          else canvas_width currentLayoutData;
             dim_height := if isZero (canvas_height currentLayoutData) then 1080%Q
                           else canvas_height currentLayoutData |}
          (set_regions (lr_regions currentLayoutData) s)
    | None => set_regions [] s
    end.

(** *** [resetAllState] (lines 285-303), [handleLoadClick] (lines 366-373)
    and [handleLayoutChange] (lines 375-378) *)

Inductive engineCall : Type :=
| CallUnload
| CallLoad (url : string) (startTime : Q).

(** What the handlers see of the player: whether [playerRef.current] is
    set, and the message of the error that [unload] throws, if it does. *)
Record playerHandle : Type := { playerRef : bool; unloadThrows : option string }.

Definition resetAllState (player : playerHandle) (s : session)
  : session * list engineCall :=
  let s1 :=
    set_currentLayoutRef None
      (set_error None
         (set_canvasDimensions {| dim_width := 1920; dim_height := 1080 |}
            (set_allLayoutRegions []
               (set_regions []
                  (withSelectedLayout EmptyString
                     (set_layouts [] (log "Resetting all state for new stream..." s))))))) in
  if playerRef player then
    match unloadThrows player with
    | Some message =>
        (log ("Warning: Error during player unload: " ++ message) s1, [CallUnload])
    | None => (s1, [CallUnload])
    end
  else (s1, []).

Definition handleLoadClick (player : playerHandle) (s : session)
  : session * list engineCall :=
  if isEmpty (trim (hlsUrl s))
  then (set_error (Some "Please enter an HLS URL.") s, [])
  else
    let (s1, calls) := resetAllState player s in
    (set_manifestUrlToLoad (trim (hlsUrl s)) s1, calls).

Definition handleLayoutChange (value : string) (s : session) : session :=
  if isLoading s || isSwitching s then s else withSelectedLayout value s.

(** *** The layout effect (lines 519-543) *)

(** What [loadLayout] keeps across its [await]. *)
Record pendingLoad : Type := { loading : string; loadCall : engineCall }.

Definition layoutEffect (player : playerHandle) (s : session)
  : session * option pendingLoad :=
  if isEmpty (selectedLayout s) || negb (isPlayerReady s)
     || (length (layouts s) =? 0)%nat || isLoading s || negb (playerRef player)
  then (s, None)
  else
    match find (fun l => String.eqb (name l) (selectedLayout s)) (layouts s) with
    | None => (s, None)
    | Some layoutData =>
        if match currentLayoutRef s with
           | Some c => String.eqb c (selectedLayout s)
           | None => false
           end
        then (s, None)
        else
          let currentTime :=
            match videoRef s with Some video => RegionsApp.currentTime video | None => 0%Q end in
          (log ("Switching to layout: " ++ selectedLayout s)
             (set_error None (set_isSwitching true s)),
           Some {| loading := selectedLayout s;
                   loadCall := CallLoad (masterUrl layoutData)
                                 (if Qlt_bool 1 currentTime then currentTime else 0%Q) |})
    end.

Definition loadLayoutResolved (p : pendingLoad) (s : session) : session :=
  set_isSwitching false
    (log ("Successfully loaded: " ++ loading p)
       (set_currentLayoutRef (Some (loading p)) s)).

Definition loadLayoutRejected (message : string) (s : session) : session :=
  set_isSwitching false
    (set_error (Some ("Error loading layout: " ++ message)%string)
       (log ("Error loading layout: " ++ message) s)).

(** *** The manifest effect (lines 488-517)

    [loadManifest] up to its first [await], and its continuations: after
    the parser has settled, and after [fetchAllLayoutRegions] has.  The
    effect keeps the [manifestUrlToLoad] and the [token] of its render. *)

Definition parserLine (m : parserLog) : string :=
  match m with
  | LogFetching => "Fetching and parsing HLS manifest..."
  | LogFetched => "Manifest fetched. Parsing for layouts..."
  | LogParsed n names =>
      ("Parsed " ++ decimal (Z.of_nat n) ++ " layouts: "
         ++ String.concat ", " names)%string
  | LogParseError e => ("Error parsing manifest: " ++ messageOf e)%string
  | LogLayoutUrl _ _ | LogVariantCount _ | LogStream _ _ => EmptyString
  end.

Definition parserLines (events : list parserEvent) : list string :=
  flat_map (fun ev => match ev with Log m => [parserLine m] | Fetch _ => [] end) events.

Definition manifestEffectRuns (s : session) : bool :=
  negb (isEmpty (manifestUrlToLoad s)) && isPlayerReady s
  && match truthy (token s) with Some _ => true | None => false end.

Definition loadManifestStart (s : session) : session :=
  log ("Loading manifest: " ++ manifestUrlToLoad s)
    (set_playerLogs [] (set_error None (set_isLoading true s))).

(** After [parseManifestForLayouts] settled with [parsed], having written
    [events]: without layouts, or after a throw, the load ends here. *)
Definition loadManifestParsed (parsed : list parserEvent * completion (list layout))
  (s : session) : session :=
  let s1 := fold_left (fun acc m => log m acc) (parserLines (fst parsed)) s in
  match snd parsed with
  | Throw error =>
      set_isLoading false
        (log ("Error loading manifest: " ++ messageOf error)
           (set_error (Some ("Error loading manifest: " ++ messageOf error)%string) s1))
  | Return parsedLayouts =>
      let s2 := set_layouts parsedLayouts s1 in
      match parsedLayouts with
      | _ :: _ => s2
      | [] =>
          set_isLoading false
            (log "ERROR: No layouts could be parsed from the manifest."
               (set_error (Some "No layouts found in manifest") s2))
      end
  end.

(** After [fetchAllLayoutRegions] returned (it does not throw). *)
Definition loadManifestFinish (parsedLayouts : list layout) (s : session) : session :=
  match parsedLayouts with
  | first :: _ => set_isLoading false (withSelectedLayout (name first) s)
  | [] => s
  end.

(** The whole of [loadManifest] when no other callback runs between its
    steps; the second component lists the stream paths asked for. *)
Definition loadManifest (localeCompare : string -> string -> Z)
  (fetch : string -> fetchOutcome) (endpoint : string -> regionsResponse)
  (s : session) : session * list string :=
  let url := manifestUrlToLoad s in
  let tok := token s in
  let parsed := parseManifestForLayouts localeCompare fetch url in
  let s1 := loadManifestParsed parsed (loadManifestStart s) in
  match snd parsed with
  | Return (first :: rest) =>
      let (s2, asked) := fetchAllLayoutRegions tok url endpoint s1 in
      (loadManifestFinish (first :: rest) s2, asked)
  | _ => (s1, [])
  end.

(** *** Examples *)

Definition studioRegions : layoutRegionSet :=
  {| layout_name := "Studio"; canvas_width := 1280; canvas_height := 0;
     lr_regions := [wideRegion] |}.

Definition readyPlayer : playerHandle := {| playerRef := true; unloadThrows := None |}.

(** A session without token, in whose input a token was typed with blanks
    around it. *)
Definition manualSession : session :=
  set_manualToken "  tok-123 " (set_token None (exampleSession [] [])).

End RegionsFlow.

(** ** Runs of the stall watchdog ([src/unnamed/part_003], lines 89-133) *)

From Stdlib Require Import Lqa.

Module WatchdogRuns.
Import Watchdog.

(** [n] consecutive callbacks of the one-second interval, with no other
    event between them: the position of the video changes only when the
    watchdog assigns it, and is then read back as assigned. *)
Definition ticks (n : nat) (s : session) : session := Nat.iter n stallCheck s.

(** The positions that [k] successive forward seeks from [t] assign. *)
Fixpoint nudges (t : Q) (k : nat) : list Q :=
  match k with
  | O => []
  | S k' => (t + VOD_NUDGE)%Q :: nudges (t + VOD_NUDGE)%Q k'
  end.

(** *** Example: a recording frozen at 42 s *)

Definition frozenVod : session :=
  {| playbackStalled := false; lastPlaybackTime := 42; playerLogs := [];
     stallCountRef := 0; lastTimeUpdateRef := 42; stallCheckIntervalRef := Some 1;
     videoRef := Some {| paused := false; currentTime := 42 |};
     playerRef := Some {| isLive := false; seekRangeEnd := 600 |};
     seeks := []; timeouts := [];
     intervals := [{| intervalId := 1; period := 1000; tick := StallCheck |}];
     nextTimerId := 2; now := 60000 |}.

End WatchdogRuns.

(** ** Example for the first iteration: two layouts, the last one selected *)

Module RegionsDraftExamples.
Import RegionsDraft.


End RegionsDraftExamples.

(** ** Loading a manifest in [src/App.js]

    The load effect (lines 221-273) with the timer that loads the first
    layout, the layout effect (lines 276-342) and [handleLoadClick] (lines
    346-353), over the state of the component. *)

Module LayoutsLoad.
Import Js.

(** The arguments of the [addLog] calls: those of the parser, those of the
    layout effect and of the dropdown, and those of the load effect. *)
Inductive appLog : Type :=
| LogParser (m : parserLog)
| LogLayout (m : LayoutsApp.appLog)
| LogFound (n : nat) (firstName : string)             (* line 237 *)
| LogAutoLoading (layoutName url : string)            (* line 242 *)
| LogAutoLoaded (layoutName : string)                 (* line 245 *)
| LogAutoLoadError (e : jsError)                      (* line 254 *)
| LogNoLayouts                                        (* line 260 *)
| LogManifestError (e : jsError)                      (* line 265 *)
| LogEmptyUrl.                                        (* line 351 *)

Inductive appError : Type :=
| ErrLoadingLayout (e : jsError)                      (* line 334 *)
| ErrLoadingFirstLayout (e : jsError)                 (* line 255 *)
| ErrNoLayouts                                        (* line 259 *)
| ErrLoadingManifest (e : jsError)                    (* line 264 *)
| ErrEmptyUrl.                                        (* line 350 *)

(** Callbacks handed to [setTimeout]; the one of line 240 closes over the
    first layout and over the [isPlayerReady] of the render in which the load
    effect ran. *)
Inductive timerCallback : Type :=
| AutoLoad (firstLayout : Manifest.layout) (isPlayerReady : bool)
| RestoreTime (t : Q).

Record timer : Type := { timerId : nat; due : Z; callback : timerCallback }.

Record session : Type := {
  hlsUrl : string;
  manifestUrlToLoad : string;
  layouts : list Manifest.layout;
  selectedLayout : string;
  isLoading : bool;
  isSwitching : bool;
  error : option appError;
  isPlayerReady : bool;
  playerLogs : list appLog;
  abrEnabled : bool;
  playerRef : bool;
  currentLayoutRef : option string;
  videoCurrentTime : option Q;
  variants : list LayoutsApp.variantInfo;
  engineCalls : list LayoutsApp.engineCall;
  timers : list timer;
  nextTimerId : nat;
  now : Z
}.

Definition set_manifestUrlToLoad (v : string) (s : session) : session :=
  {| hlsUrl := hlsUrl s; manifestUrlToLoad := v; layouts := layouts s;
     selectedLayout := selectedLayout s; isLoading := isLoading s;
     isSwitching := isSwitching s; error := error s; isPlayerReady := isPlayerReady s;
     playerLogs := playerLogs s; abrEnabled := abrEnabled s; playerRef := playerRef s;
     currentLayoutRef := currentLayoutRef s; videoCurrentTime := videoCurrentTime s;
     variants := variants s; engineCalls := engineCalls s; timers := timers s;
     nextTimerId := nextTimerId s; now := now s |}.

Definition set_layouts (v : list Manifest.layout) (s : session) : session :=
  {| hlsUrl := hlsUrl s; manifestUrlToLoad := manifestUrlToLoad s; layouts := v;
     selectedLayout := selectedLayout s; isLoading := isLoading s;
     isSwitching := isSwitching s; error := error s; isPlayerReady := isPlayerReady s;
     playerLogs := playerLogs s; abrEnabled := abrEnabled s; playerRef := playerRef s;
     currentLayoutRef := currentLayoutRef s; videoCurrentTime := videoCurrentTime s;
     variants := variants s; engineCalls := engineCalls s; timers := timers s;
     nextTimerId := nextTimerId s; now := now s |}.

Definition set_selectedLayout (v : string) (s : session) : session :=
  {| hlsUrl := hlsUrl s; manifestUrlToLoad := manifestUrlToLoad s;
     layouts := layouts s; selectedLayout := v; isLoading := isLoading s;
     isSwitching := isSwitching s; error := error s; isPlayerReady := isPlayerReady s;
     playerLogs := playerLogs s; abrEnabled := abrEnabled s; playerRef := playerRef s;
     currentLayoutRef := currentLayoutRef s; videoCurrentTime := videoCurrentTime s;
     variants := variants s; engineCalls := engineCalls s; timers := timers s;
     nextTimerId := nextTimerId s; now := now s |}.

Definition set_isLoading (v : bool) (s : session) : session :=
  {| hlsUrl := hlsUrl s; manifestUrlToLoad := manifestUrlToLoad s;
     layouts := layouts s; selectedLayout := selectedLayout s; isLoading := v;
     isSwitching := isSwitching s; error := error s; isPlayerReady := isPlayerReady s;
     playerLogs := playerLogs s; abrEnabled := abrEnabled s; playerRef := playerRef s;
     currentLayoutRef := currentLayoutRef s; videoCurrentTime := videoCurrentTime s;
     variants := variants s; engineCalls := engineCalls s; timers := timers s;
     nextTimerId := nextTimerId s; now := now s |}.

Definition set_isSwitching (v : bool) (s : session) : session :=
  {| hlsUrl := hlsUrl s; manifestUrlToLoad := manifestUrlToLoad s;
     layouts := layouts s; selectedLayout := selectedLayout s;
     isLoading := isLoading s; isSwitching := v; error := error s;
     isPlayerReady := isPlayerReady s; playerLogs := playerLogs s;
     abrEnabled := abrEnabled s; playerRef := playerRef s;
     currentLayoutRef := currentLayoutRef s; videoCurrentTime := videoCurrentTime s;
     variants := variants s; engineCalls := engineCalls s; timers := timers s;
     nextTimerId := nextTimerId s; now := now s |}.

Definition set_error (v : option appError) (s : session) : session :=
  {| hlsUrl := hlsUrl s; manifestUrlToLoad := manifestUrlToLoad s;
     layouts := layouts s; selectedLayout := selectedLayout s;
     isLoading := isLoading s; isSwitching := isSwitching s; error := v;
     isPlayerReady := isPlayerReady s; playerLogs := playerLogs s;
     abrEnabled := abrEnabled s; playerRef := playerRef s;
     currentLayoutRef := currentLayoutRef s; videoCurrentTime := videoCurrentTime s;
     variants := variants s; engineCalls := engineCalls s; timers := timers s;
     nextTimerId := nextTimerId s; now := now s |}.

Definition set_playerLogs (v : list appLog) (s : session) : session :=
  {| hlsUrl := hlsUrl s; manifestUrlToLoad := manifestUrlToLoad s;
     layouts := layouts s; selectedLayout := selectedLayout s;
     isLoading := isLoading s; isSwitching := isSwitching s; error := error s;
     isPlayerReady := isPlayerReady s; playerLogs := v; abrEnabled := abrEnabled s;
     playerRef := playerRef s; currentLayoutRef := currentLayoutRef s;
     videoCurrentTime := videoCurrentTime s; variants := variants s;
     engineCalls := engineCalls s; timers := timers s; nextTimerId := nextTimerId s;
     now := now s |}.

Definition set_currentLayoutRef (v : option string) (s : session) : session :=
  {| hlsUrl := hlsUrl s; manifestUrlToLoad := manifestUrlToLoad s;
     layouts := layouts s; selectedLayout := selectedLayout s;
     isLoading := isLoading s; isSwitching := isSwitching s; error := error s;
     isPlayerReady := isPlayerReady s; playerLogs := playerLogs s;
     abrEnabled := abrEnabled s; playerRef := playerRef s; currentLayoutRef := v;
     videoCurrentTime := videoCurrentTime s; variants := variants s;
     engineCalls := engineCalls s; timers := timers s; nextTimerId := nextTimerId s;
     now := now s |}.

Definition set_videoCurrentTime (v : option Q) (s : session) : session :=
  {| hlsUrl := hlsUrl s; manifestUrlToLoad := manifestUrlToLoad s;
     layouts := layouts s; selectedLayout := selectedLayout s;
     isLoading := isLoading s; isSwitching := isSwitching s; error := error s;
     isPlayerReady := isPlayerReady s; playerLogs := playerLogs s;
     abrEnabled := abrEnabled s; playerRef := playerRef s;
     currentLayoutRef := currentLayoutRef s; videoCurrentTime := v;
     variants := variants s; engineCalls := engineCalls s; timers := timers s;
     nextTimerId := nextTimerId s; now := now s |}.

Definition set_engineCalls (v : list LayoutsApp.engineCall) (s : session) : session :=
  {| hlsUrl := hlsUrl s; manifestUrlToLoad := manifestUrlToLoad s;
     layouts := layouts s; selectedLayout := selectedLayout s;
     isLoading := isLoading s; isSwitching := isSwitching s; error := error s;
     isPlayerReady := isPlayerReady s; playerLogs := playerLogs s;
     abrEnabled := abrEnabled s; playerRef := playerRef s;
     currentLayoutRef := currentLayoutRef s; videoCurrentTime := videoCurrentTime s;
     variants := variants s; engineCalls := v; timers := timers s;
     nextTimerId := nextTimerId s; now := now s |}.

Definition set_timers (v : list timer) (s : session) : session :=
  {| hlsUrl := hlsUrl s; manifestUrlToLoad := manifestUrlToLoad s;
     layouts := layouts s; selectedLayout := selectedLayout s;
     isLoading := isLoading s; isSwitching := isSwitching s; error := error s;
     isPlayerReady := isPlayerReady s; playerLogs := playerLogs s;
     abrEnabled := abrEnabled s; playerRef := playerRef s;
     currentLayoutRef := currentLayoutRef s; videoCurrentTime := videoCurrentTime s;
     variants := variants s; engineCalls := engineCalls s; timers := v;
     nextTimerId := nextTimerId s; now := now s |}.

Definition set_nextTimerId (v : nat) (s : session) : session :=
  {| hlsUrl := hlsUrl s; manifestUrlToLoad := manifestUrlToLoad s;
     layouts := layouts s; selectedLayout := selectedLayout s;
     isLoading := isLoading s; isSwitching := isSwitching s; error := error s;
     isPlayerReady := isPlayerReady s; playerLogs := playerLogs s;
     abrEnabled := abrEnabled s; playerRef := playerRef s;
     currentLayoutRef := currentLayoutRef s; videoCurrentTime := videoCurrentTime s;
     variants := variants s; engineCalls := engineCalls s; timers := timers s;
     nextTimerId := v; now := now s |}.


(** [addLog] (lines 26-32): newest first, at most 20 kept. *)
Definition addLog (m : appLog) (s : session) : session :=
  set_playerLogs (m :: firstn 19 (playerLogs s)) s.

Definition callEngine (c : LayoutsApp.engineCall) (s : session) : session :=
  set_engineCalls (engineCalls s ++ [c]) s.

Definition setTimeout (cb : timerCallback) (delay : Z) (s : session) : session :=
  set_nextTimerId (S (nextTimerId s))
    (set_timers (timers s ++ [{| timerId := nextTimerId s; due := (now s + delay)%Z;
                                 callback := cb |}]) s).

(** [handleLoadClick] (lines 346-353). *)
Definition handleLoadClick (s : session) : session :=
  if isEmpty (trim (hlsUrl s))
  then addLog LogEmptyUrl (set_error (Some ErrEmptyUrl) s)
  else set_manifestUrlToLoad (trim (hlsUrl s)) s.

(** *** The load effect (lines 221-273) *)

(** [loadManifest] up to its [await] (lines 225-231). *)
Definition loadManifestStart (s : session) : session :=
  set_selectedLayout EmptyString
    (set_layouts [] (set_error None (set_isLoading true s))).

(** The log lines of the parser, in the order in which it writes them. *)
Definition parserLines (events : list parserEvent) (s : session) : session :=
  fold_left (fun acc ev => match ev with
                           | Log m => addLog (LogParser m) acc
                           | Fetch _ => acc
                           end) events s.

(** [loadManifest] from the result of the parser on (lines 231-271);
    [readyAtStart] is the [isPlayerReady] that the effect closed over. *)
Definition loadManifestParsed (result : completion (list Manifest.layout))
  (readyAtStart : bool) (s : session) : session :=
  set_isLoading false
    match result with
    | Return parsedLayouts =>
        let s1 := set_layouts parsedLayouts s in
        match parsedLayouts with
        | firstLayout :: _ =>
            setTimeout (AutoLoad firstLayout readyAtStart) 100
              (addLog (LogFound (length parsedLayouts) (Manifest.name firstLayout))
                 (set_selectedLayout (Manifest.name firstLayout) s1))
        | [] => addLog LogNoLayouts (set_error (Some ErrNoLayouts) s1)
        end
    | Throw e =>
        addLog (LogManifestError e) (set_error (Some (ErrLoadingManifest e)) s)
    end.

(** A run of [loadManifest] that nothing interrupts. *)
Definition loadManifest (localeCompare : string -> string -> Z)
  (fetch : string -> fetchOutcome) (s : session) : session :=
  let (events, result) :=
    Manifest.parseManifestForLayouts localeCompare fetch (manifestUrlToLoad s) in
  loadManifestParsed result (isPlayerReady s) (parserLines events (loadManifestStart s)).

(** The effect: line 222, then [loadManifest]. *)
Definition loadEffect (localeCompare : string -> string -> Z)
  (fetch : string -> fetchOutcome) (s : session) : session :=
  if isEmpty (manifestUrlToLoad s) then s else loadManifest localeCompare fetch s.

(** The timer of lines 240-257 up to [player.load]. *)
Definition autoLoad (firstLayout : Manifest.layout) (isPlayerReady : bool)
  (s : session) : session :=
  if playerRef s && isPlayerReady
  then callEngine (LayoutsApp.CallLoad (Manifest.masterUrl firstLayout))
         (addLog (LogAutoLoading (Manifest.name firstLayout)
                                 (Manifest.masterUrl firstLayout)) s)
  else s.

(** Lines 253-256. *)
Definition autoLoadRejected (e : jsError) (s : session) : session :=
  set_error (Some (ErrLoadingFirstLayout e)) (addLog (LogAutoLoadError e) s).

(** Lines 243-252; a null [playerRef.current] makes line 248 throw into
    the [catch]. *)
Definition autoLoadResolved (firstLayout : Manifest.layout) (s : session) : session :=
  let s1 := addLog (LogAutoLoaded (Manifest.name firstLayout))
              (set_currentLayoutRef (Some (Manifest.name firstLayout)) s) in
  if playerRef s
  then fold_left (fun acc v => addLog (LogLayout (LayoutsApp.LogVariant v)) acc)
         (variants s)
         (addLog (LogLayout (LayoutsApp.LogLayoutVariants (Manifest.name firstLayout)
                                                         (length (variants s)))) s1)
  else autoLoadRejected
         (ErrorMessage "TypeError: Cannot read properties of null (reading 'getVariantTracks')")
         s1.

(** *** The layout effect (lines 276-342) *)

Definition layoutEffect (s : session) : session * option LayoutsApp.pendingLoad :=
  if isEmpty (selectedLayout s) || negb (isPlayerReady s)
     || (length (layouts s) =? 0)%nat
  then (s, None)
  else
    match find (fun l => String.eqb (Manifest.name l) (selectedLayout s)) (layouts s) with
    | None => (s, None)
    | Some layoutData =>
        if match currentLayoutRef s with
           | Some c => String.eqb c (selectedLayout s)
           | None => false
           end
        then (addLog (LogLayout (LayoutsApp.LogAlreadyLoaded (selectedLayout s))) s, None)
        else
          let s1 := addLog (LogLayout (LayoutsApp.LogLoadingLayout (selectedLayout s)
                                         (Manifest.masterUrl layoutData)))
                      (set_error None (set_isSwitching true s)) in
          let currentTime :=
            if playerRef s && LayoutsApp.truthyRef (currentLayoutRef s)
            then match videoCurrentTime s with Some t => t | None => 0%Q end
            else 0%Q in
          let s2 := if playerRef s && LayoutsApp.truthyRef (currentLayoutRef s)
                    then addLog (LogLayout (LayoutsApp.LogSavingTime currentTime)) s1
                    else s1 in
          if playerRef s
          then (callEngine (LayoutsApp.CallLoad (Manifest.masterUrl layoutData)) s2,
                Some {| LayoutsApp.loading := selectedLayout s;
                        LayoutsApp.savedTime := currentTime |})
          else
            let e := ErrorMessage "TypeError: Cannot read properties of null (reading 'load')" in
            (set_isSwitching false
               (addLog (LogLayout (LayoutsApp.LogLayoutError (selectedLayout s) e))
                  (set_error (Some (ErrLoadingLayout e)) s2)), None)
    end.

(** After [player.load] rejected (lines 333-338). *)
Definition loadLayoutRejected (p : LayoutsApp.pendingLoad) (e : jsError) (s : session)
  : session :=
  set_isSwitching false
    (addLog (LogLayout (LayoutsApp.LogLayoutError (LayoutsApp.loading p) e))
       (set_error (Some (ErrLoadingLayout e)) s)).

(** After [player.load] resolved (lines 309-331 and the [finally]). *)
Definition loadLayoutResolved (p : LayoutsApp.pendingLoad) (s : session) : session :=
  let s1 := if RegionsApp.Qlt_bool 0 (LayoutsApp.savedTime p)
               && LayoutsApp.truthyRef (currentLayoutRef s)
            then setTimeout (RestoreTime (LayoutsApp.savedTime p)) 500 s else s in
  let s2 := addLog (LogLayout (LayoutsApp.LogLayoutLoaded (LayoutsApp.loading p)))
              (set_currentLayoutRef (Some (LayoutsApp.loading p)) s1) in
  if playerRef s
  then set_isSwitching false
         (fold_left (fun acc v => addLog (LogLayout (LayoutsApp.LogVariant v)) acc)
            (variants s)
            (addLog (LogLayout (LayoutsApp.LogLayoutVariants (LayoutsApp.loading p)
                                                            (length (variants s)))) s2))
  else
    loadLayoutRejected p
      (ErrorMessage "TypeError: Cannot read properties of null (reading 'getVariantTracks')")
      s2.

(** *** Timers *)

Definition runCallback (cb : timerCallback) (s : session) : session :=
  match cb with
  | AutoLoad firstLayout isPlayerReady => autoLoad firstLayout isPlayerReady s
  | RestoreTime t =>
      match videoCurrentTime s with
      | Some _ => addLog (LogLayout (LayoutsApp.LogRestoredTime t))
                    (set_videoCurrentTime (Some t) s)
      | None => s
      end
  end.

Definition fireTimer (i : nat) (s : session) : session :=
  match find (fun t => (timerId t =? i)%nat) (timers s) with
  | Some t =>
      runCallback (callback t)
        (set_timers (filter (fun t => negb (timerId t =? i)%nat) (timers s)) s)
  | None => s
  end.

(** How the load of the layout effect has settled when the timer fires, if
    it has. *)
Definition settled (p : LayoutsApp.pendingLoad) (outcome : option (option jsError))
  (s : session) : session :=
  match outcome with
  | None => s
  | Some None => loadLayoutResolved p s
  | Some (Some e) => loadLayoutRejected p e s
  end.

(** *** Example: a player that is ready and has played nothing *)

Definition freshSession : session :=
  {| hlsUrl := Manifest.exampleUrl; manifestUrlToLoad := Manifest.exampleUrl;
     layouts := []; selectedLayout := EmptyString;
     isLoading := false; isSwitching := false; error := None; isPlayerReady := true;
     playerLogs := []; abrEnabled := true; playerRef := true;
     currentLayoutRef := None; videoCurrentTime := Some 0%Q; variants := [];
     engineCalls := []; timers := []; nextTimerId := 1; now := 1000 |}.

End LayoutsLoad.

(** * Properties *)

(** ** The stable sort *)

Section SortFacts.
Context {A : Type} (cmp : A -> A -> Z).

Lemma insertSorted_perm (x : A) (l : list A) :
  Permutation (insertSorted cmp x l) (x :: l).
Proof.
  induction l as [|y r IH]; simpl; [reflexivity|].
  destruct (cmp x y <? 0)%Z; [reflexivity|].
  rewrite IH. apply perm_swap.
Qed.

Lemma fold_insert_perm (l acc : list A) :
  Permutation (fold_left (fun acc x => insertSorted cmp x acc) l acc) (l ++ acc).
Proof.
  revert acc; induction l as [|x l IH]; intros acc; simpl; [reflexivity|].
  rewrite IH, insertSorted_perm. symmetry. apply Permutation_middle.
Qed.

Lemma sortBy_perm (l : list A) : Permutation (sortBy cmp l) l.
Proof.
  unfold sortBy. rewrite fold_insert_perm, app_nil_r. reflexivity.
Qed.

Hypothesis cmp_total : forall a b, (0 <= cmp a b)%Z -> (cmp b a <= 0)%Z.
Hypothesis cmp_trans :
  forall a b c, (cmp a b <= 0)%Z -> (cmp b c <= 0)%Z -> (cmp a c <= 0)%Z.

Lemma insertSorted_sorted (x : A) (l : list A) :
  StronglySorted (fun a b => (cmp a b <= 0)%Z) l ->
  StronglySorted (fun a b => (cmp a b <= 0)%Z) (insertSorted cmp x l).
Proof.
  induction l as [|y r IH]; intros Hs; simpl.
  - constructor; constructor.
  - inversion Hs as [|? ? Hr Hy]; subst.
    destruct (cmp x y <? 0)%Z eqn:E.
    + apply Z.ltb_lt in E. constructor; [exact Hs|].
      constructor; [lia|].
      eapply Forall_impl; [|exact Hy].
      intros z Hz. apply (cmp_trans x y z); [lia | exact Hz].
    + apply Z.ltb_ge in E. constructor; [apply IH; exact Hr|].
      eapply Permutation_Forall; [symmetry; apply insertSorted_perm|].
      constructor; [apply cmp_total; exact E | exact Hy].
Qed.

Lemma sortBy_sorted (l : list A) :
  StronglySorted (fun a b => (cmp a b <= 0)%Z) (sortBy cmp l).
Proof.
  unfold sortBy.
  assert (G : forall acc, StronglySorted (fun a b => (cmp a b <= 0)%Z) acc ->
            StronglySorted (fun a b => (cmp a b <= 0)%Z)
              (fold_left (fun acc x => insertSorted cmp x acc) l acc)).
  { induction l as [|x l IH]; intros acc Hacc; simpl; [exact Hacc|].
    apply IH, insertSorted_sorted, Hacc. }
  apply G. constructor.
Qed.

End SortFacts.

(** ** The two collations are consistent comparators *)

Lemma string_compare_refl (a : string) : String.compare a a = Eq.
Proof.
  induction a as [|c a IH]; simpl; [reflexivity|].
  unfold Ascii.compare. rewrite N.compare_refl. exact IH.
Qed.

Lemma string_compare_lt_trans (a b c : string) :
  String.compare a b = Lt -> String.compare b c = Lt -> String.compare a c = Lt.
Proof. exact (@StrictOrder_Transitive _ _ String_as_OT.lt_strorder a b c). Qed.

Lemma string_compare_gt_lt (a b : string) :
  String.compare a b = Gt -> String.compare b a = Lt.
Proof. intros H. rewrite String.compare_antisym, H. reflexivity. Qed.

Lemma string_compare_lt_gt (a b : string) :
  String.compare a b = Lt -> String.compare b a = Gt.
Proof. intros H. rewrite String.compare_antisym, H. reflexivity. Qed.

Lemma twoKeyCompare_le (k1 k2 : string -> string) (a b : string) :
  (twoKeyCompare k1 k2 a b <= 0)%Z <->
  String.compare (k1 a) (k1 b) = Lt \/
  (k1 a = k1 b /\ String.compare (k2 a) (k2 b) <> Gt).
Proof.
  unfold twoKeyCompare.
  destruct (String.compare (k1 a) (k1 b)) eqn:E1.
  - apply String.compare_eq_iff in E1.
    destruct (String.compare (k2 a) (k2 b)) eqn:E2; simpl; split; intros H;
      try lia; try (right; split; [exact E1 | discriminate]).
    destruct H as [H|[_ H]]; [discriminate | contradiction].
  - simpl; split; intros _; [left; reflexivity | lia].
  - simpl; split; intros H; [lia|].
    destruct H as [H|[H _]]; [discriminate|].
    rewrite H, string_compare_refl in E1. discriminate.
Qed.

Lemma twoKeyCompare_total (k1 k2 : string -> string) (a b : string) :
  (0 <= twoKeyCompare k1 k2 a b)%Z -> (twoKeyCompare k1 k2 b a <= 0)%Z.
Proof.
  intros H. apply twoKeyCompare_le. unfold twoKeyCompare in H.
  destruct (String.compare (k1 a) (k1 b)) eqn:E1.
  - right. split; [symmetry; apply String.compare_eq_iff; exact E1|].
    destruct (String.compare (k2 a) (k2 b)) eqn:E2; simpl in H; try lia.
    + apply String.compare_eq_iff in E2. rewrite E2, string_compare_refl. discriminate.
    + rewrite (string_compare_gt_lt _ _ E2). discriminate.
  - simpl in H. lia.
  - left. apply string_compare_gt_lt, E1.
Qed.

Lemma twoKeyCompare_trans (k1 k2 : string -> string) (a b c : string) :
  (twoKeyCompare k1 k2 a b <= 0)%Z -> (twoKeyCompare k1 k2 b c <= 0)%Z ->
  (twoKeyCompare k1 k2 a c <= 0)%Z.
Proof.
  rewrite !twoKeyCompare_le.
  intros [H1|[E1 H1]] [H2|[E2 H2]].
  - left. eapply string_compare_lt_trans; eassumption.
  - left. rewrite <- E2. exact H1.
  - left. rewrite E1. exact H2.
  - right. split; [congruence|].
    intros G.
    destruct (String.compare (k2 a) (k2 b)) eqn:Eab; [| |contradiction].
    + apply String.compare_eq_iff in Eab. rewrite Eab in G. contradiction.
    + destruct (String.compare (k2 b) (k2 c)) eqn:Ebc; [| |contradiction].
      * apply String.compare_eq_iff in Ebc. rewrite <- Ebc in G. congruence.
      * rewrite (string_compare_lt_trans _ _ _ Eab Ebc) in G. discriminate.
Qed.

Lemma letterCollation_total (a b : string) :
  (0 <= letterCollation a b)%Z -> (letterCollation b a <= 0)%Z.
Proof. exact (twoKeyCompare_total Js.toLowerCase swapCase a b). Qed.

Lemma letterCollation_trans (a b c : string) :
  (letterCollation a b <= 0)%Z -> (letterCollation b c <= 0)%Z ->
  (letterCollation a c <= 0)%Z.
Proof. exact (twoKeyCompare_trans Js.toLowerCase swapCase a b c). Qed.

Lemma codeUnitCompare_total (a b : string) :
  (0 <= codeUnitCompare a b)%Z -> (codeUnitCompare b a <= 0)%Z.
Proof.
  unfold codeUnitCompare. rewrite (String.compare_antisym b a).
  destruct (String.compare a b); simpl; lia.
Qed.

Lemma codeUnitCompare_trans (a b c : string) :
  (codeUnitCompare a b <= 0)%Z -> (codeUnitCompare b c <= 0)%Z ->
  (codeUnitCompare a c <= 0)%Z.
Proof.
  unfold codeUnitCompare.
  destruct (String.compare a b) eqn:Eab; simpl; try lia; intros _;
    destruct (String.compare b c) eqn:Ebc; simpl; try lia; intros _.
  - apply String.compare_eq_iff in Eab, Ebc. subst. rewrite string_compare_refl. simpl; lia.
  - apply String.compare_eq_iff in Eab. subst. rewrite Ebc. simpl; lia.
  - apply String.compare_eq_iff in Ebc. subst. rewrite Eab. simpl; lia.
  - rewrite (string_compare_lt_trans _ _ _ Eab Ebc). simpl; lia.
Qed.

(** ** JavaScript string facts *)

Section JsFacts.
Import Js.

Lemma split_no_sep (c : ascii) (x : string) :
  contains c x = false -> split c x = [x].
Proof.
  induction x as [|d x IH]; simpl; [reflexivity|].
  intros H. apply orb_false_iff in H as [Hd Hx].
  rewrite Hd, (IH Hx). reflexivity.
Qed.

Lemma split_app_sep (c : ascii) (x rest : string) :
  contains c x = false ->
  split c (x ++ String c rest)%string = x :: split c rest.
Proof.
  induction x as [|d x IH]; simpl; intros H.
  - rewrite Ascii.eqb_refl. reflexivity.
  - apply orb_false_iff in H as [Hd Hx]. rewrite Hd, (IH Hx). reflexivity.
Qed.

Lemma split_join (c : ascii) (ls : list string) :
  ls <> [] -> Forall (fun x => contains c x = false) ls ->
  split c (join c ls) = ls.
Proof.
  induction ls as [|x r IH]; intros Hne Hall; [contradiction|].
  inversion Hall as [|? ? Hx Hr]; subst.
  destruct r as [|y r'].
  - simpl. apply split_no_sep, Hx.
  - change (join c (x :: y :: r')) with (x ++ String c (join c (y :: r')))%string.
    rewrite split_app_sep by exact Hx.
    rewrite IH; [reflexivity | discriminate | exact Hr].
Qed.

Lemma lastIndexOfFrom_absent (c : ascii) (s : string) (i acc : Z) :
  contains c s = false -> lastIndexOfFrom c s i acc = acc.
Proof.
  revert i acc; induction s as [|d s IH]; simpl; intros i acc H; [reflexivity|].
  apply orb_false_iff in H as [Hd Hs]. rewrite Hd. apply IH, Hs.
Qed.

Lemma lastIndexOfFrom_last (c : ascii) (pre post : string) (i acc : Z) :
  contains c post = false ->
  lastIndexOfFrom c (pre ++ String c post)%string i acc
  = (i + Z.of_nat (String.length pre))%Z.
Proof.
  intros Hpost. revert i acc; induction pre as [|d pre IH]; intros i acc.
  - simpl. rewrite Ascii.eqb_refl, lastIndexOfFrom_absent by exact Hpost. lia.
  - cbn [String.append lastIndexOfFrom String.length]. rewrite IH. lia.
Qed.

Lemma substring_prefix (pre rest : string) :
  String.substring 0 (String.length pre) (pre ++ rest)%string = pre.
Proof.
  induction pre as [|d pre IH]; simpl.
  - destruct rest; reflexivity.
  - rewrite IH. reflexivity.
Qed.

Lemma startsWith_hash (s : string) :
  startsWith "#EXT-X-STREAM-INF:" s = true -> startsWith "#" s = true.
Proof.
  unfold startsWith. destruct s as [|c r]; cbn [stripPrefix]; [discriminate|].
  destruct (Ascii.eqb "#" c); [reflexivity | discriminate].
Qed.

End JsFacts.

(** ** Matches of the parser's patterns in a text *)

Section TextFacts.
Import Js ProgramIds.

Lemma append_assoc (a b c : string) : ((a ++ b) ++ c = a ++ (b ++ c))%string.
Proof. induction a as [|x a IH]; simpl; [reflexivity | rewrite IH; reflexivity]. Qed.

Lemma stripPrefix_app (p s : string) : stripPrefix p (p ++ s) = Some s.
Proof.
  induction p as [|c p IH]; simpl; [reflexivity|].
  rewrite Ascii.eqb_refl. exact IH.
Qed.

Lemma stripPrefix_spec (p s r : string) : stripPrefix p s = Some r -> s = (p ++ r)%string.
Proof.
  revert s. induction p as [|c p IH]; intros s; cbn [stripPrefix String.append].
  - intros H. injection H as ->. reflexivity.
  - destruct s as [|d s]; [discriminate|].
    destruct (Ascii.eqb_spec c d) as [<-|]; [|discriminate].
    intros H. rewrite (IH s H). reflexivity.
Qed.

Lemma span_spec (f : ascii -> bool) (s a b : string) :
  span f s = (a, b) ->
  s = (a ++ b)%string /\ allOf f a = true /\ fst (span f b) = EmptyString.
Proof.
  revert a b. induction s as [|c s IH]; intros a b; simpl.
  - intros H. injection H as <- <-. repeat split.
  - destruct (f c) eqn:Ec.
    + destruct (span f s) as [a' b'] eqn:Es. intros H. injection H as <- <-.
      destruct (IH a' b' eq_refl) as [-> [Ha Hb]].
      repeat split; [|exact Hb]. unfold allOf in *. simpl. rewrite Ec, Ha. reflexivity.
    + intros H. injection H as <- <-. repeat split. simpl. rewrite Ec. reflexivity.
Qed.

Lemma span_first (f : ascii -> bool) (s a b : string) :
  span f s = (a, b) -> a <> EmptyString ->
  exists c a', a = String c a' /\ f c = true.
Proof.
  destruct s as [|c s]; cbn [span].
  - intros H. injection H as <- <-. contradiction.
  - destruct (f c) eqn:Ec.
    + destruct (span f s) as [a' b']. intros H _. injection H as <- <-.
      exists c, a'. split; [reflexivity | exact Ec].
    + intros H. injection H as <- <-. contradiction.
Qed.

Lemma search_some_suffix {A : Type} (m : string -> option A) (s : string) (r : A) :
  search m s = Some r -> exists pre s', s = (pre ++ s')%string /\ m s' = Some r.
Proof.
  induction s as [|c s IH]; simpl.
  - destruct (m EmptyString) eqn:E; [|discriminate].
    intros H. injection H as <-. exists EmptyString, EmptyString. split; [reflexivity | exact E].
  - destruct (m (String c s)) eqn:E.
    + intros H. injection H as <-. exists EmptyString, (String c s).
      split; [reflexivity | exact E].
    + intros H. destruct (IH H) as [pre [s' [-> Hs']]].
      exists (String c pre), s'. split; [reflexivity | exact Hs'].
Qed.

Lemma search_here {A : Type} (m : string -> option A) (s : string) (r : A) :
  m s = Some r -> search m s = Some r.
Proof. intros H. destruct s; simpl; rewrite H; reflexivity. Qed.

Lemma search_app_fail {A : Type} (m : string -> option A) (pre s : string) :
  (forall p1 p2, pre = (p1 ++ p2)%string -> p2 <> EmptyString ->
                 m (p2 ++ s)%string = None) ->
  search m (pre ++ s) = search m s.
Proof.
  induction pre as [|c pre IH]; intros H; [reflexivity|].
  cbn [String.append search].
  pose proof (H EmptyString (String c pre) eq_refl ltac:(discriminate)) as H0.
  cbn [String.append] in H0. rewrite H0.
  apply IH. intros p1 p2 Hpre Hne. apply (H (String c p1) p2); [|exact Hne].
  simpl. rewrite Hpre. reflexivity.
Qed.

(** A match at some position makes the search succeed. *)
Lemma search_found {A : Type} (m : string -> option A) (a t : string) (r : A) :
  m t = Some r -> search m (a ++ t) <> None.
Proof.
  intros Hm. induction a as [|c a IH]; cbn [String.append].
  - rewrite (search_here m t r Hm). discriminate.
  - cbn [search]. destruct (m (String c (a ++ t))); [discriminate | exact IH].
Qed.

(** A text in which the search for a literal fails does not hold it. *)
Lemma no_occurrence (lit s : string) :
  search (stripPrefix lit) s = None ->
  forall a b, s <> (a ++ lit ++ b)%string.
Proof.
  intros H a b ->. apply (search_found (stripPrefix lit) a (lit ++ b) b); [|exact H].
  apply stripPrefix_app.
Qed.

(** A text that nowhere holds [lit] followed by a digit has no match of
    [lit(\d+)]. *)
Lemma digits_nowhere (lit s : string) :
  (forall a c b, s = (a ++ lit ++ String c b)%string -> isDigit c = false) ->
  search (digitsAfter lit) s = None.
Proof.
  intros Hno. destruct (search (digitsAfter lit) s) as [d|] eqn:E; [|reflexivity].
  exfalso. apply search_some_suffix in E as [a [t [-> Ht]]].
  unfold digitsAfter in Ht. destruct (stripPrefix lit t) as [r|] eqn:Ep; [|discriminate].
  apply stripPrefix_spec in Ep. subst t.
  destruct (span isDigit r) as [w r1] eqn:Es.
  destruct (isEmpty w) eqn:Ew; [discriminate|].
  destruct (span_first isDigit r w r1 Es) as [c [w' [-> Hc]]];
    [intros ->; discriminate|].
  apply span_spec in Es as [-> _].
  rewrite (Hno a c (w' ++ r1)%string eq_refl) in Hc. discriminate.
Qed.

(** The same for [RESOLUTION=(\d+x\d+)]. *)
Lemma resolution_nowhere (s : string) :
  (forall a w c b,
     s = (a ++ "RESOLUTION=" ++ w ++ String "x" (String c b))%string ->
     w <> EmptyString -> forallb isDigit (list_ascii_of_string w) = true ->
     isDigit c = false) ->
  matchResolution s = None.
Proof.
  intros Hno. unfold matchResolution.
  match goal with |- search ?m s = None => destruct (search m s) as [v|] eqn:E end;
    [|reflexivity].
  exfalso. apply search_some_suffix in E as [a [t [-> Ht]]].
  destruct (stripPrefix "RESOLUTION=" t) as [r|] eqn:Ep; [|discriminate].
  apply stripPrefix_spec in Ep. subst t.
  destruct (span isDigit r) as [w r1] eqn:Es.
  destruct (isEmpty w) eqn:Ew; [discriminate|].
  destruct r1 as [|x r2]; [discriminate|].
  destruct (Ascii.eqb_spec x "x"%char) as [->|Hx].
  2:{ destruct x as [[|] [|] [|] [|] [|] [|] [|] [|]]; try discriminate.
      exfalso. apply Hx. reflexivity. }
  destruct (span isDigit r2) as [h r3] eqn:Eh.
  destruct (isEmpty h) eqn:Eh0; [discriminate|].
  destruct (span_first isDigit r2 h r3 Eh) as [c [h' [-> Hc]]];
    [intros ->; discriminate|].
  apply span_spec in Eh as [-> _]. apply span_spec in Es as [-> [Hw _]].
  rewrite (Hno a w c (h' ++ r3)%string) in Hc; [discriminate | reflexivity | | exact Hw].
  intros ->. discriminate.
Qed.

Lemma allOf_not_contains (c : ascii) (v : string) :
  allOf (fun d => negb (Ascii.eqb d c)) v = true -> contains c v = false.
Proof.
  unfold allOf. induction v as [|d v IH]; cbn; [reflexivity|].
  intros H. apply andb_true_iff in H as [Hd Hv].
  rewrite (IH Hv), orb_false_r. apply negb_true_iff in Hd.
  first [exact Hd | rewrite Ascii.eqb_sym; exact Hd].
Qed.

(** A text that nowhere holds [attr], a double quote, one or more characters
    other than a double quote and a double quote has no match of the quoted
    attribute. *)
Lemma quoted_nowhere (attr s : string) :
  (forall a v b,
     s = (a ++ attr ++ String quote (v ++ String quote b))%string ->
     v <> EmptyString -> contains quote v = false -> False) ->
  matchQuoted attr s = None.
Proof.
  intros Hno. unfold matchQuoted.
  match goal with |- search ?m s = None => destruct (search m s) as [v|] eqn:E end;
    [|reflexivity].
  exfalso. apply search_some_suffix in E as [a [t [-> Ht]]].
  destruct (stripPrefix attr t) as [[|q r]|] eqn:Ep; try discriminate.
  apply stripPrefix_spec in Ep. subst t.
  destruct (Ascii.eqb_spec q quote) as [->|]; [|discriminate].
  destruct (span (fun c => negb (Ascii.eqb c quote)) r) as [w r1] eqn:Es.
  destruct (isEmpty w) eqn:Ew; [discriminate|].
  destruct r1 as [|x r2]; [discriminate|].
  pose proof (span_spec _ _ _ _ Es) as [-> [Hw Hstop]].
  assert (Hx : x = quote).
  { cbn [span] in Hstop. destruct (Ascii.eqb_spec x quote) as [->|]; [reflexivity|].
    cbn [negb] in Hstop. destruct (span (fun c => negb (Ascii.eqb c quote)) r2).
    discriminate. }
  subst x.
  apply (Hno a w r2); [reflexivity | intros ->; discriminate|].
  apply allOf_not_contains, Hw.
Qed.

(** A URI line without a slash, or that starts with one, has no first path
    segment. *)
Lemma firstSegment_none (url : string) :
  contains slash url = false \/ (exists r, url = String slash r) ->
  matchFirstSegment url = None.
Proof.
  unfold matchFirstSegment. intros [Hno|[r ->]].
  - assert (Hspan : forall u, contains slash u = false ->
                              snd (span (fun c => negb (Ascii.eqb c slash)) u)
                              = EmptyString).
    { induction u as [|c u IH]; cbn [span contains]; [reflexivity|].
      intros H. apply orb_false_iff in H as [Hc Hu].
      first [rewrite Hc | rewrite Ascii.eqb_sym, Hc].
      cbn [negb]. specialize (IH Hu).
      destruct (span (fun c0 => negb (Ascii.eqb c0 slash)) u). exact IH. }
    specialize (Hspan url Hno).
    destruct (span (fun c => negb (Ascii.eqb c slash)) url) as [seg r].
    cbn [snd] in Hspan. subst r. destruct (isEmpty seg); reflexivity.
  - cbn [span]. rewrite Ascii.eqb_refl. reflexivity.
Qed.

End TextFacts.

(** ** Maps and line loops *)

Section MapFacts.
Context {V : Type} (keyOf : V -> string).

Lemma has_In (key : string) (m : list V) :
  JsMap.has keyOf key m = true <-> In key (map keyOf m).
Proof.
  induction m as [|d r IH]; simpl; [split; [discriminate | tauto]|].
  rewrite orb_true_iff, String.eqb_eq, IH. tauto.
Qed.

Lemma update_keys (key : string) (f : V -> V) (m : list V) :
  (forall d, keyOf (f d) = keyOf d) ->
  map keyOf (JsMap.update keyOf key f m) = map keyOf m.
Proof.
  intros Hf; induction m as [|d r IH]; simpl; [reflexivity|].
  destruct (String.eqb (keyOf d) key); simpl; [rewrite Hf | rewrite IH]; reflexivity.
Qed.

Lemma update_Forall (P : V -> Prop) (key : string) (f : V -> V) (m : list V) :
  (forall d, P d -> P (f d)) -> Forall P m -> Forall P (JsMap.update keyOf key f m).
Proof.
  intros Hf; induction 1 as [|d r Hd Hr IH]; simpl; [constructor|].
  destruct (String.eqb (keyOf d) key); constructor; auto.
Qed.

Lemma update_fresh (key : string) (f : V -> V) (m : list V) (d : V) :
  JsMap.has keyOf key m = false -> keyOf d = key ->
  JsMap.update keyOf key f (m ++ [d]) = m ++ [f d].
Proof.
  intros Hm Hd; induction m as [|e r IH]; simpl in *.
  - rewrite Hd, String.eqb_refl. reflexivity.
  - apply orb_false_iff in Hm as [He Hr]. rewrite He, (IH Hr). reflexivity.
Qed.

Lemma upsert_keys (key : string) (fresh : V) (f : V -> V) (m : list V) :
  keyOf fresh = key -> (forall d, keyOf (f d) = keyOf d) ->
  map keyOf (JsMap.upsert keyOf key fresh f m)
  = if JsMap.has keyOf key m then map keyOf m else map keyOf m ++ [key].
Proof.
  intros Hfresh Hf. unfold JsMap.upsert. rewrite update_keys by exact Hf.
  destruct (JsMap.has keyOf key m); [reflexivity|].
  rewrite map_app. simpl. rewrite Hfresh. reflexivity.
Qed.

Lemma upsert_Forall (P : V -> Prop) (key : string) (fresh : V) (f : V -> V)
  (m : list V) :
  keyOf fresh = key -> (forall d, P d -> P (f d)) -> P (f fresh) ->
  Forall P m -> Forall P (JsMap.upsert keyOf key fresh f m).
Proof.
  intros Hfresh Hf Hnew Hm. unfold JsMap.upsert.
  destruct (JsMap.has keyOf key m) eqn:E.
  - apply update_Forall; assumption.
  - rewrite update_fresh by assumption.
    apply Forall_app; split; [exact Hm|]. constructor; [exact Hnew | constructor].
Qed.

(** Recording a list of entries [es], each under its key: the keys of the
    map are the keys of [es], each once. *)
Context {E : Type} (keyE : E -> string) (record : E -> list V -> list V).
Hypothesis record_keys :
  forall e m, map keyOf (record e m)
              = if JsMap.has keyOf (keyE e) m then map keyOf m
                else map keyOf m ++ [keyE e].

Lemma recorded_keys (es : list E) :
  forall m, NoDup (map keyOf m) ->
    NoDup (map keyOf (fold_left (fun m e => record e m) es m)) /\
    (forall k, In k (map keyOf (fold_left (fun m e => record e m) es m))
               <-> In k (map keyOf m) \/ In k (map keyE es)).
Proof.
  induction es as [|e es IH]; intros m Hnd; simpl.
  - split; [exact Hnd | intros k; tauto].
  - assert (Hnd' : NoDup (map keyOf (record e m))).
    { rewrite record_keys. destruct (JsMap.has keyOf (keyE e) m) eqn:Eh; [exact Hnd|].
      eapply Permutation_NoDup; [apply Permutation_cons_append|].
      constructor; [|exact Hnd].
      intros Hin. apply has_In in Hin. congruence. }
    destruct (IH _ Hnd') as [H1 H2]. split; [exact H1|].
    intros k. rewrite H2, record_keys.
    destruct (JsMap.has keyOf (keyE e) m) eqn:Eh.
    + apply has_In in Eh. split; [tauto|].
      intros [H|[H|H]]; subst; tauto.
    + rewrite in_app_iff. simpl. tauto.
Qed.

Lemma recorded_keys_perm (es : list E) :
  Permutation (map keyOf (fold_left (fun m e => record e m) es []))
              (nodup string_dec (map keyE es)).
Proof.
  destruct (recorded_keys es [] (NoDup_nil _)) as [Hnd Hin].
  apply NoDup_Permutation; [exact Hnd | apply NoDup_nodup |].
  intros k. rewrite nodup_In, Hin. simpl. tauto.
Qed.

End MapFacts.

Section LoopFacts.
Import Js.
Context {M E : Type} (select : string -> option string -> option E)
        (record : E -> M -> M) (body : string -> option string -> M -> M).

Lemma forLines_select (lines : list string) :
  (forall line next m,
     body line next m = match select line next with
                        | Some e => record e m
                        | None => m
                        end) ->
  forall m, forLines body lines m
            = fold_left (fun m e => record e m) (selectLines select lines) m.
Proof.
  intros Hbody. induction lines as [|l rest IH]; intros m; simpl; [reflexivity|].
  rewrite IH, Hbody. destruct (select (trim l) (nextOf rest)); reflexivity.
Qed.

(** A line that yields nothing, and after which the line before yields what
    it yields before a bare comment, can be replaced by a bare comment. *)
Lemma selectLines_replace (pre post : list string) (line : string) :
  select (trim line) (nextOf post) = None ->
  (forall p, select p (Some (trim line)) = select p (Some "#")) ->
  (forall next, select "#" next = None) ->
  selectLines select (pre ++ line :: post) = selectLines select (pre ++ "#" :: post).
Proof.
  intros Hline Hbefore Hhash. induction pre as [|p pre IH].
  - simpl. rewrite Hline. change (trim "#") with "#". rewrite Hhash. reflexivity.
  - cbn [app selectLines]. rewrite IH.
    destruct pre as [|q pre]; [|reflexivity].
    unfold nextOf. simpl hd_error. simpl option_map.
    change (trim "#") with "#". rewrite Hbefore. reflexivity.
Qed.

End LoopFacts.

(** ** The manifest parser *)

Section ManifestFacts.
Import Js Manifest.

Lemma recordStream_names (key : string) (st : streamDescriptor) (m : layoutMap) :
  map ld_name (recordStream key st m)
  = if JsMap.has ld_name key m then map ld_name m else map ld_name m ++ [key].
Proof. apply upsert_keys; reflexivity. Qed.

Lemma recordStream_nonempty (key : string) (st : streamDescriptor) (m : layoutMap) :
  Forall (fun d => 1 <= length (ld_streams d)) m ->
  Forall (fun d => 1 <= length (ld_streams d)) (recordStream key st m).
Proof.
  assert (Hpush : forall d, 1 <= length (ld_streams (pushStream st d))).
  { intros d. simpl. rewrite length_app. simpl. lia. }
  apply upsert_Forall; [reflexivity | intros d _; apply Hpush | apply Hpush].
Qed.

Lemma scanLines_entries (lines : list string) (m : layoutMap) :
  scanLines lines m = recordAll (entries lines) m.
Proof.
  apply (forLines_select entryAt (fun e m => recordStream (fst e) (snd e) m)).
  intros line next m0. destruct (entryAt line next) as [[key st]|]; reflexivity.
Qed.

Lemma recordAll_nonempty (es : list (string * streamDescriptor)) :
  forall m, Forall (fun d => 1 <= length (ld_streams d)) m ->
    Forall (fun d => 1 <= length (ld_streams d)) (recordAll es m).
Proof.
  induction es as [|[key st] es IH]; intros m Hm; simpl; [exact Hm|].
  apply IH, recordStream_nonempty, Hm.
Qed.

Lemma scanned_names (manifestText : string) :
  Permutation (map ld_name (scanLines (split LF manifestText) []))
              (layoutKeys manifestText).
Proof.
  rewrite scanLines_entries.
  apply (recorded_keys_perm ld_name fst (fun e m => recordStream (fst e) (snd e) m)).
  intros e m. apply recordStream_names.
Qed.

Lemma parseText_perm (cmp : string -> string -> Z) (manifestUrl manifestText : string) :
  Permutation (snd (parseText cmp manifestUrl manifestText))
              (map (toLayout (baseUrlOf manifestUrl))
                   (scanLines (split LF manifestText) [])).
Proof. apply sortBy_perm. Qed.

Lemma parse_returns_parseText (cmp : string -> string -> Z)
  (fetch : string -> fetchOutcome) (manifestUrl manifestText : string)
  (ok : bool) (status : Z) :
  fetch manifestUrl = Response ok status (Return manifestText) ->
  snd (parseManifestForLayouts cmp fetch manifestUrl)
  = Return (snd (parseText cmp manifestUrl manifestText)).
Proof.
  intros H. unfold parseManifestForLayouts. rewrite H.
  destruct (parseText cmp manifestUrl manifestText). reflexivity.
Qed.

(** C1 (as amended).  Whatever consistent collation the host's
    [localeCompare] implements, a fetched manifest whose well-formed
    stream-info/URI pairs span the keys [layoutKeys manifestText] is parsed
    into exactly one layout per key (so K layouts for K distinct keys), in
    ascending order of that collation, each with at least one stream. *)
Theorem parse_one_layout_per_key_in_collation_order :
  forall (localeCompare : string -> string -> Z),
    (forall a b, (0 <= localeCompare a b)%Z -> (localeCompare b a <= 0)%Z) ->
    (forall a b c, (localeCompare a b <= 0)%Z -> (localeCompare b c <= 0)%Z ->
                   (localeCompare a c <= 0)%Z) ->
  forall (fetch : string -> fetchOutcome) (manifestUrl manifestText : string)
         (ok : bool) (status : Z),
    fetch manifestUrl = Response ok status (Return manifestText) ->
    exists layouts,
      snd (parseManifestForLayouts localeCompare fetch manifestUrl) = Return layouts /\
      Permutation (map name layouts) (layoutKeys manifestText) /\
      length layouts = length (layoutKeys manifestText) /\
      StronglySorted (fun a b => (localeCompare (name a) (name b) <= 0)%Z) layouts /\
      Forall (fun l => 1 <= length (streams l)) layouts.
Proof.
  intros localeCompare Htotal Htrans fetch manifestUrl manifestText ok status Hfetch.
  exists (snd (parseText localeCompare manifestUrl manifestText)).
  pose proof (parseText_perm localeCompare manifestUrl manifestText) as Hperm.
  assert (Hnames : Permutation
            (map name (snd (parseText localeCompare manifestUrl manifestText)))
            (layoutKeys manifestText)).
  { rewrite Hperm, map_map. simpl. apply scanned_names. }
  split; [eapply parse_returns_parseText; exact Hfetch|].
  split; [exact Hnames|].
  split; [rewrite <- (length_map name); apply Permutation_length, Hnames|].
  split.
  - apply (sortBy_sorted (fun a b => localeCompare (name a) (name b))).
    + intros a b; apply Htotal.
    + intros a b c; apply Htrans.
  - eapply Permutation_Forall; [symmetry; exact Hperm|].
    apply Forall_map. simpl.
    rewrite scanLines_entries. apply recordAll_nonempty. constructor.
Qed.

Lemma parse_one_layout_per_key_witness :
  exists layouts,
    snd (parseManifestForLayouts letterCollation (serve true 200 studioManifest) exampleUrl)
      = Return layouts /\
    Permutation (map name layouts) (layoutKeys studioManifest) /\
    length layouts = length (layoutKeys studioManifest) /\
    StronglySorted (fun a b => (letterCollation (name a) (name b) <= 0)%Z) layouts /\
    Forall (fun l => 1 <= length (streams l)) layouts.
Proof.
  exact (parse_one_layout_per_key_in_collation_order letterCollation
           letterCollation_total letterCollation_trans
           (serve true 200 studioManifest) exampleUrl studioManifest true 200%Z eq_refl).
Defined.

(** C1 as stated fails: with names B and a the parser returns a before B,
    the order of the collation, while in code-unit order B (66) precedes
    a (97). *)
Lemma parse_order_is_not_code_unit_order :
  exists layouts,
    snd (parseManifestForLayouts letterCollation
           (serve true 200 mixedCaseManifest) exampleUrl) = Return layouts /\
    map name layouts = ["a"; "B"] /\
    length (layoutKeys mixedCaseManifest) = 2 /\
    codeUnitCompare "a" "B" = 1%Z /\
    ~ StronglySorted (fun a b => (codeUnitCompare a b <= 0)%Z) (map name layouts).
Proof.
  eexists. split; [vm_compute; reflexivity|].
  split; [reflexivity|]. split; [vm_compute; reflexivity|].
  split; [reflexivity|].
  intros H. inversion H as [|? ? _ Hall]; subst.
  inversion Hall as [|? ? Hab _]; subst.
  vm_compute in Hab. apply Hab. reflexivity.
Qed.

Lemma uriLine_of_streamInf (line : string) :
  isStreamInf line = true -> uriLine (Some line) = None.
Proof.
  intros H. unfold uriLine. unfold isStreamInf in H.
  rewrite (startsWith_hash _ H), orb_true_r. reflexivity.
Qed.

Lemma entries_without_dropped (pre post : list string) (line : string) :
  isStreamInf (trim line) = true ->
  entryAt (trim line) (nextOf post) = None ->
  entries (pre ++ line :: post) = entries (pre ++ "#" :: post).
Proof.
  intros Hline Hnone. apply selectLines_replace; [exact Hnone | |reflexivity].
  intros p. unfold entryAt. rewrite (uriLine_of_streamInf _ Hline). reflexivity.
Qed.

Lemma entryAt_malformed (line : string) (next : option string) :
  uriLine next = None \/
  matchBandwidth line = None \/
  matchResolution line = None \/
  (forall nextLine, uriLine next = Some nextLine -> layoutNameOf line nextLine = None) ->
  entryAt line next = None.
Proof.
  intros H. unfold entryAt. destruct (isStreamInf line); [|reflexivity].
  destruct (uriLine next) as [nextLine|] eqn:Eu; [|reflexivity].
  destruct H as [H|[H|[H|H]]].
  - discriminate.
  - rewrite H. destruct (layoutNameOf line nextLine); reflexivity.
  - rewrite H. destruct (layoutNameOf line nextLine), (matchBandwidth line); reflexivity.
  - rewrite (H nextLine eq_refl). reflexivity.
Qed.

Lemma baseUrlOf_last_slash (pre post : string) :
  contains slash post = false ->
  baseUrlOf (pre ++ String slash post)%string = (pre ++ String slash EmptyString)%string.
Proof.
  intros Hpost. unfold baseUrlOf, lastIndexOf, substring0.
  rewrite lastIndexOfFrom_last by exact Hpost.
  replace (Z.to_nat (0 + Z.of_nat (String.length pre) + 1))
    with (String.length (pre ++ String slash EmptyString)).
  - replace (pre ++ String slash post)%string
      with ((pre ++ String slash EmptyString) ++ post)%string.
    + apply substring_prefix.
    + clear Hpost. induction pre as [|c pre IH]; simpl; [reflexivity|].
      rewrite IH. reflexivity.
  - clear Hpost. induction pre as [|c pre IH]; simpl String.length; [reflexivity|].
    rewrite IH. lia.
Qed.

Lemma baseUrlOf_no_slash (url : string) :
  contains slash url = false -> baseUrlOf url = EmptyString.
Proof.
  intros H. unfold baseUrlOf, lastIndexOf, substring0.
  rewrite lastIndexOfFrom_absent by exact H. simpl. destruct url; reflexivity.
Qed.

Lemma parsed_layout_master_url (localeCompare : string -> string -> Z)
  (manifestUrl manifestText : string) (l : layout) :
  In l (snd (parseText localeCompare manifestUrl manifestText)) ->
  masterUrl l = (baseUrlOf manifestUrl ++ name l ++ "/master.m3u8")%string.
Proof.
  intros Hin.
  apply (Permutation_in _ (parseText_perm localeCompare manifestUrl manifestText)) in Hin.
  apply in_map_iff in Hin as [d [Hd _]]. subst l. reflexivity.
Qed.

Lemma layoutNameOf_none_iff (line nextLine : string) :
  layoutNameOf line nextLine = None <->
  matchQuoted "NAME=" line = None /\ matchQuoted "VIDEO=" line = None /\
  matchFirstSegment nextLine = None /\ matchLayoutToken nextLine = None.
Proof.
  unfold layoutNameOf, orElse.
  destruct (matchQuoted "NAME=" line), (matchQuoted "VIDEO=" line),
    (matchFirstSegment nextLine), (matchLayoutToken nextLine);
    split; try discriminate; try tauto;
    intros [H1 [H2 [H3 H4]]]; discriminate.
Qed.

End ManifestFacts.

(** ** The parser of the regions player

    The parser of src/unnamed/part_002 differs from the one above in its key
    rule (the last but one path segment of the URI line) and in the status
    check; the same facts hold of it, by the same lemmas. *)

Section RegionsParserFacts.
Import Js RegionsApp.

Lemma regions_recordStream_names (key : string) (st : streamDescriptor)
  (m : layoutMap) :
  map ld_name (recordStream key st m)
  = if JsMap.has ld_name key m then map ld_name m else map ld_name m ++ [key].
Proof. apply upsert_keys; reflexivity. Qed.

Lemma regions_scanLines_entries (lines : list string) (m : layoutMap) :
  scanLines lines m
  = fold_left (fun m e => recordStream (fst e) (snd e) m) (entries lines) m.
Proof.
  apply (forLines_select entryAt (fun e m => recordStream (fst e) (snd e) m)).
  intros line next m0. destruct (entryAt line next) as [[key st]|]; reflexivity.
Qed.

Lemma regions_parseText_perm (cmp : string -> string -> Z)
  (manifestUrl manifestText : string) :
  Permutation (parseText cmp manifestUrl manifestText)
              (map (toLayout (Manifest.baseUrlOf manifestUrl))
                   (scanLines (split LF manifestText) [])).
Proof. apply sortBy_perm. Qed.

Lemma regions_parse_returns_parseText (cmp : string -> string -> Z)
  (fetch : string -> fetchOutcome) (manifestUrl manifestText : string) (status : Z) :
  fetch manifestUrl = Response true status (Return manifestText) ->
  snd (parseManifestForLayouts cmp fetch manifestUrl)
  = Return (parseText cmp manifestUrl manifestText).
Proof. intros H. unfold parseManifestForLayouts. rewrite H. reflexivity. Qed.

(** One layout per key, in the order of the collation. *)
Lemma regions_parse_one_layout_per_key (localeCompare : string -> string -> Z)
  (fetch : string -> fetchOutcome) (manifestUrl manifestText : string) (status : Z) :
  (forall a b, (0 <= localeCompare a b)%Z -> (localeCompare b a <= 0)%Z) ->
  (forall a b c, (localeCompare a b <= 0)%Z -> (localeCompare b c <= 0)%Z ->
                 (localeCompare a c <= 0)%Z) ->
  fetch manifestUrl = Response true status (Return manifestText) ->
  exists layouts,
    snd (parseManifestForLayouts localeCompare fetch manifestUrl) = Return layouts /\
    Permutation (map name layouts) (layoutKeys manifestText) /\
    length layouts = length (layoutKeys manifestText) /\
    StronglySorted (fun a b => (localeCompare (name a) (name b) <= 0)%Z) layouts.
Proof.
  intros Htotal Htrans Hfetch.
  exists (parseText localeCompare manifestUrl manifestText).
  assert (Hnames : Permutation
            (map name (parseText localeCompare manifestUrl manifestText))
            (layoutKeys manifestText)).
  { rewrite (regions_parseText_perm localeCompare manifestUrl manifestText), map_map.
    simpl. rewrite regions_scanLines_entries.
    apply (recorded_keys_perm ld_name fst (fun e m => recordStream (fst e) (snd e) m)).
    intros e m. apply regions_recordStream_names. }
  split; [eapply regions_parse_returns_parseText; exact Hfetch|].
  split; [exact Hnames|].
  split; [rewrite <- (length_map name); apply Permutation_length, Hnames|].
  apply (sortBy_sorted (fun a b => localeCompare (name a) (name b))).
  - intros a b; apply Htotal.
  - intros a b c; apply Htrans.
Qed.

Lemma regions_entryAt_malformed (line : string) (next : option string) :
  Manifest.uriLine next = None \/
  matchBandwidth line = None \/
  matchResolution line = None \/
  (forall nextLine, Manifest.uriLine next = Some nextLine ->
                    layoutNameOf line nextLine = None) ->
  entryAt line next = None.
Proof.
  intros H. unfold entryAt. destruct (Manifest.isStreamInf line); [|reflexivity].
  destruct (Manifest.uriLine next) as [nextLine|] eqn:Eu; [|reflexivity].
  destruct H as [H|[H|[H|H]]].
  - discriminate.
  - rewrite H. destruct (layoutNameOf line nextLine); reflexivity.
  - rewrite H. destruct (layoutNameOf line nextLine), (matchBandwidth line); reflexivity.
  - rewrite (H nextLine eq_refl). reflexivity.
Qed.

(** A malformed stream-info line is dropped by this loop too. *)
Lemma regions_malformed_entry_is_dropped (localeCompare : string -> string -> Z)
  (manifestUrl : string) (pre post : list string) (line : string) :
  Forall (fun l => Js.contains LF l = false) (pre ++ line :: post) ->
  Manifest.isStreamInf (trim line) = true ->
  Manifest.uriLine (nextOf post) = None \/
  matchBandwidth (trim line) = None \/
  matchResolution (trim line) = None \/
  (forall nextLine, Manifest.uriLine (nextOf post) = Some nextLine ->
                    layoutNameOf (trim line) nextLine = None) ->
  parseText localeCompare manifestUrl (join LF (pre ++ line :: post))
  = parseText localeCompare manifestUrl (join LF (pre ++ "#" :: post)).
Proof.
  intros Hlf Hline Hbad.
  pose proof (regions_entryAt_malformed _ _ Hbad) as Hnone.
  assert (Hlf' : Forall (fun l => Js.contains LF l = false) (pre ++ "#" :: post)).
  { apply Forall_app in Hlf as [Hpre Hpost]. apply Forall_app. split; [exact Hpre|].
    inversion Hpost; subst. constructor; [reflexivity | assumption]. }
  unfold parseText.
  rewrite !split_join by (assumption || (destruct pre; discriminate)).
  rewrite !regions_scanLines_entries. unfold entries.
  rewrite (selectLines_replace entryAt pre post line Hnone); [reflexivity | |reflexivity].
  intros p. unfold entryAt.
  rewrite (uriLine_of_streamInf _ Hline). reflexivity.
Qed.

(** The key rule of this parser: without NAME and VIDEO, a URI line with at
    least one slash gives its last but one segment, when that is not empty. *)
Lemma regions_layoutNameOf_none_iff (line nextLine : string) :
  layoutNameOf line nextLine = None <->
  matchQuoted "NAME=" line = None /\ matchQuoted "VIDEO=" line = None /\
  ((length (split slash nextLine) <= 1)%nat \/
   nth (length (split slash nextLine) - 2) (split slash nextLine) EmptyString
   = EmptyString).
Proof.
  unfold layoutNameOf, Manifest.orElse.
  destruct (matchQuoted "NAME=" line), (matchQuoted "VIDEO=" line);
    try (split; [discriminate | intros [H1 [H2 _]]; discriminate]).
  destruct (Nat.ltb_spec 1 (length (split slash nextLine))) as [Hlen|Hlen].
  - destruct (nth (length (split slash nextLine) - 2) (split slash nextLine) EmptyString)
      as [|c r]; simpl.
    + tauto.
    + split; [discriminate|]. intros [_ [_ [H|H]]]; [lia | discriminate].
  - split; [intros _; repeat split; left; exact Hlen | reflexivity].
Qed.

Lemma regions_parsed_layout_master_url (localeCompare : string -> string -> Z)
  (manifestUrl manifestText : string) (l : layout) :
  In l (parseText localeCompare manifestUrl manifestText) ->
  masterUrl l = (Manifest.baseUrlOf manifestUrl ++ name l ++ "/master.m3u8")%string.
Proof.
  intros Hin.
  apply (Permutation_in _ (regions_parseText_perm localeCompare manifestUrl manifestText))
    in Hin.
  apply in_map_iff in Hin as [d [Hd _]]. subst l. reflexivity.
Qed.

End RegionsParserFacts.

(** ** Dropped entries and master URLs, in both parsers *)

Section ParserClaims.
Import Js.

Lemma isStreamInf_prefix (attributes : string) :
  Manifest.isStreamInf ("#EXT-X-STREAM-INF:" ++ attributes) = true.
Proof.
  unfold Manifest.isStreamInf, startsWith.
  rewrite (stripPrefix_app "#EXT-X-STREAM-INF:" attributes). reflexivity.
Qed.

(** A stream-info line at the end of the text, or followed by an empty line
    or by a comment, has no URI line. *)
Lemma uriLine_missing (post : list string) :
  post = [] \/
  (exists l ls, post = l :: ls /\
                (trim l = EmptyString \/ exists r, trim l = String "#" r)) ->
  Manifest.uriLine (nextOf post) = None.
Proof.
  intros [->|[l [ls [-> [E|[r E]]]]]]; [reflexivity| |];
    unfold nextOf; cbn [hd_error option_map Manifest.uriLine]; rewrite E; reflexivity.
Qed.

Lemma uriLine_some (post : list string) (nextLine : string) :
  Manifest.uriLine (nextOf post) = Some nextLine ->
  exists l ls, post = l :: ls /\ nextLine = trim l.
Proof.
  destruct post as [|l ls]; [discriminate|].
  unfold nextOf. cbn [hd_error option_map Manifest.uriLine].
  destruct (isEmpty (trim l) || startsWith "#" (trim l)); [discriminate|].
  intros H. injection H as <-. exists l, ls. split; reflexivity.
Qed.

(** C7 (as amended).  A stream-info line that is not followed by a line
    that is neither empty nor a comment, or that nowhere holds BANDWIDTH=
    before a digit, or nowhere RESOLUTION= before digits, an x and a digit, or
    for which no key is found (nowhere NAME= nor VIDEO= before a quoted text
    that is not empty; and, in [src/App.js], a URI line with no first path
    segment and no Layout token before a digit, in [src/unnamed/part_002] a
    URI line that has one segment only or an empty last-but-one segment), is
    not recorded by the loop: the layouts, and in [src/App.js] the log lines,
    are those of the manifest with that line replaced by a bare comment line,
    and the parser returns them (it does not throw). *)
Theorem malformed_entry_is_dropped_silently :
  forall (localeCompare : string -> string -> Z) (manifestUrl : string)
         (pre post : list string) (line attributes : string),
    Forall (fun l => contains LF l = false) (pre ++ line :: post) ->
    trim line = ("#EXT-X-STREAM-INF:" ++ attributes)%string ->
    ((post = [] \/
      (exists l ls, post = l :: ls /\
                    (trim l = EmptyString \/ exists r, trim l = String "#" r))) \/
     (forall a c b, trim line = (a ++ "BANDWIDTH=" ++ String c b)%string ->
                    isDigit c = false) \/
     (forall a w c b,
        trim line = (a ++ "RESOLUTION=" ++ w ++ String "x" (String c b))%string ->
        w <> EmptyString -> forallb isDigit (list_ascii_of_string w) = true ->
        isDigit c = false) \/
     ((forall a v b,
         trim line = (a ++ "NAME=" ++ String quote (v ++ String quote b))%string ->
         v <> EmptyString -> contains quote v = false -> False) /\
      (forall a v b,
         trim line = (a ++ "VIDEO=" ++ String quote (v ++ String quote b))%string ->
         v <> EmptyString -> contains quote v = false -> False) /\
      (forall l ls, post = l :: ls ->
         (contains slash (trim l) = false \/ exists r, trim l = String slash r) /\
         (forall a c b, trim l = (a ++ "Layout" ++ String c b)%string ->
                        isDigit c = false))) ->
     Manifest.entryAt (trim line) (nextOf post) = None /\
     Manifest.parseText localeCompare manifestUrl (join LF (pre ++ line :: post))
     = Manifest.parseText localeCompare manifestUrl (join LF (pre ++ "#" :: post)) /\
     (forall (fetch : string -> fetchOutcome) (ok : bool) (status : Z),
        fetch manifestUrl = Response ok status (Return (join LF (pre ++ line :: post))) ->
        snd (Manifest.parseManifestForLayouts localeCompare fetch manifestUrl)
        = Return (snd (Manifest.parseText localeCompare manifestUrl
                         (join LF (pre ++ "#" :: post)))))) /\
    ((post = [] \/
      (exists l ls, post = l :: ls /\
                    (trim l = EmptyString \/ exists r, trim l = String "#" r))) \/
     (forall a c b, trim line = (a ++ "BANDWIDTH=" ++ String c b)%string ->
                    isDigit c = false) \/
     (forall a w c b,
        trim line = (a ++ "RESOLUTION=" ++ w ++ String "x" (String c b))%string ->
        w <> EmptyString -> forallb isDigit (list_ascii_of_string w) = true ->
        isDigit c = false) \/
     ((forall a v b,
         trim line = (a ++ "NAME=" ++ String quote (v ++ String quote b))%string ->
         v <> EmptyString -> contains quote v = false -> False) /\
      (forall a v b,
         trim line = (a ++ "VIDEO=" ++ String quote (v ++ String quote b))%string ->
         v <> EmptyString -> contains quote v = false -> False) /\
      (forall l ls, post = l :: ls ->
         exists segments,
           trim l = join slash segments /\
           Forall (fun x => contains slash x = false) segments /\
           ((length segments <= 1)%nat \/
            nth (length segments - 2) segments EmptyString = EmptyString))) ->
     RegionsApp.entryAt (trim line) (nextOf post) = None /\
     RegionsApp.parseText localeCompare manifestUrl (join LF (pre ++ line :: post))
     = RegionsApp.parseText localeCompare manifestUrl (join LF (pre ++ "#" :: post)) /\
     (forall (fetch : string -> fetchOutcome) (status : Z),
        fetch manifestUrl = Response true status (Return (join LF (pre ++ line :: post))) ->
        snd (RegionsApp.parseManifestForLayouts localeCompare fetch manifestUrl)
        = Return (RegionsApp.parseText localeCompare manifestUrl
                    (join LF (pre ++ "#" :: post))))).
Proof.
  intros localeCompare manifestUrl pre post line attributes Hlf Hline.
  assert (Hinf : Manifest.isStreamInf (trim line) = true)
    by (rewrite Hline; apply isStreamInf_prefix).
  assert (Hcommon :
    forall (P : Prop),
      ((post = [] \/
        (exists l ls, post = l :: ls /\
                      (trim l = EmptyString \/ exists r, trim l = String "#" r))) \/
       (forall a c b, trim line = (a ++ "BANDWIDTH=" ++ String c b)%string ->
                      isDigit c = false) \/
       (forall a w c b,
          trim line = (a ++ "RESOLUTION=" ++ w ++ String "x" (String c b))%string ->
          w <> EmptyString -> forallb isDigit (list_ascii_of_string w) = true ->
          isDigit c = false) \/ P) ->
      Manifest.uriLine (nextOf post) = None \/
      matchBandwidth (trim line) = None \/
      matchResolution (trim line) = None \/ P).
  { intros P [H|[H|[H|H]]].
    - left. apply uriLine_missing, H.
    - right. left. apply digits_nowhere, H.
    - right. right. left. apply resolution_nowhere, H.
    - right. right. right. exact H. }
  split; intros Hbad; apply Hcommon in Hbad.
  - assert (Hbad' : Manifest.uriLine (nextOf post) = None \/
                    matchBandwidth (trim line) = None \/
                    matchResolution (trim line) = None \/
                    (forall nextLine, Manifest.uriLine (nextOf post) = Some nextLine ->
                                      Manifest.layoutNameOf (trim line) nextLine = None)).
    { destruct Hbad as [H|[H|[H|[Hname [Hvideo Huri]]]]]; auto.
      right. right. right. intros nextLine Hnext.
      apply uriLine_some in Hnext as [l [ls [Hpost ->]]].
      destruct (Huri l ls Hpost) as [Hseg Htoken].
      apply layoutNameOf_none_iff. repeat split.
      - apply quoted_nowhere, Hname.
      - apply quoted_nowhere, Hvideo.
      - apply firstSegment_none, Hseg.
      - unfold matchLayoutToken. rewrite (digits_nowhere "Layout" (trim l) Htoken).
        reflexivity. }
    pose proof (entryAt_malformed _ _ Hbad') as Hnone.
    assert (Hlf' : Forall (fun l => contains LF l = false) (pre ++ "#" :: post)).
    { apply Forall_app in Hlf as [Hpre Hpost]. apply Forall_app. split; [exact Hpre|].
      inversion Hpost; subst. constructor; [reflexivity | assumption]. }
    assert (Heq : Manifest.parseText localeCompare manifestUrl
                    (join LF (pre ++ line :: post))
                  = Manifest.parseText localeCompare manifestUrl
                      (join LF (pre ++ "#" :: post))).
    { unfold Manifest.parseText, Manifest.parseLines.
      rewrite !split_join by (assumption || (destruct pre; discriminate)).
      rewrite !scanLines_entries, (entries_without_dropped pre post line Hinf Hnone).
      reflexivity. }
    split; [exact Hnone|]. split; [exact Heq|].
    intros fetch ok status Hfetch.
    rewrite (parse_returns_parseText _ _ _ _ _ _ Hfetch), Heq. reflexivity.
  - assert (Hbad' : Manifest.uriLine (nextOf post) = None \/
                    matchBandwidth (trim line) = None \/
                    matchResolution (trim line) = None \/
                    (forall nextLine, Manifest.uriLine (nextOf post) = Some nextLine ->
                                      RegionsApp.layoutNameOf (trim line) nextLine = None)).
    { destruct Hbad as [H|[H|[H|[Hname [Hvideo Huri]]]]]; auto.
      right. right. right. intros nextLine Hnext.
      apply uriLine_some in Hnext as [l [ls [Hpost ->]]].
      destruct (Huri l ls Hpost) as [segments [Hjoin [Hsegs Hkey]]].
      apply regions_layoutNameOf_none_iff.
      split; [apply quoted_nowhere, Hname|]. split; [apply quoted_nowhere, Hvideo|].
      rewrite Hjoin. destruct segments as [|s0 rest]; [left; cbn; lia|].
      rewrite split_join by (discriminate || exact Hsegs). exact Hkey. }
    pose proof (regions_entryAt_malformed _ _ Hbad') as Hnone.
    pose proof (regions_malformed_entry_is_dropped localeCompare manifestUrl pre post line
                  Hlf Hinf Hbad') as Heq.
    split; [exact Hnone|]. split; [exact Heq|].
    intros fetch status Hfetch.
    rewrite (regions_parse_returns_parseText _ _ _ _ _ Hfetch), Heq. reflexivity.
Qed.

(** A stream-info line without RESOLUTION between two good entries. *)
Lemma malformed_entry_witness :
  Manifest.entryAt (trim "#EXT-X-STREAM-INF:BANDWIDTH=1200000")
    (nextOf ["wide/mid.m3u8"; Manifest.streamInf "2000000" "1920x1080" "wide";
             "wide/high.m3u8"]) = None /\
  Manifest.parseText letterCollation Manifest.exampleUrl
    (join LF (["#EXTM3U"; Manifest.streamInf "800000" "640x360" "studio";
               "studio/low.m3u8"]
              ++ "#EXT-X-STREAM-INF:BANDWIDTH=1200000"
              :: ["wide/mid.m3u8"; Manifest.streamInf "2000000" "1920x1080" "wide";
                  "wide/high.m3u8"]))
  = Manifest.parseText letterCollation Manifest.exampleUrl
      (join LF (["#EXTM3U"; Manifest.streamInf "800000" "640x360" "studio";
                 "studio/low.m3u8"]
                ++ "#"
                :: ["wide/mid.m3u8"; Manifest.streamInf "2000000" "1920x1080" "wide";
                    "wide/high.m3u8"])).
Proof.
  destruct (proj1 (malformed_entry_is_dropped_silently letterCollation
                     Manifest.exampleUrl
                     ["#EXTM3U"; Manifest.streamInf "800000" "640x360" "studio";
                      "studio/low.m3u8"]
                     ["wide/mid.m3u8"; Manifest.streamInf "2000000" "1920x1080" "wide";
                      "wide/high.m3u8"]
                     "#EXT-X-STREAM-INF:BANDWIDTH=1200000" "BANDWIDTH=1200000"
                     ltac:(repeat constructor) eq_refl))
    as [H1 [H2 _]].
  - right. right. left. intros a w c b H. exfalso.
    exact (no_occurrence "RESOLUTION=" (trim "#EXT-X-STREAM-INF:BANDWIDTH=1200000")
             eq_refl a _ H).
  - split; [exact H1 | exact H2].
Defined.

(** C7 as stated fails: a stream-info line whose attributes are
    AVERAGE-BANDWIDTH, RESOLUTION and NAME has no BANDWIDTH attribute, and
    both parsers keep its entry; in [src/App.js] with the bandwidth 500000. *)
Lemma average_bandwidth_entry_is_kept :
  split ","%char ("AVERAGE-BANDWIDTH=500000,RESOLUTION=640x360,NAME="
                  ++ Manifest.dq ++ "studio" ++ Manifest.dq)
  = ["AVERAGE-BANDWIDTH=500000"; "RESOLUTION=640x360";
     ("NAME=" ++ Manifest.dq ++ "studio" ++ Manifest.dq)%string] /\
  map (fun l => (Manifest.name l, Manifest.bestBandwidth l))
      (snd (Manifest.parseText letterCollation Manifest.exampleUrl
              (join LF ["#EXTM3U";
                        ("#EXT-X-STREAM-INF:AVERAGE-BANDWIDTH=500000,RESOLUTION=640x360,NAME="
                         ++ Manifest.dq ++ "studio" ++ Manifest.dq)%string;
                        "studio/low.m3u8"])))
  = [("studio", 500000%Z)] /\
  map RegionsApp.name
      (RegionsApp.parseText letterCollation Manifest.exampleUrl
         (join LF ["#EXTM3U";
                   ("#EXT-X-STREAM-INF:AVERAGE-BANDWIDTH=500000,RESOLUTION=640x360,NAME="
                    ++ Manifest.dq ++ "studio" ++ Manifest.dq)%string;
                   "studio/low.m3u8"]))
  = ["studio"].
Proof. repeat split; vm_compute; reflexivity. Qed.

Lemma regions_scanned_names (manifestText : string) :
  Permutation (map RegionsApp.ld_name (RegionsApp.scanLines (split LF manifestText) []))
              (RegionsApp.layoutKeys manifestText).
Proof.
  rewrite regions_scanLines_entries.
  apply (recorded_keys_perm RegionsApp.ld_name fst
           (fun e m => RegionsApp.recordStream (fst e) (snd e) m)).
  intros e m. apply regions_recordStream_names.
Qed.

(** C9.  For a manifest URL [pre/post] whose last slash is the one shown,
    the base URL is [pre/], and both parsers return, for every layout key of
    the manifest text, a layout of that name whose master URL is
    [pre/] + key + [/master.m3u8]; they return no other layout.  The URI
    lines enter through the keys only. *)
Theorem master_url_is_base_key_suffix :
  forall (localeCompare : string -> string -> Z) (fetch : string -> fetchOutcome)
         (pre post manifestText : string) (ok : bool) (status : Z),
    contains slash post = false ->
    fetch (pre ++ String slash post)%string = Response ok status (Return manifestText) ->
    Manifest.baseUrlOf (pre ++ String slash post)%string
    = (pre ++ String slash EmptyString)%string /\
    (exists layouts,
       snd (Manifest.parseManifestForLayouts localeCompare fetch
              (pre ++ String slash post)%string) = Return layouts /\
       (forall key, In key (Manifest.layoutKeys manifestText) ->
          exists l, In l layouts /\ Manifest.name l = key /\
                    Manifest.masterUrl l
                    = ((pre ++ String slash EmptyString) ++ key ++ "/master.m3u8")%string) /\
       (forall l, In l layouts ->
          In (Manifest.name l) (Manifest.layoutKeys manifestText) /\
          Manifest.masterUrl l
          = ((pre ++ String slash EmptyString) ++ Manifest.name l
             ++ "/master.m3u8")%string)) /\
    (ok = true ->
     exists layouts,
       snd (RegionsApp.parseManifestForLayouts localeCompare fetch
              (pre ++ String slash post)%string) = Return layouts /\
       (forall key, In key (RegionsApp.layoutKeys manifestText) ->
          exists l, In l layouts /\ RegionsApp.name l = key /\
                    RegionsApp.masterUrl l
                    = ((pre ++ String slash EmptyString) ++ key ++ "/master.m3u8")%string) /\
       (forall l, In l layouts ->
          In (RegionsApp.name l) (RegionsApp.layoutKeys manifestText) /\
          RegionsApp.masterUrl l
          = ((pre ++ String slash EmptyString) ++ RegionsApp.name l
             ++ "/master.m3u8")%string)).
Proof.
  intros localeCompare fetch pre post manifestText ok status Hpost Hfetch.
  pose proof (baseUrlOf_last_slash pre post Hpost) as Hbase.
  split; [exact Hbase|]. split.
  - exists (snd (Manifest.parseText localeCompare (pre ++ String slash post) manifestText)).
    split; [apply (parse_returns_parseText _ _ _ _ _ _ Hfetch)|].
    assert (Hnames : Permutation
              (map Manifest.name
                   (snd (Manifest.parseText localeCompare (pre ++ String slash post)
                           manifestText)))
              (Manifest.layoutKeys manifestText)).
    { rewrite (parseText_perm localeCompare _ manifestText), map_map.
      simpl. apply scanned_names. }
    split.
    + intros key Hkey.
      apply (Permutation_in _ (Permutation_sym Hnames)), in_map_iff in Hkey
        as [l [Hname Hin]].
      exists l. split; [exact Hin|]. split; [exact Hname|].
      rewrite <- Hbase, <- Hname. apply (parsed_layout_master_url _ _ _ _ Hin).
    + intros l Hin. split.
      * apply (Permutation_in _ Hnames), in_map, Hin.
      * rewrite <- Hbase. apply (parsed_layout_master_url _ _ _ _ Hin).
  - intros ->.
    exists (RegionsApp.parseText localeCompare (pre ++ String slash post) manifestText).
    split; [apply (regions_parse_returns_parseText _ _ _ _ _ Hfetch)|].
    assert (Hnames : Permutation
              (map RegionsApp.name
                   (RegionsApp.parseText localeCompare (pre ++ String slash post)
                      manifestText))
              (RegionsApp.layoutKeys manifestText)).
    { rewrite (regions_parseText_perm localeCompare _ manifestText), map_map.
      simpl. apply regions_scanned_names. }
    split.
    + intros key Hkey.
      apply (Permutation_in _ (Permutation_sym Hnames)), in_map_iff in Hkey
        as [l [Hname Hin]].
      exists l. split; [exact Hin|]. split; [exact Hname|].
      rewrite <- Hbase, <- Hname. apply (regions_parsed_layout_master_url _ _ _ _ Hin).
    + intros l Hin. split.
      * apply (Permutation_in _ Hnames), in_map, Hin.
      * rewrite <- Hbase. apply (regions_parsed_layout_master_url _ _ _ _ Hin).
Qed.

(** A manifest whose entry names the layout studio and whose URI line lies
    elsewhere. *)
Lemma master_url_witness :
  exists layouts l,
    snd (Manifest.parseManifestForLayouts letterCollation
           (Manifest.serve true 200
              (join LF ["#EXTM3U"; Manifest.streamInf "800000" "640x360" "studio";
                        "cdn7/a/low.m3u8"]))
           "https://edge.example/hls/ev/master.m3u8") = Return layouts /\
    In l layouts /\ Manifest.name l = "studio" /\
    Manifest.masterUrl l = "https://edge.example/hls/ev/studio/master.m3u8".
Proof.
  destruct (master_url_is_base_key_suffix letterCollation
              (Manifest.serve true 200
                 (join LF ["#EXTM3U"; Manifest.streamInf "800000" "640x360" "studio";
                           "cdn7/a/low.m3u8"]))
              "https://edge.example/hls/ev" "master.m3u8"
              (join LF ["#EXTM3U"; Manifest.streamInf "800000" "640x360" "studio";
                        "cdn7/a/low.m3u8"])
              true 200%Z eq_refl eq_refl)
    as [_ [[layouts [Hparse [Hkeys _]]] _]].
  destruct (Hkeys "studio") as [l [Hin [Hname Hurl]]]; [vm_compute; left; reflexivity|].
  exists layouts, l. split; [exact Hparse|]. split; [exact Hin|]. split; [exact Hname|].
  exact Hurl.
Defined.

End ParserClaims.

(** ** Region clicks *)

Section RegionFacts.
Import RegionsApp.

Lemma contains_iff (cx cy : Q) (r : region) :
  contains cx cy r = true <->
  (x r <= cx)%Q /\ (cx <= x r + width r)%Q /\ (y r <= cy)%Q /\ (cy <= y r + height r)%Q.
Proof.
  unfold contains. rewrite !andb_true_iff, !Qle_bool_iff. tauto.
Qed.

(** [findLayout] is the first layout whose name equals the parent name up to
    case. *)
Lemma findLayout_some (parentName : string) (ls : list layout) (l : layout) :
  findLayout parentName ls = Some l ->
  In l ls /\ Js.toLowerCase (name l) = Js.toLowerCase parentName.
Proof.
  intros H. apply find_some in H as [Hin Heq]. apply String.eqb_eq in Heq. tauto.
Qed.

Lemma findLayout_none (parentName : string) (ls : list layout) :
  findLayout parentName ls = None ->
  forall l, In l ls -> Js.toLowerCase (name l) <> Js.toLowerCase parentName.
Proof.
  intros H l Hin. apply (find_none _ _ H) in Hin. apply String.eqb_neq, Hin.
Qed.

Lemma findLayout_first (parentName : string) (earlier later : list layout)
  (nextLayout : layout) :
  Forall (fun l => Js.toLowerCase (name l) <> Js.toLowerCase parentName) earlier ->
  Js.toLowerCase (name nextLayout) = Js.toLowerCase parentName ->
  findLayout parentName (earlier ++ nextLayout :: later) = Some nextLayout.
Proof.
  intros Hearlier Hnext. unfold findLayout.
  induction earlier as [|l r IH]; cbn [app find].
  - rewrite Hnext, String.eqb_refl. reflexivity.
  - inversion Hearlier as [|? ? Hl Hr]; subst.
    apply String.eqb_neq in Hl. rewrite Hl. apply IH, Hr.
Qed.

Lemma findLayout_absent (parentName : string) (ls : list layout) :
  Forall (fun l => Js.toLowerCase (name l) <> Js.toLowerCase parentName) ls ->
  findLayout parentName ls = None.
Proof.
  intros H. unfold findLayout. induction ls as [|l r IH]; [reflexivity|].
  inversion H as [|? ? Hl Hr]; subst. cbn [find].
  apply String.eqb_neq in Hl. rewrite Hl. apply IH, Hr.
Qed.

(** The click handler after its guards, for a hit region that names a parent
    layout. *)
Lemma handleVideoClick_hit (e : mouseEvent) (s : session) (video : videoElement)
  (containerRect : domRect) (cx cy : Q) (hitRegion : region) (parentName : string) :
  1 < length (layouts s) ->
  videoRef s = Some video -> videoContainerRef s = Some containerRect ->
  isZero (videoWidth video) = false -> isZero (videoHeight video) = false ->
  canvasClick containerRect video (canvasDimensions s) e = Some (cx, cy) ->
  hitRegionAt cx cy (regions s) = Some hitRegion ->
  parent_layout_name hitRegion = Some parentName ->
  handleVideoClick e s =
  let s1 := addLog (LogClickedRegion (source_type hitRegion) (source_idx hitRegion)) s in
  match findLayout parentName (layouts s) with
  | Some nextLayout =>
      if String.eqb (name nextLayout) (selectedLayout s) then (s1, Return tt)
      else (withSelectedLayout (name nextLayout)
              (addLog (LogSwitchingTo (name nextLayout)) s1), Return tt)
  | None => (addLog (LogRegionLayoutNotFound parentName) s1, Return tt)
  end.
Proof.
  intros Hlen Hv Hc Hw Hh Hclick Hhit Hparent. unfold handleVideoClick.
  destruct (length (layouts s) <=? 1)%nat eqn:E; [apply Nat.leb_le in E; lia|].
  rewrite Hv, Hc, Hw, Hh, Hclick. simpl orb. cbv iota zeta.
  destruct (regions s) as [|r0 rs] eqn:Er; [discriminate Hhit|].
  rewrite Hhit, Hparent. reflexivity.
Qed.

Lemma indexed_above (rs : list region) (i j : nat) :
  j < i ->
  map snd (filter (fun ir => negb (fst ir =? j)%nat) (indexed i rs)) = rs.
Proof.
  revert i; induction rs as [|r rs IH]; intros i Hlt; simpl; [reflexivity|].
  destruct (i =? j)%nat eqn:E; [apply Nat.eqb_eq in E; lia|].
  simpl. rewrite IH by lia. reflexivity.
Qed.

Lemma indexed_without (rs : list region) (i j : nat) :
  i <= j ->
  map snd (filter (fun ir => negb (fst ir =? j)%nat) (indexed i rs))
  = firstn (j - i) rs ++ skipn (S (j - i)) rs.
Proof.
  revert i; induction rs as [|r rs IH]; intros i Hle; simpl.
  - rewrite firstn_nil. reflexivity.
  - destruct (i =? j)%nat eqn:E; simpl.
    + apply Nat.eqb_eq in E. subst j. rewrite Nat.sub_diag. simpl.
      apply indexed_above. lia.
    + apply Nat.eqb_neq in E. rewrite IH by lia.
      replace (j - i) with (S (j - S i)) by lia. reflexivity.
Qed.

Lemma Qlt_bool_false (a b : Q) : Qlt_bool a b = false -> (b <= a)%Q.
Proof.
  unfold Qlt_bool. intros H. apply negb_false_iff in H. apply Qle_bool_iff, H.
Qed.

Lemma Qlt_bool_true (a b : Q) : Qlt_bool a b = true -> (a <= b)%Q.
Proof.
  unfold Qlt_bool. intros H. apply negb_true_iff in H.
  destruct (Qlt_le_dec a b) as [Hlt|Hle]; [apply Qlt_le_weak, Hlt|].
  apply Qle_bool_iff in Hle. congruence.
Qed.

(** The [reduce] returns either its start value or an element of the array,
    and nothing in the array (nor the start value) has a larger area. *)
Lemma largestFrom_spec (rs : list region) :
  forall (i : nat) (start : option (nat * region)) (j : nat) (l : region),
    largestFrom rs i start = Some (j, l) ->
    (start = Some (j, l) \/
     (i <= j < i + length rs /\ nth_error rs (j - i) = Some l)) /\
    Forall (fun r => (area r <= area l)%Q) rs /\
    (forall jb lb, start = Some (jb, lb) -> (area lb <= area l)%Q).
Proof.
  induction rs as [|c rest IH]; intros i start j l H; simpl in H.
  - subst start. split; [left; reflexivity|]. split; [constructor|].
    intros jb lb E. injection E as <- <-. apply Qle_refl.
  - apply IH in H as [Hsrc [Hall Hstart]].
    assert (Hshift : S i <= j < S i + length rest /\ nth_error rest (j - S i) = Some l ->
                     i <= j < i + length (c :: rest) /\
                     nth_error (c :: rest) (j - i) = Some l).
    { intros [Hj Hn]. simpl. split; [lia|].
      replace (j - i) with (S (j - S i)) by lia. exact Hn. }
    assert (Hhead : Some (i, c) = Some (j, l) ->
                    i <= j < i + length (c :: rest) /\
                    nth_error (c :: rest) (j - i) = Some l).
    { intros E. injection E as <- <-. simpl. rewrite Nat.sub_diag. split; [lia | reflexivity]. }
    destruct start as [[jb lb]|].
    + destruct (Qlt_bool (area lb) (area c)) eqn:E.
      * pose proof (Hstart _ _ eq_refl) as Hc.
        split; [right; destruct Hsrc as [Hs|Hs]; auto|].
        split; [constructor; assumption|].
        intros jb' lb' E'. injection E' as <- <-.
        eapply Qle_trans; [apply Qlt_bool_true, E | exact Hc].
      * pose proof (Hstart _ _ eq_refl) as Hb.
        split; [destruct Hsrc as [Hs|Hs]; auto|].
        split; [|intros jb' lb' E'; injection E' as <- <-; exact Hb].
        constructor; [|exact Hall].
        eapply Qle_trans; [apply Qlt_bool_false, E | exact Hb].
    + pose proof (Hstart _ _ eq_refl) as Hc.
      split; [right; destruct Hsrc as [Hs|Hs]; auto|].
      split; [constructor; assumption | discriminate].
Qed.

Lemma largestFrom_some (rs : list region) :
  forall (i : nat) (b : nat * region), exists r, largestFrom rs i (Some b) = Some r.
Proof.
  induction rs as [|c rest IH]; intros i [jb lb]; simpl; [eexists; reflexivity|].
  destruct (Qlt_bool (area lb) (area c)); apply IH.
Qed.

Lemma Qlt_bool_lt (a b : Q) : Qlt_bool a b = true <-> (a < b)%Q.
Proof.
  unfold Qlt_bool. rewrite negb_true_iff. split.
  - intros H. apply Qnot_le_lt. intros Hle. apply Qle_bool_iff in Hle. congruence.
  - intros H. destruct (Qle_bool b a) eqn:E; [|reflexivity].
    apply Qle_bool_iff in E. exfalso. apply (Qlt_not_le _ _ H E).
Qed.

(** The region that the [reduce] returns comes before every other region of
    its area: a later region replaces it only when it is strictly larger. *)
Lemma largestFrom_first (rs : list region) :
  forall (i : nat) (start : option (nat * region)) (j : nat) (l : region),
    largestFrom rs i start = Some (j, l) ->
    (forall jb lb, start = Some (jb, lb) -> jb < i) ->
    (start = Some (j, l) \/
     (i <= j /\ forall jb lb, start = Some (jb, lb) -> (area lb < area l)%Q)) /\
    (forall k r, i <= k -> k < j -> nth_error rs (k - i) = Some r ->
                 (area r < area l)%Q).
Proof.
  induction rs as [|c rest IH]; intros i start j l H Hstart; cbn [largestFrom] in H.
  - split; [left; exact H|]. intros k r _ _ Hn. destruct (k - i); discriminate.
  - apply IH in H as [Hsrc Hbefore].
    2:{ intros jb lb E. destruct start as [[jb0 lb0]|].
        - destruct (Qlt_bool (area lb0) (area c)).
          + injection E as <- <-. lia.
          + specialize (Hstart _ _ E). lia.
        - injection E as <- <-. lia. }
    destruct start as [[jb lb]|].
    + destruct (Qlt_bool (area lb) (area c)) eqn:E.
      * apply Qlt_bool_lt in E. split.
        -- right. destruct Hsrc as [Hs|[Hj Hlt]].
           ++ injection Hs as <- <-. split; [lia|].
              intros jb' lb' E'. injection E' as <- <-. exact E.
           ++ split; [lia|]. intros jb' lb' E'. injection E' as <- <-.
              eapply Qlt_trans; [exact E | apply (Hlt _ _ eq_refl)].
        -- intros k r Hik Hkj Hn. destruct (Nat.eq_dec k i) as [->|Hne].
           ++ rewrite Nat.sub_diag in Hn. injection Hn as <-.
              destruct Hsrc as [Hs|[_ Hlt]]; [injection Hs as <- <-; lia|].
              apply (Hlt _ _ eq_refl).
           ++ replace (k - i) with (S (k - S i)) in Hn by lia.
              apply (Hbefore k r); [lia | exact Hkj | exact Hn].
      * apply Qlt_bool_false in E. split.
        -- destruct Hsrc as [Hs|[Hj Hlt]]; [left; exact Hs|].
           right. split; [lia|]. exact Hlt.
        -- intros k r Hik Hkj Hn. destruct (Nat.eq_dec k i) as [->|Hne].
           ++ rewrite Nat.sub_diag in Hn. injection Hn as <-.
              destruct Hsrc as [Hs|[_ Hlt]].
              ** injection Hs as <- <-. specialize (Hstart _ _ eq_refl). lia.
              ** eapply Qle_lt_trans; [exact E | apply (Hlt _ _ eq_refl)].
           ++ replace (k - i) with (S (k - S i)) in Hn by lia.
              apply (Hbefore k r); [lia | exact Hkj | exact Hn].
    + split.
      * right. destruct Hsrc as [Hs|[Hj Hlt]].
        -- injection Hs as <- <-. split; [lia | discriminate].
        -- split; [lia | discriminate].
      * intros k r Hik Hkj Hn. destruct (Nat.eq_dec k i) as [->|Hne].
        -- rewrite Nat.sub_diag in Hn. injection Hn as <-.
           destruct Hsrc as [Hs|[_ Hlt]]; [injection Hs as <- <-; lia|].
           apply (Hlt _ _ eq_refl).
        -- replace (k - i) with (S (k - S i)) in Hn by lia.
           apply (Hbefore k r); [lia | exact Hkj | exact Hn].
Qed.

(** Exactly one region is left out of the hit test: the first of those that
    have the largest area. *)
Lemma clickableRegions_spec (rs : list region) :
  rs <> [] ->
  exists j largest,
    largestRegion rs = Some j /\ nth_error rs j = Some largest /\
    Forall (fun r => (area r <= area largest)%Q) rs /\
    (forall k r, k < j -> nth_error rs k = Some r -> (area r < area largest)%Q) /\
    clickableRegions rs = firstn j rs ++ skipn (S j) rs.
Proof.
  intros Hne. destruct rs as [|c rest]; [contradiction|].
  unfold clickableRegions, largestRegion.
  destruct (largestFrom_some rest 1 (0, c)) as [[j l] Hl].
  assert (Hl' : largestFrom (c :: rest) 0 None = Some (j, l)) by exact Hl.
  rewrite Hl'. simpl option_map.
  pose proof (largestFrom_first _ _ _ _ _ Hl') as [_ Hfirst]; [discriminate|].
  apply largestFrom_spec in Hl' as [[Hs|[Hj Hn]] [Hall _]]; [discriminate|].
  rewrite Nat.sub_0_r in Hn.
  exists j, l. split; [reflexivity|]. split; [exact Hn|]. split; [exact Hall|]. split.
  - intros k r Hk Hr. apply (Hfirst k r); [lia | exact Hk|].
    rewrite Nat.sub_0_r. exact Hr.
  - rewrite (indexed_without (c :: rest) 0 j) by lia.
    rewrite Nat.sub_0_r. reflexivity.
Qed.

(** There is one first region of largest area. *)
Lemma first_largest_unique (rs : list region) (j j' : nat) (l l' : region) :
  nth_error rs j = Some l -> Forall (fun r => (area r <= area l)%Q) rs ->
  (forall k r, k < j -> nth_error rs k = Some r -> (area r < area l)%Q) ->
  nth_error rs j' = Some l' -> Forall (fun r => (area r <= area l')%Q) rs ->
  (forall k r, k < j' -> nth_error rs k = Some r -> (area r < area l')%Q) ->
  j = j'.
Proof.
  intros Hj Hmax Hfirst Hj' Hmax' Hfirst'.
  destruct (Nat.lt_trichotomy j j') as [Hlt|[Heq|Hgt]]; [|exact Heq|]; exfalso.
  - pose proof (Hfirst' j l Hlt Hj) as H1.
    rewrite Forall_forall in Hmax. pose proof (Hmax l' (nth_error_In _ _ Hj')) as H2.
    apply (Qlt_not_le _ _ H1 H2).
  - pose proof (Hfirst j' l' Hgt Hj') as H1.
    rewrite Forall_forall in Hmax'. pose proof (Hmax' l (nth_error_In _ _ Hj)) as H2.
    apply (Qlt_not_le _ _ H1 H2).
Qed.

Lemma find_first {A : Type} (f : A -> bool) (pre post : list A) (a : A) :
  Forall (fun b => f b = false) pre -> f a = true ->
  find f (pre ++ a :: post) = Some a.
Proof.
  induction pre as [|b r IH]; intros Hpre Ha; cbn [app find].
  - rewrite Ha. reflexivity.
  - inversion Hpre as [|? ? Hb Hr]; subst. rewrite Hb. apply IH; assumption.
Qed.

Lemma isZero_false (q : Q) : ~ (q == 0)%Q -> isZero q = false.
Proof.
  intros H. unfold isZero. destruct (Qeq_bool q 0) eqn:E; [|reflexivity].
  apply Qeq_bool_iff in E. contradiction.
Qed.

Lemma isZero_true (q : Q) : (q == 0)%Q -> isZero q = true.
Proof. intros H. apply Qeq_bool_iff, H. Qed.

(** The comparison of the two aspect ratios, without the divisions. *)
Lemma aspect_lt_iff (vw vh cw ch : Q) :
  (0 < vh)%Q -> (0 < ch)%Q ->
  ((vw / vh < cw / ch)%Q <-> (vw * ch < cw * vh)%Q).
Proof.
  intros Hvh Hch.
  assert (Hpos : (0 < vh * ch)%Q)
    by (rewrite <- (Qmult_0_l ch); apply Qmult_lt_r; assumption).
  assert (E1 : (vw / vh * (vh * ch) == vw * ch)%Q)
    by (field; intros E; rewrite E in Hvh; apply (Qlt_irrefl _ Hvh)).
  assert (E2 : (cw / ch * (vh * ch) == cw * vh)%Q)
    by (field; intros E; rewrite E in Hch; apply (Qlt_irrefl _ Hch)).
  rewrite <- E1, <- E2. symmetry. apply Qmult_lt_r, Hpos.
Qed.

Lemma positive_nonzero (q : Q) : (0 < q)%Q -> ~ (q == 0)%Q.
Proof. intros H E. rewrite E in H. apply (Qlt_irrefl _ H). Qed.

(** The click in canvas coordinates for a container and a video of positive
    size: bars at the sides when the container is wider than the video, above
    and below otherwise. *)
Lemma canvasClick_positive (containerRect : domRect) (video : videoElement)
  (canvas : dimensions) (e : mouseEvent) :
  (0 < rect_width containerRect)%Q -> (0 < rect_height containerRect)%Q ->
  (0 < videoWidth video)%Q -> (0 < videoHeight video)%Q ->
  exists cx cy,
    canvasClick containerRect video canvas e = Some (cx, cy) /\
    ((videoWidth video * rect_height containerRect
      < rect_width containerRect * videoHeight video)%Q ->
     (cx == (clientX e - rect_left containerRect
             - (rect_width containerRect
                - rect_height containerRect * videoWidth video / videoHeight video) / 2)
            / (rect_height containerRect * videoWidth video / videoHeight video)
            * dim_width canvas)%Q /\
     (cy == (clientY e - rect_top containerRect) / rect_height containerRect
            * dim_height canvas)%Q) /\
    ((rect_width containerRect * videoHeight video
      <= videoWidth video * rect_height containerRect)%Q ->
     (cx == (clientX e - rect_left containerRect) / rect_width containerRect
            * dim_width canvas)%Q /\
     (cy == (clientY e - rect_top containerRect
             - (rect_height containerRect
                - rect_width containerRect * videoHeight video / videoWidth video) / 2)
            / (rect_width containerRect * videoHeight video / videoWidth video)
            * dim_height canvas)%Q).
Proof.
  destruct containerRect as [left top cw ch], video as [vw vh t], canvas as [W H],
           e as [ex ey].
  cbn [rect_left rect_top rect_width rect_height videoWidth videoHeight dim_width
       dim_height clientX clientY].
  intros Hcw Hch Hvw Hvh.
  pose proof (positive_nonzero _ Hcw) as Ncw. pose proof (positive_nonzero _ Hch) as Nch.
  pose proof (positive_nonzero _ Hvw) as Nvw. pose proof (positive_nonzero _ Hvh) as Nvh.
  unfold canvasClick.
  cbn [rect_left rect_top rect_width rect_height videoWidth videoHeight dim_width
       dim_height clientX clientY].
  rewrite (isZero_false vw Nvw), (isZero_false vh Nvh), (isZero_false ch Nch).
  cbn [orb].
  destruct (Qlt_bool (vw / vh) (cw / ch)) eqn:E.
  - apply Qlt_bool_lt, (aspect_lt_iff vw vh cw ch Hvh Hch) in E.
    assert (Nw : ~ (ch * (vw / vh) == 0)%Q).
    { intros E0. apply Nch. apply (Qmult_integral _ _) in E0 as [E0|E0]; [exact E0|].
      exfalso. apply Nvw.
      setoid_replace vw with (vw / vh * vh)%Q by (field; exact Nvh).
      rewrite E0. ring. }
    rewrite (isZero_false _ Nw), (isZero_false ch Nch). cbn [orb].
    eexists. eexists. split; [reflexivity|]. split.
    + intros _. split; field; repeat split; assumption.
    + intros Hle. exfalso. apply (Qlt_not_le _ _ E Hle).
  - assert (Hle : (cw * vh <= vw * ch)%Q).
    { apply Qnot_lt_le. intros Hlt.
      apply (aspect_lt_iff vw vh cw ch Hvh Hch), Qlt_bool_lt in Hlt. congruence. }
    assert (Nh : ~ (cw / (vw / vh) == 0)%Q).
    { intros E0. apply Ncw.
      setoid_replace cw with (cw / (vw / vh) * (vw / vh))%Q by (field; split; assumption).
      rewrite E0. ring. }
    rewrite (isZero_false cw Ncw), (isZero_false _ Nh). cbn [orb].
    eexists. eexists. split; [reflexivity|]. split.
    + intros Hlt. exfalso. apply (Qlt_not_le _ _ Hlt Hle).
    + intros _. split; field; repeat split; assumption.
Qed.

(** A container without width or height: no region is hit. *)
Lemma canvasClick_collapsed (containerRect : domRect) (video : videoElement)
  (canvas : dimensions) (e : mouseEvent) :
  (0 <= rect_width containerRect)%Q -> (0 <= rect_height containerRect)%Q ->
  (0 <= videoWidth video)%Q -> (0 <= videoHeight video)%Q ->
  (rect_width containerRect == 0)%Q \/ (rect_height containerRect == 0)%Q ->
  canvasClick containerRect video canvas e = None.
Proof.
  destruct containerRect as [left top cw ch], video as [vw vh t], canvas as [W H],
           e as [ex ey].
  cbn [rect_left rect_top rect_width rect_height videoWidth videoHeight].
  intros Hcw Hch Hvw Hvh Hzero. unfold canvasClick.
  cbn [rect_left rect_top rect_width rect_height videoWidth videoHeight dim_width
       dim_height clientX clientY].
  destruct (isZero vw || isZero vh) eqn:Ev; [reflexivity|].
  apply orb_false_iff in Ev as [Ew Eh].
  assert (Nvw : ~ (vw == 0)%Q) by (intros E0; rewrite (isZero_true _ E0) in Ew; discriminate).
  assert (Nvh : ~ (vh == 0)%Q) by (intros E0; rewrite (isZero_true _ E0) in Eh; discriminate).
  assert (Pvw : (0 < vw)%Q) by (apply Qle_lteq in Hvw as [H0|H0]; [exact H0 | symmetry in H0; contradiction]).
  assert (Pvh : (0 < vh)%Q) by (apply Qle_lteq in Hvh as [H0|H0]; [exact H0 | symmetry in H0; contradiction]).
  destruct (isZero ch) eqn:Ech.
  - destruct (Qlt_bool 0 cw) eqn:Ecw.
    + rewrite Ech, orb_true_r. reflexivity.
    + assert (Zcw : (cw == 0)%Q).
      { apply Qle_antisym; [apply Qlt_bool_false, Ecw | exact Hcw]. }
      rewrite (isZero_true _ Zcw). reflexivity.
  - assert (Zcw : (cw == 0)%Q).
    { destruct Hzero as [Z|Z]; [exact Z|]. rewrite (isZero_true _ Z) in Ech. discriminate. }
    assert (Nch : ~ (ch == 0)%Q) by (intros E0; rewrite (isZero_true _ E0) in Ech; discriminate).
    assert (Pch : (0 < ch)%Q) by (apply Qle_lteq in Hch as [H0|H0]; [exact H0 | symmetry in H0; contradiction]).
    assert (Enarrow : Qlt_bool (vw / vh) (cw / ch) = false).
    { destruct (Qlt_bool (vw / vh) (cw / ch)) eqn:E; [|reflexivity].
      apply Qlt_bool_lt, (aspect_lt_iff vw vh cw ch Pvh Pch) in E.
      rewrite Zcw, Qmult_0_l in E. exfalso.
      apply (Qlt_not_le _ _ E). apply Qmult_le_0_compat; assumption. }
    rewrite Enarrow, (isZero_true _ Zcw). reflexivity.
Qed.

(** C6 (as amended).  (1) The hit test leaves out one region of the active
    layout, the first of those of largest area, and runs over the others in
    stored order.  (2) For a container and a video of positive size the click
    is mapped to the canvas through the centred picture: with bars at the
    sides when the container is wider than the video, with bars above and
    below otherwise.  (3) When the container has no width or no height, no
    region is hit and the click changes nothing.  (4) When the click passes
    the guards and the first region in stored order, the left-out one apart,
    whose rectangle holds the canvas point names a parent layout: the first
    layout whose name equals that name up to case becomes the selection when
    it is not the active one, and only the click is logged when it is; a name
    that no layout has up to case is logged and nothing else changes, without
    an error.  (5) On a 1920x1080 canvas whose
    regions are a full-canvas background and the region 0,0,960,1080 with
    parent wide, a click that maps to (100,100) selects the layout wide when
    one was parsed and is not active. *)
Theorem region_click_selects_parent_layout :
  (forall rs : list region, rs <> [] ->
     exists j largest,
       nth_error rs j = Some largest /\
       Forall (fun r => (area r <= area largest)%Q) rs /\
       (forall k r, k < j -> nth_error rs k = Some r -> (area r < area largest)%Q) /\
       clickableRegions rs = firstn j rs ++ skipn (S j) rs) /\
  (forall (containerRect : domRect) (video : videoElement) (canvas : dimensions)
          (e : mouseEvent),
     (0 < rect_width containerRect)%Q -> (0 < rect_height containerRect)%Q ->
     (0 < videoWidth video)%Q -> (0 < videoHeight video)%Q ->
     exists cx cy,
       canvasClick containerRect video canvas e = Some (cx, cy) /\
       ((videoWidth video * rect_height containerRect
         < rect_width containerRect * videoHeight video)%Q ->
        (cx == (clientX e - rect_left containerRect
                - (rect_width containerRect
                   - rect_height containerRect * videoWidth video / videoHeight video) / 2)
               / (rect_height containerRect * videoWidth video / videoHeight video)
               * dim_width canvas)%Q /\
        (cy == (clientY e - rect_top containerRect) / rect_height containerRect
               * dim_height canvas)%Q) /\
       ((rect_width containerRect * videoHeight video
         <= videoWidth video * rect_height containerRect)%Q ->
        (cx == (clientX e - rect_left containerRect) / rect_width containerRect
               * dim_width canvas)%Q /\
        (cy == (clientY e - rect_top containerRect
                - (rect_height containerRect
                   - rect_width containerRect * videoHeight video / videoWidth video) / 2)
               / (rect_width containerRect * videoHeight video / videoWidth video)
               * dim_height canvas)%Q)) /\
  (forall (e : mouseEvent) (s : session) (video : videoElement)
          (containerRect : domRect),
     videoRef s = Some video -> videoContainerRef s = Some containerRect ->
     (0 <= rect_width containerRect)%Q -> (0 <= rect_height containerRect)%Q ->
     (0 <= videoWidth video)%Q -> (0 <= videoHeight video)%Q ->
     (rect_width containerRect == 0)%Q \/ (rect_height containerRect == 0)%Q ->
     handleVideoClick e s = (s, Return tt)) /\
  (forall (e : mouseEvent) (s : session) (video : videoElement)
          (containerRect : domRect) (cx cy : Q) (j : nat) (largest : region)
          (before : list region) (hitRegion : region) (after : list region)
          (parentName : string),
     1 < length (layouts s) ->
     videoRef s = Some video -> videoContainerRef s = Some containerRect ->
     isZero (videoWidth video) = false -> isZero (videoHeight video) = false ->
     canvasClick containerRect video (canvasDimensions s) e = Some (cx, cy) ->
     nth_error (regions s) j = Some largest ->
     Forall (fun r => (area r <= area largest)%Q) (regions s) ->
     (forall k r, k < j -> nth_error (regions s) k = Some r ->
                  (area r < area largest)%Q) ->
     firstn j (regions s) ++ skipn (S j) (regions s) = before ++ hitRegion :: after ->
     Forall (fun r => ~ ((x r <= cx)%Q /\ (cx <= x r + width r)%Q /\
                         (y r <= cy)%Q /\ (cy <= y r + height r)%Q)) before ->
     (x hitRegion <= cx)%Q -> (cx <= x hitRegion + width hitRegion)%Q ->
     (y hitRegion <= cy)%Q -> (cy <= y hitRegion + height hitRegion)%Q ->
     parent_layout_name hitRegion = Some parentName ->
     let clicked :=
       addLog (LogClickedRegion (source_type hitRegion) (source_idx hitRegion)) s in
     (forall (earlier : list layout) (nextLayout : layout) (later : list layout),
        layouts s = earlier ++ nextLayout :: later ->
        Forall (fun l => Js.toLowerCase (name l) <> Js.toLowerCase parentName) earlier ->
        Js.toLowerCase (name nextLayout) = Js.toLowerCase parentName ->
        (name nextLayout <> selectedLayout s ->
         handleVideoClick e s =
           (withSelectedLayout (name nextLayout)
              (addLog (LogSwitchingTo (name nextLayout)) clicked), Return tt)) /\
        (name nextLayout = selectedLayout s ->
         handleVideoClick e s = (clicked, Return tt))) /\
     (Forall (fun l => Js.toLowerCase (name l) <> Js.toLowerCase parentName) (layouts s) ->
        handleVideoClick e s =
          (addLog (LogRegionLayoutNotFound parentName) clicked, Return tt))) /\
  (forall (e : mouseEvent) (s : session) (video : videoElement)
          (containerRect : domRect) (cx cy : Q)
          (earlier : list layout) (nextLayout : layout) (later : list layout),
     1 < length (layouts s) ->
     videoRef s = Some video -> videoContainerRef s = Some containerRect ->
     isZero (videoWidth video) = false -> isZero (videoHeight video) = false ->
     canvasClick containerRect video (canvasDimensions s) e = Some (cx, cy) ->
     (cx == 100)%Q -> (cy == 100)%Q ->
     regions s = [backgroundRegion; wideRegion] ->
     layouts s = earlier ++ nextLayout :: later ->
     Forall (fun l => Js.toLowerCase (name l) <> "wide") earlier ->
     Js.toLowerCase (name nextLayout) = "wide" ->
     name nextLayout <> selectedLayout s ->
     selectedLayout (fst (handleVideoClick e s)) = name nextLayout /\
     snd (handleVideoClick e s) = Return tt).
Proof.
  split; [|split; [|split; [|split]]].
  - intros rs Hne. destruct (clickableRegions_spec rs Hne) as [j [l [_ H]]].
    exists j, l. exact H.
  - apply canvasClick_positive.
  - intros e s video containerRect Hv Hc Hcw Hch Hvw Hvh Hzero.
    unfold handleVideoClick. rewrite Hv, Hc.
    rewrite (canvasClick_collapsed containerRect video (canvasDimensions s) e
               Hcw Hch Hvw Hvh Hzero).
    destruct (length (layouts s) <=? 1)%nat; [reflexivity|].
    destruct (isZero (videoWidth video) || isZero (videoHeight video)); [reflexivity|].
    destruct (regions s); reflexivity.
  - intros e s video containerRect cx cy j largest before hitRegion after parentName
           Hlen Hv Hc Hw Hh Hclick Hj Hmax Hfirst Hsplit Hmiss Hx1 Hx2 Hy1 Hy2
           Hparent clicked.
    assert (Hhit : hitRegionAt cx cy (regions s) = Some hitRegion).
    { unfold hitRegionAt.
      destruct (clickableRegions_spec (regions s)) as [j' [l' [_ [Hj' [Hmax' [Hfirst' Hcl]]]]]].
      { intros E. rewrite E in Hj. destruct j; discriminate. }
      rewrite Hcl.
      rewrite <- (first_largest_unique (regions s) j j' largest l'
                    Hj Hmax Hfirst Hj' Hmax' Hfirst').
      rewrite Hsplit. apply find_first.
      - apply Forall_forall. intros r Hr. rewrite Forall_forall in Hmiss.
        destruct (contains cx cy r) eqn:E; [|reflexivity].
        apply contains_iff in E. exfalso. apply (Hmiss r Hr E).
      - apply contains_iff. repeat split; assumption. }
    pose proof (handleVideoClick_hit e s video containerRect cx cy hitRegion
                  parentName Hlen Hv Hc Hw Hh Hclick Hhit Hparent) as Hrun.
    cbv zeta in Hrun. split.
    + intros earlier nextLayout later Hlayouts Hearlier Hnext.
      pose proof (findLayout_first parentName earlier later nextLayout Hearlier Hnext)
        as Hfind.
      rewrite <- Hlayouts in Hfind. rewrite Hrun, Hfind. split.
      * intros Hne.
        destruct (String.eqb_spec (name nextLayout) (selectedLayout s)); [contradiction|].
        reflexivity.
      * intros Heq. apply String.eqb_eq in Heq. rewrite Heq. reflexivity.
    + intros Hnone. rewrite Hrun, (findLayout_absent parentName (layouts s) Hnone).
      reflexivity.
  - intros e s video containerRect cx cy earlier nextLayout later
           Hlen Hv Hc Hw Hh Hclick Hx Hy Hregions Hlayouts Hearlier Hnext Hne.
    pose proof (findLayout_first "wide" earlier later nextLayout Hearlier Hnext) as Hfind.
    rewrite <- Hlayouts in Hfind.
    assert (Hhit : hitRegionAt cx cy (regions s) = Some wideRegion).
    { rewrite Hregions. unfold hitRegionAt.
      change (clickableRegions [backgroundRegion; wideRegion]) with [wideRegion].
      simpl find.
      assert (Hin : contains cx cy wideRegion = true).
      { apply contains_iff. simpl. rewrite Hx, Hy. repeat split; discriminate. }
      rewrite Hin. reflexivity. }
    rewrite (handleVideoClick_hit e s video containerRect cx cy wideRegion "wide"
               Hlen Hv Hc Hw Hh Hclick Hhit eq_refl).
    cbv zeta. rewrite Hfind.
    destruct (String.eqb_spec (name nextLayout) (selectedLayout s)); [contradiction|].
    split; reflexivity.
Qed.

Lemma region_click_witness :
  selectedLayout
    (fst (handleVideoClick exampleClick
            (exampleSession [layoutNamed "main"; layoutNamed "Wide"]
                            [backgroundRegion; wideRegion]))) = "Wide"
  /\ snd (handleVideoClick exampleClick
            (exampleSession [layoutNamed "main"; layoutNamed "Wide"]
                            [backgroundRegion; wideRegion])) = Return tt.
Proof.
  refine (proj2 (proj2 (proj2 (proj2 region_click_selects_parent_layout)))
            exampleClick
            (exampleSession [layoutNamed "main"; layoutNamed "Wide"]
                            [backgroundRegion; wideRegion])
            {| videoWidth := 1920; videoHeight := 1080; currentTime := 12 |}
            {| rect_left := 0; rect_top := 0; rect_width := 1920; rect_height := 1080 |}
            _ _ [layoutNamed "main"] (layoutNamed "Wide") [] _ eq_refl eq_refl eq_refl
            eq_refl eq_refl _ _ eq_refl eq_refl _ eq_refl _).
  - simpl. lia.
  - vm_compute. reflexivity.
  - vm_compute. reflexivity.
  - constructor; [|constructor]. vm_compute. discriminate.
  - discriminate.
Defined.

(** C6 as stated fails: when the region of the example is the only region of
    the active layout it is the largest one, it is left out of the hit test,
    and the click at canvas point (100,100) changes nothing. *)
Lemma lone_region_click_selects_nothing :
  (exists cx cy,
     canvasClick
       {| rect_left := 0; rect_top := 0; rect_width := 1920; rect_height := 1080 |}
       {| videoWidth := 1920; videoHeight := 1080; currentTime := 12 |}
       {| dim_width := 1920; dim_height := 1080 |} exampleClick = Some (cx, cy) /\
     (cx == 100)%Q /\ (cy == 100)%Q)
  /\ contains 100 100 wideRegion = true
  /\ findLayout "wide" [layoutNamed "main"; layoutNamed "wide"] = Some (layoutNamed "wide")
  /\ clickableRegions [wideRegion] = []
  /\ handleVideoClick exampleClick
       (exampleSession [layoutNamed "main"; layoutNamed "wide"] [wideRegion])
     = (exampleSession [layoutNamed "main"; layoutNamed "wide"] [wideRegion], Return tt).
Proof.
  split; [eexists; eexists; split; [vm_compute; reflexivity | split; reflexivity]|].
  repeat split; vm_compute; reflexivity.
Qed.

End RegionFacts.

(** ** The stall watchdog *)

Section WatchdogFacts.
Import Watchdog.

Lemma stallCheck_miss (s : session) (video : videoState) (player : playerState) :
  videoRef s = Some video -> playerRef s = Some player ->
  paused video = false -> (currentTime video == lastTimeUpdateRef s)%Q ->
  stallCheck s =
  let t := currentTime video in
  let s2 := set_stallCountRef (stallCountRef s + 1)%Z s in
  set_lastPlaybackTime t
    (set_lastTimeUpdateRef t
       (if (STALL_MISSES <=? stallCountRef s + 1)%Z
        then setTimeout ClearStalled STALL_COOLDOWN_MS
               (set_stallCountRef 0%Z
                  (recover player t
                     (set_playbackStalled true (addLog (LogStallDetected t) s2))))
        else s2)).
Proof.
  intros Hv Hp Hpaused Heq. unfold stallCheck. rewrite Hv, Hp, Hpaused.
  apply Qeq_bool_iff in Heq. rewrite Heq. reflexivity.
Qed.

Lemma stallCheck_no_miss (s : session) (video : videoState) (player : playerState) :
  videoRef s = Some video -> playerRef s = Some player ->
  paused video = true \/ ~ (currentTime video == lastTimeUpdateRef s)%Q ->
  stallCheck s =
  set_lastPlaybackTime (currentTime video)
    (set_lastTimeUpdateRef (currentTime video)
       (set_playbackStalled false (set_stallCountRef 0%Z s))).
Proof.
  intros Hv Hp Hno. unfold stallCheck. rewrite Hv, Hp.
  destruct Hno as [Hpaused|Hne].
  - rewrite Hpaused. reflexivity.
  - destruct (Qeq_bool (currentTime video) (lastTimeUpdateRef s)) eqn:E.
    + apply Qeq_bool_iff in E. contradiction.
    + rewrite andb_false_r. reflexivity.
Qed.

Lemma seeks_recover (player : playerState) (t : Q) (s : session) :
  videoRef s <> None ->
  seeks (recover player t s) =
  seeks s ++
  (if isLive player
   then if RegionsApp.Qlt_bool (t + LIVE_EDGE_MARGIN) (seekRangeEnd player)
        then [(seekRangeEnd player - LIVE_EDGE_OFFSET)%Q] else []
   else [(t + VOD_NUDGE)%Q]).
Proof.
  intros Hv. unfold recover, seekTo.
  destruct (isLive player);
    [destruct (RegionsApp.Qlt_bool (t + LIVE_EDGE_MARGIN) (seekRangeEnd player))|];
    simpl; destruct (videoRef s); try contradiction; simpl;
    rewrite ?app_nil_r; reflexivity.
Qed.

Lemma recover_frame (player : playerState) (t : Q) (s : session) :
  playbackStalled (recover player t s) = playbackStalled s /\
  timeouts (recover player t s) = timeouts s /\
  nextTimerId (recover player t s) = nextTimerId s /\
  now (recover player t s) = now s.
Proof.
  unfold recover, seekTo.
  destruct (isLive player);
    [destruct (RegionsApp.Qlt_bool (t + LIVE_EDGE_MARGIN) (seekRangeEnd player))|];
    simpl; destruct (videoRef s); simpl; repeat split; reflexivity.
Qed.

Lemma after_recovery (t : Q) (x : session) :
  let r := set_lastPlaybackTime t
             (set_lastTimeUpdateRef t
                (setTimeout ClearStalled STALL_COOLDOWN_MS (set_stallCountRef 0%Z x))) in
  stallCountRef r = 0%Z /\
  playbackStalled r = playbackStalled x /\
  seeks r = seeks x /\
  timeouts r = timeouts x ++ [{| timerId := nextTimerId x; due := (now x + 3000)%Z;
                                 callback := ClearStalled |}].
Proof. repeat split; reflexivity. Qed.

(** C5 (as amended).  A sample of the one-second interval that finds the
    position unchanged while the video is not paused adds one to the miss
    counter; any other sample sets the counter to zero and clears the stalled
    flag; a buffering-started notification (and a streaming event) sets the
    counter to zero, a buffering-ended notification leaves it.  The sample
    that brings the counter to three raises the stalled flag, issues at most
    one seek (for live content to 2 s before the live edge, and only when the
    edge is more than 10 s past the position; for bounded content to 0.1 s
    past the position), sets the counter to zero and starts a 3 s timer that
    clears the flag. *)
Theorem stall_watchdog_counts_and_recovers :
  forall (s : session) (video : videoState) (player : playerState),
    videoRef s = Some video -> playerRef s = Some player ->
    let t := currentTime video in
    (paused video = false -> (t == lastTimeUpdateRef s)%Q ->
     (stallCountRef s + 1 < STALL_MISSES)%Z ->
       stallCountRef (stallCheck s) = (stallCountRef s + 1)%Z /\
       seeks (stallCheck s) = seeks s /\
       playbackStalled (stallCheck s) = playbackStalled s /\
       timeouts (stallCheck s) = timeouts s) /\
    (paused video = true \/ ~ (t == lastTimeUpdateRef s)%Q ->
       stallCountRef (stallCheck s) = 0%Z /\
       playbackStalled (stallCheck s) = false /\
       seeks (stallCheck s) = seeks s) /\
    (paused video = false -> (t == lastTimeUpdateRef s)%Q ->
     (STALL_MISSES <= stallCountRef s + 1)%Z ->
       stallCountRef (stallCheck s) = 0%Z /\
       playbackStalled (stallCheck s) = true /\
       seeks (stallCheck s) =
         seeks s ++
         (if isLive player
          then if RegionsApp.Qlt_bool (t + 10) (seekRangeEnd player)
               then [(seekRangeEnd player - 2)%Q] else []
          else [(t + (1 # 10))%Q]) /\
       timeouts (stallCheck s) =
         timeouts s ++ [{| timerId := nextTimerId s; due := (now s + 3000)%Z;
                           callback := ClearStalled |}] /\
       playbackStalled (runCallback ClearStalled (stallCheck s)) = false) /\
    lastTimeUpdateRef (stallCheck s) = t /\
    stallCountRef (onBuffering true s) = 0%Z /\
    stallCountRef (onBuffering false s) = stallCountRef s /\
    stallCountRef (onStreaming s) = 0%Z /\
    (exists i, stallCheckIntervalRef (setupStallDetection s) = Some i /\
               In {| intervalId := i; period := 1000; tick := StallCheck |}
                  (intervals (setupStallDetection s))).
Proof.
  intros s video player Hv Hp t.
  split; [|split; [|split; [|split; [|split; [|split; [|split]]]]]].
  - intros Hpaused Heq Hlt.
    rewrite (stallCheck_miss s video player Hv Hp Hpaused Heq). cbv zeta.
    destruct (STALL_MISSES <=? stallCountRef s + 1)%Z eqn:E;
      [apply Z.leb_le in E; lia|].
    simpl. repeat split; reflexivity.
  - intros Hno. rewrite (stallCheck_no_miss s video player Hv Hp Hno).
    simpl. repeat split; reflexivity.
  - intros Hpaused Heq Hge.
    rewrite (stallCheck_miss s video player Hv Hp Hpaused Heq). cbv zeta.
    destruct (STALL_MISSES <=? stallCountRef s + 1)%Z eqn:E;
      [|apply Z.leb_gt in E; lia].
    set (s3 := set_playbackStalled true
                 (addLog (LogStallDetected (currentTime video))
                    (set_stallCountRef (stallCountRef s + 1)%Z s))).
    assert (Hv3 : videoRef s3 <> None) by (subst s3; simpl; rewrite Hv; discriminate).
    pose proof (seeks_recover player (currentTime video) s3 Hv3) as Hseeks.
    destruct (recover_frame player (currentTime video) s3) as [Hf1 [Hf2 [Hf3 Hf4]]].
    destruct (after_recovery (currentTime video) (recover player (currentTime video) s3))
      as [Ha1 [Ha2 [Ha3 Ha4]]].
    rewrite Ha1, Ha2, Ha3, Ha4, Hseeks, Hf1, Hf2, Hf3, Hf4.
    repeat split; reflexivity.
  - unfold stallCheck. rewrite Hv, Hp.
    destruct (negb (paused video) && Qeq_bool (currentTime video) (lastTimeUpdateRef s));
      reflexivity.
  - reflexivity.
  - reflexivity.
  - reflexivity.
  - unfold setupStallDetection. eexists. split; [reflexivity|].
    simpl. apply in_or_app. right. left. reflexivity.
Qed.

(** The third sample of a stall of bounded content at 42 s. *)
Lemma stall_watchdog_witness :
  stallCountRef (stallCheck (stalledSession false 0)) = 0%Z /\
  playbackStalled (stallCheck (stalledSession false 0)) = true /\
  seeks (stallCheck (stalledSession false 0)) = [(42 + (1 # 10))%Q] /\
  timeouts (stallCheck (stalledSession false 0)) =
    [{| timerId := 2; due := 63000%Z; callback := ClearStalled |}] /\
  playbackStalled (runCallback ClearStalled (stallCheck (stalledSession false 0))) = false.
Proof.
  refine (proj1 (proj2 (proj2
            (stall_watchdog_counts_and_recovers (stalledSession false 0)
               {| paused := false; currentTime := 42 |}
               {| isLive := false; seekRangeEnd := 0 |} eq_refl eq_refl))) eq_refl _ _).
  - reflexivity.
  - vm_compute. discriminate.
Defined.

(** C5 as stated fails: on the third miss of a live stream whose live edge
    is 5 s past the position the watchdog raises the flag and resets the
    counter without any seek; and a buffering-ended notification does not
    reset the counter. *)
Lemma live_stall_near_edge_has_no_recovery :
  stallCountRef (stalledSession true 47) = 2%Z /\
  seeks (stallCheck (stalledSession true 47)) = [] /\
  playbackStalled (stallCheck (stalledSession true 47)) = true /\
  stallCountRef (stallCheck (stalledSession true 47)) = 0%Z /\
  stallCountRef (onBuffering false (stalledSession true 47)) = 2%Z.
Proof. repeat split; vm_compute; reflexivity. Qed.

End WatchdogFacts.

(** ** Clicks with fewer than two layouts *)

Section ClickGuardFacts.

(** C10.  With zero or one layout loaded the click handler of either
    iteration returns at its first guard: the state is the one it was called
    with whatever the event, the refs and the regions are, and nothing is
    selected.  (The earlier iteration has written its debug line to the
    console before the guard.) *)
Theorem click_with_fewer_than_two_layouts_is_noop :
  forall (e : RegionsApp.mouseEvent) (s : RegionsApp.session) (d : RegionsDraft.session),
    length (RegionsApp.layouts s) <= 1 ->
    length (RegionsDraft.layouts d) <= 1 ->
    RegionsApp.handleVideoClick e s = (s, Return tt) /\
    RegionsDraft.handleVideoClick e d = (d, [RegionsDraft.ConsoleMarker], Return tt).
Proof.
  intros e s d Hs Hd. split.
  - unfold RegionsApp.handleVideoClick.
    apply Nat.leb_le in Hs. rewrite Hs. reflexivity.
  - unfold RegionsDraft.handleVideoClick.
    apply Nat.leb_le in Hd. rewrite Hd. reflexivity.
Qed.

Lemma click_noop_witness :
  RegionsApp.handleVideoClick RegionsApp.exampleClick
    (RegionsApp.exampleSession [RegionsApp.layoutNamed "main"]
       [RegionsApp.backgroundRegion; RegionsApp.wideRegion])
  = (RegionsApp.exampleSession [RegionsApp.layoutNamed "main"]
       [RegionsApp.backgroundRegion; RegionsApp.wideRegion], Return tt) /\
  RegionsDraft.handleVideoClick RegionsApp.exampleClick RegionsDraft.singleLayoutSession
  = (RegionsDraft.singleLayoutSession, [RegionsDraft.ConsoleMarker], Return tt).
Proof.
  apply (click_with_fewer_than_two_layouts_is_noop RegionsApp.exampleClick
           (RegionsApp.exampleSession [RegionsApp.layoutNamed "main"]
              [RegionsApp.backgroundRegion; RegionsApp.wideRegion])
           RegionsDraft.singleLayoutSession).
  - simpl. lia.
  - simpl. lia.
Defined.

End ClickGuardFacts.

(** ** Fetch failures *)

Section FetchFacts.
Import Manifest.

(** The parser of [src/unnamed/part_002] fails on every response that is not
    [ok] and on a rejected fetch, after exactly one [fetch]. *)
Lemma checked_parser_fails_on_error_status (localeCompare : string -> string -> Z)
  (fetch : string -> fetchOutcome) (manifestUrl : string) (status : Z)
  (text : completion string) :
  fetch manifestUrl = Response false status text ->
  RegionsApp.parseManifestForLayouts localeCompare fetch manifestUrl
  = ([Log LogFetching; Fetch manifestUrl; Log (LogParseError (HttpStatusError status))],
     Throw (HttpStatusError status)).
Proof.
  intros H. unfold RegionsApp.parseManifestForLayouts. rewrite H. reflexivity.
Qed.

Lemma parsers_fail_on_rejected_fetch (localeCompare : string -> string -> Z)
  (fetch : string -> fetchOutcome) (manifestUrl : string) (e : jsError) :
  fetch manifestUrl = FetchRejected e ->
  RegionsApp.parseManifestForLayouts localeCompare fetch manifestUrl
  = ([Log LogFetching; Fetch manifestUrl; Log (LogParseError e)], Throw e) /\
  parseManifestForLayouts localeCompare fetch manifestUrl
  = ([Log LogFetching; Fetch manifestUrl; Log (LogParseError e)], Throw e).
Proof.
  intros H. unfold RegionsApp.parseManifestForLayouts, parseManifestForLayouts.
  rewrite H. split; reflexivity.
Qed.

(** The parser of [src/App.js] never reads [response.ok]: whatever the
    status, the body is parsed. *)
Lemma unchecked_parser_ignores_status (localeCompare : string -> string -> Z)
  (manifestUrl body : string) (ok : bool) (status : Z) :
  parseManifestForLayouts localeCompare (serve ok status body) manifestUrl
  = parseManifestForLayouts localeCompare (serve true 200 body) manifestUrl.
Proof. reflexivity. Qed.

(** C8 at its failing input: a 404 response whose body holds the studio
    manifest.  [src/App.js] returns the layout parsed from that body; the
    parser with the [response.ok] check throws. *)
Theorem error_response_is_parsed_by_unchecked_parser :
  (exists layouts,
     snd (parseManifestForLayouts letterCollation (serve false 404 studioManifest) exampleUrl)
       = Return layouts /\
     map name layouts = ["studio"]) /\
  snd (RegionsApp.parseManifestForLayouts letterCollation
         (serve false 404 studioManifest) exampleUrl)
    = Throw (HttpStatusError 404).
Proof.
  split; [|reflexivity].
  eexists. split; [vm_compute; reflexivity | reflexivity].
Qed.

End FetchFacts.

(** ** The switch guard, the manifest version and the switch timeout *)

Ltac break_match :=
  match goal with
  | |- context [match ?x with _ => _ end] => destruct x eqn:?
  end.

Section ProgramsAppFacts.
Import ProgramsApp.

Lemma dispatched_app (s : session) (cs : list engineCall) (l : list engineCall) :
  engineCalls s = l ++ cs ->
  dispatched s =
  length (filter (fun c => match c with CallSelectVariantTrack _ _ => true | _ => false end) l)
  + length (filter (fun c => match c with CallSelectVariantTrack _ _ => true | _ => false end) cs).
Proof.
  intros H. unfold dispatched. rewrite H, filter_app, length_app. reflexivity.
Qed.

Lemma clearSwitchTimeout_frame (s : session) :
  engineCalls (clearSwitchTimeout s) = engineCalls s /\
  manifestVersionRef (clearSwitchTimeout s) = manifestVersionRef s /\
  isSwitching (clearSwitchTimeout s) = isSwitching s /\
  selectedProgramLabel (clearSwitchTimeout s) = selectedProgramLabel s.
Proof.
  unfold clearSwitchTimeout. destruct (switchTimeoutRef s); repeat split; reflexivity.
Qed.

Ltac count_dispatches :=
  unfold dispatched; simpl; rewrite ?filter_app, ?length_app; simpl; lia.

(** What the switch effect does when no switch is in flight: either it
    leaves the flag down and dispatches nothing, or it raises the flag,
    dispatches one [selectVariantTrack] and starts the 5 s timer. *)
Lemma switchEffect_cases (s : session) :
  isSwitching s = false ->
  (isSwitching (switchEffect s) = false /\
   dispatched (switchEffect s) = dispatched s)
  \/
  (exists v,
     isSwitching (switchEffect s) = true /\
     engineCalls (switchEffect s)
       = engineCalls s ++ [CallConfigureAbr false; CallSelectVariantTrack v true] /\
     timers (switchEffect s)
       = timers s ++ [{| timerId := nextTimerId s; due := (now s + SWITCH_TIMEOUT_MS)%Z;
                         callback := SwitchTimeout |}] /\
     switchTimeoutRef (switchEffect s) = Some (nextTimerId s)).
Proof.
  intros Hidle. unfold switchEffect, clearSwitchTimeout, setTimeout.
  cbv beta iota zeta. rewrite Hidle.
  repeat break_match;
    first [ left; split; [simpl; try assumption; reflexivity | count_dispatches]
          | right; eexists; simpl; rewrite <- ?app_assoc; repeat split; reflexivity ].
Qed.

Lemma switchEffect_busy (s : session) :
  isSwitching s = true ->
  switchEffect s = s \/
  switchEffect s = addLog (LogSwitchInProgress (selectedProgramLabel s)) s.
Proof.
  intros H. unfold switchEffect. rewrite H.
  destruct (Js.isEmpty (selectedProgramLabel s) || negb (playerRef s)
            || (length (programs s) =? 0)%nat || negb (isPlayerReady s));
    [left | right]; reflexivity.
Qed.

Lemma switchEffect_frame (s : session) :
  manifestVersionRef (switchEffect s) = manifestVersionRef s /\
  selectedProgramLabel (switchEffect s) = selectedProgramLabel s /\
  programs (switchEffect s) = programs s.
Proof.
  unfold switchEffect, clearSwitchTimeout, setTimeout. cbv beta iota zeta.
  repeat break_match; repeat split; reflexivity.
Qed.

Lemma onVariantChanged_frame (s : session) :
  dispatched (onVariantChanged s) = dispatched s /\
  manifestVersionRef (onVariantChanged s) = manifestVersionRef s /\
  isSwitching (onVariantChanged s) = false.
Proof.
  unfold onVariantChanged, clearSwitchTimeout.
  repeat break_match; split; try count_dispatches; split; reflexivity.
Qed.

Lemma select_while_switching (s : session) (v : string) :
  isSwitching s = true ->
  step (UserSelects v) s =
  snd (setTimeout (ResetDropdown (selectedProgramLabel s)) 0
         (addLog (LogOperationInProgress v true (isLoading s)) s)).
Proof.
  intros H. unfold step, handleProgramChange, afterSelectionChange. rewrite H.
  simpl. rewrite String.eqb_refl. reflexivity.
Qed.

Lemma select_dispatches_once (s : session) (v : string) :
  isSwitching s = false -> isSwitching (step (UserSelects v) s) = true ->
  dispatched (step (UserSelects v) s) = S (dispatched s) /\
  selectedProgramLabel (step (UserSelects v) s) = v.
Proof.
  intros Hidle Hnow. unfold step, handleProgramChange, afterSelectionChange in *.
  rewrite Hidle in *. simpl orb in *.
  destruct (isLoading s).
  - simpl in Hnow. rewrite String.eqb_refl in Hnow. simpl in Hnow. congruence.
  - simpl selectedProgramLabel in *.
    destruct (String.eqb (selectedProgramLabel s) v) eqn:E.
    + simpl in Hnow. congruence.
    + set (s1 := set_selectedProgramLabel v (addLog (LogUserSelected v) s)) in *.
      destruct (switchEffect_cases s1 Hidle) as [[Hf _]|[t [_ [Hc _]]]]; [congruence|].
      destruct (switchEffect_frame s1) as [_ [Hsel _]].
      split; [|exact Hsel].
      unfold dispatched. rewrite Hc. simpl. rewrite filter_app, length_app. simpl. lia.
Qed.

End ProgramsAppFacts.

Section LayoutsAppFacts.
Import LayoutsApp.

Lemma layout_select_while_switching (s : session) (v : string) :
  isSwitching s = true ->
  selectLayout v s = addLog (LogOperationInProgress v) s.
Proof.
  intros H. unfold selectLayout, handleLayoutChange. rewrite H. simpl.
  rewrite String.eqb_refl. reflexivity.
Qed.

Lemma layoutEffect_cases (s : session) :
  isSwitching s = false ->
  (isSwitching (fst (layoutEffect s)) = false /\
   engineCalls (fst (layoutEffect s)) = engineCalls s)
  \/
  (exists url,
     isSwitching (fst (layoutEffect s)) = true /\
     engineCalls (fst (layoutEffect s)) = engineCalls s ++ [CallLoad url]).
Proof.
  intros Hidle. unfold layoutEffect.
  repeat break_match;
    first [ left; split; [simpl; try assumption; reflexivity | reflexivity]
          | right; eexists; split; reflexivity ].
Qed.

Lemma layout_select_dispatches_once (s : session) (v : string) :
  isSwitching s = false -> isSwitching (selectLayout v s) = true ->
  dispatched (selectLayout v s) = S (dispatched s).
Proof.
  intros Hidle Hnow. unfold selectLayout, handleLayoutChange in *.
  rewrite Hidle in *. simpl orb in *.
  destruct (isLoading s).
  - simpl in Hnow. rewrite String.eqb_refl in Hnow. simpl in Hnow. congruence.
  - simpl selectedLayout in *.
    destruct (String.eqb (selectedLayout s) v) eqn:E.
    + simpl in Hnow. congruence.
    + set (s1 := set_selectedLayout v (addLog (LogUserSelected v) s)) in *.
      destruct (layoutEffect_cases s1 Hidle) as [[Hf _]|[url [_ Hc]]]; [congruence|].
      unfold dispatched. rewrite Hc. rewrite length_app. simpl. lia.
Qed.

End LayoutsAppFacts.

Section ManifestVersionFacts.
Import ProgramsApp.

Lemma logged_names_frame (vs : list variantTrack) :
  forall s,
    manifestVersionRef
      (fold_left (fun acc v => addLog (LogProgramName (programNameOf v) (id v)) acc) vs s)
    = manifestVersionRef s.
Proof.
  induction vs as [|v vs IH]; intros s; simpl; [reflexivity|]. rewrite IH. reflexivity.
Qed.

Lemma loadManifestResolved_version (v : Z) (s : session) :
  manifestVersionRef (loadManifestResolved v s) = manifestVersionRef s.
Proof.
  unfold loadManifestResolved.
  destruct (negb (v =? manifestVersionRef s)%Z); [reflexivity|].
  destruct (collectPrograms v (tracks s) []); simpl;
    rewrite logged_names_frame; reflexivity.
Qed.

Lemma loadManifestStart_version (s : session) :
  manifestVersionRef (fst (loadManifestStart s)) = (manifestVersionRef s + 1)%Z /\
  snd (loadManifestStart s) = (manifestVersionRef s + 1)%Z.
Proof.
  unfold loadManifestStart, clearSwitchTimeout. simpl.
  destruct (switchTimeoutRef s); split; reflexivity.
Qed.

Lemma step_version (ev : event) (s : session) :
  manifestVersionRef (step ev s)
  = (manifestVersionRef s
     + match ev with
       | UserClicksLoad => if loadRequested s then 1 else 0
       | _ => 0
       end)%Z.
Proof.
  destruct ev as [v| |v|v m| |c m|i]; unfold step.
  - unfold afterSelectionChange, handleProgramChange.
    repeat break_match; rewrite ?(proj1 (switchEffect_frame _)); simpl; lia.
  - unfold handleLoadClick, loadEffect, loadRequested.
    destruct (Js.isEmpty (Js.trim (hlsUrl s))) eqn:Eempty; simpl.
    + rewrite String.eqb_refl. simpl. lia.
    + destruct (String.eqb (manifestUrlToLoad s) (Js.trim (hlsUrl s))) eqn:Esame; simpl;
        [lia|].
      rewrite Eempty. simpl.
      destruct (playerRef s); simpl; [|lia].
      destruct (isPlayerReady s); simpl; [|lia].
      rewrite (proj1 (switchEffect_frame _)).
      apply (proj1 (loadManifestStart_version
                      (set_manifestUrlToLoad (Js.trim (hlsUrl s)) s))).
  - destruct (v =? manifestVersionRef s)%Z;
      rewrite ?(proj1 (switchEffect_frame _)), loadManifestResolved_version; lia.
  - unfold loadManifestRejected. break_match; simpl; lia.
  - rewrite (proj1 (proj2 (onVariantChanged_frame s))). lia.
  - unfold onPlayerError, clearSwitchTimeout. break_match; simpl; lia.
  - unfold fireTimer, runCallback, clearTimeout. repeat break_match; simpl; lia.
Qed.

Lemma run_version_monotone (evs : list event) :
  forall s, (manifestVersionRef s <= manifestVersionRef (run evs s))%Z.
Proof.
  unfold run. induction evs as [|ev evs IH]; intros s; simpl; [lia|].
  eapply Z.le_trans; [|apply IH]. rewrite step_version.
  destruct ev; try lia. destruct (loadRequested s); lia.
Qed.

(** C3.  The version counter moves only when a load request starts
    [loadManifest], and then by exactly one, so it never decreases along a
    run and is strictly larger after each load; the version that a load
    captured is the new value.  A load that resolves or rejects with a
    captured version below the current one changes nothing but the log, and
    the switch effect does not act on program data stamped with an older
    version. *)
Theorem manifest_version_discards_stale_results :
  (forall s : session,
     manifestVersionRef (fst (loadManifestStart s)) = (manifestVersionRef s + 1)%Z /\
     snd (loadManifestStart s) = manifestVersionRef (fst (loadManifestStart s))) /\
  (forall (ev : event) (s : session),
     manifestVersionRef (step ev s)
     = (manifestVersionRef s
        + match ev with
          | UserClicksLoad => if loadRequested s then 1 else 0
          | _ => 0
          end)%Z) /\
  (forall (evs : list event) (s : session),
     (manifestVersionRef s <= manifestVersionRef (run evs s))%Z) /\
  (forall (v : Z) (s : session),
     (v < manifestVersionRef s)%Z ->
     step (LoadResolves v) s = addLog LogLoadCancelled s /\
     forall message, step (LoadRejects v message) s = s) /\
  (forall (s : session) (programData : program),
     Js.isEmpty (selectedProgramLabel s) = false -> playerRef s = true ->
     isPlayerReady s = true -> isSwitching s = false ->
     find (fun p => String.eqb (p_label p) (selectedProgramLabel s)) (programs s)
       = Some programData ->
     variantId programData <> 0%Z ->
     (manifestVersion programData < manifestVersionRef s)%Z ->
     switchEffect s = addLog LogOutdatedProgram s).
Proof.
  split; [|split; [|split; [|split]]].
  - intros s. destruct (loadManifestStart_version s) as [H1 H2].
    split; [exact H1 | congruence].
  - exact step_version.
  - intros evs s. apply run_version_monotone.
  - intros v s Hlt. split.
    + unfold step, loadManifestResolved.
      destruct (v =? manifestVersionRef s)%Z eqn:E; [apply Z.eqb_eq in E; lia|].
      reflexivity.
    + intros message. unfold step, loadManifestRejected.
      destruct (v =? manifestVersionRef s)%Z eqn:E; [apply Z.eqb_eq in E; lia|].
      reflexivity.
  - intros s programData Hsel Hplayer Hready Hidle Hfind Hid Hold.
    unfold switchEffect. rewrite Hsel, Hplayer, Hready, Hidle, Hfind.
    destruct (programs s) as [|p0 ps] eqn:Ep; [discriminate Hfind|].
    simpl.
    destruct (variantId programData =? 0)%Z eqn:E0; [apply Z.eqb_eq in E0; contradiction|].
    destruct (manifestVersion programData =? manifestVersionRef s)%Z eqn:E1;
      [apply Z.eqb_eq in E1; lia|].
    reflexivity.
Qed.

(** On the idle example, whose counter stands at 1, a continuation that
    captured version 0 resolves or rejects. *)
Lemma manifest_version_witness :
  step (LoadResolves 0) idleSession = addLog LogLoadCancelled idleSession /\
  forall message, step (LoadRejects 0 message) idleSession = idleSession.
Proof.
  apply (proj1 (proj2 (proj2 (proj2 manifest_version_discards_stale_results)))
           0%Z idleSession).
  reflexivity.
Defined.

End ManifestVersionFacts.

Section SwitchGuardFacts.

(** C2.  While [isSwitching] is set, a selection request is dropped: in the
    program selector with the guarded effect and in the layout selector of
    [src/App.js] the change handler only logs (the program selector also
    resets the dropdown), the selection and the calls on the player stay as
    they were, the switch effect run with the flag set calls nothing, and the
    completion of the first switch dispatches nothing for the dropped
    request.  So of two requests in a row, the first of which put a switch
    in flight, exactly one reaches the player. *)
Theorem second_switch_request_is_ignored :
  (forall (s : ProgramsApp.session) (v : string),
     ProgramsApp.isSwitching s = true ->
     ProgramsApp.step (ProgramsApp.UserSelects v) s
       = snd (ProgramsApp.setTimeout
                (ProgramsApp.ResetDropdown (ProgramsApp.selectedProgramLabel s)) 0
                (ProgramsApp.addLog
                   (ProgramsApp.LogOperationInProgress v true (ProgramsApp.isLoading s)) s)) /\
     ProgramsApp.engineCalls (ProgramsApp.step (ProgramsApp.UserSelects v) s)
       = ProgramsApp.engineCalls s /\
     ProgramsApp.selectedProgramLabel (ProgramsApp.step (ProgramsApp.UserSelects v) s)
       = ProgramsApp.selectedProgramLabel s /\
     ProgramsApp.engineCalls (ProgramsApp.switchEffect s) = ProgramsApp.engineCalls s /\
     ProgramsApp.dispatched
       (ProgramsApp.run [ProgramsApp.UserSelects v; ProgramsApp.VariantChanged] s)
       = ProgramsApp.dispatched s) /\
  (forall (s : ProgramsApp.session) (v1 v2 : string),
     ProgramsApp.isSwitching s = false ->
     ProgramsApp.isSwitching (ProgramsApp.step (ProgramsApp.UserSelects v1) s) = true ->
     ProgramsApp.dispatched
       (ProgramsApp.run [ProgramsApp.UserSelects v1; ProgramsApp.UserSelects v2] s)
       = S (ProgramsApp.dispatched s) /\
     ProgramsApp.selectedProgramLabel
       (ProgramsApp.run [ProgramsApp.UserSelects v1; ProgramsApp.UserSelects v2] s) = v1) /\
  (forall (s : LayoutsApp.session) (v : string),
     LayoutsApp.isSwitching s = true ->
     LayoutsApp.selectLayout v s
       = LayoutsApp.addLog (LayoutsApp.LogOperationInProgress v) s /\
     LayoutsApp.engineCalls (LayoutsApp.selectLayout v s) = LayoutsApp.engineCalls s /\
     LayoutsApp.selectedLayout (LayoutsApp.selectLayout v s) = LayoutsApp.selectedLayout s) /\
  (forall (s : LayoutsApp.session) (v1 v2 : string),
     LayoutsApp.isSwitching s = false ->
     LayoutsApp.isSwitching (LayoutsApp.selectLayout v1 s) = true ->
     LayoutsApp.dispatched (LayoutsApp.selectLayout v2 (LayoutsApp.selectLayout v1 s))
       = S (LayoutsApp.dispatched s)).
Proof.
  split; [|split; [|split]].
  - intros s v H. pose proof (select_while_switching s v H) as Hstep.
    split; [exact Hstep|]. split; [rewrite Hstep; reflexivity|].
    split; [rewrite Hstep; reflexivity|]. split.
    + destruct (switchEffect_busy s H) as [E|E]; rewrite E; reflexivity.
    + unfold ProgramsApp.run. cbn [fold_left]. change (ProgramsApp.step ProgramsApp.VariantChanged
        (ProgramsApp.step (ProgramsApp.UserSelects v) s))
        with (ProgramsApp.onVariantChanged (ProgramsApp.step (ProgramsApp.UserSelects v) s)).
      destruct (onVariantChanged_frame (ProgramsApp.step (ProgramsApp.UserSelects v) s))
        as [Hd _].
      rewrite Hd, Hstep. reflexivity.
  - intros s v1 v2 Hidle Hnow. unfold ProgramsApp.run. cbn [fold_left].
    destruct (select_dispatches_once s v1 Hidle Hnow) as [Hd Hsel].
    rewrite (select_while_switching _ v2 Hnow).
    split; [rewrite <- Hd; reflexivity | exact Hsel].
  - intros s v H. rewrite (layout_select_while_switching s v H).
    repeat split; reflexivity.
  - intros s v1 v2 Hidle Hnow.
    rewrite (layout_select_while_switching _ v2 Hnow).
    rewrite <- (layout_select_dispatches_once s v1 Hidle Hnow). reflexivity.
Qed.

(** Two requests in a row on the idle examples. *)
Lemma second_switch_request_witness :
  (ProgramsApp.dispatched
     (ProgramsApp.run [ProgramsApp.UserSelects "wide"; ProgramsApp.UserSelects "close"]
        ProgramsApp.idleSession)
   = S (ProgramsApp.dispatched ProgramsApp.idleSession) /\
   ProgramsApp.selectedProgramLabel
     (ProgramsApp.run [ProgramsApp.UserSelects "wide"; ProgramsApp.UserSelects "close"]
        ProgramsApp.idleSession) = "wide") /\
  LayoutsApp.dispatched
    (LayoutsApp.selectLayout "close" (LayoutsApp.selectLayout "wide" LayoutsApp.idleSession))
  = S (LayoutsApp.dispatched LayoutsApp.idleSession).
Proof.
  split.
  - exact (proj1 (proj2 second_switch_request_is_ignored)
             ProgramsApp.idleSession "wide" "close" eq_refl eq_refl).
  - exact (proj2 (proj2 (proj2 second_switch_request_is_ignored))
             LayoutsApp.idleSession "wide" "close" eq_refl eq_refl).
Defined.

End SwitchGuardFacts.

(** ** The switch timeout *)

Section SwitchTimeoutFacts.

(** In the program selector with [switchTimeoutRef], the timer that a
    dispatched switch starts resets the flag when it fires. *)
Lemma switch_timeout_resets_flag (s : ProgramsApp.session) :
  ProgramsApp.isSwitching s = false ->
  ProgramsApp.isSwitching (ProgramsApp.switchEffect s) = true ->
  Forall (fun t => ProgramsApp.timerId t < ProgramsApp.nextTimerId s) (ProgramsApp.timers s) ->
  In {| ProgramsApp.timerId := ProgramsApp.nextTimerId s;
        ProgramsApp.due := (ProgramsApp.now s + 5000)%Z;
        ProgramsApp.callback := ProgramsApp.SwitchTimeout |}
     (ProgramsApp.timers (ProgramsApp.switchEffect s)) /\
  ProgramsApp.isSwitching
    (ProgramsApp.step (ProgramsApp.TimerFires (ProgramsApp.nextTimerId s))
       (ProgramsApp.switchEffect s)) = false.
Proof.
  intros Hidle Hnow Hfresh.
  destruct (switchEffect_cases s Hidle) as [[Hf _]|[v [_ [_ [Ht _]]]]]; [congruence|].
  split; [rewrite Ht; apply in_or_app; right; left; reflexivity|].
  unfold ProgramsApp.step, ProgramsApp.fireTimer. rewrite Ht.
  assert (Hfind : forall l,
            Forall (fun t => ProgramsApp.timerId t < ProgramsApp.nextTimerId s) l ->
            find (fun t => (ProgramsApp.timerId t =? ProgramsApp.nextTimerId s)%nat)
                 (l ++ [{| ProgramsApp.timerId := ProgramsApp.nextTimerId s;
                           ProgramsApp.due := (ProgramsApp.now s + ProgramsApp.SWITCH_TIMEOUT_MS)%Z;
                           ProgramsApp.callback := ProgramsApp.SwitchTimeout |}])
            = Some {| ProgramsApp.timerId := ProgramsApp.nextTimerId s;
                      ProgramsApp.due := (ProgramsApp.now s + ProgramsApp.SWITCH_TIMEOUT_MS)%Z;
                      ProgramsApp.callback := ProgramsApp.SwitchTimeout |}).
  { induction 1 as [|t l Hlt Hl IH]; simpl.
    - rewrite Nat.eqb_refl. reflexivity.
    - destruct (ProgramsApp.timerId t =? ProgramsApp.nextTimerId s)%nat eqn:E;
        [apply Nat.eqb_eq in E; lia | exact IH]. }
  rewrite (Hfind _ Hfresh). reflexivity.
Qed.

Import ProgramsDraft.

Lemma switchEffect_closures (s : session) :
  closuresSawIdle s -> closuresSawIdle (switchEffect s).
Proof.
  unfold closuresSawIdle, switchEffect. intros H.
  destruct (Js.isEmpty (selectedProgramLabel s) || negb (playerRef s)
            || (length (programs s) =? 0)%nat || negb (isPlayerReady s)) eqn:Eg;
    simpl; [exact H|].
  destruct (isSwitching s) eqn:Esw; simpl; [exact H|].
  repeat break_match; simpl; try exact H.
  apply Forall_app. split; [exact H|]. constructor; [reflexivity | constructor].
Qed.

Lemma fireTimer_inert (i : nat) (s : session) :
  closuresSawIdle s ->
  isSwitching (fireTimer i s) = isSwitching s /\
  selectedProgramLabel (fireTimer i s) = selectedProgramLabel s /\
  closuresSawIdle (fireTimer i s).
Proof.
  unfold closuresSawIdle, fireTimer. intros H.
  destruct (find (fun t => (timerId t =? i)%nat) (timers s)) as [t|] eqn:E;
    [|repeat split; (reflexivity || exact H)].
  apply find_some in E as [Hin _].
  rewrite Forall_forall in H. rewrite (H t Hin). simpl.
  repeat split; try reflexivity.
  apply Forall_forall. intros u Hu. apply filter_In in Hu as [Hu _]. apply H, Hu.
Qed.

(** While only timers fire, a raised flag stays raised. *)
Lemma timers_never_reset_flag (ids : list nat) :
  forall s, closuresSawIdle s -> isSwitching s = true ->
    isSwitching (run (map TimerFires ids) s) = true.
Proof.
  unfold run. induction ids as [|i ids IH]; intros s Hinv Hsw; cbn [map fold_left];
    [exact Hsw|].
  destruct (fireTimer_inert i s Hinv) as [H1 [H2 H3]].
  assert (Hstep : step (TimerFires i) s = fireTimer i s).
  { unfold step, rerender. rewrite H1, H2, String.eqb_refl, Bool.eqb_reflx. reflexivity. }
  rewrite Hstep. apply IH; [exact H3 | congruence].
Qed.

Lemma switchEffect_while_switching (s : session) :
  isSwitching s = true -> switchEffect s = s.
Proof.
  intros H. unfold switchEffect. rewrite H, !orb_true_r. reflexivity.
Qed.

Lemma logged_frame (m : appLog) (s : session) :
  isSwitching (addLog m s) = isSwitching s /\ timers (addLog m s) = timers s.
Proof. split; reflexivity. Qed.

(** Without an event of the player, no callback lowers a raised flag. *)
Lemma step_stays_switching (ev : event) (s : session) :
  playerSilent ev = true -> closuresSawIdle s -> isSwitching s = true ->
  isSwitching (step ev s) = true /\ closuresSawIdle (step ev s).
Proof.
  intros Hev Hinv Hsw. destruct ev as [v| | |m| |c m|i]; try discriminate Hev.
  - unfold step, handleProgramChange, rerender. rewrite Hsw. simpl.
    rewrite String.eqb_refl, Hsw. simpl. split; [exact Hsw | exact Hinv].
  - unfold step, handleLoadClick, loadEffect, rerender.
    repeat break_match; simpl;
      rewrite ?switchEffect_while_switching by (simpl; exact Hsw);
      simpl; (split; [exact Hsw | exact Hinv]).
  - unfold step, rerender.
    assert (Hres : isSwitching (loadManifestResolved s) = true /\
                   timers (loadManifestResolved s) = timers s).
    { unfold loadManifestResolved. repeat break_match; simpl; split; (exact Hsw || reflexivity). }
    destruct Hres as [Hr1 Hr2].
    rewrite andb_false_r, (switchEffect_while_switching _ Hr1).
    split; [exact Hr1|]. unfold closuresSawIdle. rewrite Hr2. exact Hinv.
  - unfold step, loadManifestRejected. simpl. split; [exact Hsw | exact Hinv].
  - destruct (fireTimer_inert i s Hinv) as [H1 [H2 H3]].
    unfold step, rerender. rewrite H1, H2, String.eqb_refl, Bool.eqb_reflx. simpl.
    split; [congruence | exact H3].
Qed.

Lemma run_stays_switching (evs : list event) :
  forall s, forallb playerSilent evs = true -> closuresSawIdle s ->
    isSwitching s = true -> isSwitching (run evs s) = true.
Proof.
  unfold run. induction evs as [|ev evs IH]; intros s Hevs Hinv Hsw; cbn [fold_left];
    [exact Hsw|].
  simpl in Hevs. apply andb_true_iff in Hevs as [Hev Hevs].
  destruct (step_stays_switching ev s Hev Hinv Hsw) as [H1 H2].
  apply IH; assumption.
Qed.

(** C4 at its failing input: on the idle example the user selects the
    program wide, the switch is dispatched, the player never confirms, and
    the 5 s timer fires.  In the first program selector the closure reads the
    [isSwitching] of the render that created it (false), so the flag stays
    raised with no timer left, and no later callback lowers it unless the
    player emits an event; in the selector with [switchTimeoutRef] the same
    run lowers the flag. *)
Theorem stale_timeout_closure_leaves_switching :
  isSwitching (step (UserSelects "wide") idleSession) = true /\
  timers (step (UserSelects "wide") idleSession)
    = [{| timerId := 1; due := 6000%Z; callback := SwitchTimeoutClosure false |}] /\
  isSwitching (run [UserSelects "wide"; TimerFires 1] idleSession) = true /\
  timers (run [UserSelects "wide"; TimerFires 1] idleSession) = [] /\
  now (run [UserSelects "wide"; TimerFires 1] idleSession) = 6000%Z /\
  (forall evs,
     forallb playerSilent evs = true ->
     isSwitching (run evs (run [UserSelects "wide"; TimerFires 1] idleSession)) = true) /\
  ProgramsApp.isSwitching
    (ProgramsApp.run [ProgramsApp.UserSelects "wide"; ProgramsApp.TimerFires 1]
       ProgramsApp.idleSession) = false.
Proof.
  split; [reflexivity|]. split; [reflexivity|]. split; [reflexivity|].
  split; [reflexivity|]. split; [reflexivity|]. split; [|reflexivity].
  intros evs Hevs. apply run_stays_switching; [exact Hevs | | reflexivity].
  unfold closuresSawIdle. change (timers (run [UserSelects "wide"; TimerFires 1] idleSession))
    with (@nil timer). constructor.
Qed.

End SwitchTimeoutFacts.

(** * Further properties *)

(** ** Lookup in a map *)

Section MapLookupFacts.
Context {V : Type} (keyOf : V -> string).

Lemma has_find (key : string) (m : list V) :
  JsMap.has keyOf key m = true ->
  exists d, find (fun d => String.eqb (keyOf d) key) m = Some d.
Proof.
  induction m as [|d r IH]; simpl; [discriminate|].
  destruct (String.eqb (keyOf d) key); simpl; [intros _; eexists; reflexivity | exact IH].
Qed.

Lemma has_false_find (key : string) (m : list V) :
  JsMap.has keyOf key m = false ->
  find (fun d => String.eqb (keyOf d) key) m = None.
Proof.
  induction m as [|d r IH]; simpl; [reflexivity|].
  destruct (String.eqb (keyOf d) key); simpl; [discriminate | exact IH].
Qed.

Lemma find_append (p : V -> bool) (a b : list V) :
  find p (a ++ b) = match find p a with Some d => Some d | None => find p b end.
Proof.
  induction a as [|d r IH]; simpl; [reflexivity|].
  destruct (p d); [reflexivity | exact IH].
Qed.

Lemma update_find (key k : string) (f : V -> V) (m : list V) :
  (forall d, keyOf (f d) = keyOf d) ->
  find (fun d => String.eqb (keyOf d) k) (JsMap.update keyOf key f m)
  = if String.eqb key k
    then option_map f (find (fun d => String.eqb (keyOf d) k) m)
    else find (fun d => String.eqb (keyOf d) k) m.
Proof.
  intros Hf. induction m as [|d r IH]; simpl.
  - destruct (String.eqb key k); reflexivity.
  - destruct (String.eqb (keyOf d) key) eqn:Edk; simpl.
    + apply String.eqb_eq in Edk. rewrite Hf, Edk.
      destruct (String.eqb key k); reflexivity.
    + rewrite IH. destruct (String.eqb key k) eqn:Ekk; [|reflexivity].
      apply String.eqb_eq in Ekk. subst k. rewrite Edk. reflexivity.
Qed.

Lemma upsert_find (key k : string) (fresh : V) (f : V -> V) (m : list V) :
  keyOf fresh = key -> (forall d, keyOf (f d) = keyOf d) ->
  find (fun d => String.eqb (keyOf d) k) (JsMap.upsert keyOf key fresh f m)
  = if String.eqb key k
    then Some (f (match find (fun d => String.eqb (keyOf d) k) m with
                  | Some d => d
                  | None => fresh
                  end))
    else find (fun d => String.eqb (keyOf d) k) m.
Proof.
  intros Hfresh Hf. unfold JsMap.upsert. rewrite update_find by exact Hf.
  destruct (String.eqb key k) eqn:Ekk.
  - apply String.eqb_eq in Ekk. subst k.
    destruct (JsMap.has keyOf key m) eqn:Eh.
    + destruct (has_find _ _ Eh) as [d Hd]. rewrite Hd. reflexivity.
    + rewrite find_append, (has_false_find _ _ Eh). simpl.
      rewrite Hfresh, String.eqb_refl. reflexivity.
  - destruct (JsMap.has keyOf key m) eqn:Eh; [reflexivity|].
    rewrite find_append. destruct (find _ m); [reflexivity|]. simpl.
    rewrite Hfresh, Ekk. reflexivity.
Qed.

Lemma find_key_In (k : string) (m : list V) (d : V) :
  NoDup (map keyOf m) -> In d m -> keyOf d = k ->
  find (fun d => String.eqb (keyOf d) k) m = Some d.
Proof.
  intros Hnd Hin Hk. induction m as [|e r IH]; [contradiction|].
  simpl in *. inversion Hnd as [|? ? Hnot Hnd']; subst.
  destruct Hin as [->|Hin]; [rewrite String.eqb_refl; reflexivity|].
  destruct (String.eqb (keyOf e) (keyOf d)) eqn:E; [|apply IH; assumption].
  apply String.eqb_eq in E. exfalso. apply Hnot. rewrite E. apply in_map, Hin.
Qed.

End MapLookupFacts.

(** ** The streams and the best quality of a layout *)

Section ParserStreamFacts.
Import Js Manifest.

Lemma recordAll_find (es : list (string * streamDescriptor)) (k : string) :
  forall m,
    find (fun d => String.eqb (ld_name d) k) (recordAll es m)
    = match find (fun d => String.eqb (ld_name d) k) m,
            map snd (filter (fun e => String.eqb (fst e) k) es) with
      | None, [] => None
      | Some d, ss => Some (fold_left (fun d st => pushStream st d) ss d)
      | None, ss => Some (fold_left (fun d st => pushStream st d) ss (newLayoutData k))
      end.
Proof.
  induction es as [|[key st] es IH]; intros m.
  - simpl. destruct (find _ m); reflexivity.
  - cbn [recordAll fold_left fst snd] in *. fold (recordAll es (recordStream key st m)).
    rewrite IH. unfold recordStream at 1.
    rewrite (upsert_find ld_name key k) by reflexivity.
    cbn [filter fst]. destruct (String.eqb key k) eqn:Ekk.
    + apply String.eqb_eq in Ekk. subst k. cbn [map snd].
      destruct (find (fun d => String.eqb (ld_name d) key) m); reflexivity.
    + destruct (find (fun d => String.eqb (ld_name d) k) m); reflexivity.
Qed.

Lemma recordAll_NoDup (es : list (string * streamDescriptor)) :
  NoDup (map ld_name (recordAll es [])).
Proof.
  apply (recorded_keys ld_name fst (fun e m => recordStream (fst e) (snd e) m)).
  - intros e m. apply recordStream_names.
  - constructor.
Qed.

(** The streams of a recorded layout are the entries of its key, in the order
    of the manifest, and its best quality is the fold of the comparison of
    line 176 over them. *)
Lemma recorded_layout (es : list (string * streamDescriptor)) (d : layoutData) :
  In d (recordAll es []) ->
  d = fold_left (fun d st => pushStream st d)
        (map snd (filter (fun e => String.eqb (fst e) (ld_name d)) es))
        (newLayoutData (ld_name d)).
Proof.
  intros Hin.
  pose proof (find_key_In ld_name (ld_name d) _ d (recordAll_NoDup es) Hin eq_refl) as Hf.
  rewrite recordAll_find in Hf. simpl in Hf.
  destruct (map snd (filter (fun e => String.eqb (fst e) (ld_name d)) es));
    [discriminate|]. injection Hf as Hf. symmetry. exact Hf.
Qed.

Lemma pushed_streams (ss : list streamDescriptor) :
  forall d, ld_streams (fold_left (fun d st => pushStream st d) ss d) = ld_streams d ++ ss.
Proof.
  induction ss as [|st ss IH]; intros d; simpl; [rewrite app_nil_r; reflexivity|].
  rewrite IH. simpl. rewrite <- app_assoc. reflexivity.
Qed.

Lemma pushed_name (ss : list streamDescriptor) :
  forall d, ld_name (fold_left (fun d st => pushStream st d) ss d) = ld_name d.
Proof.
  induction ss as [|st ss IH]; intros d; simpl; [reflexivity|]. rewrite IH. reflexivity.
Qed.

(** The best bandwidth is the running maximum. *)
Lemma pushed_best_bandwidth (ss : list streamDescriptor) :
  forall d, fst (ld_bestQuality (fold_left (fun d st => pushStream st d) ss d))
            = fold_left Z.max (map bandwidth ss) (fst (ld_bestQuality d)).
Proof.
  induction ss as [|st ss IH]; intros d; simpl; [reflexivity|].
  rewrite IH. simpl. f_equal.
  destruct (Z.gtb_spec (bandwidth st) (fst (ld_bestQuality d))); simpl; lia.
Qed.

Lemma fold_max_ge (l : list Z) : forall a, (a <= fold_left Z.max l a)%Z.
Proof.
  induction l as [|x l IH]; intros a; simpl; [lia|].
  specialize (IH (Z.max a x)). lia.
Qed.

(** The best quality is that of the first stream that reaches the maximum,
    unless no stream exceeds the initial one. *)
Lemma pushed_best_first (ss : list streamDescriptor) :
  forall d,
    let d' := fold_left (fun d st => pushStream st d) ss d in
    (fst (ld_bestQuality d') = fst (ld_bestQuality d) /\
     ld_bestQuality d' = ld_bestQuality d) \/
    (exists pre st post,
        ss = pre ++ st :: post /\
        ld_bestQuality d' = (bandwidth st, resolution st) /\
        (fst (ld_bestQuality d) < bandwidth st)%Z /\
        Forall (fun x => (bandwidth x < bandwidth st)%Z) pre).
Proof.
  induction ss as [|st ss IH]; intros d; cbn zeta; [left; split; reflexivity|].
  cbn [fold_left]. specialize (IH (pushStream st d)). cbn zeta in IH.
  set (d' := fold_left (fun d st => pushStream st d) ss (pushStream st d)) in *.
  pose proof (pushed_best_bandwidth ss (pushStream st d)) as Hmax. fold d' in Hmax.
  pose proof (fold_max_ge (map bandwidth ss) (fst (ld_bestQuality (pushStream st d)))) as Hge.
  rewrite <- Hmax in Hge. clear Hmax.
  simpl in IH, Hge.
  destruct (Z.gtb_spec (bandwidth st) (fst (ld_bestQuality d))) as [Hgt|Hle].
  - simpl in IH, Hge. right. destruct IH as [[_ Hsame]|[pre [x [post [Hss [Hb [Hlt Hpre]]]]]]].
    + exists [], st, ss. repeat split; [exact Hsame | lia | constructor].
    + exists (st :: pre), x, post. subst ss. repeat split;
        [exact Hb | lia | constructor; [exact Hlt | exact Hpre]].
  - destruct IH as [[Hfst Hsame]|[pre [x [post [Hss [Hb [Hlt Hpre]]]]]]].
    + left. split; assumption.
    + right. exists (st :: pre), x, post. subst ss. repeat split;
        [exact Hb | exact Hlt | constructor; [lia | exact Hpre]].
Qed.

Lemma parsed_layout_recorded (cmp : string -> string -> Z)
  (manifestUrl manifestText : string) (l : layout) :
  In l (snd (parseText cmp manifestUrl manifestText)) ->
  exists d, l = toLayout (baseUrlOf manifestUrl) d /\
            In d (recordAll (entries (split LF manifestText)) []).
Proof.
  intros Hin.
  apply (Permutation_in _ (parseText_perm cmp manifestUrl manifestText)) in Hin.
  apply in_map_iff in Hin as [d [Hd Hin]]. exists d. split; [symmetry; exact Hd|].
  rewrite <- scanLines_entries. exact Hin.
Qed.

(** X1.  Every layout that the parser of src/App.js returns lists exactly the
    well-formed stream-info/URI pairs of its key, in the order of the
    manifest; its bandwidth is the largest bandwidth among them (0 when none
    exceeds 0), and its resolution is that of the first stream that reaches
    this bandwidth (the empty string when the bandwidth is 0). *)
Theorem layout_streams_in_manifest_order_with_best_quality :
  forall (localeCompare : string -> string -> Z) (manifestUrl manifestText : string)
         (l : layout),
    In l (snd (parseText localeCompare manifestUrl manifestText)) ->
    streams l
    = map snd (filter (fun e => String.eqb (fst e) (name l))
                      (entries (split LF manifestText))) /\
    bestBandwidth l = fold_left Z.max (map bandwidth (streams l)) 0%Z /\
    ((bestBandwidth l = 0%Z /\ bestResolution l = EmptyString) \/
     (exists pre st post,
         streams l = pre ++ st :: post /\
         bandwidth st = bestBandwidth l /\ resolution st = bestResolution l /\
         (0 < bandwidth st)%Z /\
         Forall (fun x => (bandwidth x < bandwidth st)%Z) pre)).
Proof.
  intros localeCompare manifestUrl manifestText l Hin.
  destruct (parsed_layout_recorded _ _ _ _ Hin) as [d [-> Hd]].
  pose proof (recorded_layout _ _ Hd) as Hrec.
  set (ss := map snd (filter (fun e => String.eqb (fst e) (ld_name d))
                             (entries (split LF manifestText)))) in *.
  assert (Hstreams : ld_streams d = ss).
  { rewrite Hrec at 1. rewrite pushed_streams. reflexivity. }
  cbn [toLayout streams name bestBandwidth bestResolution].
  split; [exact Hstreams|]. split.
  - rewrite Hrec at 1. rewrite pushed_best_bandwidth, Hstreams. reflexivity.
  - destruct (pushed_best_first ss (newLayoutData (ld_name d)))
      as [[Hfst Hsame]|[pre [st [post [Hss [Hb [Hlt Hpre]]]]]]];
      cbn zeta in *; rewrite <- Hrec in *.
    + left. rewrite Hsame. split; reflexivity.
    + right. exists pre, st, post. rewrite Hstreams, Hb.
      repeat split; [exact Hss | exact Hlt | exact Hpre].
Qed.

Lemma layout_streams_witness :
  streams studioLayout
  = map snd (filter (fun e => String.eqb (fst e) (name studioLayout))
                    (entries (split LF studioManifest))) /\
  bestBandwidth studioLayout = fold_left Z.max (map bandwidth (streams studioLayout)) 0%Z /\
  ((bestBandwidth studioLayout = 0%Z /\ bestResolution studioLayout = EmptyString) \/
   (exists pre st post,
       streams studioLayout = pre ++ st :: post /\
       bandwidth st = bestBandwidth studioLayout /\
       resolution st = bestResolution studioLayout /\
       (0 < bandwidth st)%Z /\
       Forall (fun x => (bandwidth x < bandwidth st)%Z) pre)).
Proof.
  apply (layout_streams_in_manifest_order_with_best_quality letterCollation exampleUrl
           studioManifest studioLayout).
  vm_compute. left. reflexivity.
Defined.

End ParserStreamFacts.

(** ** Line endings, the bandwidth attribute and layout names *)

Section ParserLineFacts.
Import Js Manifest.

Lemma trimEnd_app_ws (c : ascii) (s : string) :
  isWhiteSpace c = true -> trimEnd (s ++ String c EmptyString) = trimEnd s.
Proof.
  intros Hc. induction s as [|d s IH]; simpl.
  - rewrite Hc. reflexivity.
  - rewrite IH. reflexivity.
Qed.

Lemma trim_app_ws (c : ascii) (s : string) :
  isWhiteSpace c = true -> trim (s ++ String c EmptyString) = trim s.
Proof.
  intros Hc. unfold trim. induction s as [|d s IH]; simpl.
  - rewrite Hc. reflexivity.
  - destruct (isWhiteSpace d); [exact IH|].
    apply (trimEnd_app_ws c (String d s) Hc).
Qed.

Lemma contains_app (c : ascii) (a b : string) :
  contains c (a ++ b) = contains c a || contains c b.
Proof.
  induction a as [|d a IH]; simpl; [reflexivity|].
  rewrite IH, orb_assoc. reflexivity.
Qed.

(** The loop reads the lines through [trim] only. *)
Lemma forLines_trim {M : Type} (body : string -> option string -> M -> M)
  (lines : list string) :
  forall lines' m, map trim lines = map trim lines' ->
                   forLines body lines m = forLines body lines' m.
Proof.
  induction lines as [|l rest IH]; intros [|l' rest'] m H; try discriminate;
    [reflexivity|].
  simpl in H. injection H as Hl Hrest. simpl. rewrite Hl.
  replace (nextOf rest') with (nextOf rest).
  - apply IH, Hrest.
  - unfold nextOf. destruct rest, rest'; try discriminate; [reflexivity|].
    simpl in *. injection Hrest as -> _. reflexivity.
Qed.

Lemma parseLines_trim (cmp : string -> string -> Z) (manifestUrl : string)
  (lines lines' : list string) :
  map trim lines = map trim lines' ->
  parseLines cmp manifestUrl lines = parseLines cmp manifestUrl lines'.
Proof.
  intros H.
  assert (Hscan : scanLines lines [] = scanLines lines' []).
  { unfold scanLines. apply forLines_trim, H. }
  unfold parseLines. rewrite Hscan. reflexivity.
Qed.

(** X2.  A playlist with CRLF line endings is parsed like the same playlist
    with LF line endings: the layouts and the log lines of the parser are the
    same. *)
Theorem crlf_manifest_parses_like_lf :
  forall (localeCompare : string -> string -> Z) (manifestUrl : string)
         (lines : list string),
    Forall (fun l => contains LF l = false) lines ->
    parseText localeCompare manifestUrl
      (join LF (map (fun l => l ++ String "013"%char EmptyString)%string lines))
    = parseText localeCompare manifestUrl (join LF lines).
Proof.
  intros localeCompare manifestUrl lines Hlf.
  destruct lines as [|l0 rest]; [reflexivity|].
  unfold parseText. rewrite !split_join; try discriminate; try exact Hlf.
  - apply parseLines_trim. rewrite map_map. apply map_ext.
    intros l. apply trim_app_ws. reflexivity.
  - apply Forall_map. eapply Forall_impl; [|exact Hlf].
    intros l Hl. cbn beta in *. rewrite contains_app, Hl. reflexivity.
Qed.

Lemma crlf_manifest_witness :
  parseText letterCollation exampleUrl
    (join LF (map (fun l => l ++ String "013"%char EmptyString)%string
                  ["#EXTM3U"; streamInf "800000" "640x360" "studio"; "studio/low.m3u8"]))
  = parseText letterCollation exampleUrl
      (join LF ["#EXTM3U"; streamInf "800000" "640x360" "studio"; "studio/low.m3u8"]).
Proof.
  apply (crlf_manifest_parses_like_lf letterCollation exampleUrl
           ["#EXTM3U"; streamInf "800000" "640x360" "studio"; "studio/low.m3u8"]).
  repeat constructor.
Defined.

(** *** The leftmost match *)

Lemma span_app (f : ascii -> bool) (a b : string) :
  forallb f (list_ascii_of_string a) = true ->
  fst (span f b) = EmptyString ->
  span f (a ++ b) = (a, b).
Proof.
  intros Ha Hb. induction a as [|c a IH]; simpl in *.
  - destruct b as [|d b]; [reflexivity|]. simpl in *.
    destruct (f d); [|reflexivity].
    destruct (span f b); discriminate.
  - apply andb_true_iff in Ha as [Hc Ha]. rewrite Hc, (IH Ha). reflexivity.
Qed.

Lemma digitsAfter_here (lit d rest : string) :
  d <> EmptyString ->
  forallb isDigit (list_ascii_of_string d) = true ->
  fst (span isDigit rest) = EmptyString ->
  digitsAfter lit (lit ++ d ++ rest) = Some d.
Proof.
  intros Hne Hd Hrest. unfold digitsAfter.
  rewrite stripPrefix_app, (span_app isDigit d rest Hd Hrest).
  destruct d; [contradiction | reflexivity].
Qed.

(** The literal BANDWIDTH= does not overlap itself: where it stands at the
    start of a text that holds it further on, the two occurrences are
    apart. *)
Lemma bandwidth_literal_apart (p t r : string) :
  stripPrefix "BANDWIDTH=" (p ++ "BANDWIDTH=" ++ t) = Some r ->
  (p = EmptyString /\ r = t) \/
  (exists p', p = ("BANDWIDTH=" ++ p')%string /\ r = (p' ++ "BANDWIDTH=" ++ t)%string).
Proof.
  intros H.
  destruct p as [|c0 p];
    [left; simpl in H; injection H as <-; split; reflexivity|].
  right.
  cbn [String.append stripPrefix] in H.
  destruct (Ascii.eqb_spec "B"%char c0) as [<-|]; [|discriminate H].
  destruct p as [|c1 p]; [simpl in H; discriminate H|].
  cbn [String.append stripPrefix] in H.
  destruct (Ascii.eqb_spec "A"%char c1) as [<-|]; [|discriminate H].
  destruct p as [|c2 p]; [simpl in H; discriminate H|].
  cbn [String.append stripPrefix] in H.
  destruct (Ascii.eqb_spec "N"%char c2) as [<-|]; [|discriminate H].
  destruct p as [|c3 p]; [simpl in H; discriminate H|].
  cbn [String.append stripPrefix] in H.
  destruct (Ascii.eqb_spec "D"%char c3) as [<-|]; [|discriminate H].
  destruct p as [|c4 p]; [simpl in H; discriminate H|].
  cbn [String.append stripPrefix] in H.
  destruct (Ascii.eqb_spec "W"%char c4) as [<-|]; [|discriminate H].
  destruct p as [|c5 p]; [simpl in H; discriminate H|].
  cbn [String.append stripPrefix] in H.
  destruct (Ascii.eqb_spec "I"%char c5) as [<-|]; [|discriminate H].
  destruct p as [|c6 p]; [simpl in H; discriminate H|].
  cbn [String.append stripPrefix] in H.
  destruct (Ascii.eqb_spec "D"%char c6) as [<-|]; [|discriminate H].
  destruct p as [|c7 p]; [simpl in H; discriminate H|].
  cbn [String.append stripPrefix] in H.
  destruct (Ascii.eqb_spec "T"%char c7) as [<-|]; [|discriminate H].
  destruct p as [|c8 p]; [simpl in H; discriminate H|].
  cbn [String.append stripPrefix] in H.
  destruct (Ascii.eqb_spec "H"%char c8) as [<-|]; [|discriminate H].
  destruct p as [|c9 p]; [simpl in H; discriminate H|].
  cbn [String.append stripPrefix] in H.
  destruct (Ascii.eqb_spec "="%char c9) as [<-|]; [|discriminate H].
  injection H as <-. exists p. split; reflexivity.
Qed.

(** X3.  The bandwidth of an entry is read at the leftmost place of the line
    where the letters BANDWIDTH= are followed by a digit, whatever else stands
    before that place: in a line whose attribute AVERAGE-BANDWIDTH comes
    before BANDWIDTH, the recorded bandwidth is the average one. *)
Theorem bandwidth_is_read_at_leftmost_match :
  forall (pre d rest : string) (next : option string) (uri key res : string),
    (forall a c b, pre = (a ++ "BANDWIDTH=" ++ String c b)%string -> isDigit c = false) ->
    d <> EmptyString ->
    forallb isDigit (list_ascii_of_string d) = true ->
    fst (span isDigit rest) = EmptyString ->
    isStreamInf (pre ++ "BANDWIDTH=" ++ d ++ rest) = true ->
    uriLine next = Some uri ->
    layoutNameOf (pre ++ "BANDWIDTH=" ++ d ++ rest) uri = Some key ->
    matchResolution (pre ++ "BANDWIDTH=" ++ d ++ rest) = Some res ->
    matchBandwidth (pre ++ "BANDWIDTH=" ++ d ++ rest) = Some d /\
    entryAt (pre ++ "BANDWIDTH=" ++ d ++ rest) next
    = Some (key, {| bandwidth := parseInt d; resolution := res;
                    streamInfoLine := (pre ++ "BANDWIDTH=" ++ d ++ rest)%string;
                    streamUrlLine := uri |}).
Proof.
  intros pre d rest next uri key res Hpre Hne Hd Hrest Hinf Huri Hkey Hres.
  assert (Hbw : matchBandwidth (pre ++ "BANDWIDTH=" ++ d ++ rest) = Some d).
  { unfold matchBandwidth. rewrite search_app_fail.
    - apply search_here, (digitsAfter_here "BANDWIDTH=" d rest Hne Hd Hrest).
    - intros p1 p2 Hsplit Hp2. unfold digitsAfter.
      destruct (stripPrefix "BANDWIDTH=" (p2 ++ "BANDWIDTH=" ++ d ++ rest)) as [r|] eqn:E;
        [|reflexivity].
      apply bandwidth_literal_apart in E as [[-> _]|[p' [-> ->]]]; [contradiction|].
      destruct p' as [|c b].
      + reflexivity.
      + cbn [String.append span].
        rewrite (Hpre p1 c b Hsplit). reflexivity. }
  split; [exact Hbw|].
  unfold entryAt. rewrite Hinf, Huri, Hkey, Hbw, Hres. reflexivity.
Qed.

Lemma bandwidth_leftmost_witness :
  let line := ("#EXT-X-STREAM-INF:STABLE-VARIANT-ID=b1,AVERAGE-" ++ "BANDWIDTH=" ++ "500000"
               ++ ",BANDWIDTH=800000,RESOLUTION=640x360,NAME=" ++ dq ++ "studio" ++ dq)%string in
  matchBandwidth line = Some "500000" /\
  entryAt line (Some "studio/low.m3u8")
  = Some ("studio", {| bandwidth := 500000; resolution := "640x360";
                       streamInfoLine := line; streamUrlLine := "studio/low.m3u8" |}).
Proof.
  refine (bandwidth_is_read_at_leftmost_match
            "#EXT-X-STREAM-INF:STABLE-VARIANT-ID=b1,AVERAGE-" "500000"
            (",BANDWIDTH=800000,RESOLUTION=640x360,NAME=" ++ dq ++ "studio" ++ dq)
            (Some "studio/low.m3u8") "studio/low.m3u8" "studio" "640x360"
            _ ltac:(discriminate) eq_refl eq_refl eq_refl eq_refl eq_refl eq_refl).
  intros a c b H. exfalso.
  exact (no_occurrence "BANDWIDTH=" "#EXT-X-STREAM-INF:STABLE-VARIANT-ID=b1,AVERAGE-"
           eq_refl a _ H).
Defined.

(** *** Names are never empty *)

Lemma search_some {A : Type} (m : string -> option A) (s : string) (r : A) :
  search m s = Some r -> exists s', m s' = Some r.
Proof.
  induction s as [|c s IH]; simpl.
  - destruct (m EmptyString) eqn:E; [|discriminate].
    intros H. injection H as <-. eexists; exact E.
  - destruct (m (String c s)) eqn:E.
    + intros H. injection H as <-. eexists; exact E.
    + exact IH.
Qed.

Lemma matchQuoted_nonempty (attr line v : string) :
  matchQuoted attr line = Some v -> v <> EmptyString.
Proof.
  unfold matchQuoted. intros H. apply search_some in H as [s' H].
  destruct (stripPrefix attr s') as [[|q r]|]; try discriminate.
  destruct (Ascii.eqb q quote); [|discriminate].
  destruct (span (fun c => negb (Ascii.eqb c quote)) r) as [w r1].
  destruct w; [discriminate|]. destruct r1; [discriminate|].
  injection H as <-. discriminate.
Qed.

Lemma matchFirstSegment_nonempty (url v : string) :
  matchFirstSegment url = Some v -> v <> EmptyString.
Proof.
  unfold matchFirstSegment.
  destruct (span (fun c => negb (Ascii.eqb c slash)) url) as [seg r].
  destruct seg; [discriminate|]. destruct r; [discriminate|].
  intros H. injection H as <-. discriminate.
Qed.

Lemma manifest_layoutNameOf_nonempty (line nextLine key : string) :
  Manifest.layoutNameOf line nextLine = Some key -> key <> EmptyString.
Proof.
  unfold Manifest.layoutNameOf, orElse.
  destruct (matchQuoted "NAME=" line) eqn:E1.
  - intros H. injection H as <-. eapply matchQuoted_nonempty, E1.
  - destruct (matchQuoted "VIDEO=" line) eqn:E2.
    + intros H. injection H as <-. eapply matchQuoted_nonempty, E2.
    + destruct (matchFirstSegment nextLine) eqn:E3.
      * intros H. injection H as <-. eapply matchFirstSegment_nonempty, E3.
      * unfold matchLayoutToken.
        destruct (search (digitsAfter "Layout") nextLine); [|discriminate].
        intros H. injection H as <-. discriminate.
Qed.

Lemma regions_layoutNameOf_nonempty (line nextLine key : string) :
  RegionsApp.layoutNameOf line nextLine = Some key -> key <> EmptyString.
Proof.
  unfold RegionsApp.layoutNameOf, orElse.
  destruct (matchQuoted "NAME=" line) eqn:E1.
  - intros H. injection H as <-. eapply matchQuoted_nonempty, E1.
  - destruct (matchQuoted "VIDEO=" line) eqn:E2.
    + intros H. injection H as <-. eapply matchQuoted_nonempty, E2.
    + destruct (1 <? length (split slash nextLine))%nat; [|discriminate].
      destruct (nth (length (split slash nextLine) - 2) (split slash nextLine) EmptyString);
        [discriminate|].
      intros H. injection H as <-. discriminate.
Qed.

Lemma selectLines_In {E : Type} (select : string -> option string -> option E)
  (lines : list string) (e : E) :
  In e (selectLines select lines) -> exists line next, select line next = Some e.
Proof.
  induction lines as [|l rest IH]; simpl; [contradiction|].
  destruct (select (trim l) (nextOf rest)) eqn:E0; [|exact IH].
  intros [<-|H]; [eexists; eexists; exact E0 | exact (IH H)].
Qed.

(** X4.  No layout that either parser returns has the empty name: an entry
    is recorded only under a key that is a non-empty string. *)
Theorem parsed_layout_names_are_not_empty :
  forall (localeCompare : string -> string -> Z) (manifestUrl manifestText : string),
    (forall l, In l (snd (Manifest.parseText localeCompare manifestUrl manifestText)) ->
               Manifest.name l <> EmptyString) /\
    (forall l, In l (RegionsApp.parseText localeCompare manifestUrl manifestText) ->
               RegionsApp.name l <> EmptyString).
Proof.
  intros localeCompare manifestUrl manifestText. split; intros l Hin.
  - assert (Hk : In (Manifest.name l) (Manifest.layoutKeys manifestText)).
    { assert (Hnames : Permutation
                (map Manifest.name
                     (snd (Manifest.parseText localeCompare manifestUrl manifestText)))
                (Manifest.layoutKeys manifestText)).
      { rewrite (parseText_perm localeCompare manifestUrl manifestText), map_map.
        simpl. apply scanned_names. }
      apply (Permutation_in _ Hnames), in_map, Hin. }
    unfold Manifest.layoutKeys in Hk. apply nodup_In, in_map_iff in Hk as [[k st] [Hk He]].
    simpl in Hk. subst k. apply selectLines_In in He as [line [next He]].
    unfold Manifest.entryAt in He.
    destruct (isStreamInf line); [|discriminate].
    destruct (uriLine next) as [nextLine|]; [|discriminate].
    destruct (Manifest.layoutNameOf line nextLine) as [key|] eqn:Ek; [|discriminate].
    destruct (matchBandwidth line); [|discriminate].
    destruct (matchResolution line); [|discriminate].
    injection He as Hkey _. rewrite <- Hkey.
    eapply manifest_layoutNameOf_nonempty, Ek.
  - assert (Hk : In (RegionsApp.name l) (RegionsApp.layoutKeys manifestText)).
    { assert (Hnames : Permutation
                (map RegionsApp.name
                     (RegionsApp.parseText localeCompare manifestUrl manifestText))
                (RegionsApp.layoutKeys manifestText)).
      { rewrite (regions_parseText_perm localeCompare manifestUrl manifestText), map_map.
        simpl. rewrite regions_scanLines_entries.
        apply (recorded_keys_perm RegionsApp.ld_name fst
                 (fun e m => RegionsApp.recordStream (fst e) (snd e) m)).
        intros e m. apply regions_recordStream_names. }
      apply (Permutation_in _ Hnames), in_map, Hin. }
    unfold RegionsApp.layoutKeys in Hk.
    apply nodup_In, in_map_iff in Hk as [[k st] [Hk He]].
    simpl in Hk. subst k. apply selectLines_In in He as [line [next He]].
    unfold RegionsApp.entryAt in He.
    destruct (isStreamInf line); [|discriminate].
    destruct (uriLine next) as [nextLine|]; [|discriminate].
    destruct (RegionsApp.layoutNameOf line nextLine) as [key|] eqn:Ek; [|discriminate].
    destruct (matchBandwidth line); [|discriminate].
    destruct (matchResolution line); [|discriminate].
    injection He as Hkey _. rewrite <- Hkey.
    eapply regions_layoutNameOf_nonempty, Ek.
Qed.

Lemma parsed_layout_names_witness :
  Manifest.name studioLayout <> EmptyString.
Proof.
  apply (proj1 (parsed_layout_names_are_not_empty letterCollation exampleUrl studioManifest)).
  vm_compute. left. reflexivity.
Defined.

End ParserLineFacts.

(** ** Program names read off the original stream ids *)

Section ProgramIdFacts.
Import Js ProgramIds.

Lemma allOf_app (f : ascii -> bool) (a b : string) :
  allOf f (a ++ b) = allOf f a && allOf f b.
Proof.
  unfold allOf. induction a as [|c a IH]; simpl; [reflexivity|].
  rewrite IH, andb_assoc. reflexivity.
Qed.

Lemma allOf_notUnderscore (s : string) :
  allOf notUnderscore s = negb (contains underscore s).
Proof.
  unfold allOf, notUnderscore. induction s as [|c s IH]; simpl; [reflexivity|].
  rewrite IH, negb_orb. reflexivity.
Qed.

Lemma digit_not_underscore (c : ascii) : isDigit c = true -> notUnderscore c = true.
Proof.
  unfold isDigit, notUnderscore, underscore. intros H.
  destruct (Ascii.eqb_spec c "_"%char) as [->|]; [discriminate | reflexivity].
Qed.

Lemma allOf_digit_no_underscore (s : string) :
  allOf isDigit s = true -> contains underscore s = false.
Proof.
  intros H. apply negb_true_iff. rewrite <- allOf_notUnderscore.
  unfold allOf in *. induction s as [|c s IH]; simpl in *; [reflexivity|].
  apply andb_true_iff in H as [Hc Hs]. rewrite (digit_not_underscore c Hc). exact (IH Hs).
Qed.

Lemma underscores_app (a b : string) :
  underscores (a ++ b) = (underscores a + underscores b)%nat.
Proof.
  unfold underscores.
  induction a as [|c a IH]; cbn [String.append list_ascii_of_string filter length Nat.add];
    [reflexivity|].
  destruct (Ascii.eqb underscore c); cbn [length Nat.add]; rewrite IH; reflexivity.
Qed.

Lemma underscores_none (s : string) :
  contains underscore s = false -> underscores s = 0%nat.
Proof.
  unfold underscores.
  induction s as [|c s IH]; cbn [contains list_ascii_of_string filter]; [reflexivity|].
  intros H. apply orb_false_iff in H as [Hc Hs].
  rewrite Ascii.eqb_sym, Hc. exact (IH Hs).
Qed.

Lemma underscores_cons (s : string) :
  underscores (String underscore s) = S (underscores s).
Proof. reflexivity. Qed.

Lemma typeSuffix_cases (t : string) :
  isTypeSuffix t = true -> t = "video.m3u8" \/ t = "audio.m3u8" \/ t = "av.m3u8".
Proof.
  unfold isTypeSuffix. intros H.
  apply orb_true_iff in H as [H|H]; [apply orb_true_iff in H as [H|H]|];
    apply String.eqb_eq in H; auto.
Qed.

Lemma typeSuffix_no_underscore (t : string) :
  isTypeSuffix t = true -> contains underscore t = false.
Proof. intros H. destruct (typeSuffix_cases t H) as [-> | [-> | ->]]; reflexivity. Qed.

Lemma runThenUnderscore_spec (f : ascii -> bool) (s a b : string) :
  runThenUnderscore f s = Some (a, b) ->
  s = (a ++ String underscore b)%string /\ allOf f a = true /\ a <> EmptyString.
Proof.
  unfold runThenUnderscore. destruct (span f s) as [run r] eqn:Es.
  destruct (span_spec f s run r Es) as [-> [Hrun _]].
  destruct run as [|c run]; [discriminate|]. cbn [isEmpty].
  destruct r as [|d r]; [discriminate|].
  destruct (Ascii.eqb_spec d underscore) as [->|]; [|discriminate].
  intros H. injection H as <- <-. repeat split; [exact Hrun | discriminate].
Qed.

Lemma runThenUnderscore_here (f : ascii -> bool) (a b : string) :
  allOf f a = true -> a <> EmptyString -> f underscore = false ->
  runThenUnderscore f (a ++ String underscore b) = Some (a, b).
Proof.
  intros Ha Hne Hf. unfold runThenUnderscore.
  rewrite (span_app f a (String underscore b) Ha) by (simpl; rewrite Hf; reflexivity).
  destruct a; [contradiction|]. cbn [isEmpty]. rewrite Ascii.eqb_refl. reflexivity.
Qed.

(** What a match of the first pattern of part_001 looks like. *)
Lemma matchDimsTypeAt_spec (s p : string) :
  matchDimsTypeAt s = Some p ->
  exists w h t,
    s = String underscore (p ++ String underscore (w ++ String underscore
          (h ++ String underscore t)))%string /\
    p <> EmptyString /\ contains underscore p = false /\
    w <> EmptyString /\ allOf isDigit w = true /\
    h <> EmptyString /\ allOf isDigit h = true /\
    isTypeSuffix t = true.
Proof.
  unfold matchDimsTypeAt. destruct s as [|c r]; [discriminate|].
  destruct (Ascii.eqb_spec c underscore) as [->|]; [|discriminate].
  destruct (runThenUnderscore notUnderscore r) as [[q r1]|] eqn:E1; [|discriminate].
  destruct (runThenUnderscore isDigit r1) as [[w r2]|] eqn:E2; [|discriminate].
  destruct (runThenUnderscore isDigit r2) as [[h r3]|] eqn:E3; [|discriminate].
  destruct (isTypeSuffix r3) eqn:Et; [|discriminate].
  intros H. injection H as <-.
  apply runThenUnderscore_spec in E1 as [-> [Hq Hqne]].
  apply runThenUnderscore_spec in E2 as [-> [Hw Hwne]].
  apply runThenUnderscore_spec in E3 as [-> [Hh Hhne]].
  exists w, h, r3. repeat split; try assumption.
  rewrite allOf_notUnderscore in Hq. apply negb_true_iff, Hq.
Qed.

Lemma matchDimsTypeAt_here (p w h t : string) :
  p <> EmptyString -> contains underscore p = false ->
  w <> EmptyString -> allOf isDigit w = true ->
  h <> EmptyString -> allOf isDigit h = true ->
  isTypeSuffix t = true ->
  matchDimsTypeAt (String underscore (p ++ String underscore (w ++ String underscore
                     (h ++ String underscore t)))) = Some p.
Proof.
  intros Hp Hpu Hw Hwd Hh Hhd Ht. unfold matchDimsTypeAt. rewrite Ascii.eqb_refl.
  rewrite (runThenUnderscore_here notUnderscore p);
    [| rewrite allOf_notUnderscore, Hpu; reflexivity | exact Hp | reflexivity].
  rewrite (runThenUnderscore_here isDigit w); [| exact Hwd | exact Hw | reflexivity].
  rewrite (runThenUnderscore_here isDigit h); [| exact Hhd | exact Hh | reflexivity].
  rewrite Ht. reflexivity.
Qed.

Lemma matchDimsTypeAt_underscores (s p : string) :
  matchDimsTypeAt s = Some p -> underscores s = 4%nat.
Proof.
  intros H. destruct (matchDimsTypeAt_spec s p H)
    as [w [h [t [-> [_ [Hp [_ [Hw [_ [Hh Ht]]]]]]]]]].
  repeat first [rewrite underscores_cons | rewrite underscores_app].
  rewrite (underscores_none p Hp), (underscores_none w (allOf_digit_no_underscore w Hw)),
    (underscores_none h (allOf_digit_no_underscore h Hh)),
    (underscores_none t (typeSuffix_no_underscore t Ht)).
  reflexivity.
Qed.

(** A pattern that fails at every place of [pre] is searched in what
    follows [pre]. *)
Lemma app_nonempty (a b : string) : b <> EmptyString -> isEmpty (a ++ b) = false.
Proof. intros H. destruct a; [destruct b; [contradiction | reflexivity] | reflexivity]. Qed.

(** The text after the last underscore of a string. *)
Lemma last_segment_unique (a1 b1 a2 b2 : string) :
  (a1 ++ String underscore b1 = a2 ++ String underscore b2)%string ->
  contains underscore b1 = false -> contains underscore b2 = false -> b1 = b2.
Proof.
  revert a2. induction a1 as [|c a1 IH]; intros [|d a2] H H1 H2; simpl in H.
  - injection H as H. exact H.
  - injection H as _ H. subst b1. rewrite contains_app in H1. cbn [contains] in H1.
    rewrite Ascii.eqb_refl in H1. cbn [orb] in H1. rewrite orb_true_r in H1. discriminate.
  - injection H as _ H. subst b2. rewrite contains_app in H2. cbn [contains] in H2.
    rewrite Ascii.eqb_refl in H2. cbn [orb] in H2. rewrite orb_true_r in H2. discriminate.
  - injection H as _ H. exact (IH a2 H H1 H2).
Qed.

Lemma stripSuffix_spec (suf s x : string) :
  stripSuffix suf s = Some x -> s = (x ++ suf)%string.
Proof.
  revert x. induction s as [|c s IH]; intros x; cbn [stripSuffix].
  - destruct suf; simpl; [|discriminate]. intros H. injection H as <-. reflexivity.
  - destruct (String.eqb_spec (String c s) suf) as [<-|].
    + intros H. injection H as <-. reflexivity.
    + destruct (stripSuffix suf s) as [y|]; [|discriminate].
      intros H. injection H as <-. rewrite (IH y eq_refl). reflexivity.
Qed.

Lemma append_length (a b : string) :
  String.length (a ++ b) = (String.length a + String.length b)%nat.
Proof. induction a as [|c a IH]; simpl; [reflexivity | rewrite IH; reflexivity]. Qed.

Lemma stripSuffix_here (suf x : string) : stripSuffix suf (x ++ suf) = Some x.
Proof.
  induction x as [|c x IH].
  - simpl. destruct suf; simpl; [reflexivity|]. rewrite Ascii.eqb_refl, String.eqb_refl.
    reflexivity.
  - cbn [String.append stripSuffix].
    destruct (String.eqb_spec (String c (x ++ suf)) suf) as [E|_].
    + apply (f_equal String.length) in E. simpl in E. rewrite append_length in E. lia.
    + rewrite IH. reflexivity.
Qed.

Lemma append_inv_tail (a b c : string) : (a ++ c = b ++ c)%string -> a = b.
Proof.
  intros H.
  assert (Ha : stripSuffix c (a ++ c) = Some a) by apply stripSuffix_here.
  rewrite H, stripSuffix_here in Ha. injection Ha as ->. reflexivity.
Qed.

Lemma matchGeneralAt_spec (s p : string) :
  matchGeneralAt s = Some p ->
  s = String underscore (p ++ ".m3u8") /\ p <> EmptyString /\
  contains underscore p = false.
Proof.
  unfold matchGeneralAt. destruct s as [|c r]; [discriminate|].
  destruct (Ascii.eqb_spec c underscore) as [->|]; [|discriminate].
  destruct (contains underscore r) eqn:Er; [discriminate|]. cbn [andb negb].
  destruct (stripSuffix ".m3u8" r) as [q|] eqn:Es; [|discriminate].
  destruct q as [|d q]; [discriminate|]. cbn [isEmpty].
  intros H. injection H as <-. apply stripSuffix_spec in Es. subst r.
  rewrite contains_app in Er. apply orb_false_iff in Er as [Er _].
  repeat split; [discriminate | exact Er].
Qed.

Lemma matchGeneralAt_here (p : string) :
  p <> EmptyString -> contains underscore p = false ->
  matchGeneralAt (String underscore (p ++ ".m3u8")) = Some p.
Proof.
  intros Hne Hp. unfold matchGeneralAt. rewrite Ascii.eqb_refl, contains_app, Hp.
  cbn [contains orb negb andb Ascii.eqb underscore].
  rewrite (stripSuffix_here ".m3u8" p). destruct p; [contradiction | reflexivity].
Qed.

(** No match of the general pattern starts before the last underscore. *)
Lemma matchGeneralAt_before (p2 s : string) :
  p2 <> EmptyString -> contains underscore s = true ->
  matchGeneralAt (p2 ++ s) = None.
Proof.
  intros Hne Hs. destruct p2 as [|c p2]; [contradiction|].
  cbn [String.append matchGeneralAt].
  rewrite contains_app, Hs, orb_true_r, andb_false_r. reflexivity.
Qed.

(** X5.  When the original id ends with an underscore, a program name, the
    two dimensions, the type (video, audio or av) and the extension, each
    after an underscore, the function of part_001 returns the program name,
    whatever stands before. *)
Theorem typed_original_id_names_its_program :
  forall (pre program w h ty : string),
    program <> EmptyString -> contains underscore program = false ->
    w <> EmptyString -> allOf isDigit w = true ->
    h <> EmptyString -> allOf isDigit h = true ->
    In ty ["video"; "audio"; "av"] ->
    extractProgramNameFromOriginalId
      (Some (pre ++ "_" ++ program ++ "_" ++ w ++ "_" ++ h ++ "_" ++ ty ++ ".m3u8")%string)
    = Some program.
Proof.
  intros pre program w h ty Hp Hpu Hw Hwd Hh Hhd Hty.
  assert (Ht : isTypeSuffix (ty ++ ".m3u8") = true).
  { destruct Hty as [<-|[<-|[<-|[]]]]; reflexivity. }
  set (s := String underscore (program ++ String underscore (w ++ String underscore
              (h ++ String underscore (ty ++ ".m3u8"))))%string).
  change (pre ++ "_" ++ program ++ "_" ++ w ++ "_" ++ h ++ "_" ++ ty ++ ".m3u8")%string
    with (pre ++ s)%string.
  pose proof (matchDimsTypeAt_here program w h (ty ++ ".m3u8") Hp Hpu Hw Hwd Hh Hhd Ht)
    as Hhere. fold s in Hhere.
  unfold extractProgramNameFromOriginalId, extractWith.
  rewrite app_nonempty by discriminate.
  rewrite search_app_fail.
  - rewrite (search_here _ _ _ Hhere). reflexivity.
  - intros p1 p2 _ Hne.
    destruct (matchDimsTypeAt (p2 ++ s)) as [q|] eqn:E; [|reflexivity].
    exfalso. pose proof (matchDimsTypeAt_underscores _ _ E) as Hn.
    rewrite underscores_app, (matchDimsTypeAt_underscores _ _ Hhere) in Hn.
    destruct p2 as [|c p2]; [contradiction|].
    cbn [String.append matchDimsTypeAt] in E.
    destruct (Ascii.eqb_spec c underscore) as [->|]; [|discriminate].
    rewrite underscores_cons in Hn. lia.
Qed.

Lemma typed_original_id_witness :
  extractProgramNameFromOriginalId
    (Some ("cam" ++ "_" ++ "studio" ++ "_" ++ "1280" ++ "_" ++ "720" ++ "_" ++ "video"
             ++ ".m3u8")%string)
  = Some "studio".
Proof.
  apply (typed_original_id_names_its_program "cam" "studio" "1280" "720" "video");
    try discriminate; try reflexivity.
  left. reflexivity.
Defined.

Lemma no_typed_match (pre program : string) :
  contains underscore program = false ->
  isTypeSuffix (program ++ ".m3u8") = false ->
  search matchDimsTypeAt (pre ++ String underscore (program ++ ".m3u8")) = None.
Proof.
  intros Hpu Hnt.
  destruct (search matchDimsTypeAt (pre ++ String underscore (program ++ ".m3u8")))
    as [q|] eqn:E; [|reflexivity].
  exfalso. apply search_some_suffix in E as [pre' [s' [Heq Hs']]].
  destruct (matchDimsTypeAt_spec _ _ Hs') as [w [h [t [-> [_ [_ [_ [_ [_ [_ Ht]]]]]]]]]].
  assert (Heq' : (pre ++ String underscore (program ++ ".m3u8")
                  = (pre' ++ String underscore (q ++ String underscore
                       (w ++ String underscore h))) ++ String underscore t)%string).
  { rewrite Heq, append_assoc. cbn [String.append]. rewrite !append_assoc.
    cbn [String.append]. rewrite !append_assoc. reflexivity. }
  apply last_segment_unique in Heq';
    [| rewrite contains_app, Hpu; reflexivity | exact (typeSuffix_no_underscore t Ht)].
  rewrite Heq', Ht in Hnt. discriminate.
Qed.

Lemma general_match (pre program : string) :
  program <> EmptyString -> contains underscore program = false ->
  search matchGeneralAt (pre ++ String underscore (program ++ ".m3u8")) = Some program.
Proof.
  intros Hp Hpu. rewrite search_app_fail.
  - apply search_here, matchGeneralAt_here; assumption.
  - intros p1 p2 _ Hne. apply matchGeneralAt_before; [exact Hne|].
    reflexivity.
Qed.

(** X6.  When the original id ends with an underscore, a program name and
    the extension, and the name is not one of the types, the function of
    part_001 returns the name: the text between the last underscore and the
    extension. *)
Theorem plain_original_id_names_its_program :
  forall (pre program : string),
    program <> EmptyString -> contains underscore program = false ->
    ~ In program ["video"; "audio"; "av"] ->
    extractProgramNameFromOriginalId (Some (pre ++ "_" ++ program ++ ".m3u8")%string)
    = Some program.
Proof.
  intros pre program Hp Hpu Hnt.
  change (pre ++ "_" ++ program ++ ".m3u8")%string
    with (pre ++ String underscore (program ++ ".m3u8"))%string.
  unfold extractProgramNameFromOriginalId, extractWith.
  rewrite app_nonempty by discriminate.
  rewrite no_typed_match; [apply general_match; assumption | exact Hpu |].
  destruct (isTypeSuffix (program ++ ".m3u8")) eqn:E; [|reflexivity].
  exfalso. apply Hnt.
  destruct (typeSuffix_cases _ E) as [H|[H|H]].
  - left. symmetry. apply (append_inv_tail program "video" ".m3u8" H).
  - right; left. symmetry. apply (append_inv_tail program "audio" ".m3u8" H).
  - right; right; left. symmetry. apply (append_inv_tail program "av" ".m3u8" H).
Qed.

Lemma plain_original_id_witness :
  extractProgramNameFromOriginalId (Some ("stream_7" ++ "_" ++ "wide" ++ ".m3u8")%string)
  = Some "wide".
Proof.
  apply (plain_original_id_names_its_program "stream_7" "wide");
    [discriminate | reflexivity |].
  intros [H|[H|[H|[]]]]; discriminate.
Defined.

(** X7.  Whatever the function of part_001 returns is a non-empty name
    without an underscore that stands in the id after an underscore and
    before either the extension at the end of the id or the two dimensions,
    the type and the extension; a missing or empty id gives nothing. *)
Theorem extracted_program_name_is_sound :
  forall (originalVideoId : option string) (program : string),
    extractProgramNameFromOriginalId originalVideoId = Some program ->
    program <> EmptyString /\ contains underscore program = false /\
    exists pre rest,
      originalVideoId = Some (pre ++ "_" ++ program ++ rest)%string /\
      (rest = ".m3u8" \/
       exists w h t, rest = ("_" ++ w ++ "_" ++ h ++ "_" ++ t)%string /\
                     allOf isDigit w = true /\ allOf isDigit h = true /\
                     isTypeSuffix t = true).
Proof.
  intros [id|] program; [|discriminate].
  unfold extractProgramNameFromOriginalId, extractWith.
  destruct (isEmpty id); [discriminate|].
  destruct (search matchDimsTypeAt id) as [q|] eqn:E1.
  - intros H. injection H as ->.
    apply search_some_suffix in E1 as [pre [s' [-> Hs']]].
    destruct (matchDimsTypeAt_spec _ _ Hs')
      as [w [h [t [-> [Hp [Hpu [_ [Hw [_ [Hh Ht]]]]]]]]]].
    split; [exact Hp|]. split; [exact Hpu|].
    exists pre, (String underscore (w ++ String underscore (h ++ String underscore t))).
    split; [reflexivity|]. right. exists w, h, t. repeat split; assumption.
  - intros H. apply search_some_suffix in H as [pre [s' [-> Hs']]].
    destruct (matchGeneralAt_spec _ _ Hs') as [-> [Hp Hpu]].
    split; [exact Hp|]. split; [exact Hpu|].
    exists pre, ".m3u8". split; [reflexivity | left; reflexivity].
Qed.

Lemma extracted_program_name_witness :
  "studio" <> EmptyString /\ contains underscore "studio" = false /\
  exists pre rest,
    Some "cam_studio_1280_720_video.m3u8" = Some (pre ++ "_" ++ "studio" ++ rest)%string /\
    (rest = ".m3u8" \/
     exists w h t, rest = ("_" ++ w ++ "_" ++ h ++ "_" ++ t)%string /\
                   allOf isDigit w = true /\ allOf isDigit h = true /\
                   isTypeSuffix t = true).
Proof.
  exact (extracted_program_name_is_sound (Some "cam_studio_1280_720_video.m3u8") "studio"
           eq_refl).
Defined.

(** *** The function of part_003 *)

Lemma matchDimsAt_spec (s p : string) :
  matchDimsAt s = Some p ->
  exists w h,
    s = String underscore (p ++ String underscore (w ++ String underscore
          (h ++ ".m3u8")))%string /\
    allOf isDigit h = true.
Proof.
  unfold matchDimsAt. destruct s as [|c r]; [discriminate|].
  destruct (Ascii.eqb_spec c underscore) as [->|]; [|discriminate].
  destruct (runThenUnderscore notUnderscore r) as [[q r1]|] eqn:E1; [|discriminate].
  destruct (runThenUnderscore isDigit r1) as [[w r2]|] eqn:E2; [|discriminate].
  destruct (span isDigit r2) as [h r3] eqn:E3.
  destruct (isEmpty h); [discriminate|].
  destruct (String.eqb_spec r3 ".m3u8") as [->|]; [|discriminate].
  intros H. injection H as <-.
  apply runThenUnderscore_spec in E1 as [-> _].
  apply runThenUnderscore_spec in E2 as [-> _].
  apply span_spec in E3 as [-> [Hh _]].
  exists w, h. split; [reflexivity | exact Hh].
Qed.

(** X8.  In part_003 the first pattern has no type any more: an id that
    ends with an underscore, a name that is not a run of digits and the
    extension gives that name, so an id with the dimensions and the type gives
    the type (video, audio or av), not the program. *)
Theorem untyped_pattern_returns_last_segment :
  forall (pre program : string),
    program <> EmptyString -> contains underscore program = false ->
    allOf isDigit program = false ->
    extractProgramNameFromOriginalId_v3 (Some (pre ++ "_" ++ program ++ ".m3u8")%string)
    = Some program.
Proof.
  intros pre program Hp Hpu Hnd.
  change (pre ++ "_" ++ program ++ ".m3u8")%string
    with (pre ++ String underscore (program ++ ".m3u8"))%string.
  unfold extractProgramNameFromOriginalId_v3, extractWith.
  rewrite app_nonempty by discriminate.
  destruct (search matchDimsAt (pre ++ String underscore (program ++ ".m3u8")))
    as [q|] eqn:E; [|apply general_match; assumption].
  exfalso. apply search_some_suffix in E as [pre' [s' [Heq Hs']]].
  destruct (matchDimsAt_spec _ _ Hs') as [w [h [-> Hh]]].
  assert (Heq' : (pre ++ String underscore (program ++ ".m3u8")
                  = (pre' ++ String underscore (q ++ String underscore w))
                      ++ String underscore (h ++ ".m3u8"))%string).
  { rewrite Heq, append_assoc. cbn [String.append]. rewrite !append_assoc.
    cbn [String.append]. reflexivity. }
  apply last_segment_unique in Heq';
    [| rewrite contains_app, Hpu; reflexivity
     | rewrite contains_app, (allOf_digit_no_underscore h Hh); reflexivity].
  apply append_inv_tail in Heq'. subst h. rewrite Hh in Hnd. discriminate.
Qed.

Lemma untyped_pattern_witness :
  extractProgramNameFromOriginalId_v3
    (Some ("cam_studio_1280_720" ++ "_" ++ "video" ++ ".m3u8")%string)
  = Some "video".
Proof.
  apply (untyped_pattern_returns_last_segment "cam_studio_1280_720" "video");
    [discriminate | reflexivity | reflexivity].
Defined.

End ProgramIdFacts.

(** ** The programs of a manifest and the initial selection *)

Section ProgramCollectionFacts.
Import ProgramsApp.

Lemma existsb_label (n : string) (acc : list program) :
  existsb (fun p => String.eqb (p_label p) n) acc = true <-> In n (map p_label acc).
Proof.
  rewrite existsb_exists, in_map_iff. split.
  - intros [p [Hin Hp]]. apply String.eqb_eq in Hp. exists p. split; assumption.
  - intros [p [Hp Hin]]. exists p. split; [exact Hin | apply String.eqb_eq, Hp].
Qed.

Lemma collect_spec (version : Z) (vs : list variantTrack) :
  forall acc, NoDup (map p_label acc) ->
    NoDup (map p_label (collectPrograms version vs acc)) /\
    (exists new, collectPrograms version vs acc = acc ++ new) /\
    (forall v, In v vs ->
               In (programNameOf v) (map p_label (collectPrograms version vs acc))) /\
    (forall p, In p (collectPrograms version vs acc) ->
       In p acc \/
       (~ In (p_label p) (map p_label acc) /\
        exists pre v post,
          vs = pre ++ v :: post /\
          p = {| p_label := programNameOf v; variantId := id v;
                 p_bandwidth := bandwidth v; manifestVersion := version |} /\
          Forall (fun x => programNameOf x <> programNameOf v) pre)).
Proof.
  induction vs as [|v r IH]; intros acc Hnd; cbn [collectPrograms].
  - split; [exact Hnd|]. split; [exists []; rewrite app_nil_r; reflexivity|].
    split; [intros v []|]. intros p Hp. left. exact Hp.
  - set (pv := {| p_label := programNameOf v; variantId := id v;
                  p_bandwidth := bandwidth v; manifestVersion := version |}).
    set (acc' := if existsb (fun p => String.eqb (p_label p) (programNameOf v)) acc
                 then acc else acc ++ [pv]).
    assert (Hsub : exists x, acc' = acc ++ x).
    { unfold acc'. destruct (existsb _ acc); [exists []; rewrite app_nil_r|exists [pv]];
        reflexivity. }
    assert (Hv : In (programNameOf v) (map p_label acc')).
    { unfold acc'.
      destruct (existsb (fun p => String.eqb (p_label p) (programNameOf v)) acc) eqn:E.
      - apply existsb_label, E.
      - rewrite map_app, in_app_iff. right. left. reflexivity. }
    assert (Hnd' : NoDup (map p_label acc')).
    { unfold acc'.
      destruct (existsb (fun p => String.eqb (p_label p) (programNameOf v)) acc) eqn:E;
        [exact Hnd|].
      rewrite map_app. simpl.
      eapply Permutation_NoDup; [apply Permutation_cons_append|].
      constructor; [|exact Hnd]. intros Hin. apply existsb_label in Hin. congruence. }
    destruct (IH acc' Hnd') as [N [[new Hps] [Hcov Hfirst]]].
    destruct Hsub as [x Hx].
    split; [exact N|]. split.
    { exists (x ++ new). rewrite Hps, Hx, app_assoc. reflexivity. }
    split.
    { intros v' [<-|Hin]; [|exact (Hcov v' Hin)].
      rewrite Hps, map_app, in_app_iff. left. exact Hv. }
    intros p Hp. destruct (Hfirst p Hp) as [Hacc|[Hnot [pre [v0 [post [Hr [Hpv Hpre]]]]]]].
    + unfold acc' in Hacc.
      destruct (existsb (fun p => String.eqb (p_label p) (programNameOf v)) acc) eqn:E;
        [left; exact Hacc|].
      apply in_app_iff in Hacc as [Hacc|[<-|[]]]; [left; exact Hacc|].
      right. split.
      * intros Hin. apply existsb_label in Hin. simpl in Hin. congruence.
      * exists [], v, r. repeat split. constructor.
    + right. split.
      * intros Hin. apply Hnot. rewrite Hx, map_app, in_app_iff. left. exact Hin.
      * exists (v :: pre), v0, post. subst r. split; [reflexivity|]. split; [exact Hpv|].
        constructor; [|exact Hpre].
        intros Heq. apply Hnot. rewrite Hpv. simpl. rewrite <- Heq. exact Hv.
Qed.

(** X9.  The programs that a load collects have distinct labels, every
    track's program name is the label of one of them, and each program
    carries the version of the load and the id and bandwidth of the first
    track, in the order of the player, that has its name. *)
Theorem programs_are_first_tracks_by_name :
  forall (version : Z) (vs : list variantTrack),
    NoDup (map p_label (collectPrograms version vs [])) /\
    (forall v, In v vs ->
               In (programNameOf v) (map p_label (collectPrograms version vs []))) /\
    (forall p, In p (collectPrograms version vs []) ->
       exists pre v post,
         vs = pre ++ v :: post /\
         p = {| p_label := programNameOf v; variantId := id v;
                p_bandwidth := bandwidth v; manifestVersion := version |} /\
         Forall (fun x => programNameOf x <> programNameOf v) pre).
Proof.
  intros version vs.
  destruct (collect_spec version vs [] (NoDup_nil _)) as [N [_ [Hcov Hfirst]]].
  split; [exact N|]. split; [exact Hcov|].
  intros p Hp. destruct (Hfirst p Hp) as [[]|[_ H]]. exact H.
Qed.

Lemma programs_are_first_tracks_witness :
  exists pre v post,
    tracks idleSession = pre ++ v :: post /\
    programOf 2 "wide" 1
    = {| p_label := programNameOf v; variantId := id v;
         p_bandwidth := bandwidth v; manifestVersion := 1 |} /\
    Forall (fun x => programNameOf x <> programNameOf v) pre.
Proof.
  apply (proj2 (proj2 (programs_are_first_tracks_by_name 1 (tracks idleSession)))).
  right. left. reflexivity.
Defined.

Lemma logged_names_state (vs : list variantTrack) :
  forall s, exists l,
    fold_left (fun acc v => addLog (LogProgramName (programNameOf v) (id v)) acc) vs s
    = set_playerLogs l s.
Proof.
  induction vs as [|v vs IH]; intros s; simpl.
  - exists (playerLogs s). destruct s; reflexivity.
  - destruct (IH (addLog (LogProgramName (programNameOf v) (id v)) s)) as [l Hl].
    exists l. rewrite Hl. reflexivity.
Qed.

Lemma collect_head (version : Z) (v : variantTrack) (rest : list variantTrack) :
  exists ps,
    collectPrograms version (v :: rest) []
    = {| p_label := programNameOf v; variantId := id v;
         p_bandwidth := bandwidth v; manifestVersion := version |} :: ps.
Proof.
  cbn [collectPrograms existsb app].
  destruct (collect_spec version rest
              [{| p_label := programNameOf v; variantId := id v;
                  p_bandwidth := bandwidth v; manifestVersion := version |}])
    as [_ [[new Hnew] _]].
  - constructor; [intros [] | constructor].
  - exists new. exact Hnew.
Qed.

Lemma find_label_In (n : string) (ps : list program) :
  In n (map p_label ps) ->
  exists p, find (fun p => String.eqb (p_label p) n) ps = Some p /\ p_label p = n.
Proof.
  induction ps as [|q ps IH]; simpl; [intros []|].
  destruct (String.eqb_spec (p_label q) n) as [E|E].
  - intros _. exists q. split; [reflexivity | exact E].
  - intros [H|H]; [contradiction | exact (IH H)].
Qed.

Lemma find_label_not_In (n : string) (ps : list program) :
  ~ In n (map p_label ps) -> find (fun p => String.eqb (p_label p) n) ps = None.
Proof.
  induction ps as [|q ps IH]; simpl; [reflexivity|]. intros H.
  destruct (String.eqb_spec (p_label q) n) as [E|E]; [exfalso; apply H; left; exact E|].
  apply IH. intros Hin. apply H. right. exact Hin.
Qed.

(** What the continuation of the current load leaves, in terms of the label
    it selects. *)
Lemma loadManifestResolved_current (s : session) :
  exists l,
    loadManifestResolved (manifestVersionRef s) s
    = set_isLoading false
        (match collectPrograms (manifestVersionRef s) (tracks s) [] with
         | first :: _ =>
             let initialProgramLabel :=
               match find active (tracks s) with
               | Some activeVariant =>
                   match find (fun p => String.eqb (p_label p)
                                          (activeProgramNameOf activeVariant))
                              (collectPrograms (manifestVersionRef s) (tracks s) []) with
                   | Some foundProgram => p_label foundProgram
                   | None => p_label first
                   end
               | None => p_label first
               end in
             addLog (LogInitialProgram initialProgramLabel)
               (set_selectedProgramLabel initialProgramLabel
                  (addLog (LogPopulated
                             (length (collectPrograms (manifestVersionRef s) (tracks s) [])))
                     (set_programs (collectPrograms (manifestVersionRef s) (tracks s) [])
                        (set_playerLogs l s))))
         | [] =>
             set_error (Some ErrNoPrograms)
               (addLog LogNoPrograms
                  (addLog (LogPopulated 0)
                     (set_programs [] (set_playerLogs l s))))
         end).
Proof.
  unfold loadManifestResolved. rewrite Z.eqb_refl. cbn [negb].
  destruct (logged_names_state (tracks s)
              (addLog (LogFoundTracks (length (tracks s))) (addLog LogManifestLoaded s)))
    as [l Hl].
  exists l. cbv zeta. rewrite Hl.
  destruct (collectPrograms (manifestVersionRef s) (tracks s) []); reflexivity.
Qed.

(** X10.  When the load that resolves is the current one, the programs are
    those collected from the player's tracks and loading ends.  Without
    tracks nothing is selected and the error says so; with tracks the
    selected label is the label of one of the programs: the program of the
    active track when that track has a label or a video label, and the first
    program when no track is active. *)
Theorem initial_program_is_one_of_the_programs :
  forall (s : session),
    programs (loadManifestResolved (manifestVersionRef s) s)
    = collectPrograms (manifestVersionRef s) (tracks s) [] /\
    isLoading (loadManifestResolved (manifestVersionRef s) s) = false /\
    (tracks s = [] ->
     error (loadManifestResolved (manifestVersionRef s) s) = Some ErrNoPrograms /\
     selectedProgramLabel (loadManifestResolved (manifestVersionRef s) s)
     = selectedProgramLabel s) /\
    (tracks s <> [] ->
     In (selectedProgramLabel (loadManifestResolved (manifestVersionRef s) s))
        (map p_label (programs (loadManifestResolved (manifestVersionRef s) s))) /\
     error (loadManifestResolved (manifestVersionRef s) s) = error s) /\
    (forall a, find active (tracks s) = Some a ->
               label a <> None \/ videoLabel a <> None ->
               selectedProgramLabel (loadManifestResolved (manifestVersionRef s) s)
               = programNameOf a) /\
    (forall v rest, tracks s = v :: rest -> find active (tracks s) = None ->
                    selectedProgramLabel (loadManifestResolved (manifestVersionRef s) s)
                    = programNameOf v).
Proof.
  intros s. destruct (loadManifestResolved_current s) as [l ->].
  destruct (programs_are_first_tracks_by_name (manifestVersionRef s) (tracks s))
    as [_ [Hcov _]].
  destruct (tracks s) as [|v rest] eqn:Et.
  - cbn [collectPrograms].
    split; [reflexivity|]. split; [reflexivity|].
    split; [intros _; split; reflexivity|].
    split; [intros H; contradiction|].
    split; [intros a Ha; discriminate|].
    intros v rest H. discriminate.
  - destruct (collect_head (manifestVersionRef s) v rest) as [ps Hps].
    rewrite Hps in *. cbv zeta.
    split; [reflexivity|]. split; [reflexivity|].
    split; [intros H; discriminate|].
    split.
    { intros _. split; [|reflexivity]. cbn [selectedProgramLabel set_isLoading addLog
        set_playerLogs set_selectedProgramLabel programs set_programs].
      destruct (find active (v :: rest)) as [a|]; [|left; reflexivity].
      destruct (find (fun p => String.eqb (p_label p) (activeProgramNameOf a)) _)
        as [q|] eqn:Eq; [|left; reflexivity].
      apply find_some in Eq as [Hq _]. apply in_map, Hq. }
    split.
    { intros a Ha Hlab.
      cbn [selectedProgramLabel set_isLoading addLog set_playerLogs
           set_selectedProgramLabel].
      rewrite Ha.
      assert (Hname : activeProgramNameOf a = programNameOf a).
      { unfold activeProgramNameOf, programNameOf.
        destruct (label a); [reflexivity|].
        destruct (videoLabel a); [reflexivity|].
        destruct Hlab as [H|H]; contradiction. }
      rewrite Hname.
      apply find_some in Ha as [Hin _].
      destruct (find_label_In _ _ (Hcov a Hin)) as [q [Hq Hl]].
      rewrite Hq. exact Hl. }
    intros v' rest' Heq Hnone. injection Heq as <- <-.
    cbn [selectedProgramLabel set_isLoading addLog set_playerLogs
         set_selectedProgramLabel].
    rewrite Hnone. reflexivity.
Qed.

Lemma initial_program_witness :
  In (selectedProgramLabel (loadManifestResolved (manifestVersionRef idleSession) idleSession))
     (map p_label (programs (loadManifestResolved (manifestVersionRef idleSession)
                               idleSession))) /\
  error (loadManifestResolved (manifestVersionRef idleSession) idleSession)
  = error idleSession.
Proof.
  apply (proj1 (proj2 (proj2 (proj2 (initial_program_is_one_of_the_programs idleSession))))).
  discriminate.
Defined.

End ProgramCollectionFacts.

(** ** The switch timeout along a run of callbacks *)

Section ProgramsTimerFacts.
Import ProgramsApp ProgramsAppInv.

Lemma consistent_same (s s' : session) :
  timers s' = timers s -> nextTimerId s' = nextTimerId s ->
  switchTimeoutRef s' = switchTimeoutRef s -> isSwitching s' = isSwitching s ->
  timersConsistent s -> timersConsistent s'.
Proof. unfold timersConsistent. intros -> -> -> ->. tauto. Qed.

Lemma map_filter_id (q : nat -> bool) (l : list timer) :
  map timerId (filter (fun t => q (timerId t)) l) = filter q (map timerId l).
Proof.
  induction l as [|t l IH]; simpl; [reflexivity|].
  destruct (q (timerId t)); simpl; rewrite IH; reflexivity.
Qed.

Lemma filter_comm {A : Type} (p q : A -> bool) (l : list A) :
  filter p (filter q l) = filter q (filter p l).
Proof.
  induction l as [|a l IH]; simpl; [reflexivity|].
  destruct (p a) eqn:Ep, (q a) eqn:Eq; simpl; rewrite ?Ep, ?Eq, IH; reflexivity.
Qed.

Lemma Forall_filtered {A : Type} (P : A -> Prop) (p : A -> bool) (l : list A) :
  Forall P l -> Forall P (filter p l).
Proof.
  intros H. apply Forall_forall. intros a Ha. apply filter_In in Ha as [Ha _].
  revert a Ha. apply Forall_forall, H.
Qed.

Lemma same_id_same_timer (l : list timer) (a b : timer) :
  NoDup (map timerId l) -> In a l -> In b l -> timerId a = timerId b -> a = b.
Proof.
  induction l as [|t l IH]; simpl; [intros _ []|].
  intros Hnd Ha Hb Hid. inversion Hnd as [|? ? Hnot Hnd']; subst.
  destruct Ha as [->|Ha], Hb as [->|Hb]; [reflexivity | | |exact (IH Hnd' Ha Hb Hid)];
    exfalso; apply Hnot.
  - rewrite Hid. apply in_map, Hb.
  - rewrite <- Hid. apply in_map, Ha.
Qed.

Lemma consistent_cleared (s s' : session) :
  timersConsistent s ->
  timers s' = match switchTimeoutRef s with
              | Some i => filter (fun t => negb (timerId t =? i)%nat) (timers s)
              | None => timers s
              end ->
  nextTimerId s' = nextTimerId s -> switchTimeoutRef s' = None ->
  isSwitching s' = false ->
  timersConsistent s'.
Proof.
  unfold timersConsistent. intros [Hnd [Hlt [Hsw _]]] Ht Hn Hr Hs.
  rewrite Ht, Hn, Hr, Hs. destruct (switchTimeoutRef s) as [i|].
  - split; [rewrite (map_filter_id (fun j => negb (j =? i)%nat)); apply NoDup_filter, Hnd|].
    split; [apply Forall_filtered, Hlt|]. split; [|reflexivity].
    rewrite filter_comm, (map_filter_id (fun j => negb (j =? i)%nat)), Hsw.
    simpl. rewrite Nat.eqb_refl. reflexivity.
  - repeat split; assumption.
Qed.

Lemma consistent_armed (s s' : session) (d : Z) :
  timersConsistent s -> switchTimeoutRef s = None ->
  timers s' = timers s ++ [{| timerId := nextTimerId s; due := d;
                              callback := SwitchTimeout |}] ->
  nextTimerId s' = S (nextTimerId s) ->
  switchTimeoutRef s' = Some (nextTimerId s) -> isSwitching s' = true ->
  timersConsistent s'.
Proof.
  unfold timersConsistent. intros [Hnd [Hlt [Hsw _]]] Href Ht Hn Hr Hs.
  rewrite Ht, Hn, Hr, Hs. rewrite Href in Hsw.
  split.
  { rewrite map_app. simpl. eapply Permutation_NoDup; [apply Permutation_cons_append|].
    constructor; [|exact Hnd]. intros Hin. apply in_map_iff in Hin as [t [Hid Hin]].
    rewrite Forall_forall in Hlt. specialize (Hlt t Hin). lia. }
  split.
  { apply Forall_app. split.
    - eapply Forall_impl; [|exact Hlt]. intros t H. simpl in H. lia.
    - constructor; [simpl; lia | constructor]. }
  split; [|reflexivity].
  rewrite filter_app, map_app, Hsw. reflexivity.
Qed.

Lemma consistent_reset_added (s s' : session) (d : Z) (v : string) :
  timersConsistent s ->
  timers s' = timers s ++ [{| timerId := nextTimerId s; due := d;
                              callback := ResetDropdown v |}] ->
  nextTimerId s' = S (nextTimerId s) ->
  switchTimeoutRef s' = switchTimeoutRef s -> isSwitching s' = isSwitching s ->
  timersConsistent s'.
Proof.
  unfold timersConsistent. intros [Hnd [Hlt [Hsw Hflag]]] Ht Hn Hr Hs.
  rewrite Ht, Hn, Hr, Hs.
  split.
  { rewrite map_app. simpl. eapply Permutation_NoDup; [apply Permutation_cons_append|].
    constructor; [|exact Hnd]. intros Hin. apply in_map_iff in Hin as [t [Hid Hin]].
    rewrite Forall_forall in Hlt. specialize (Hlt t Hin). lia. }
  split.
  { apply Forall_app. split.
    - eapply Forall_impl; [|exact Hlt]. intros t H. simpl in H. lia.
    - constructor; [simpl; lia | constructor]. }
  split; [|exact Hflag].
  rewrite filter_app, map_app, Hsw. simpl. rewrite app_nil_r. reflexivity.
Qed.

Lemma found_timer (i : nat) (ts : list timer) (t : timer) :
  find (fun t => (timerId t =? i)%nat) ts = Some t -> In t ts /\ timerId t = i.
Proof. intros H. apply find_some in H as [Hin Hid]. split; [exact Hin | apply Nat.eqb_eq, Hid]. Qed.

(** The pending switch timeout is the one that the ref holds. *)
Lemma switch_timer_is_ref (s : session) (t : timer) :
  timersConsistent s -> In t (timers s) -> isSwitchTimer t = true ->
  switchTimeoutRef s = Some (timerId t).
Proof.
  intros [_ [_ [Hsw _]]] Hin Ht.
  assert (Hid : In (timerId t) (map timerId (filter isSwitchTimer (timers s)))).
  { apply in_map, filter_In. split; assumption. }
  rewrite Hsw in Hid. destruct (switchTimeoutRef s) as [j|]; [|contradiction].
  destruct Hid as [->|[]]. reflexivity.
Qed.

Lemma ref_timer_exists (s : session) (i : nat) :
  timersConsistent s -> switchTimeoutRef s = Some i ->
  exists t, find (fun t => (timerId t =? i)%nat) (timers s) = Some t /\
            callback t = SwitchTimeout.
Proof.
  intros Hc Href. pose proof Hc as [Hnd [_ [Hsw _]]]. rewrite Href in Hsw.
  assert (Hin : In i (map timerId (filter isSwitchTimer (timers s)))).
  { rewrite Hsw. left. reflexivity. }
  apply in_map_iff in Hin as [t [Hid Hin]]. apply filter_In in Hin as [Hin Ht].
  destruct (find (fun t => (timerId t =? i)%nat) (timers s)) as [t'|] eqn:Ef.
  - exists t'. split; [reflexivity|]. apply found_timer in Ef as [Hin' Hid'].
    assert (t' = t) by (apply (same_id_same_timer (timers s)); congruence).
    subst t'. unfold isSwitchTimer in Ht. destruct (callback t); [reflexivity | discriminate].
  - exfalso. apply (find_none _ _ Ef) in Hin. rewrite Hid, Nat.eqb_refl in Hin. discriminate.
Qed.

Lemma consistent_fired (i : nat) (s : session) :
  timersConsistent s -> timersConsistent (fireTimer i s).
Proof.
  intros Hc. unfold fireTimer.
  destruct (find (fun t => (timerId t =? i)%nat) (timers s)) as [t|] eqn:Ef; [|exact Hc].
  apply found_timer in Ef as [Hin Hid].
  destruct (callback t) as [|v] eqn:Ecb.
  - assert (Href : switchTimeoutRef s = Some i).
    { rewrite <- Hid. apply switch_timer_is_ref; [exact Hc | exact Hin|].
      unfold isSwitchTimer. rewrite Ecb. reflexivity. }
    apply (consistent_cleared s); [exact Hc | rewrite Href | | |]; reflexivity.
  - pose proof Hc as [Hnd [Hlt [Hsw Hflag]]]. unfold timersConsistent.
    cbn [runCallback clearTimeout set_timers set_now timers nextTimerId switchTimeoutRef
         isSwitching].
    split; [rewrite (map_filter_id (fun j => negb (j =? i)%nat)); apply NoDup_filter, Hnd|].
    split; [apply Forall_filtered, Hlt|]. split; [|exact Hflag].
    rewrite filter_comm, (map_filter_id (fun j => negb (j =? i)%nat)), Hsw.
    destruct (switchTimeoutRef s) as [j|] eqn:Href; [|reflexivity].
    simpl. destruct (Nat.eqb_spec j i) as [->|]; [|reflexivity].
    exfalso. destruct (ref_timer_exists s i Hc Href) as [t' [Ef' Hcb']].
    apply found_timer in Ef' as [Hin' Hid'].
    assert (t' = t) by (apply (same_id_same_timer (timers s)); congruence).
    subst t'. congruence.
Qed.

Lemma consistent_idle_ref (s : session) :
  timersConsistent s -> isSwitching s = false -> switchTimeoutRef s = None.
Proof.
  intros [_ [_ [_ Hflag]]] Hidle. destruct (switchTimeoutRef s); congruence.
Qed.

Lemma consistent_switchEffect (s : session) :
  timersConsistent s -> timersConsistent (switchEffect s).
Proof.
  intros Hc. destruct (isSwitching s) eqn:Hsw.
  - destruct (switchEffect_busy s Hsw) as [->| ->]; [exact Hc|].
    apply (consistent_same s); [reflexivity.. | exact Hc].
  - pose proof (consistent_idle_ref s Hc Hsw) as Href.
    unfold switchEffect, clearSwitchTimeout, setTimeout. cbv beta iota zeta.
    rewrite Hsw.
    repeat break_match; simpl in *; try congruence;
      first [ exact Hc
            | apply (consistent_same s); [reflexivity | reflexivity | reflexivity
                                          | simpl; congruence | exact Hc]
            | eapply (consistent_armed s); [exact Hc | exact Href | reflexivity..] ].
Qed.

Lemma consistent_loadManifestStart (s : session) :
  timersConsistent s -> timersConsistent (fst (loadManifestStart s)).
Proof.
  intros Hc. apply (consistent_cleared s); [exact Hc | | | |];
    unfold loadManifestStart, clearSwitchTimeout; cbn;
    destruct (switchTimeoutRef s) eqn:E; cbn; rewrite ?E; reflexivity.
Qed.

Lemma loadManifestResolved_frame (v : Z) (s : session) :
  timers (loadManifestResolved v s) = timers s /\
  nextTimerId (loadManifestResolved v s) = nextTimerId s /\
  switchTimeoutRef (loadManifestResolved v s) = switchTimeoutRef s /\
  isSwitching (loadManifestResolved v s) = isSwitching s /\
  engineCalls (loadManifestResolved v s) = engineCalls s.
Proof.
  destruct (Z.eqb_spec v (manifestVersionRef s)) as [->|Hne].
  - destruct (loadManifestResolved_current s) as [l ->].
    destruct (collectPrograms (manifestVersionRef s) (tracks s) []);
      repeat split; reflexivity.
  - unfold loadManifestResolved. apply Z.eqb_neq in Hne. rewrite Hne.
    repeat split; reflexivity.
Qed.

Ltac same_ref :=
  repeat match goal with
         | H1 : ?x = Some ?a, H2 : ?x = Some ?b |- _ =>
             rewrite H1 in H2; injection H2 as <-
         end.

Lemma consistent_step (ev : event) (s : session) :
  timersConsistent s -> timersConsistent (step ev s).
Proof.
  intros Hc. destruct ev as [v| |v|v m| |c m|i]; cbn [step].
  - unfold afterSelectionChange.
    assert (H1 : timersConsistent (handleProgramChange v s)).
    { unfold handleProgramChange. destruct (isSwitching s || isLoading s).
      - eapply (consistent_reset_added s); [exact Hc | reflexivity..].
      - apply (consistent_same s); [reflexivity.. | exact Hc]. }
    destruct (String.eqb _ _); [exact H1 | apply consistent_switchEffect, H1].
  - assert (H1 : timersConsistent (handleLoadClick s)).
    { unfold handleLoadClick. destruct (Js.isEmpty (Js.trim (hlsUrl s)));
        apply (consistent_same s); try reflexivity; exact Hc. }
    destruct (String.eqb _ _); [exact H1|].
    unfold loadEffect. destruct (_ || _); [exact H1|].
    apply consistent_switchEffect, consistent_loadManifestStart, H1.
  - assert (H1 : timersConsistent (loadManifestResolved v s)).
    { destruct (loadManifestResolved_frame v s) as [Ht [Hn [Hr [Hs _]]]].
      apply (consistent_same s); assumption. }
    destruct (v =? manifestVersionRef s)%Z; [apply consistent_switchEffect, H1 | exact H1].
  - unfold loadManifestRejected. destruct (v =? manifestVersionRef s)%Z; [|exact Hc].
    apply (consistent_same s); [reflexivity.. | exact Hc].
  - apply (consistent_cleared s); [exact Hc | | | |];
      unfold onVariantChanged, clearSwitchTimeout;
      repeat break_match; simpl in *; same_ref; congruence.
  - apply (consistent_cleared s); [exact Hc | | | |];
      unfold onPlayerError, clearSwitchTimeout; cbn;
      destruct (switchTimeoutRef s) eqn:E; cbn; rewrite ?E; reflexivity.
  - apply consistent_fired, Hc.
Qed.

Lemma consistent_run (evs : list event) :
  forall s, timersConsistent s -> timersConsistent (run evs s).
Proof.
  unfold run. induction evs as [|ev evs IH]; intros s Hc; [exact Hc|].
  cbn [fold_left]. apply IH, consistent_step, Hc.
Qed.

(** X11.  Along every run of callbacks that starts in a consistent state
    (such as the idle one), the state stays consistent: at most one switch
    timeout is pending, and while a switch is in flight the timeout that
    [switchTimeoutRef] holds is pending and lowers the flag when it fires. *)
Theorem switch_timeout_is_single_and_pending_while_switching :
  forall (evs : list event) (s : session),
    timersConsistent s ->
    timersConsistent (run evs s) /\
    (length (filter isSwitchTimer (timers (run evs s))) <= 1)%nat /\
    (isSwitching (run evs s) = true ->
     exists i, switchTimeoutRef (run evs s) = Some i /\
               In i (map timerId (timers (run evs s))) /\
               isSwitching (step (TimerFires i) (run evs s)) = false).
Proof.
  intros evs s Hc. pose proof (consistent_run evs s Hc) as Hr.
  split; [exact Hr|]. split.
  - destruct Hr as [_ [_ [Hsw _]]]. rewrite <- (length_map timerId), Hsw.
    destruct (switchTimeoutRef (run evs s)); simpl; lia.
  - intros Hflag. pose proof Hr as [_ [_ [_ Hf]]].
    destruct (switchTimeoutRef (run evs s)) as [i|] eqn:Href; [|congruence].
    exists i. split; [reflexivity|].
    destruct (ref_timer_exists _ i Hr Href) as [t [Ef Hcb]].
    split.
    + apply found_timer in Ef as [Hin <-]. apply in_map, Hin.
    + cbn [step]. unfold fireTimer. rewrite Ef, Hcb. reflexivity.
Qed.

Lemma switch_timeout_witness :
  timersConsistent (run [UserSelects "wide"] idleSession) /\
  (length (filter isSwitchTimer (timers (run [UserSelects "wide"] idleSession))) <= 1)%nat /\
  (isSwitching (run [UserSelects "wide"] idleSession) = true ->
   exists i, switchTimeoutRef (run [UserSelects "wide"] idleSession) = Some i /\
             In i (map timerId (timers (run [UserSelects "wide"] idleSession))) /\
             isSwitching (step (TimerFires i) (run [UserSelects "wide"] idleSession))
             = false).
Proof.
  apply (switch_timeout_is_single_and_pending_while_switching [UserSelects "wide"] idleSession).
  unfold timersConsistent. simpl. repeat split; constructor.
Defined.

(** *** The log *)

Lemma addLog_bounded (m : appLog) (s : session) :
  (length (playerLogs (addLog m s)) <= 20)%nat.
Proof. cbn -[firstn]. rewrite length_firstn. lia. Qed.

Ltac log_bound :=
  cbn -[firstn]; rewrite ?length_firstn; first [assumption | lia].

Lemma switchEffect_log (s : session) :
  (length (playerLogs s) <= 20)%nat -> (length (playerLogs (switchEffect s)) <= 20)%nat.
Proof.
  intros H. unfold switchEffect, clearSwitchTimeout, setTimeout. cbv beta iota zeta.
  repeat break_match; log_bound.
Qed.

Lemma step_log (ev : event) (s : session) :
  (length (playerLogs s) <= 20)%nat -> (length (playerLogs (step ev s)) <= 20)%nat.
Proof.
  intros H. destruct ev as [v| |v|v m| |c m|i]; cbn [step].
  - unfold afterSelectionChange.
    assert (H1 : (length (playerLogs (handleProgramChange v s)) <= 20)%nat).
    { unfold handleProgramChange. destruct (isSwitching s || isLoading s); log_bound. }
    destruct (String.eqb _ _); [exact H1 | apply switchEffect_log, H1].
  - assert (H1 : (length (playerLogs (handleLoadClick s)) <= 20)%nat).
    { unfold handleLoadClick. destruct (Js.isEmpty (Js.trim (hlsUrl s))); log_bound. }
    destruct (String.eqb _ _); [exact H1|].
    unfold loadEffect. destruct (_ || _); [exact H1|].
    apply switchEffect_log. unfold loadManifestStart, clearSwitchTimeout.
    repeat break_match; log_bound.
  - assert (H1 : (length (playerLogs (loadManifestResolved v s)) <= 20)%nat).
    { destruct (Z.eqb_spec v (manifestVersionRef s)) as [->|Hne].
      - destruct (loadManifestResolved_current s) as [l ->].
        destruct (collectPrograms (manifestVersionRef s) (tracks s) []); log_bound.
      - unfold loadManifestResolved. apply Z.eqb_neq in Hne. rewrite Hne. log_bound. }
    destruct (v =? manifestVersionRef s)%Z; [apply switchEffect_log, H1 | exact H1].
  - unfold loadManifestRejected. destruct (v =? manifestVersionRef s)%Z; log_bound.
  - unfold onVariantChanged, clearSwitchTimeout. repeat break_match; log_bound.
  - unfold onPlayerError, clearSwitchTimeout. repeat break_match; log_bound.
  - unfold fireTimer, runCallback. repeat break_match; log_bound.
Qed.

(** X12.  The log never holds more than twenty lines: every run of
    callbacks from a state whose log holds at most twenty lines ends in such
    a state. *)
Theorem player_log_keeps_at_most_twenty_lines :
  forall (evs : list event) (s : session),
    (length (playerLogs s) <= 20)%nat ->
    (length (playerLogs (run evs s)) <= 20)%nat.
Proof.
  unfold run. induction evs as [|ev evs IH]; intros s H; [exact H|].
  cbn [fold_left]. apply IH, step_log, H.
Qed.

Lemma player_log_witness :
  (length (playerLogs (run [UserSelects "wide"; VariantChanged; UserClicksLoad] idleSession))
   <= 20)%nat.
Proof.
  apply (player_log_keeps_at_most_twenty_lines
           [UserSelects "wide"; VariantChanged; UserClicksLoad] idleSession).
  simpl. lia.
Defined.

End ProgramsTimerFacts.

(** ** The switch that follows a load *)

Section ProgramsLoadSwitchFacts.
Import ProgramsApp ProgramsAppInv.

(** The switch effect dispatches when every guard of lines 240-277 passes. *)
Lemma switchEffect_dispatches (s : session) (p : program) (target : variantTrack) :
  Js.isEmpty (selectedProgramLabel s) = false ->
  playerRef s = true -> programs s <> [] -> isPlayerReady s = true ->
  isSwitching s = false ->
  find (fun p => String.eqb (p_label p) (selectedProgramLabel s)) (programs s) = Some p ->
  variantId p <> 0%Z -> manifestVersion p = manifestVersionRef s ->
  match find active (tracks s) with
  | Some activeVariant => (id activeVariant =? variantId p)%Z
  | None => false
  end = false ->
  find (fun v => (id v =? variantId p)%Z) (tracks s) = Some target ->
  selectVariantTrackThrows s = None ->
  engineCalls (switchEffect s)
  = engineCalls s ++ [CallConfigureAbr false; CallSelectVariantTrack (id target) true] /\
  isSwitching (switchEffect s) = true /\
  selectedProgramLabel (switchEffect s) = selectedProgramLabel s.
Proof.
  intros Hsel Hplayer Hprogs Hready Hidle Hfind Hid Hver Hactive Htarget Hthrows.
  unfold switchEffect, setTimeout. cbv beta iota zeta.
  rewrite Hsel, Hplayer, Hready, Hidle, Hfind, Hver, Z.eqb_refl, Hactive, Htarget, Hthrows.
  destruct (programs s) as [|q qs]; [contradiction|].
  apply Z.eqb_neq in Hid. rewrite Hid. cbn.
  rewrite <- app_assoc. repeat split; reflexivity.
Qed.

(** X13.  When the load resolves and the active track has neither a label
    nor a video label, its program is looked up under the fallback name of
    line 211, which is no program label: the selection falls to the first
    program, and when that is not the program of the active track the switch
    effect at once tells the player to switch to it. *)
Theorem load_switches_to_first_program_when_active_track_has_no_label :
  forall (s : session) (a v : variantTrack) (rest : list variantTrack),
    tracks s = v :: rest ->
    find active (tracks s) = Some a ->
    label a = None -> videoLabel a = None ->
    ~ In (activeFallbackName a)
         (map p_label (collectPrograms (manifestVersionRef s) (tracks s) [])) ->
    programNameOf v <> EmptyString -> id v <> 0%Z -> id a <> id v ->
    playerRef s = true -> isPlayerReady s = true -> isSwitching s = false ->
    selectVariantTrackThrows s = None ->
    selectedProgramLabel (step (LoadResolves (manifestVersionRef s)) s) = programNameOf v /\
    engineCalls (step (LoadResolves (manifestVersionRef s)) s)
    = engineCalls s ++ [CallConfigureAbr false; CallSelectVariantTrack (id v) true] /\
    isSwitching (step (LoadResolves (manifestVersionRef s)) s) = true.
Proof.
  intros s a v rest Ht Ha Hlabel Hvideo Hfallback Hname Hid Hother
         Hplayer Hready Hidle Hthrows.
  cbn [step]. rewrite Z.eqb_refl.
  destruct (loadManifestResolved_current s) as [l Hl].
  rewrite Ha, Ht in Hl. rewrite Ht in Hfallback.
  destruct (collect_head (manifestVersionRef s) v rest) as [ps Hps].
  rewrite Hps in Hl, Hfallback.
  assert (Hactive : activeProgramNameOf a = activeFallbackName a).
  { unfold activeProgramNameOf. rewrite Hlabel, Hvideo. reflexivity. }
  rewrite Hactive, (find_label_not_In _ _ Hfallback) in Hl. cbv zeta in Hl.
  cbn [p_label] in Hl.
  set (pv := {| p_label := programNameOf v; variantId := id v;
                p_bandwidth := bandwidth v; manifestVersion := manifestVersionRef s |}) in *.
  set (s1 := loadManifestResolved (manifestVersionRef s) s) in *.
  assert (Hsel1 : selectedProgramLabel s1 = programNameOf v) by (rewrite Hl; reflexivity).
  destruct (switchEffect_dispatches s1 pv v) as [Hcalls [Hflag Hsel]].
  - rewrite Hsel1. destruct (programNameOf v); [contradiction | reflexivity].
  - rewrite Hl. exact Hplayer.
  - rewrite Hl. discriminate.
  - rewrite Hl. exact Hready.
  - rewrite Hl. exact Hidle.
  - rewrite Hsel1, Hl. cbn. rewrite String.eqb_refl. reflexivity.
  - exact Hid.
  - rewrite Hl. reflexivity.
  - replace (tracks s1) with (tracks s) by (rewrite Hl; reflexivity).
    rewrite Ha. apply Z.eqb_neq. exact Hother.
  - replace (tracks s1) with (tracks s) by (rewrite Hl; reflexivity).
    rewrite Ht. cbn. rewrite Z.eqb_refl. reflexivity.
  - rewrite Hl. exact Hthrows.
  - split; [rewrite Hsel; exact Hsel1|]. split; [|exact Hflag].
    rewrite Hcalls. f_equal. rewrite Hl. reflexivity.
Qed.

Lemma load_switches_witness :
  selectedProgramLabel (step (LoadResolves (manifestVersionRef loadingSession)) loadingSession)
  = programNameOf (idTrack 1 false "studio") /\
  engineCalls (step (LoadResolves (manifestVersionRef loadingSession)) loadingSession)
  = engineCalls loadingSession
      ++ [CallConfigureAbr false; CallSelectVariantTrack (id (idTrack 1 false "studio")) true] /\
  isSwitching (step (LoadResolves (manifestVersionRef loadingSession)) loadingSession) = true.
Proof.
  apply (load_switches_to_first_program_when_active_track_has_no_label loadingSession
           (idTrack 2 true "wide") (idTrack 1 false "studio") [idTrack 2 true "wide"]);
    try reflexivity; try discriminate.
  intros [H|[H|[]]]; discriminate.
Defined.

End ProgramsLoadSwitchFacts.

(** ** The stream path of the regions request *)

Section StreamPathFacts.
Import Js RegionsApp RegionsFlow.

Lemma findIndexFrom_none {A : Type} (p : A -> bool) (l : list A) (i : Z) :
  Forall (fun a => p a = false) l -> findIndexFrom p l i = (-1)%Z.
Proof.
  revert i. induction l as [|a l IH]; intros i H; [reflexivity|].
  inversion H as [|? ? Ha Hl]; subst. simpl. rewrite Ha. apply IH, Hl.
Qed.

Lemma findIndexFrom_first {A : Type} (p : A -> bool) (pre post : list A) (a : A) (i : Z) :
  Forall (fun a => p a = false) pre -> p a = true ->
  findIndexFrom p (pre ++ a :: post) i = (i + Z.of_nat (length pre))%Z.
Proof.
  revert i. induction pre as [|b pre IH]; intros i H Ha; simpl.
  - rewrite Ha. lia.
  - inversion H as [|? ? Hb Hpre]; subst. rewrite Hb, (IH _ Hpre Ha). lia.
Qed.

(** Either no element passes, or the list splits at the first that does. *)
Lemma findIndexFrom_cases {A : Type} (p : A -> bool) (l : list A) :
  Forall (fun a => p a = false) l \/
  exists pre a post, l = pre ++ a :: post /\ Forall (fun a => p a = false) pre /\ p a = true.
Proof.
  induction l as [|b l IH]; [left; constructor|].
  destruct (p b) eqn:Eb.
  - right. exists [], b, l. repeat split; [constructor | exact Eb].
  - destruct IH as [H|[pre [a [post [-> [Hpre Ha]]]]]].
    + left. constructor; assumption.
    + right. exists (b :: pre), a, post. repeat split; [constructor; assumption | exact Ha].
Qed.

Lemma hls_free (pre : list string) :
  ~ In "hls" pre <-> Forall (fun part => String.eqb part "hls" = false) pre.
Proof.
  rewrite Forall_forall. split.
  - intros H part Hin. apply String.eqb_neq. intros ->. exact (H Hin).
  - intros H Hin. specialize (H _ Hin). discriminate.
Qed.

Lemma nth_after {A : Type} (pre : list A) (x : A) (post : list A) (k : nat) (d : A) :
  nth (length pre + S k) (pre ++ x :: post) d = nth k post d.
Proof.
  induction pre as [|b pre IH]; simpl; [reflexivity | exact IH].
Qed.

Lemma first_occurrence_unique {A : Type} (x : A) (pre pre' post post' : list A) :
  pre ++ x :: post = pre' ++ x :: post' -> ~ In x pre -> ~ In x pre' ->
  pre = pre' /\ post = post'.
Proof.
  revert pre'. induction pre as [|a pre IH]; intros [|a' pre'] H Hp Hp'; simpl in *.
  - injection H as <-. split; reflexivity.
  - injection H as <- _. exfalso. apply Hp'. left. reflexivity.
  - injection H as -> _. exfalso. apply Hp. left. reflexivity.
  - injection H as <- H. destruct (IH pre' H) as [-> ->]; [tauto | tauto|].
    split; reflexivity.
Qed.

Lemma streamPathOf_none (url : string) :
  ~ In "hls" (split slash url) ->
  streamPathOf url = Throw (ErrorMessage "Could not parse stream path from HLS URL").
Proof.
  intros H. unfold streamPathOf, findIndex. cbv zeta.
  rewrite (findIndexFrom_none _ _ 0 (proj1 (hls_free _) H)). reflexivity.
Qed.

Lemma streamPathOf_split (url : string) (pre post : list string) :
  split slash url = pre ++ "hls" :: post -> ~ In "hls" pre ->
  streamPathOf url
  = match post with
    | a :: b :: _ => Return (a ++ "/" ++ b)%string
    | _ => Throw (ErrorMessage "Could not parse stream path from HLS URL")
    end.
Proof.
  intros Hsplit Hpre. unfold streamPathOf, findIndex. cbv zeta.
  rewrite Hsplit, (findIndexFrom_first _ pre post "hls" 0 (proj1 (hls_free pre) Hpre) eq_refl).
  replace (0 + Z.of_nat (length pre) =? -1)%Z with false by (symmetry; apply Z.eqb_neq; lia).
  cbn [orb]. rewrite length_app.
  destruct post as [|a [|b rest]]; cbn [length].
  - replace (Z.of_nat (length pre + 1) <=? 0 + Z.of_nat (length pre) + 2)%Z with true
      by (symmetry; apply Z.leb_le; lia).
    reflexivity.
  - replace (Z.of_nat (length pre + 2) <=? 0 + Z.of_nat (length pre) + 2)%Z with true
      by (symmetry; apply Z.leb_le; lia).
    reflexivity.
  - replace (Z.of_nat (length pre + S (S (S (length rest))))
             <=? 0 + Z.of_nat (length pre) + 2)%Z with false
      by (symmetry; apply Z.leb_gt; lia).
    replace (Z.to_nat (0 + Z.of_nat (length pre) + 1)) with (length pre + 1)%nat by lia.
    replace (Z.to_nat (0 + Z.of_nat (length pre) + 2)) with (length pre + 2)%nat by lia.
    rewrite (nth_after pre "hls" (a :: b :: rest) 0),
      (nth_after pre "hls" (a :: b :: rest) 1). reflexivity.
Qed.

(** X14.  The stream path sent to the regions endpoint exists exactly when
    the segment hls occurs among the slash-separated segments of the URL and
    at least two segments follow its first occurrence; it is then made of
    these two segments.  In every other case the function throws the error
    of line 234. *)
Theorem stream_path_is_the_two_segments_after_hls :
  forall (manifestUrlToLoad path : string),
    (streamPathOf manifestUrlToLoad = Return path <->
     exists pre a b rest,
       split slash manifestUrlToLoad = pre ++ "hls" :: a :: b :: rest /\
       ~ In "hls" pre /\ path = (a ++ "/" ++ b)%string) /\
    (streamPathOf manifestUrlToLoad
     = Throw (ErrorMessage "Could not parse stream path from HLS URL") \/
     exists p, streamPathOf manifestUrlToLoad = Return p).
Proof.
  intros url path.
  destruct (findIndexFrom_cases (fun part => String.eqb part "hls") (split slash url))
    as [Hnone|[pre [h [post [Hparts [Hpre Hh]]]]]].
  - apply hls_free in Hnone. rewrite (streamPathOf_none url Hnone).
    split; [|left; reflexivity]. split; [discriminate|].
    intros [pre [a [b [rest [Hsplit _]]]]]. exfalso. apply Hnone.
    rewrite Hsplit, in_app_iff. right. left. reflexivity.
  - apply String.eqb_eq in Hh. subst h. apply hls_free in Hpre.
    rewrite (streamPathOf_split url pre post Hparts Hpre).
    assert (Huniq : forall pre' a b rest,
               split slash url = pre' ++ "hls" :: a :: b :: rest -> ~ In "hls" pre' ->
               post = a :: b :: rest).
    { intros pre' a b rest Hsplit Hpre'. rewrite Hparts in Hsplit.
      apply first_occurrence_unique in Hsplit as [_ H]; assumption. }
    destruct post as [|a [|b rest]].
    + split; [|left; reflexivity]. split; [discriminate|].
      intros [pre' [a [b [rest [Hsplit [Hpre' _]]]]]].
      discriminate (Huniq _ _ _ _ Hsplit Hpre').
    + split; [|left; reflexivity]. split; [discriminate|].
      intros [pre' [a' [b [rest [Hsplit [Hpre' _]]]]]].
      discriminate (Huniq _ _ _ _ Hsplit Hpre').
    + split; [|right; eexists; reflexivity]. split.
      * intros H. injection H as <-. exists pre, a, b, rest.
        split; [exact Hparts|]. split; [exact Hpre | reflexivity].
      * intros [pre' [a' [b' [rest' [Hsplit [Hpre' ->]]]]]].
        pose proof (Huniq _ _ _ _ Hsplit Hpre') as H. injection H as <- <- _. reflexivity.
Qed.

Lemma stream_path_witness :
  streamPathOf Manifest.exampleUrl = Return "ev/master.m3u8".
Proof.
  apply (proj1 (stream_path_is_the_two_segments_after_hls Manifest.exampleUrl
                  "ev/master.m3u8")).
  exists ["https:"; ""; "edge.example"], "ev", "master.m3u8", [].
  split; [reflexivity|]. split; [|reflexivity].
  intros [H|[H|[H|[]]]]; discriminate.
Defined.

End StreamPathFacts.

(** ** The authentication token *)

Section TokenFacts.
Import Js RegionsApp RegionsFlow.

Lemma getItem_setItem_same (k v : string) (st : storage) :
  getItem k (setItem k v st) = Some v.
Proof.
  induction st as [|[k' v'] st IH]; simpl; [rewrite String.eqb_refl; reflexivity|].
  destruct (String.eqb k' k) eqn:E; simpl; rewrite E; [reflexivity | exact IH].
Qed.

Lemma getItem_setItem_other (k k' v : string) (st : storage) :
  k <> k' -> getItem k' (setItem k v st) = getItem k' st.
Proof.
  intros Hne. induction st as [|[k0 v0] st IH]; simpl.
  - apply String.eqb_neq in Hne. rewrite Hne. reflexivity.
  - destruct (String.eqb k0 k) eqn:E; simpl.
    + apply String.eqb_eq in E. subst k0. apply String.eqb_neq in Hne. rewrite Hne.
      reflexivity.
    + destruct (String.eqb k0 k'); [reflexivity | exact IH].
Qed.

Lemma setItem_same (k v : string) (st : storage) :
  getItem k st = Some v -> setItem k v st = st.
Proof.
  induction st as [|[k0 v0] st IH]; simpl; [discriminate|].
  destruct (String.eqb k0 k) eqn:E.
  - intros H. injection H as ->. reflexivity.
  - intros H. rewrite (IH H). reflexivity.
Qed.

Lemma getItem_removeItem (k : string) (st : storage) :
  getItem k (removeItem k st) = None.
Proof.
  unfold removeItem. induction st as [|[k0 v0] st IH]; simpl; [reflexivity|].
  destruct (String.eqb k0 k) eqn:E; simpl; [exact IH|]. rewrite E. exact IH.
Qed.

Lemma truthy_some (v : option string) (x : string) :
  truthy v = Some x <-> v = Some x /\ x <> EmptyString.
Proof.
  unfold truthy. destruct v as [y|]; [|split; [discriminate | intros [H _]; discriminate]].
  destruct y as [|c y]; simpl.
  - split; [discriminate|]. intros [H Hne]. injection H as <-. contradiction.
  - split.
    + intros H. injection H as <-. split; [reflexivity | discriminate].
    + intros [H _]. exact H.
Qed.

(** *** Random strings *)

Lemma get_in_range (n : nat) (s : string) :
  (n < String.length s)%nat ->
  exists c, String.get n s = Some c /\ Js.contains c s = true.
Proof.
  revert n. induction s as [|d s IH]; intros n H; simpl in H; [lia|].
  destruct n as [|n]; simpl.
  - exists d. split; [reflexivity|]. rewrite Ascii.eqb_refl. reflexivity.
  - destruct (IH n ltac:(lia)) as [c [Hc Hin]]. exists c. split; [exact Hc|].
    rewrite Hin. apply orb_true_r.
Qed.

Lemma random_index (r : Q) :
  (0 <= r)%Q -> (r < 1)%Q ->
  (0 <= Qfloor (r * inject_Z (Z.of_nat (String.length chars))))%Z /\
  (Qfloor (r * inject_Z (Z.of_nat (String.length chars)))
   < Z.of_nat (String.length chars))%Z.
Proof.
  intros H0 H1. change (inject_Z (Z.of_nat (String.length chars))) with (62#1)%Q.
  change (Z.of_nat (String.length chars)) with 62%Z.
  split.
  - change 0%Z with (Qfloor 0). apply Qfloor_resp_le.
    apply Qmult_le_0_compat; [exact H0 | discriminate].
  - assert (Hlt : (r * (62#1) < inject_Z 62)%Q).
    { change (inject_Z 62) with (62#1)%Q.
      setoid_replace (62#1)%Q with (1 * (62#1))%Q at 2 by (rewrite Qmult_1_l; reflexivity).
      apply Qmult_lt_compat_r; [reflexivity | exact H1]. }
    pose proof (Qfloor_le (r * (62#1))) as Hfl.
    assert (Hz : (inject_Z (Qfloor (r * (62#1))) < inject_Z 62)%Q)
      by (eapply Qle_lt_trans; eassumption).
    rewrite <- Zlt_Qlt in Hz. exact Hz.
Qed.

Lemma random_char (r : Q) :
  (0 <= r)%Q -> (r < 1)%Q ->
  exists c, charAt (Qfloor (r * inject_Z (Z.of_nat (String.length chars)))) chars
            = String c EmptyString /\ Js.contains c chars = true.
Proof.
  intros H0 H1. destruct (random_index r H0 H1) as [Hlo Hhi]. unfold charAt.
  destruct (Z.ltb_spec (Qfloor (r * inject_Z (Z.of_nat (String.length chars)))) 0);
    [lia|].
  destruct (get_in_range
              (Z.to_nat (Qfloor (r * inject_Z (Z.of_nat (String.length chars))))) chars)
    as [c [Hc Hin]]; [lia|].
  exists c. rewrite Hc. split; [reflexivity | exact Hin].
Qed.

Lemma list_ascii_app (a b : string) :
  list_ascii_of_string (a ++ b) = list_ascii_of_string a ++ list_ascii_of_string b.
Proof. induction a as [|c a IH]; simpl; [reflexivity | rewrite IH; reflexivity]. Qed.

Lemma generateFrom_spec (random : nat -> Q) :
  (forall k, (0 <= random k)%Q /\ (random k < 1)%Q) ->
  forall steps cursor result,
    String.length (fst (generateFrom random cursor steps result))
    = (String.length result + steps)%nat /\
    snd (generateFrom random cursor steps result) = (cursor + steps)%nat /\
    (Forall (fun c => Js.contains c chars = true) (list_ascii_of_string result) ->
     Forall (fun c => Js.contains c chars = true)
            (list_ascii_of_string (fst (generateFrom random cursor steps result)))).
Proof.
  intros Hr. induction steps as [|n IH]; intros cursor result; cbn [generateFrom].
  - cbn [fst snd]. repeat split; [lia | lia | auto].
  - destruct (random_char (random cursor) (proj1 (Hr cursor)) (proj2 (Hr cursor)))
      as [c [Hc Hin]].
    rewrite Hc.
    destruct (IH (S cursor) (result ++ String c EmptyString)%string) as [Hlen [Hcur Hall]].
    split; [rewrite Hlen, append_length; simpl; lia|].
    split; [rewrite Hcur; lia|].
    intros Hres. apply Hall. rewrite list_ascii_app. apply Forall_app. split; [exact Hres|].
    constructor; [exact Hin | constructor].
Qed.

(** X15.  When the random numbers of the host lie in the interval from 0
    to 1 (1 excluded), the random string has exactly the requested number of
    characters, every one of them a letter or a digit of the alphabet of line
    27, and the function draws one random number for each. *)
Theorem random_string_has_the_requested_length :
  forall (random : nat -> Q) (cursor : nat) (length : Z),
    (forall k, (0 <= random k)%Q /\ (random k < 1)%Q) ->
    String.length (fst (generateRandomString random cursor length)) = Z.to_nat length /\
    snd (generateRandomString random cursor length) = (cursor + Z.to_nat length)%nat /\
    Forall (fun c => Js.contains c chars = true)
           (list_ascii_of_string (fst (generateRandomString random cursor length))).
Proof.
  intros random cursor length Hr. unfold generateRandomString.
  destruct (generateFrom_spec random Hr (Z.to_nat length) cursor EmptyString)
    as [Hlen [Hcur Hall]].
  split; [exact Hlen|]. split; [exact Hcur|]. apply Hall. constructor.
Qed.

Lemma random_string_witness :
  String.length (fst (generateRandomString (fun _ => (3 # 4)%Q) 2 10)) = Z.to_nat 10 /\
  snd (generateRandomString (fun _ => (3 # 4)%Q) 2 10) = (2 + Z.to_nat 10)%nat /\
  Forall (fun c => Js.contains c chars = true)
         (list_ascii_of_string (fst (generateRandomString (fun _ => (3 # 4)%Q) 2 10))).
Proof.
  apply (random_string_has_the_requested_length (fun _ => (3 # 4)%Q) 2 10).
  intros k. split; [discriminate | reflexivity].
Defined.

(** *** Runs of [getToken] *)

Lemma api_configured :
  isEmpty API_BASE_URL || includes "undefined" API_BASE_URL = false.
Proof. reflexivity. Qed.

Lemma token_after_identity (id name : string) (st : storage) :
  getItem "token" (setItem "name" name (setItem "id" id st)) = getItem "token" st.
Proof. rewrite !getItem_setItem_other by discriminate. reflexivity. Qed.

Ltac open_token_run :=
  unfold getToken; rewrite api_configured;
  match goal with
  | |- context [let (_, _) := ?x in _] =>
      let id := fresh "id" in let c := fresh "cursor1" in
      let E := fresh "Eid" in destruct x as [id c] eqn:E
  end;
  match goal with
  | |- context [let (_, _) := ?x in _] =>
      let uname := fresh "uname" in let c := fresh "cursor2" in
      let E := fresh "Ename" in destruct x as [uname c] eqn:E
  end;
  cbv zeta; rewrite token_after_identity.

(** X16.  When the session storage holds a non-empty token, [getToken]
    returns it without sending a request, and leaves it in the storage. *)
Theorem stored_token_is_returned_without_request :
  forall (st : storage) (random : nat -> Q) (cursor : nat) (endpoint : tokenResponse)
         (t : string),
    getItem "token" st = Some t -> t <> EmptyString ->
    outcome (getToken st random cursor endpoint) = inr t /\
    requested (getToken st random cursor endpoint) = false /\
    logged (getToken st random cursor endpoint)
    = ["Using existing token from session storage"] /\
    getItem "token" (storageAfter (getToken st random cursor endpoint)) = Some t.
Proof.
  intros st random cursor endpoint t Ht Hne.
  assert (Htruthy : truthy (getItem "token" st) = Some t)
    by (apply truthy_some; split; assumption).
  open_token_run. rewrite Htruthy. cbn [outcome requested logged storageAfter].
  rewrite token_after_identity. repeat split; assumption.
Qed.

Lemma stored_token_witness :
  outcome (getToken [("token", "abc")] (fun _ => (3 # 4)%Q) 0
             (TokenFetchRejected (newError "offline"))) = inr "abc" /\
  requested (getToken [("token", "abc")] (fun _ => (3 # 4)%Q) 0
               (TokenFetchRejected (newError "offline"))) = false /\
  logged (getToken [("token", "abc")] (fun _ => (3 # 4)%Q) 0
            (TokenFetchRejected (newError "offline")))
  = ["Using existing token from session storage"] /\
  getItem "token" (storageAfter (getToken [("token", "abc")] (fun _ => (3 # 4)%Q) 0
                                   (TokenFetchRejected (newError "offline")))) = Some "abc".
Proof.
  apply (stored_token_is_returned_without_request [("token", "abc")] (fun _ => (3 # 4)%Q) 0
           (TokenFetchRejected (newError "offline")) "abc"); [reflexivity | discriminate].
Defined.

Lemma generated_nonempty (random : nat -> Q) (cursor : nat) (n : Z) :
  (forall k, (0 <= random k)%Q /\ (random k < 1)%Q) -> (0 < n)%Z ->
  fst (generateRandomString random cursor n) <> EmptyString.
Proof.
  intros Hr Hn H. unfold generateRandomString in H.
  destruct (generateFrom_spec random Hr (Z.to_nat n) cursor EmptyString) as [Hlen _].
  rewrite H in Hlen. simpl in Hlen. lia.
Qed.

(** A storage that holds an identity and a token is left as it is. *)
Lemma getToken_cached (st : storage) (id uname t : string) (random : nat -> Q)
  (cursor : nat) (endpoint : tokenResponse) :
  getItem "id" st = Some id -> id <> EmptyString ->
  getItem "name" st = Some uname -> uname <> EmptyString ->
  getItem "token" st = Some t -> t <> EmptyString ->
  getToken st random cursor endpoint
  = {| storageAfter := st; cursorAfter := cursor;
       logged := ["Using existing token from session storage"];
       requested := false; outcome := inr t |}.
Proof.
  intros Hid Hidne Hname Hnamene Ht Htne.
  unfold getToken. rewrite api_configured.
  rewrite (proj2 (truthy_some _ id) (conj Hid Hidne)),
    (proj2 (truthy_some _ uname) (conj Hname Hnamene)).
  cbv zeta. rewrite (setItem_same "id" id st Hid), (setItem_same "name" uname st Hname),
    (proj2 (truthy_some _ t) (conj Ht Htne)).
  reflexivity.
Qed.

(** X17.  A run of [getToken] that returns a token leaves it, non-empty, in
    the session storage, and every later run on
    that storage returns the same token without a request, without drawing a
    random number and without touching the storage. *)
Theorem returned_token_is_stored_and_reused :
  forall (st : storage) (random : nat -> Q) (cursor : nat) (endpoint : tokenResponse)
         (t : string),
    (forall k, (0 <= random k)%Q /\ (random k < 1)%Q) ->
    outcome (getToken st random cursor endpoint) = inr t ->
    t <> EmptyString /\
    getItem "token" (storageAfter (getToken st random cursor endpoint)) = Some t /\
    forall (random' : nat -> Q) (cursor' : nat) (endpoint' : tokenResponse),
      getToken (storageAfter (getToken st random cursor endpoint)) random' cursor' endpoint'
      = {| storageAfter := storageAfter (getToken st random cursor endpoint);
           cursorAfter := cursor';
           logged := ["Using existing token from session storage"];
           requested := false; outcome := inr t |}.
Proof.
  intros st random cursor endpoint t Hr.
  open_token_run.
  assert (Hidne : id <> EmptyString).
  { destruct (truthy (getItem "id" st)) as [v|] eqn:E.
    - injection Eid as <- _. apply truthy_some in E. tauto.
    - replace id with (fst (generateRandomString random cursor 10))
        by (rewrite Eid; reflexivity).
      apply generated_nonempty; [exact Hr | lia]. }
  assert (Hnamene : uname <> EmptyString).
  { destruct (truthy (getItem "name" st)) as [v|] eqn:E.
    - injection Ename as <- _. apply truthy_some in E. tauto.
    - replace uname with (fst (generateRandomString random cursor1 8))
        by (rewrite Ename; reflexivity).
      apply generated_nonempty; [exact Hr | lia]. }
  set (st1 := setItem "name" uname (setItem "id" id st)).
  assert (Hid1 : getItem "id" st1 = Some id).
  { unfold st1. rewrite getItem_setItem_other by discriminate. apply getItem_setItem_same. }
  assert (Hname1 : getItem "name" st1 = Some uname) by apply getItem_setItem_same.
  assert (Htok1 : getItem "token" st1 = getItem "token" st) by apply token_after_identity.
  destruct (truthy (getItem "token" st)) as [existing|] eqn:Etok.
  - cbn [outcome storageAfter]. intros H. injection H as <-.
    apply truthy_some in Etok as [Etok Hne].
    split; [exact Hne|]. split; [rewrite Htok1; exact Etok|].
    intros random' cursor' endpoint'.
    apply (getToken_cached st1 id uname existing); try assumption. congruence.
  - assert (Hfetched : forall u, u <> EmptyString ->
              getItem "token" (setItem "token" u st1) = Some u /\
              forall random' cursor' endpoint',
                getToken (setItem "token" u st1) random' cursor' endpoint'
                = {| storageAfter := setItem "token" u st1; cursorAfter := cursor';
                     logged := ["Using existing token from session storage"];
                     requested := false; outcome := inr u |}).
    { intros u Hu. split; [apply getItem_setItem_same|].
      intros random' cursor' endpoint'.
      apply (getToken_cached _ id uname u); try assumption.
      - rewrite getItem_setItem_other by discriminate. exact Hid1.
      - rewrite getItem_setItem_other by discriminate. exact Hname1.
      - apply getItem_setItem_same. }
    destruct endpoint as [e|[|] status statusText [e|dataToken]]; cbn [negb];
      try (destruct (_ || _); cbn [outcome]; discriminate).
    destruct (truthy dataToken) as [u|] eqn:Eu;
      [|destruct (_ || _); cbn [outcome]; discriminate].
    cbn [outcome storageAfter]. intros H. injection H as <-.
    apply truthy_some in Eu as [_ Hu]. split; [exact Hu|]. apply Hfetched, Hu.
Qed.

Lemma returned_token_witness :
  "tok" <> EmptyString /\
  getItem "token" (storageAfter (getToken [] (fun _ => (3 # 4)%Q) 0
                                   (TokenResponse true 200 "OK" (inr (Some "tok")))))
  = Some "tok" /\
  forall (random' : nat -> Q) (cursor' : nat) (endpoint' : tokenResponse),
    getToken (storageAfter (getToken [] (fun _ => (3 # 4)%Q) 0
                              (TokenResponse true 200 "OK" (inr (Some "tok")))))
             random' cursor' endpoint'
    = {| storageAfter := storageAfter (getToken [] (fun _ => (3 # 4)%Q) 0
                                         (TokenResponse true 200 "OK" (inr (Some "tok"))));
         cursorAfter := cursor';
         logged := ["Using existing token from session storage"];
         requested := false; outcome := inr "tok" |}.
Proof.
  apply (returned_token_is_stored_and_reused [] (fun _ => (3 # 4)%Q) 0
           (TokenResponse true 200 "OK" (inr (Some "tok"))) "tok").
  - intros k. split; [discriminate | reflexivity].
  - reflexivity.
Defined.

(** *** Failures, and the manual token *)

Lemma logs_state (ms : list string) :
  forall s, exists l, fold_left (fun acc m => log m acc) ms s = set_playerLogs l s.
Proof.
  induction ms as [|m ms IH]; intros s; simpl.
  - exists (playerLogs s). destruct s; reflexivity.
  - destruct (IH (log m s)) as [l Hl]. exists l. rewrite Hl. reflexivity.
Qed.

(** X18.  A token request that the host rejects with a TypeError (what a
    browser does when the network or the CORS policy blocks it) is reported
    as the CORS error: the initialisation shows the manual token input and
    stores nothing.  A response with an error status whose text names none
    of the connection failures is reported as an authentication failure, and
    the manual token input is left as it is. *)
Theorem token_failures_are_classified :
  (forall (st : storage) (random : nat -> Q) (cursor : nat) (e : errorObject)
          (s : session),
     truthy (getItem "token" st) = None -> e_name e = "TypeError" ->
     outcome (snd (initToken st random cursor (TokenFetchRejected e) s)) = inl corsError /\
     requested (snd (initToken st random cursor (TokenFetchRejected e) s)) = true /\
     showManualTokenInput (fst (initToken st random cursor (TokenFetchRejected e) s)) = true /\
     error (fst (initToken st random cursor (TokenFetchRejected e) s))
     = Some "Connection blocked by CORS policy. Please use manual token input below." /\
     token (fst (initToken st random cursor (TokenFetchRejected e) s)) = token s /\
     isTokenLoading (fst (initToken st random cursor (TokenFetchRejected e) s)) = false /\
     getItem "token" (storageAfter (snd (initToken st random cursor (TokenFetchRejected e) s)))
     = getItem "token" st) /\
  (forall (st : storage) (random : nat -> Q) (cursor : nat) (status : Z)
          (statusText : string) (json : errorObject + option string) (s : session),
     truthy (getItem "token" st) = None ->
     includes "CORS" ("HTTP " ++ decimal status ++ ": " ++ statusText) = false ->
     includes "Failed to fetch" ("HTTP " ++ decimal status ++ ": " ++ statusText) = false ->
     includes "Network request failed" ("HTTP " ++ decimal status ++ ": " ++ statusText)
     = false ->
     outcome (snd (initToken st random cursor (TokenResponse false status statusText json) s))
     = inl (newError ("HTTP " ++ decimal status ++ ": " ++ statusText)) /\
     error (fst (initToken st random cursor (TokenResponse false status statusText json) s))
     = Some ("Authentication failed: " ++ "HTTP " ++ decimal status ++ ": " ++ statusText)%string /\
     showManualTokenInput
       (fst (initToken st random cursor (TokenResponse false status statusText json) s))
     = showManualTokenInput s /\
     token (fst (initToken st random cursor (TokenResponse false status statusText json) s))
     = token s /\
     isTokenLoading
       (fst (initToken st random cursor (TokenResponse false status statusText json) s))
     = false).
Proof.
  split.
  - intros st random cursor e s Htok Hname. unfold initToken. cbv zeta. cbn [fst snd].
    assert (Hrun : exists st1 c l,
               getToken st random cursor (TokenFetchRejected e)
               = {| storageAfter := st1; cursorAfter := c; logged := l; requested := true;
                    outcome := inl corsError |} /\
               getItem "token" st1 = getItem "token" st).
    { open_token_run. rewrite Htok, Hname, String.eqb_refl, !orb_true_r.
      eexists; eexists; eexists. split; [reflexivity | apply token_after_identity]. }
    destruct Hrun as [st1 [c [l [-> Hst1]]]]. cbn [outcome requested storageAfter].
    unfold initTokenDone. cbn [outcome logged]. cbv zeta.
    destruct (logs_state l (set_isTokenLoading true s)) as [l' ->].
    repeat split; try reflexivity. exact Hst1.
  - intros st random cursor status statusText json s Htok H1 H2 H3.
    unfold initToken. cbv zeta. cbn [fst snd].
    assert (Hrun : exists st1 c l,
               getToken st random cursor (TokenResponse false status statusText json)
               = {| storageAfter := st1; cursorAfter := c; logged := l; requested := true;
                    outcome := inl (newError ("HTTP " ++ decimal status ++ ": "
                                                ++ statusText)) |}).
    { open_token_run. rewrite Htok. cbn [negb newError e_message e_name].
      rewrite H1, H2, H3. cbn [orb String.eqb Ascii.eqb Bool.eqb].
      eexists; eexists; eexists. reflexivity. }
    destruct Hrun as [st1 [c [l ->]]]. cbn [outcome].
    unfold initTokenDone. cbn [outcome logged]. cbv zeta.
    destruct (logs_state l (set_isTokenLoading true s)) as [l' ->].
    cbn [newError e_message isCorsError orb]. rewrite H1, H2. cbn [orb].
    repeat split; reflexivity.
Qed.

Lemma token_failures_witness :
  outcome (snd (initToken [] (fun _ => (3 # 4)%Q) 0
                  (TokenFetchRejected {| e_name := "TypeError";
                                         e_message := "Failed to fetch";
                                         isCorsError := false |})
                  (exampleSession [] []))) = inl corsError.
Proof.
  apply (proj1 token_failures_are_classified [] (fun _ => (3 # 4)%Q) 0
           {| e_name := "TypeError"; e_message := "Failed to fetch"; isCorsError := false |}
           (exampleSession [] [])); reflexivity.
Defined.

(** X19.  A manual token that is not blank is stored trimmed, in the state
    and in the session storage, so that [getToken] returns it without a
    request; [clearToken] then removes it from both.  A blank manual token
    changes nothing. *)
Theorem manual_token_is_stored_then_cleared :
  forall (st : storage) (s : session),
    (isEmpty (trim (manualToken s)) = true -> applyManualToken st s = (s, st)) /\
    (isEmpty (trim (manualToken s)) = false ->
     token (fst (applyManualToken st s)) = Some (trim (manualToken s)) /\
     getItem "token" (snd (applyManualToken st s)) = Some (trim (manualToken s)) /\
     (forall (random : nat -> Q) (cursor : nat) (endpoint : tokenResponse),
        outcome (getToken (snd (applyManualToken st s)) random cursor endpoint)
        = inr (trim (manualToken s)) /\
        requested (getToken (snd (applyManualToken st s)) random cursor endpoint) = false) /\
     token (fst (clearToken (snd (applyManualToken st s)) (fst (applyManualToken st s))))
     = None /\
     getItem "token"
       (snd (clearToken (snd (applyManualToken st s)) (fst (applyManualToken st s))))
     = None).
Proof.
  intros st s. unfold applyManualToken. split; intros H; rewrite H; [reflexivity|].
  cbn [fst snd].
  assert (Hne : trim (manualToken s) <> EmptyString).
  { intros E. rewrite E in H. discriminate. }
  split; [reflexivity|]. split; [apply getItem_setItem_same|]. split.
  - intros random cursor endpoint. open_token_run.
    rewrite getItem_setItem_same.
    rewrite (proj2 (truthy_some _ (trim (manualToken s))) (conj eq_refl Hne)).
    split; reflexivity.
  - split; [reflexivity|]. unfold clearToken. cbn [snd]. apply getItem_removeItem.
Qed.

Lemma manual_token_witness :
  token (fst (applyManualToken [("id", "u1")] manualSession)) = Some "tok-123" /\
  getItem "token" (snd (applyManualToken [("id", "u1")] manualSession)) = Some "tok-123" /\
  (forall (random : nat -> Q) (cursor : nat) (endpoint : tokenResponse),
     outcome (getToken (snd (applyManualToken [("id", "u1")] manualSession))
                random cursor endpoint) = inr "tok-123" /\
     requested (getToken (snd (applyManualToken [("id", "u1")] manualSession))
                  random cursor endpoint) = false) /\
  token (fst (clearToken (snd (applyManualToken [("id", "u1")] manualSession))
                (fst (applyManualToken [("id", "u1")] manualSession)))) = None /\
  getItem "token"
    (snd (clearToken (snd (applyManualToken [("id", "u1")] manualSession))
            (fst (applyManualToken [("id", "u1")] manualSession)))) = None.
Proof.
  apply (proj2 (manual_token_is_stored_then_cleared [("id", "u1")] manualSession)).
  reflexivity.
Defined.

End TokenFacts.

(** ** Loading a manifest and switching layouts with region clicks *)

Section RegionsLoadFacts.
Import Js RegionsApp RegionsFlow.

(** [fetchAllLayoutRegions] writes log lines and, after a good answer, the
    layout regions; nothing else. *)
Lemma fetchAllLayoutRegions_frame (tok : option string) (url : string)
  (endpoint : string -> regionsResponse) (s : session) :
  exists l,
    fst (fetchAllLayoutRegions tok url endpoint s) = set_playerLogs l s \/
    exists path status data,
      endpoint path = RegionsResponse true status (Return (Some data)) /\
      fst (fetchAllLayoutRegions tok url endpoint s)
      = set_playerLogs l (set_allLayoutRegions data s).
Proof.
  unfold fetchAllLayoutRegions, regionsFailed, log.
  destruct (truthy tok); [|exists (playerLogs s); left; destruct s; reflexivity].
  destruct (isEmpty url); [exists (playerLogs s); left; destruct s; reflexivity|].
  rewrite api_configured.
  destruct (streamPathOf url) as [e|path]; cbn [fst].
  - destruct (_ || _); eexists; left; reflexivity.
  - destruct (endpoint path) as [m|[|] status [e|[data|]]] eqn:Ep; cbn [negb];
      try (destruct (_ || _); eexists; left; reflexivity);
      try (eexists; left; reflexivity).
    eexists. right. exists path, status, data. split; [exact Ep | reflexivity].
Qed.

Lemma parsed_head_is_least (cmp : string -> string -> Z)
  (fetch : string -> fetchOutcome) (url : string) (first : layout) (rest : list layout) :
  (forall a b, (0 <= cmp a b)%Z -> (cmp b a <= 0)%Z) ->
  (forall a b c, (cmp a b <= 0)%Z -> (cmp b c <= 0)%Z -> (cmp a c <= 0)%Z) ->
  snd (parseManifestForLayouts cmp fetch url) = Return (first :: rest) ->
  Forall (fun l => (cmp (name first) (name l) <= 0)%Z) (first :: rest).
Proof.
  intros Htotal Htrans H. unfold parseManifestForLayouts, failed in H.
  destruct (fetch url) as [e|[|] status [e|text]]; cbn [negb snd] in H; try discriminate.
  injection H as H.
  pose proof (sortBy_sorted (fun a b => cmp (name a) (name b))
                (fun a b => Htotal (name a) (name b))
                (fun a b c => Htrans (name a) (name b) (name c))
                (map (toLayout (Manifest.baseUrlOf url)) (scanLines (split LF text) [])))
    as Hs.
  unfold parseText in H. rewrite H in Hs. inversion Hs as [|? ? _ Hall]; subst.
  constructor; [|exact Hall].
  destruct (Z.le_gt_cases 0 (cmp (name first) (name first))) as [Hge|Hlt];
    [apply Htotal, Hge | lia].
Qed.

(** X20.  Whatever the regions endpoint answers - a rejection, an error
    status, a body that is no JSON or holds no array - a manifest with at
    least one layout loads: the layouts are the parsed ones, the first of
    them, which is a least one in the collation order, is selected, loading
    ends and no error is set.  The layout regions are replaced only by the
    array of a good answer. *)
Theorem regions_endpoint_cannot_fail_the_load :
  forall (localeCompare : string -> string -> Z) (fetch : string -> fetchOutcome)
         (endpoint : string -> regionsResponse) (s : session)
         (first : layout) (rest : list layout),
    (forall a b, (0 <= localeCompare a b)%Z -> (localeCompare b a <= 0)%Z) ->
    (forall a b c, (localeCompare a b <= 0)%Z -> (localeCompare b c <= 0)%Z ->
                   (localeCompare a c <= 0)%Z) ->
    snd (parseManifestForLayouts localeCompare fetch (manifestUrlToLoad s))
    = Return (first :: rest) ->
    layouts (fst (loadManifest localeCompare fetch endpoint s)) = first :: rest /\
    selectedLayout (fst (loadManifest localeCompare fetch endpoint s)) = name first /\
    isLoading (fst (loadManifest localeCompare fetch endpoint s)) = false /\
    error (fst (loadManifest localeCompare fetch endpoint s)) = None /\
    Forall (fun l => (localeCompare (name first) (name l) <= 0)%Z)
           (layouts (fst (loadManifest localeCompare fetch endpoint s))) /\
    (allLayoutRegions (fst (loadManifest localeCompare fetch endpoint s))
     = allLayoutRegions s \/
     exists path status,
       endpoint path
       = RegionsResponse true status
           (Return (Some (allLayoutRegions
                            (fst (loadManifest localeCompare fetch endpoint s)))))).
Proof.
  intros localeCompare fetch endpoint s first rest Htotal Htrans Hparsed.
  pose proof (parsed_head_is_least _ _ _ _ _ Htotal Htrans Hparsed) as Hleast.
  unfold loadManifest. cbv zeta. rewrite Hparsed.
  unfold loadManifestParsed. rewrite Hparsed. cbv zeta.
  destruct (logs_state
              (parserLines (fst (parseManifestForLayouts localeCompare fetch
                                   (manifestUrlToLoad s))))
              (loadManifestStart s)) as [l0 ->].
  set (s1 := set_layouts (first :: rest) (set_playerLogs l0 (loadManifestStart s))).
  destruct (fetchAllLayoutRegions_frame (token s) (manifestUrlToLoad s) endpoint s1)
    as [l [Hf|[path [status [data [Hep Hf]]]]]];
    destruct (fetchAllLayoutRegions (token s) (manifestUrlToLoad s) endpoint s1)
      as [s2 asked]; cbn [fst] in Hf |- *; subst s2.
  - repeat split; try reflexivity; [exact Hleast | left; reflexivity].
  - repeat split; try reflexivity; [exact Hleast|].
    right. exists path, status. exact Hep.
Qed.

Lemma regions_endpoint_witness :
  layouts (fst (loadManifest letterCollation (Manifest.serve true 200 Manifest.studioManifest)
                  (fun _ => RegionsFetchRejected "Failed to fetch")
                  (exampleSession [] [])))
  = [layoutNamed "studio"] /\
  selectedLayout (fst (loadManifest letterCollation
                         (Manifest.serve true 200 Manifest.studioManifest)
                         (fun _ => RegionsFetchRejected "Failed to fetch")
                         (exampleSession [] [])))
  = name (layoutNamed "studio") /\
  isLoading (fst (loadManifest letterCollation
                    (Manifest.serve true 200 Manifest.studioManifest)
                    (fun _ => RegionsFetchRejected "Failed to fetch")
                    (exampleSession [] []))) = false /\
  error (fst (loadManifest letterCollation
                (Manifest.serve true 200 Manifest.studioManifest)
                (fun _ => RegionsFetchRejected "Failed to fetch")
                (exampleSession [] []))) = None.
Proof.
  destruct (regions_endpoint_cannot_fail_the_load letterCollation
              (Manifest.serve true 200 Manifest.studioManifest)
              (fun _ => RegionsFetchRejected "Failed to fetch")
              (exampleSession [] []) (layoutNamed "studio") []
              letterCollation_total letterCollation_trans eq_refl)
    as [H1 [H2 [H3 [H4 _]]]].
  repeat split; assumption.
Defined.



End RegionsLoadFacts.

(** ** A frozen recording under the stall watchdog *)

Section WatchdogRunFacts.
Import Watchdog WatchdogRuns.

(** A sample that finds the position unchanged, below the threshold. *)
Lemma tick_counts (s : session) (t : Q) (player : playerState) :
  videoRef s = Some {| paused := false; currentTime := t |} ->
  playerRef s = Some player ->
  Qeq_bool t (lastTimeUpdateRef s) = true ->
  (stallCountRef s + 1 < STALL_MISSES)%Z ->
  videoRef (stallCheck s) = videoRef s /\
  playerRef (stallCheck s) = playerRef s /\
  stallCountRef (stallCheck s) = (stallCountRef s + 1)%Z /\
  lastTimeUpdateRef (stallCheck s) = t /\
  seeks (stallCheck s) = seeks s /\
  playbackStalled (stallCheck s) = playbackStalled s.
Proof.
  intros Hv Hp Heq Hlt. unfold stallCheck. rewrite Hv, Hp. cbn [paused currentTime negb andb].
  rewrite Heq.
  assert (E : (STALL_MISSES <=? stallCountRef s + 1)%Z = false) by (apply Z.leb_gt; exact Hlt).
  cbn [stallCountRef set_stallCountRef]. rewrite E. cbn. rewrite Hv, Hp.
  repeat split; reflexivity.
Qed.

(** The sample that reaches the threshold, for bounded content. *)
Lemma tick_nudges (s : session) (t : Q) (player : playerState) :
  videoRef s = Some {| paused := false; currentTime := t |} ->
  playerRef s = Some player -> isLive player = false ->
  Qeq_bool t (lastTimeUpdateRef s) = true ->
  (STALL_MISSES <= stallCountRef s + 1)%Z ->
  videoRef (stallCheck s) = Some {| paused := false; currentTime := (t + VOD_NUDGE)%Q |} /\
  playerRef (stallCheck s) = playerRef s /\
  stallCountRef (stallCheck s) = 0%Z /\
  lastTimeUpdateRef (stallCheck s) = t /\
  seeks (stallCheck s) = seeks s ++ [(t + VOD_NUDGE)%Q] /\
  playbackStalled (stallCheck s) = true.
Proof.
  intros Hv Hp Hlive Heq Hle. unfold stallCheck. rewrite Hv, Hp.
  cbn [paused currentTime negb andb]. rewrite Heq.
  assert (E : (STALL_MISSES <=? stallCountRef s + 1)%Z = true) by (apply Z.leb_le; exact Hle).
  cbn [stallCountRef set_stallCountRef]. rewrite E.
  unfold recover. rewrite Hlive. unfold seekTo. cbn. rewrite Hv. cbn. rewrite Hp.
  repeat split; reflexivity.
Qed.

(** A sample that finds another position. *)
Lemma tick_moved (s : session) (t : Q) (player : playerState) :
  videoRef s = Some {| paused := false; currentTime := t |} ->
  playerRef s = Some player ->
  Qeq_bool t (lastTimeUpdateRef s) = false ->
  videoRef (stallCheck s) = videoRef s /\
  playerRef (stallCheck s) = playerRef s /\
  stallCountRef (stallCheck s) = 0%Z /\
  lastTimeUpdateRef (stallCheck s) = t /\
  seeks (stallCheck s) = seeks s /\
  playbackStalled (stallCheck s) = false.
Proof.
  intros Hv Hp Hne. unfold stallCheck. rewrite Hv, Hp.
  cbn [paused currentTime negb andb]. rewrite Hne. cbn. rewrite Hv, Hp.
  repeat split; reflexivity.
Qed.

Lemma Qeq_bool_same (t : Q) : Qeq_bool t t = true.
Proof. apply Qeq_bool_iff. reflexivity. Qed.

Lemma nudge_moves (t : Q) : Qeq_bool (t + VOD_NUDGE) t = false.
Proof.
  destruct (Qeq_bool (t + VOD_NUDGE) t) eqn:E; [|reflexivity].
  apply Qeq_bool_iff in E. unfold VOD_NUDGE in E. lra.
Qed.

(** Four samples of a frozen recording: two misses, the nudge, and the
    sample that takes the nudge for playback. *)
Lemma frozen_cycle (s : session) (t : Q) (player : playerState) :
  videoRef s = Some {| paused := false; currentTime := t |} ->
  playerRef s = Some player -> isLive player = false ->
  stallCountRef s = 0%Z -> Qeq_bool t (lastTimeUpdateRef s) = true ->
  (seeks (ticks 3 s) = seeks s ++ [(t + VOD_NUDGE)%Q] /\
   playbackStalled (ticks 3 s) = true) /\
  videoRef (ticks 4 s) = Some {| paused := false; currentTime := (t + VOD_NUDGE)%Q |} /\
  playerRef (ticks 4 s) = Some player /\
  stallCountRef (ticks 4 s) = 0%Z /\
  Qeq_bool (t + VOD_NUDGE) (lastTimeUpdateRef (ticks 4 s)) = true /\
  seeks (ticks 4 s) = seeks s ++ [(t + VOD_NUDGE)%Q] /\
  playbackStalled (ticks 4 s) = false.
Proof.
  intros Hv Hp Hlive Hc Heq. unfold ticks. cbn [Nat.iter nat_rect].
  destruct (tick_counts s t player Hv Hp Heq) as [Hv1 [Hp1 [Hc1 [Hl1 [Hs1 _]]]]].
  { rewrite Hc. reflexivity. }
  set (s1 := stallCheck s) in *. rewrite Hv in Hv1. rewrite Hp in Hp1.
  destruct (tick_counts s1 t player Hv1 Hp1) as [Hv2 [Hp2 [Hc2 [Hl2 [Hs2 _]]]]].
  { rewrite Hl1. apply Qeq_bool_same. }
  { rewrite Hc1, Hc. reflexivity. }
  set (s2 := stallCheck s1) in *. rewrite Hv1 in Hv2. rewrite Hp1 in Hp2.
  destruct (tick_nudges s2 t player Hv2 Hp2 Hlive) as [Hv3 [Hp3 [Hc3 [Hl3 [Hs3 Hf3]]]]].
  { rewrite Hl2. apply Qeq_bool_same. }
  { rewrite Hc2, Hc1, Hc. discriminate. }
  set (s3 := stallCheck s2) in *. rewrite Hp2 in Hp3.
  destruct (tick_moved s3 (t + VOD_NUDGE)%Q player Hv3 Hp3)
    as [Hv4 [Hp4 [Hc4 [Hl4 [Hs4 Hf4]]]]].
  { rewrite Hl3. apply nudge_moves. }
  rewrite Hs3, Hs2, Hs1 in *. rewrite Hv4, Hp4, Hc4, Hl4, Hs4, Hf4, Hv3, Hp3.
  repeat split; try reflexivity; try assumption. apply Qeq_bool_same.
Qed.

(** X22.  A recording whose position does not advance, and is not paused,
    is nudged forward by a tenth of a second at the third sample of the
    one-second interval and at every fourth sample after it: the sample
    after a nudge takes the nudge for playback, lowers the stalled flag (two
    seconds before the cooldown timer would) and starts the count again. *)
Theorem frozen_recording_is_nudged_every_fourth_sample :
  forall (s : session) (t : Q) (player : playerState) (k : nat),
    videoRef s = Some {| paused := false; currentTime := t |} ->
    playerRef s = Some player -> isLive player = false ->
    stallCountRef s = 0%Z -> (t == lastTimeUpdateRef s)%Q ->
    seeks (ticks (4 * k + 3) s) = seeks s ++ nudges t (S k) /\
    playbackStalled (ticks (4 * k + 3) s) = true /\
    seeks (ticks (4 * k + 4) s) = seeks s ++ nudges t (S k) /\
    playbackStalled (ticks (4 * k + 4) s) = false.
Proof.
  intros s t player k Hv Hp Hlive Hc Heq. apply Qeq_bool_iff in Heq.
  revert s t Hv Hp Hc Heq. induction k as [|k IH]; intros s t Hv Hp Hc Heq.
  - destruct (frozen_cycle s t player Hv Hp Hlive Hc Heq)
      as [[Hs3 Hf3] [_ [_ [_ [_ [Hs4 Hf4]]]]]].
    cbn [Nat.mul Nat.add nudges]. repeat split; assumption.
  - destruct (frozen_cycle s t player Hv Hp Hlive Hc Heq)
      as [_ [Hv4 [Hp4 [Hc4 [Heq4 [Hs4 _]]]]]].
    destruct (IH (ticks 4 s) (t + VOD_NUDGE)%Q Hv4 Hp4 Hc4 Heq4) as [H1 [H2 [H3 H4]]].
    replace (4 * S k + 3)%nat with ((4 * k + 3) + 4)%nat by lia.
    replace (4 * S k + 4)%nat with ((4 * k + 4) + 4)%nat by lia.
    unfold ticks in *.
    rewrite (Nat.iter_add (4 * k + 3) 4), (Nat.iter_add (4 * k + 4) 4).
    rewrite H1, H3, Hs4, <- !app_assoc.
    repeat split; try reflexivity; assumption.
Qed.

Lemma frozen_recording_witness :
  seeks (ticks 7 frozenVod) = [(42 + VOD_NUDGE)%Q; (42 + VOD_NUDGE + VOD_NUDGE)%Q] /\
  playbackStalled (ticks 7 frozenVod) = true /\
  seeks (ticks 8 frozenVod) = [(42 + VOD_NUDGE)%Q; (42 + VOD_NUDGE + VOD_NUDGE)%Q] /\
  playbackStalled (ticks 8 frozenVod) = false.
Proof.
  apply (frozen_recording_is_nudged_every_fourth_sample frozenVod 42
           {| isLive := false; seekRangeEnd := 600 |} 1);
    reflexivity.
Defined.

End WatchdogRunFacts.

(** ** The reset before a new stream is loaded ([src/unnamed/part_002]) *)

Section RegionsResetFacts.
Import Js RegionsApp RegionsFlow.

Lemma handleVideoClick_few (e : mouseEvent) (s : session) :
  layouts s = [] -> handleVideoClick e s = (s, Return tt).
Proof. intros H. unfold handleVideoClick. rewrite H. reflexivity. Qed.

Lemma layoutEffect_unselected (p : playerHandle) (s : session) :
  selectedLayout s = EmptyString -> layoutEffect p s = (s, None).
Proof. intros H. unfold layoutEffect. rewrite H. reflexivity. Qed.

Lemma mapRegions_unselected (s : session) :
  selectedLayout s = EmptyString -> mapRegionsToCurrentLayout s = set_regions [] s.
Proof. intros H. unfold mapRegionsToCurrentLayout. rewrite H. reflexivity. Qed.

Lemma handleLoadClick_fields (player : playerHandle) (s : session) :
  isEmpty (trim (hlsUrl s)) = false ->
  manifestUrlToLoad (fst (handleLoadClick player s)) = trim (hlsUrl s) /\
  layouts (fst (handleLoadClick player s)) = [] /\
  selectedLayout (fst (handleLoadClick player s)) = EmptyString /\
  regions (fst (handleLoadClick player s)) = [] /\
  allLayoutRegions (fst (handleLoadClick player s)) = [] /\
  canvasDimensions (fst (handleLoadClick player s))
  = {| dim_width := 1920; dim_height := 1080 |} /\
  error (fst (handleLoadClick player s)) = None /\
  currentLayoutRef (fst (handleLoadClick player s)) = None /\
  token (fst (handleLoadClick player s)) = token s /\
  snd (handleLoadClick player s) = (if playerRef player then [CallUnload] else []).
Proof.
  destruct player as [ref throws]. intros Hurl. unfold handleLoadClick. rewrite Hurl.
  unfold resetAllState. cbn [playerRef unloadThrows].
  destruct ref; [destruct throws as [message|]|]; cbn [fst snd];
    repeat split; reflexivity.
Qed.

(** X23.  A click on Load with a URL that is not blank resets the session
    before the new manifest is requested, whether or not the engine's unload
    throws: the trimmed URL becomes the manifest to load, the layouts, the
    selection, the regions, the layout regions, the error and the loaded
    layout are cleared, the token is kept, and the engine is unloaded once
    when there is a player.  Until layouts arrive, a click on the video and
    the layout effect do nothing, and no region is shown. *)
Theorem load_click_resets_the_session :
  forall (player : playerHandle) (s : session),
    isEmpty (trim (hlsUrl s)) = false ->
    manifestUrlToLoad (fst (handleLoadClick player s)) = trim (hlsUrl s) /\
    layouts (fst (handleLoadClick player s)) = [] /\
    selectedLayout (fst (handleLoadClick player s)) = EmptyString /\
    regions (fst (handleLoadClick player s)) = [] /\
    allLayoutRegions (fst (handleLoadClick player s)) = [] /\
    canvasDimensions (fst (handleLoadClick player s))
    = {| dim_width := 1920; dim_height := 1080 |} /\
    error (fst (handleLoadClick player s)) = None /\
    currentLayoutRef (fst (handleLoadClick player s)) = None /\
    token (fst (handleLoadClick player s)) = token s /\
    snd (handleLoadClick player s) = (if playerRef player then [CallUnload] else []) /\
    (forall e : mouseEvent,
       handleVideoClick e (fst (handleLoadClick player s))
       = (fst (handleLoadClick player s), Return tt)) /\
    (forall p : playerHandle,
       layoutEffect p (fst (handleLoadClick player s))
       = (fst (handleLoadClick player s), None)) /\
    regions (mapRegionsToCurrentLayout (fst (handleLoadClick player s))) = [].
Proof.
  intros player s Hurl.
  destruct (handleLoadClick_fields player s Hurl)
    as [H1 [H2 [H3 [H4 [H5 [H6 [H7 [H8 [H9 H10]]]]]]]]].
  repeat (split; [assumption|]).
  split; [intros e; apply handleVideoClick_few; exact H2|].
  split; [intros p; apply layoutEffect_unselected; exact H3|].
  rewrite (mapRegions_unselected _ H3). reflexivity.
Qed.

Lemma load_click_witness :
  layouts (fst (handleLoadClick readyPlayer
                  (exampleSession [layoutNamed "main"; layoutNamed "Wide"]
                                  [backgroundRegion; wideRegion]))) = [] /\
  snd (handleLoadClick readyPlayer
         (exampleSession [layoutNamed "main"; layoutNamed "Wide"]
                         [backgroundRegion; wideRegion])) = [CallUnload] /\
  handleVideoClick exampleClick
    (fst (handleLoadClick readyPlayer
            (exampleSession [layoutNamed "main"; layoutNamed "Wide"]
                            [backgroundRegion; wideRegion])))
  = (fst (handleLoadClick readyPlayer
            (exampleSession [layoutNamed "main"; layoutNamed "Wide"]
                            [backgroundRegion; wideRegion])), Return tt).
Proof.
  destruct (load_click_resets_the_session readyPlayer
              (exampleSession [layoutNamed "main"; layoutNamed "Wide"]
                              [backgroundRegion; wideRegion]) eq_refl)
    as [_ [H2 [_ [_ [_ [_ [_ [_ [_ [H10 [H11 _]]]]]]]]]]].
  split; [exact H2 | split; [exact H10 | exact (H11 exampleClick)]].
Defined.

End RegionsResetFacts.

(** ** Cycling through the layouts in the first iteration
    ([src/unnamed/part_000]) *)

Section DraftCycleFacts.
Import Js RegionsDraft RegionsDraftExamples.



Lemma draft_findIndexFrom_range (v : string) (ls : list layout) (i0 : Z) :
  findIndexFrom v ls i0 = (-1)%Z \/
  (i0 <= findIndexFrom v ls i0 < i0 + Z.of_nat (length ls))%Z.
Proof.
  revert i0. induction ls as [|l r IH]; intros i0; [left; reflexivity|].
  cbn [findIndexFrom length]. destruct (String.eqb (name l) v); [right; lia|].
  destruct (IH (i0 + 1)%Z) as [E|E]; [left; exact E | right; lia].
Qed.




End DraftCycleFacts.

(** ** The click in canvas coordinates ([src/unnamed/part_002]) *)

Section CanvasClickFacts.
Import RegionsApp.

(** X25.  For a container and a video of positive size, the letterbox is
    centred: a click at the centre of the container is mapped to the centre
    of the canvas, whatever the two aspect ratios.  When the container has
    the aspect ratio of the video there is no letterbox: the click is scaled
    from the container to the canvas. *)
Theorem click_mapping_is_centred :
  forall (containerRect : domRect) (video : videoElement) (canvas : dimensions)
         (e : mouseEvent),
    (0 < rect_width containerRect)%Q -> (0 < rect_height containerRect)%Q ->
    (0 < videoWidth video)%Q -> (0 < videoHeight video)%Q ->
    exists cx cy,
      canvasClick containerRect video canvas e = Some (cx, cy) /\
      ((clientX e == rect_left containerRect + rect_width containerRect / 2)%Q ->
       (clientY e == rect_top containerRect + rect_height containerRect / 2)%Q ->
       (cx == dim_width canvas / 2)%Q /\ (cy == dim_height canvas / 2)%Q) /\
      ((rect_width containerRect * videoHeight video
        == rect_height containerRect * videoWidth video)%Q ->
       (cx == (clientX e - rect_left containerRect) / rect_width containerRect
              * dim_width canvas)%Q /\
       (cy == (clientY e - rect_top containerRect) / rect_height containerRect
              * dim_height canvas)%Q).
Proof.
  intros containerRect video canvas e Hcw Hch Hvw Hvh.
  destruct (canvasClick_positive containerRect video canvas e Hcw Hch Hvw Hvh)
    as [cx [cy [Hclick [Hwide Hnarrow]]]].
  exists cx, cy. split; [exact Hclick|].
  pose proof (positive_nonzero _ Hcw) as Ncw. pose proof (positive_nonzero _ Hch) as Nch.
  pose proof (positive_nonzero _ Hvw) as Nvw. pose proof (positive_nonzero _ Hvh) as Nvh.
  split.
  - intros Hx Hy.
    destruct (Qlt_le_dec (videoWidth video * rect_height containerRect)
                         (rect_width containerRect * videoHeight video)) as [Hlt|Hle].
    + destruct (Hwide Hlt) as [Ex Ey]. rewrite Ex, Ey, Hx, Hy.
      split; field; repeat split; assumption.
    + destruct (Hnarrow Hle) as [Ex Ey]. rewrite Ex, Ey, Hx, Hy.
      split; field; repeat split; assumption.
  - intros Hsame.
    assert (Hle : (rect_width containerRect * videoHeight video
                   <= videoWidth video * rect_height containerRect)%Q).
    { rewrite Hsame, (Qmult_comm (rect_height containerRect)). apply Qle_refl. }
    destruct (Hnarrow Hle) as [Ex Ey]. split; [exact Ex|]. rewrite Ey.
    assert (Hh : (rect_width containerRect * videoHeight video / videoWidth video
                  == rect_height containerRect)%Q).
    { rewrite Hsame. field. exact Nvw. }
    rewrite Hh. field. exact Nch.
Qed.

Lemma click_mapping_witness :
  exists cx cy,
    canvasClick {| rect_left := 10; rect_top := 20; rect_width := 1000;
                   rect_height := 1000 |}
                {| videoWidth := 1920; videoHeight := 1080; currentTime := 0 |}
                {| dim_width := 1280; dim_height := 720 |}
                {| clientX := 510; clientY := 520 |} = Some (cx, cy) /\
    (cx == 1280 / 2)%Q /\ (cy == 720 / 2)%Q.
Proof.
  destruct (click_mapping_is_centred
              {| rect_left := 10; rect_top := 20; rect_width := 1000;
                 rect_height := 1000 |}
              {| videoWidth := 1920; videoHeight := 1080; currentTime := 0 |}
              {| dim_width := 1280; dim_height := 720 |}
              {| clientX := 510; clientY := 520 |}
              eq_refl eq_refl eq_refl eq_refl)
    as [cx [cy [Hclick [Hcentre _]]]].
  exists cx, cy. split; [exact Hclick|].
  apply Hcentre; reflexivity.
Defined.

End CanvasClickFacts.

(** ** Loading a manifest in [src/App.js] *)

Section LayoutsLoadFacts.
Import Js LayoutsLoad.

Lemma load_parserLines_state (events : list parserEvent) (s : session) :
  exists l, parserLines events s = set_playerLogs l s.
Proof.
  unfold parserLines. revert s. induction events as [|ev r IH]; intros s.
  - exists (playerLogs s). destruct s. reflexivity.
  - cbn [fold_left]. destruct ev as [url|m].
    + apply IH.
    + destruct (IH (addLog (LogParser m) s)) as [l ->]. exists l. reflexivity.
Qed.

(** The state in which [loadManifest] leaves the component when the parser
    returns at least one layout. *)
Lemma loadManifest_found (localeCompare : string -> string -> Z)
  (fetch : string -> fetchOutcome) (s : session)
  (first : Manifest.layout) (rest : list Manifest.layout) :
  snd (Manifest.parseManifestForLayouts localeCompare fetch (manifestUrlToLoad s))
  = Return (first :: rest) ->
  layouts (loadManifest localeCompare fetch s) = first :: rest /\
  selectedLayout (loadManifest localeCompare fetch s) = Manifest.name first /\
  isLoading (loadManifest localeCompare fetch s) = false /\
  error (loadManifest localeCompare fetch s) = None /\
  isPlayerReady (loadManifest localeCompare fetch s) = isPlayerReady s /\
  playerRef (loadManifest localeCompare fetch s) = playerRef s /\
  currentLayoutRef (loadManifest localeCompare fetch s) = currentLayoutRef s /\
  engineCalls (loadManifest localeCompare fetch s) = engineCalls s /\
  timers (loadManifest localeCompare fetch s)
  = timers s ++ [{| timerId := nextTimerId s; due := (now s + 100)%Z;
                    callback := AutoLoad first (isPlayerReady s) |}] /\
  nextTimerId (loadManifest localeCompare fetch s) = S (nextTimerId s).
Proof.
  intros Hparsed. unfold loadManifest.
  destruct (Manifest.parseManifestForLayouts localeCompare fetch (manifestUrlToLoad s))
    as [events result]. cbn [snd] in Hparsed. subst result.
  destruct (load_parserLines_state events (loadManifestStart s)) as [l ->].
  repeat split; reflexivity.
Qed.

(** The state in which it leaves the component otherwise. *)
Lemma loadManifest_not_found (localeCompare : string -> string -> Z)
  (fetch : string -> fetchOutcome) (s : session) :
  (forall first rest,
     snd (Manifest.parseManifestForLayouts localeCompare fetch (manifestUrlToLoad s))
     <> Return (first :: rest)) ->
  layouts (loadManifest localeCompare fetch s) = [] /\
  selectedLayout (loadManifest localeCompare fetch s) = EmptyString /\
  isLoading (loadManifest localeCompare fetch s) = false /\
  error (loadManifest localeCompare fetch s)
  = Some match snd (Manifest.parseManifestForLayouts localeCompare fetch
                      (manifestUrlToLoad s)) with
         | Throw e => ErrLoadingManifest e
         | Return _ => ErrNoLayouts
         end /\
  currentLayoutRef (loadManifest localeCompare fetch s) = currentLayoutRef s /\
  engineCalls (loadManifest localeCompare fetch s) = engineCalls s /\
  timers (loadManifest localeCompare fetch s) = timers s.
Proof.
  intros Hnone. unfold loadManifest.
  destruct (Manifest.parseManifestForLayouts localeCompare fetch (manifestUrlToLoad s))
    as [events result]. cbn [snd] in Hnone |- *.
  destruct (load_parserLines_state events (loadManifestStart s)) as [l ->].
  destruct result as [e|[|first rest]];
    [| |exfalso; apply (Hnone first rest); reflexivity];
    repeat split; reflexivity.
Qed.

Lemma load_layoutEffect_unselected (s : session) :
  selectedLayout s = EmptyString -> layoutEffect s = (s, None).
Proof. intros H. unfold layoutEffect. rewrite H. reflexivity. Qed.

(** The layout effect when the selected layout is the first of the list and
    is not the loaded one. *)
Lemma load_layoutEffect_first (s : session) (first : Manifest.layout)
  (rest : list Manifest.layout) :
  layouts s = first :: rest -> selectedLayout s = Manifest.name first ->
  Manifest.name first <> EmptyString ->
  isPlayerReady s = true -> playerRef s = true ->
  currentLayoutRef s <> Some (Manifest.name first) ->
  exists p,
    snd (layoutEffect s) = Some p /\
    LayoutsApp.loading p = Manifest.name first /\
    engineCalls (fst (layoutEffect s))
    = engineCalls s ++ [LayoutsApp.CallLoad (Manifest.masterUrl first)] /\
    timers (fst (layoutEffect s)) = timers s /\
    nextTimerId (fst (layoutEffect s)) = nextTimerId s /\
    playerRef (fst (layoutEffect s)) = true /\
    isSwitching (fst (layoutEffect s)) = true.
Proof.
  intros Hl Hsel Hne Hready Hplayer Href. unfold layoutEffect.
  rewrite Hsel, Hready, Hl, Hplayer.
  assert (E : isEmpty (Manifest.name first) = false)
    by (destruct (Manifest.name first); [contradiction | reflexivity]).
  rewrite E. cbn [negb orb length Nat.eqb find]. rewrite String.eqb_refl.
  assert (Hcur : match currentLayoutRef s with
                 | Some c => String.eqb c (Manifest.name first)
                 | None => false
                 end = false).
  { destruct (currentLayoutRef s) as [c|]; [|reflexivity].
    apply String.eqb_neq. intros ->. apply Href. reflexivity. }
  rewrite Hcur. cbn [andb]. eexists. split; [reflexivity|].
  destruct (LayoutsApp.truthyRef (currentLayoutRef s));
    cbn; rewrite ?Hplayer; repeat split; reflexivity.
Qed.

Lemma variant_lines_state (vs : list LayoutsApp.variantInfo) (s : session) :
  exists l,
    fold_left (fun acc v => addLog (LogLayout (LayoutsApp.LogVariant v)) acc) vs s
    = set_playerLogs l s.
Proof.
  revert s. induction vs as [|v r IH]; intros s.
  - exists (playerLogs s). destruct s. reflexivity.
  - cbn [fold_left].
    destruct (IH (addLog (LogLayout (LayoutsApp.LogVariant v)) s)) as [l ->].
    exists l. reflexivity.
Qed.

(** What the settling of a layout load leaves of the timers and of the
    engine. *)
Lemma settled_frame (p : LayoutsApp.pendingLoad) (outcome : option (option jsError))
  (s : session) :
  engineCalls (settled p outcome s) = engineCalls s /\
  playerRef (settled p outcome s) = playerRef s /\
  exists later,
    timers (settled p outcome s) = timers s ++ later /\
    Forall (fun t => (nextTimerId s <= timerId t)%nat) later.
Proof.
  destruct outcome as [[e|]|]; cbn [settled].
  - repeat split; try reflexivity.
    exists []. rewrite app_nil_r. split; [reflexivity | constructor].
  - unfold loadLayoutResolved, loadLayoutRejected.
    destruct (playerRef s) eqn:Hp;
      [match goal with |- context [fold_left ?f (variants s) ?x] =>
         destruct (variant_lines_state (variants s) x) as [l ->] end|];
      destruct (RegionsApp.Qlt_bool 0 (LayoutsApp.savedTime p)
                && LayoutsApp.truthyRef (currentLayoutRef s));
      (split; [reflexivity | split; [cbn; rewrite ?Hp; reflexivity|]]);
      cbn [timers set_isSwitching set_playerLogs addLog set_currentLayoutRef setTimeout
           set_nextTimerId set_timers set_error];
      try (exists []; rewrite app_nil_r; split; [reflexivity | constructor]);
      (eexists; split; [reflexivity|]; repeat constructor).
  - repeat split; try reflexivity.
    exists []. rewrite app_nil_r. split; [reflexivity | constructor].
Qed.

Lemma find_fresh_timer (ts later : list timer) (i : nat) (d : Z) (cb : timerCallback) :
  Forall (fun x => (timerId x < i)%nat) ts ->
  find (fun x => (timerId x =? i)%nat)
       (ts ++ {| timerId := i; due := d; callback := cb |} :: later)
  = Some {| timerId := i; due := d; callback := cb |}.
Proof.
  induction ts as [|x r IH]; intros Hts; cbn [app find timerId].
  - rewrite Nat.eqb_refl. reflexivity.
  - inversion Hts as [|? ? Hx Hr]; subst.
    assert (E : (timerId x =? i)%nat = false) by (apply Nat.eqb_neq; lia).
    rewrite E. apply IH, Hr.
Qed.

(** X26.  When a manifest with at least one layout has been parsed, the
    player is ready and the ref does not name the first layout as the loaded
    one, the engine is asked twice to load the master playlist of the first
    layout: once by the layout effect, which runs because the first layout
    has been selected, and once more by the timer that the load effect
    started, whether the first load is still pending, has resolved or has
    failed when the timer fires. *)
Theorem first_layout_is_loaded_twice :
  forall (localeCompare : string -> string -> Z) (fetch : string -> fetchOutcome)
         (s : session) (first : Manifest.layout) (rest : list Manifest.layout)
         (outcome : option (option jsError)),
    snd (Manifest.parseManifestForLayouts localeCompare fetch (manifestUrlToLoad s))
    = Return (first :: rest) ->
    isPlayerReady s = true -> playerRef s = true ->
    Manifest.name first <> EmptyString ->
    currentLayoutRef s <> Some (Manifest.name first) ->
    Forall (fun t => (timerId t < nextTimerId s)%nat) (timers s) ->
    exists p,
      timers (loadManifest localeCompare fetch s)
      = timers s ++ [{| timerId := nextTimerId s; due := (now s + 100)%Z;
                        callback := AutoLoad first true |}] /\
      snd (layoutEffect (loadManifest localeCompare fetch s)) = Some p /\
      LayoutsApp.loading p = Manifest.name first /\
      engineCalls
        (fireTimer (nextTimerId s)
           (settled p outcome (fst (layoutEffect (loadManifest localeCompare fetch s)))))
      = engineCalls s ++ [LayoutsApp.CallLoad (Manifest.masterUrl first);
                          LayoutsApp.CallLoad (Manifest.masterUrl first)].
Proof.
  intros localeCompare fetch s first rest outcome Hparsed Hready Hplayer Hne Href Hfresh.
  destruct (loadManifest_found localeCompare fetch s first rest Hparsed)
    as [Hl [Hsel [_ [_ [Hready1 [Hplayer1 [Href1 [Hcalls1 [Htimers1 Hnext1]]]]]]]]].
  rewrite Hready in *. rewrite Hplayer in *.
  remember (loadManifest localeCompare fetch s) as s1 eqn:E1. clear E1.
  destruct (load_layoutEffect_first s1 first rest Hl Hsel Hne Hready1 Hplayer1)
    as [p [Hp [Hloading [Hcalls2 [Htimers2 [Hnext2 [Hplayer2 _]]]]]]].
  { rewrite Href1. exact Href. }
  exists p. split; [exact Htimers1|]. split; [exact Hp|]. split; [exact Hloading|].
  remember (fst (layoutEffect s1)) as s2 eqn:E2. clear E2.
  destruct (settled_frame p outcome s2) as [Hcalls3 [Hplayer3 [later [Htimers3 Hlater]]]].
  remember (settled p outcome s2) as s3 eqn:E3. clear E3.
  unfold fireTimer. rewrite Htimers3, Htimers2, Htimers1, <- app_assoc. cbn [app].
  rewrite (find_fresh_timer (timers s) later (nextTimerId s) (now s + 100)%Z
             (AutoLoad first true) Hfresh).
  cbn [callback runCallback]. unfold autoLoad.
  cbn [playerRef set_timers]. rewrite Hplayer3, Hplayer2. cbn [andb].
  cbn [engineCalls callEngine set_engineCalls addLog set_playerLogs set_timers].
  rewrite Hcalls3, Hcalls2, Hcalls1, <- app_assoc. reflexivity.
Qed.

Lemma first_layout_witness :
  exists p,
    timers (loadManifest letterCollation
              (Manifest.serve true 200 Manifest.studioManifest) freshSession)
    = timers freshSession
      ++ [{| timerId := nextTimerId freshSession; due := (now freshSession + 100)%Z;
             callback := AutoLoad Manifest.studioLayout true |}] /\
    snd (layoutEffect (loadManifest letterCollation
                         (Manifest.serve true 200 Manifest.studioManifest) freshSession))
    = Some p /\
    LayoutsApp.loading p = Manifest.name Manifest.studioLayout /\
    engineCalls
      (fireTimer (nextTimerId freshSession)
         (settled p None
            (fst (layoutEffect
                    (loadManifest letterCollation
                       (Manifest.serve true 200 Manifest.studioManifest) freshSession)))))
    = engineCalls freshSession
      ++ [LayoutsApp.CallLoad (Manifest.masterUrl Manifest.studioLayout);
          LayoutsApp.CallLoad (Manifest.masterUrl Manifest.studioLayout)].
Proof.
  apply (first_layout_is_loaded_twice letterCollation
           (Manifest.serve true 200 Manifest.studioManifest) freshSession
           Manifest.studioLayout [] None).
  - vm_compute. reflexivity.
  - reflexivity.
  - reflexivity.
  - vm_compute. discriminate.
  - discriminate.
  - constructor.
Defined.

(** X27.  When the parser fails or finds no layout - which is what the
    body of an error response gives - the load ends with an empty list of
    layouts, no selection and an error message, and nothing is asked of the
    engine: no load, no timer, the loaded-layout ref unchanged.  The layout
    effect then does nothing, so what was playing keeps playing while no
    layout can be selected. *)
Theorem failed_manifest_load_leaves_the_engine_alone :
  forall (localeCompare : string -> string -> Z) (fetch : string -> fetchOutcome)
         (s : session),
    (forall first rest,
       snd (Manifest.parseManifestForLayouts localeCompare fetch (manifestUrlToLoad s))
       <> Return (first :: rest)) ->
    layouts (loadManifest localeCompare fetch s) = [] /\
    selectedLayout (loadManifest localeCompare fetch s) = EmptyString /\
    isLoading (loadManifest localeCompare fetch s) = false /\
    error (loadManifest localeCompare fetch s)
    = Some match snd (Manifest.parseManifestForLayouts localeCompare fetch
                        (manifestUrlToLoad s)) with
           | Throw e => ErrLoadingManifest e
           | Return _ => ErrNoLayouts
           end /\
    currentLayoutRef (loadManifest localeCompare fetch s) = currentLayoutRef s /\
    engineCalls (loadManifest localeCompare fetch s) = engineCalls s /\
    timers (loadManifest localeCompare fetch s) = timers s /\
    layoutEffect (loadManifest localeCompare fetch s)
    = (loadManifest localeCompare fetch s, None).
Proof.
  intros localeCompare fetch s Hnone.
  destruct (loadManifest_not_found localeCompare fetch s Hnone)
    as [H1 [H2 [H3 [H4 [H5 [H6 H7]]]]]].
  repeat (split; [assumption|]).
  apply load_layoutEffect_unselected, H2.
Qed.

Lemma failed_manifest_load_witness :
  error (loadManifest letterCollation (Manifest.serve false 404 "Not Found") freshSession)
  = Some match snd (Manifest.parseManifestForLayouts letterCollation
                      (Manifest.serve false 404 "Not Found")
                      (manifestUrlToLoad freshSession)) with
         | Throw e => ErrLoadingManifest e
         | Return _ => ErrNoLayouts
         end /\
  engineCalls (loadManifest letterCollation (Manifest.serve false 404 "Not Found")
                 freshSession) = engineCalls freshSession.
Proof.
  destruct (failed_manifest_load_leaves_the_engine_alone letterCollation
              (Manifest.serve false 404 "Not Found") freshSession
              ltac:(intros first rest; vm_compute; discriminate))
    as [_ [_ [_ [H4 [_ [H6 _]]]]]].
  split; [exact H4 | exact H6].
Defined.

End LayoutsLoadFacts.
